(* ===== verification/_CoqProject ===== *)
-Q . S2P
Prelude.v
Json.v
Postgres.v
Amqp.v
Queueing.v
Programs.v
Effects.v
Retry.v
Worker.v
Api.v
Lifecycle.v
Settle.v
Transactions.v
Delivery.v
System.v
Processing.v
RateLimiter.v
Http.v
Poller.v
Sample.v
Safety.v
Handling.v
Services.v
Dispatch.v
Endpoints.v
Limits.v
Notifications.v
Polling.v
Migrate.v
Connection.v
Listening.v
ApiConnection.v
Client.v
Page.v
Wire.v
Dashboard.v
LiveFeed.v
Showing.v
Operator.v
Pipeline.v
Progress.v
Journey.v
Completion.v
Scripts.v
Chaos.v
Checks.v
Evidence.v
Config.v
App.v
Proxy.v
Reading.v
Startup.v
