(* ===== verification/Prelude.v ===== *)
(** * DeadLetter: a verification development

    DeadLetter is a job queue with failure recovery.  Clients post jobs to an
    HTTP API, which stores each job and an outbox event in one transaction; a
    dispatcher publishes the pending events to RabbitMQ; workers take the
    messages, claim the job with a conditional UPDATE, execute it, and record
    it as completed, due for a retry (a message with a TTL that comes back to
    the main queue), or dead-lettered; an operator may replay a dead-lettered
    job; a dashboard is told of every change.  All processes share one
    PostgreSQL database and one RabbitMQ broker.  This library models the API,
    the worker and the dashboard as they are written and proves what they
    promise.

    ** How the code is translated

    An [async] function is a [prog] (Programs.v): a tree with one node per effect,
    whose continuation gets the value or the thrown error; [await], [throw],
    [try/catch] and [try/finally] are functions on trees.  A class [Semantics]
    gives the effects their meaning on a state, under what the environment
    decides at each (the clock, a new uuid, locked rows, the order of unordered
    rows, whether a publication is accepted and stored, whether the effect fails,
    before or after being carried out); [run] executes one program, [wp] is the
    weakest-precondition logic, and both are shared by the services (Effects.v:
    the two tables, an open transaction, the broker, the unsettled deliveries)
    and by the migration runner (Migrate.v).  System.v runs any number of
    programs of the services at once, one effect at a time.

    Where the code keeps state between events (the cached channel, the poller,
    the dashboard's components and its WebSocket), the state is a record, each
    stretch of code between two [await]s is one function on it, and a step
    relation lets answers, failures and events come in any order.

    ** Files, and the code they model (paths under apps/)

    - Prelude: results, thrown values, generic list lemmas.
    - Json: [JSON.stringify] and [JSON.parse], which the messages go through, with
      their round trip.
    - Postgres: the rows (infra/migrations) and every SQL statement of both
      services, as functions on the tables.
    - Amqp: names and topology (worker/src/queue/connection.ts,
      api/src/queue/connection.ts); RabbitMQ as the class [Broker], and an
      implementation of it, [Queues].  Queueing: a broker that also hands out what
      it holds and lets TTLs expire, the class [Serving].
    - Programs: programs, their execution and logics, for any effects.
    - Effects: the effects of the services.
    - Retry: worker/src/retry, the delay before a requeue.
    - Worker: worker/src/services/jobService.ts, processors, retryPublisher.ts and
      the handler of consumer.ts ([on_message], its [try] blocks as definitions).
    - Api: api/src/db/withTransaction.ts, services, outbox, publisher.ts.
    - RateLimiter: api/src/middleware/rateLimiter.ts over the class [Number], with
      IEEE doubles ([Double.doubles]) and exact rationals ([exact]).
    - Http: auth.ts, backpressure.ts, validation, routes, app.ts (CORS and errors),
      the production check of env.ts.  Config: config/env.ts of both services.
      App: app.ts, from a request to its route.  Startup: index.ts of both services,
      health.ts, and the timer of the outbox dispatcher.
    - Poller: db/changeDetector.ts, one tick of ws/changePoller.ts,
      ws/broadcaster.ts with the text that it sends.  Polling: the poller as a
      process, whose ticks overlap each other and the commits of others.
    - Migrate: api/src/scripts/migrate.ts.
    - Connection: getChannel, invalidate and closeConnection of
      queue/connection.ts with subscribe and resubscribeWithBackoff of consumer.ts;
      Listening: whether the worker listens.  ApiConnection: the API's
      queue/connection.ts.
    - Client, Page, Dashboard, LiveFeed: the dashboard (apps/dashboard/src): its
      requests, key and replay; what the components render; the state of App.tsx;
      ws/useJobEvents.ts.  Wire: the JSON that the routes answer.  Showing, Operator
      and Reading: what it shows, and its way to the API and back.  Proxy: [trust
      proxy] of app.ts behind the dashboard's nginx.conf.template.
    - Scripts: the effects of the operational scripts and a logic for their
      traces.  Chaos: api/scripts/verify-chaos.js.  Checks: verify-ws.js and
      verify-latency.js.  Evidence: the first two against the API as it is modelled.
    - Dispatch, Pipeline: a batch of the dispatcher; its ticks, and the way of a job
      from the API's answer through outbox and broker to the worker.  Progress: from
      any state of the system, what is left for a waiting job.  Journey: the rounds
      of a failing job through the retry queue.  Completion: the end of every job
      that waits.
    - Lifecycle, Settle, Transactions, Delivery, System, Processing: the
      invariants, logics and specifications, described in each file.
    - Sample: concrete instances of the interfaces, and concrete states.

    ** What the theorems show

    - Safety (C-numbers in the files): in every reachable state of the whole
      system, under crashes, outages and lost channels, a queued job is in
      flight, a retrying job too as long as no channel is lost under a running
      handler, the rows are well formed, jobs follow their state machine, and
      nothing of a job's history or of an outbox event is lost.
    - Handling: the message handler settles its delivery exactly once whatever
      fails, and when nothing fails refines the abstract specification of
      Processing.v; duplicates are ignored; retries and dead letters follow the
      policy; message bodies round-trip.
    - Services and Dispatch: creation and replay are all or nothing; claims of
      jobs (between two of them an outcome is recorded), of replays and of outbox
      events are exclusive; a batch publishes and
      marks, or releases, exactly what it claimed.
    - Pipeline: ticks of the dispatcher empty the outbox, however long it is; a job
      that was created or replayed reaches the worker and is processed.  Progress: no
      waiting job is ever out of reach, whatever happened before; Completion: from
      there it can always be finished, with all others left as they are.  Journey: a job
      that fails every time comes back after each TTL, and ends in the dead-letter
      queue with all its attempts recorded.
    - App, Config: a production API has its key, and no request without it changes
      anything.  Startup: each process shuts down once, with the right exit code.
    - Chaos, Checks: the scripts end, a pass of verify-chaos.js or verify-ws.js is
      evidence of what it claims, no service is left stopped, and the
      percentiles of verify-latency.js are the nearest-rank ones.  Evidence: against
      the API as it is written, a pass is true of its checks and of the tables.
    - Endpoints, Limits: who gets through the two POST routes, what the tables
      hold after each answer, what the limiter admits (exactly what the generic
      cell rate algorithm admits).  Proxy: behind one proxy each client is limited
      alone, whatever headers it sends; with none, or two, it is not.
    - Listening, ApiConnection: one resubscription loop at most; the queue stays
      attended; the channel that a publication gets is open.
    - Migrate: a run applies files in order, each with its row, or stops with 1.
    - Polling, Notifications, LiveFeed, Showing: no change is missed by the poller
      as long as no transaction stays open; each reaches every open dashboard and
      makes it ask again; the feed reconnects; the details shown are those of the
      selected job as long as the operator waits for answers.
    - Operator: what a click on Replay tells the operator is true.  Reading: the
      details and the list that the dashboard reads are the rows.
    - Theorems that show behaviour that the comments and documents of the
      repository do not expect: a job stranded in PROCESSING; a dead letter that
      is lost; a job that is forgotten because a message was accepted and never
      stored; a worker that listens no more; an event that another one overtakes; an API that keeps a closed channel
      for good; the body [null] that is never settled; a change that is never
      reported, because its transaction began before and ended after a tick;
      changes that are reported again; a late answer that replaces the details of
      the selected job; an operator whose browser refuses sessionStorage; a
      Retry-After that is too short; a malformed body that is answered 500; a
      client that names itself when it reaches the API without the proxy.

    ** Assumptions, bounds and fuel

    PostgreSQL's client and its uuid type are the class [Pg], zod is [Zod] and, for
    environment variables, [EnvZod], the broker is [Broker]; their laws state
    documented behaviour, and Sample.v and [Queues] satisfy them.  [Serving] adds
    to [Broker] that messages are handed out and that TTLs expire, for
    Completion.v; [Proxies] is what Express and nginx do with X-Forwarded-For.

    A transaction is left open by whatever does not end it: giving the client back
    does nothing to it, and a ROLLBACK fails only with its connection, whose
    transaction PostgreSQL then undoes (Effects.v).  [channel.publish] that returns
    [false] has a full buffer and still sends ([ch_published], [ch_stored]); one
    that returns [true] promises no more, as the code uses no publisher confirms.
    The steps of System.v have a flag [reliable] for it: the theorems about the
    system assume that what was accepted is stored, and Safety.v has a run without
    it in which a job is forgotten.  In Migrate.v other runners act before
    pg_advisory_lock is granted and not after: that PostgreSQL's lock excludes them
    is assumed.

    INT columns overflow at 2^31 - 1 as an error.  [JSON_parse] has fuel twice the
    length of its text ([parse_fuel]), which the round trip shows to be enough
    for every text that [stringify] makes; programs need no fuel, a [prog] is
    finite.  A transaction of the API is one step of the system: its statements
    touch rows that no other process sees before COMMIT (the new job) or that a
    row lock protects (the replayed one).  In Polling.v a commit may make rows
    visible that are older than rows seen before, unless [prompt].  In Connection.v
    the flags [gaps], [overlap] and [cancels] say whether a channel may close between
    an answer and the code that follows it, whether a publisher may connect on its
    own, and whether the broker may cancel a consumer; the good properties are
    proved without any.  In Dashboard.v a message of the feed sets the event and a
    later step renders it, perhaps with others before it.  The dashboard's numbers and dates
    are rendered by parameters where they depend on the locale.  In Pipeline.v
    nothing fails after the job was created and batches do not overlap; one tick
    for every ten unpublished events is enough.  The loops of the scripts have
    fuel: more turns than their timeout has pauses are never taken when time does
    not go back ([clock_runs], [enough]), which Chaos.v and Checks.v prove; a
    timeout is a whole number of milliseconds or not a number at all.  The
    indices of the percentiles are computed with doubles, for up to 200 samples.

    ** What is not modelled

    Logging and console output, pools, Express (its matching of paths beyond their
    segments, compression, the headers of the package cors), React's
    reconciliation and WebSocket plumbing: they hold no state that the properties
    depend on, and a process that exits appears as a crash at any moment
    (System.v).  Of nginx only the X-Forwarded-For header is modelled.  A payload
    comes out of its JSONB column as it was put in: that jsonb has an order of
    members of its own and keeps the last of equal ones is left out.  System.v
    abstracts Connection.v: channels get lost and come back;
    Connection.v has closeConnection with the steps of getChannel, Startup.v only
    when it is called and what follows.  The load tests (tests/load) are scripts
    for k6, with its scheduler.
    markFailed of the worker and countPendingOutboxEvents are modelled though no
    caller uses them. *)
From stdpp Require Export base gmap strings list fin_maps sorting.
From Stdlib Require Export ZArith QArith Qminmax Qpower Qround Lia Lqa.

#[global] Open Scope Z_scope.
#[export] Set Default Goal Selector "1".

(** ** Results of a JavaScript call: a value or a thrown error. *)

Inductive res (E A : Type) : Type :=
| Ok (a : A)
| Err (e : E).
Arguments Ok {E A} a.
Arguments Err {E A} e.

Definition is_ok {E A} (r : res E A) : bool :=
  match r with Ok _ => true | Err _ => false end.

(** ** Thrown JavaScript values.

    [JsErr] is an [Error] instance, with the class the code tests with
    [instanceof]; [JsThrown] is any other thrown value, given by the text
    [String(v)] makes of it. *)

Inductive err_class := CError | CNonRetryable | CAggregate.

Inductive js_err : Type :=
| JsErr (cls : err_class) (name message : string) (code : option string)
        (errors : list js_err)
| JsThrown (text : string).

#[export] Instance err_class_eq_dec : EqDecision err_class.
Proof. solve_decision. Defined.

(** [new Error(message)] *)
Definition mk_error (message : string) : js_err :=
  JsErr CError "Error" message None [].

Definition mk_pg_error (code message : string) : js_err :=
  JsErr CError "error" message (Some code) [].

(** [String(err)]: [Error.prototype.toString] for errors. *)
Definition js_err_String (e : js_err) : string :=
  match e with
  | JsErr _ name message _ _ =>
      if String.eqb name "" then message
      else if String.eqb message "" then name
      else (name ++ ": " ++ message)%string
  | JsThrown text => text
  end.

(** ** Automation *)

(** What the statements keep of the tables: filled by [Lifecycle]. *)
Create HintDb tables.

(** ** Sorted selections: [ORDER BY R LIMIT n] *)

Section limit.
Context {A : Type} (R : relation A) `{forall x y, Decision (R x y), !Total R, !Transitive R}.
Implicit Types l : list A.

Lemma StronglySorted_take n l : StronglySorted R l -> StronglySorted R (take n l).
Proof.
  intros Hs. revert n. induction Hs as [|x l Hl IH Hx]; intros [|n]; simpl; constructor; auto.
  rewrite Forall_forall in Hx |- *. intros y Hy. apply Hx.
  apply elem_of_take in Hy as (i & Hi & _). by eapply list_elem_of_lookup_2.
Qed.

(** What is left out comes after what is selected. *)
Lemma limit_first n l x y :
  x ∈ l -> x ∉ take n (merge_sort R l) -> y ∈ take n (merge_sort R l) -> R y x.
Proof.
  intros Hx Hnot Hy. rewrite <- (merge_sort_Permutation R l) in Hx.
  pose proof (StronglySorted_merge_sort R l) as Hs.
  rewrite <- (take_drop n (merge_sort R l)) in Hx, Hs.
  apply elem_of_app in Hx as [?|Hd]; [done|].
  by apply (StronglySorted_app_1_elem_of R _ _ y x Hs).
Qed.

(** Something is left out only when the selection is full. *)
Lemma limit_full n l x :
  x ∈ l -> x ∉ take n (merge_sort R l) -> List.length (take n (merge_sort R l)) = n.
Proof.
  intros Hx Hnot. rewrite <- (merge_sort_Permutation R l) in Hx.
  rewrite <- (take_drop n (merge_sort R l)) in Hx.
  apply elem_of_app in Hx as [?|(i & Hi)%list_elem_of_lookup_1]; [done|].
  rewrite lookup_drop in Hi. apply lookup_lt_Some in Hi. rewrite length_take. lia.
Qed.
End limit.
