(* ===== verification/Json.v ===== *)
(** * JSON text: [JSON.stringify] and [JSON.parse]

    The messages of the queues and the dashboard's WebSocket events are JSON
    texts: [JSON.stringify({ jobId })] on the publishing side
    (apps/api/src/queue/publisher.ts, apps/worker/src/queue/retryPublisher.ts)
    and [JSON.parse(msg.content.toString())] on the consuming side
    (apps/worker/src/consumer.ts).  Both are functions of the language; they
    are written out here as the code uses them, with the round trip between
    them.

    A JavaScript string is kept as its UTF-8 text; a number as its source text
    (no code under src/ computes with a number it parses); the members of an
    object in textual order, the last occurrence of a key being its value. *)
From Stdlib Require Import Ascii.
From S2P Require Import Prelude.
#[local] Open Scope string_scope.
#[local] Arguments String.append : simpl nomatch.

Inductive json : Type :=
| JNull
| JBool (b : bool)
| JNum (text : string)
| JStr (s : string)
| JArr (l : list json)
| JObj (members : list (string * json)).

(** [v?.key] for an own data property: [undefined] is [None]. *)
Definition get_prop (key : string) (v : json) : option json :=
  match v with
  | JObj members =>
      fold_left (fun acc m => if String.eqb m.1 key then Some m.2 else acc) members None
  | _ => None
  end.

(** ** Characters *)

Definition code (c : ascii) : N := N_of_ascii c.
Definition chr (n : N) : ascii := ascii_of_N n.
Definition one (n : N) : string := String (chr n) EmptyString.

Definition DQUOTE : ascii := chr 34.
Definition BACKSLASH : ascii := chr 92.

Definition hex_digit (n : N) : ascii :=
  if (n <? 10)%N then chr (48 + n) else chr (87 + n).

Definition hex_value (c : ascii) : option N :=
  let n := code c in
  if ((48 <=? n) && (n <=? 57))%N then Some (n - 48)%N
  else if ((97 <=? n) && (n <=? 102))%N then Some (n - 87)%N
  else if ((65 <=? n) && (n <=? 70))%N then Some (n - 55)%N
  else None.

(** ** [JSON.stringify] *)

Definition escape_char (c : ascii) : string :=
  let n := code c in
  if (n =? 34)%N then String BACKSLASH (one 34)
  else if (n =? 92)%N then String BACKSLASH (one 92)
  else if (n =? 8)%N then String BACKSLASH "b"
  else if (n =? 12)%N then String BACKSLASH "f"
  else if (n =? 10)%N then String BACKSLASH "n"
  else if (n =? 13)%N then String BACKSLASH "r"
  else if (n =? 9)%N then String BACKSLASH "t"
  else if (n <? 32)%N then
    String BACKSLASH (String (chr 117) (String (chr 48) (String (chr 48)
      (String (hex_digit (n / 16)) (String (hex_digit (n mod 16)) EmptyString)))))
  else String c EmptyString.

Fixpoint escape (s : string) : string :=
  match s with
  | EmptyString => EmptyString
  | String c r => escape_char c ++ escape r
  end.

Definition quote (s : string) : string :=
  String DQUOTE (escape s ++ one 34).

Fixpoint stringify (v : json) : string :=
  match v with
  | JNull => "null"
  | JBool b => if b then "true" else "false"
  | JNum text => text
  | JStr s => quote s
  | JArr l =>
      match l with
      | [] => "[]"
      | x :: r =>
          "[" ++ stringify x
          ++ (fix elems (l : list json) : string :=
                match l with
                | [] => "]"
                | y :: r => "," ++ stringify y ++ elems r
                end) r
      end
  | JObj l =>
      match l with
      | [] => "{}"
      | m :: r =>
          "{" ++ quote m.1 ++ ":" ++ stringify m.2
          ++ (fix members (l : list (string * json)) : string :=
                match l with
                | [] => "}"
                | m :: r => "," ++ quote m.1 ++ ":" ++ stringify m.2 ++ members r
                end) r
      end
  end.

(** ** [JSON.parse] *)

Definition is_ws (c : ascii) : bool :=
  let n := code c in ((n =? 32) || (n =? 9) || (n =? 10) || (n =? 13))%N.

Fixpoint skip_ws (s : string) : string :=
  match s with
  | String c r => if is_ws c then skip_ws r else s
  | EmptyString => EmptyString
  end.

Definition is_digit (c : ascii) : bool :=
  let n := code c in ((48 <=? n) && (n <=? 57))%N.

(** The characters a number token may hold: digits, [+], [-], [.], [e], [E]. *)
Definition is_num_char (c : ascii) : bool :=
  let n := code c in
  (is_digit c || (n =? 43) || (n =? 45) || (n =? 46) || (n =? 101) || (n =? 69))%N.

Fixpoint span (p : ascii -> bool) (s : string) : string * string :=
  match s with
  | String c r =>
      if p c then let '(a, b) := span p r in (String c a, b) else (EmptyString, s)
  | EmptyString => (EmptyString, EmptyString)
  end.

Definition nonempty (s : string) : bool :=
  match s with EmptyString => false | _ => true end.

(** An exponent, or nothing *)
Definition valid_exp (s : string) : bool :=
  match s with
  | EmptyString => true
  | String c r =>
      ((code c =? 101) || (code c =? 69))%N &&
      let r' := match r with
                | String d r' => if ((code d =? 43) || (code d =? 45))%N then r' else r
                | EmptyString => r
                end in
      nonempty r' && negb (nonempty (span is_digit r').2)
  end.

(** The fraction, a dot and digits, if any, and the exponent *)
Definition valid_frac (s : string) : bool :=
  match s with
  | String c r =>
      if (code c =? 46)%N then
        let '(ds, r') := span is_digit r in nonempty ds && valid_exp r'
      else valid_exp s
  | EmptyString => true
  end.

(** An optional minus sign, [0] or digits not starting with 0, and the rest *)
Definition valid_number (s : string) : bool :=
  let s := match s with
           | String c r => if (code c =? 45)%N then r else s
           | EmptyString => s
           end in
  match s with
  | String c r =>
      if (code c =? 48)%N then valid_frac r
      else is_digit c && valid_frac (span is_digit r).2
  | EmptyString => false
  end.

(** A string literal is read into literal bytes and [\u] code units. *)
Inductive unit16 := Lit (c : ascii) | Esc (n : N).

Definition simple_escape (c : ascii) : option ascii :=
  let n := code c in
  if (n =? 34)%N then Some (chr 34)
  else if (n =? 92)%N then Some (chr 92)
  else if (n =? 47)%N then Some (chr 47)
  else if (n =? 98)%N then Some (chr 8)
  else if (n =? 102)%N then Some (chr 12)
  else if (n =? 110)%N then Some (chr 10)
  else if (n =? 114)%N then Some (chr 13)
  else if (n =? 116)%N then Some (chr 9)
  else None.

Definition hex4 (a b c d : ascii) : option N :=
  match hex_value a, hex_value b, hex_value c, hex_value d with
  | Some x, Some y, Some z, Some w => Some (((x * 16 + y) * 16 + z) * 16 + w)%N
  | _, _, _, _ => None
  end.

Fixpoint parse_chars (s : string) : option (list unit16 * string) :=
  match s with
  | EmptyString => None
  | String c r =>
      if (code c =? 34)%N then Some ([], r)
      else if (code c =? 92)%N then
        match r with
        | String e r' =>
            match simple_escape e with
            | Some a => '(l, z) ← parse_chars r'; Some (Lit a :: l, z)
            | None =>
                if (code e =? 117)%N then
                  match r' with
                  | String h1 (String h2 (String h3 (String h4 r''))) =>
                      n ← hex4 h1 h2 h3 h4;
                      '(l, z) ← parse_chars r''; Some (Esc n :: l, z)
                  | _ => None
                  end
                else None
            end
        | EmptyString => None
        end
      else if (code c <? 32)%N then None
      else '(l, z) ← parse_chars r; Some (Lit c :: l, z)
  end.

Definition utf8 (n : N) : string :=
  if (n <? 128)%N then one n
  else if (n <? 2048)%N then one (192 + n / 64) ++ one (128 + n mod 64)
  else if (n <? 65536)%N then
    one (224 + n / 4096) ++ one (128 + (n / 64) mod 64) ++ one (128 + n mod 64)
  else one (240 + n / 262144) ++ one (128 + (n / 4096) mod 64)
       ++ one (128 + (n / 64) mod 64) ++ one (128 + n mod 64).

Definition is_high (n : N) : bool := ((55296 <=? n) && (n <=? 56319))%N.
Definition is_low (n : N) : bool := ((56320 <=? n) && (n <=? 57343))%N.

(** Code units to text: a surrogate pair is one code point. *)
Fixpoint units_text (l : list unit16) : string :=
  match l with
  | [] => EmptyString
  | Lit c :: r => String c (units_text r)
  | Esc n :: r =>
      match r with
      | Esc m :: r' =>
          if is_high n && is_low m
          then utf8 (65536 + (n - 55296) * 1024 + (m - 56320)) ++ units_text r'
          else utf8 n ++ units_text r
      | _ => utf8 n ++ units_text r
      end
  end.

(** The rest of a string literal whose opening quote is consumed. *)
Definition parse_string (s : string) : option (string * string) :=
  '(l, r) ← parse_chars s; Some (units_text l, r).

(** The text after a literal such as [true]. *)
Fixpoint strip (p s : string) : option string :=
  match p, s with
  | EmptyString, _ => Some s
  | String a p, String b s => if Ascii.eqb a b then strip p s else None
  | String _ _, EmptyString => None
  end.

Fixpoint parse_value (fuel : nat) (s : string) {struct fuel} : option (json * string) :=
  match fuel with
  | O => None
  | S fuel =>
      match skip_ws s with
      | EmptyString => None
      | String c r =>
          if (code c =? 123)%N then                          (* { *)
            match skip_ws r with
            | String d r' =>
                if (code d =? 125)%N then Some (JObj [], r')
                else '(l, z) ← parse_members fuel r; Some (JObj l, z)
            | EmptyString => None
            end
          else if (code c =? 91)%N then                      (* [ *)
            match skip_ws r with
            | String d r' =>
                if (code d =? 93)%N then Some (JArr [], r')
                else '(l, z) ← parse_elems fuel r; Some (JArr l, z)
            | EmptyString => None
            end
          else if (code c =? 34)%N then
            '(t, z) ← parse_string r; Some (JStr t, z)
          else match strip "true" (String c r), strip "false" (String c r),
                     strip "null" (String c r) with
          | Some z, _, _ => Some (JBool true, z)
          | _, Some z, _ => Some (JBool false, z)
          | _, _, Some z => Some (JNull, z)
          | None, None, None =>
              let '(t, z) := span is_num_char (String c r) in
              if valid_number t then Some (JNum t, z) else None
          end
      end
  end
with parse_elems (fuel : nat) (s : string) {struct fuel} : option (list json * string) :=
  match fuel with
  | O => None
  | S fuel =>
      '(v, r) ← parse_value fuel s;
      match skip_ws r with
      | String c r' =>
          if (code c =? 44)%N then '(l, z) ← parse_elems fuel r'; Some (v :: l, z)
          else if (code c =? 93)%N then Some ([v], r')
          else None
      | EmptyString => None
      end
  end
with parse_members (fuel : nat) (s : string) {struct fuel} : option (list (string * json) * string) :=
  match fuel with
  | O => None
  | S fuel =>
      match skip_ws s with
      | String c r =>
          if (code c =? 34)%N then
            '(k, r) ← parse_string r;
            match skip_ws r with
            | String c r =>
                if (code c =? 58)%N then
                  '(v, r) ← parse_value fuel r;
                  match skip_ws r with
                  | String c r' =>
                      if (code c =? 44)%N
                      then '(l, z) ← parse_members fuel r'; Some ((k, v) :: l, z)
                      else if (code c =? 125)%N then Some ([(k, v)], r')
                      else None
                  | EmptyString => None
                  end
                else None
            | EmptyString => None
            end
          else None
      | EmptyString => None
      end
  end.

(** Every nested call consumes a character, or is the one [parse_value] under
    a [parse_elems]: twice the length is enough fuel. *)
Definition parse_fuel (s : string) : nat := S (2 * String.length s).

(** [JSON.parse(s)]; [None] is the [SyntaxError]. *)
Definition JSON_parse (s : string) : option json :=
  '(v, r) ← parse_value (parse_fuel s) s;
  match skip_ws r with EmptyString => Some v | _ => None end.

(** ** The round trip *)

(** A number text [JSON.stringify] can print. *)
Definition num_text (t : string) : bool :=
  valid_number t && negb (nonempty (span is_num_char t).2).

Fixpoint wf_json (v : json) : bool :=
  match v with
  | JNum t => num_text t
  | JArr l => forallb wf_json l
  | JObj l => forallb (fun m => wf_json m.2) l
  | _ => true
  end.

Section json_induction.
Variable P : json -> Prop.
Hypothesis HNull : P JNull.
Hypothesis HBool : forall b, P (JBool b).
Hypothesis HNum : forall t, P (JNum t).
Hypothesis HStr : forall s, P (JStr s).
Hypothesis HArr : forall l, Forall P l -> P (JArr l).
Hypothesis HObj : forall l, Forall (fun m => P m.2) l -> P (JObj l).

Fixpoint json_nested_ind (v : json) : P v :=
  match v with
  | JNull => HNull
  | JBool b => HBool b
  | JNum t => HNum t
  | JStr s => HStr s
  | JArr l => HArr l ((fix go l : Forall P l :=
      match l with
      | [] => Forall_nil_2 _
      | x :: r => Forall_cons_2 _ _ _ (json_nested_ind x) (go r)
      end) l)
  | JObj l => HObj l ((fix go l : Forall (fun m => P m.2) l :=
      match l with
      | [] => Forall_nil_2 _
      | m :: r => Forall_cons_2 _ _ _ (json_nested_ind m.2) (go r)
      end) l)
  end.
End json_induction.

Lemma append_assoc (a b c : string) : (a ++ b) ++ c = a ++ (b ++ c).
Proof. induction a as [|x a IH]; simpl; [done|]. by rewrite IH. Qed.

Lemma append_nil_r (a : string) : a ++ "" = a.
Proof. induction a as [|x a IH]; simpl; [done|]. by rewrite IH. Qed.

Lemma length_append (a b : string) :
  String.length (a ++ b) = (String.length a + String.length b)%nat.
Proof. induction a as [|x a IH]; simpl; [done|]. by rewrite IH. Qed.

Definition elems_text (l : list json) : string :=
  foldr (fun y a => "," ++ stringify y ++ a) "]" l.

Definition member_text (m : string * json) : string :=
  quote m.1 ++ ":" ++ stringify m.2.

Definition members_text (l : list (string * json)) : string :=
  foldr (fun m a => "," ++ member_text m ++ a) "}" l.

Lemma stringify_arr x r :
  stringify (JArr (x :: r)) = String (chr 91) (stringify x ++ elems_text r).
Proof. reflexivity. Qed.

Lemma stringify_obj m r :
  stringify (JObj (m :: r)) = String (chr 123) (member_text m ++ members_text r).
Proof.
  enough (forall l, (fix members (l : list (string * json)) : string :=
                match l with
                | [] => "}"
                | m :: r => "," ++ quote m.1 ++ ":" ++ stringify m.2 ++ members r
                end) l = members_text l) as He.
  { unfold member_text. rewrite !append_assoc, <- He. reflexivity. }
  intros l. induction l as [|n l IH]; [done|]. rewrite IH.
  simpl. unfold member_text. by rewrite !append_assoc.
Qed.

(** One character of a literal: [JSON.stringify]'s escape is read back. *)
Lemma parse_escape_char c z l rest :
  parse_chars z = Some (l, rest) ->
  exists u, parse_chars (escape_char c ++ z) = Some (u :: l, rest)
            /\ units_text (u :: l) = String c (units_text l).
Proof.
  intros Hz.
  destruct c as [[] [] [] [] [] [] [] []]; simpl; rewrite Hz; simpl;
    eexists; (split; [reflexivity|]); try reflexivity; by destruct l as [|[]].
Qed.

Lemma parse_escape s rest :
  exists l, parse_chars (escape s ++ String DQUOTE rest) = Some (l, rest)
            /\ units_text l = s.
Proof.
  induction s as [|c s (l & Hl & Ht)]; [by exists []|].
  simpl. rewrite append_assoc.
  destruct (parse_escape_char c _ _ _ Hl) as (u & Hp & Hu).
  exists (u :: l). split; [exact Hp|]. by rewrite Hu, Ht.
Qed.

Lemma parse_string_quote s rest :
  parse_string (escape s ++ one 34 ++ rest) = Some (s, rest).
Proof.
  unfold parse_string. destruct (parse_escape s rest) as (l & Hl & Ht).
  change (one 34 ++ rest) with (String DQUOTE rest). rewrite Hl. simpl. by rewrite Ht.
Qed.

(** Literals and numbers. *)
Lemma strip_append p s : strip p (p ++ s) = Some s.
Proof. induction p as [|c p IH]; simpl; [done|]. by rewrite Ascii.eqb_refl. Qed.

Lemma skip_ws_nonws c s : is_ws c = false -> skip_ws (String c s) = String c s.
Proof. simpl. by intros ->. Qed.

(** What may follow a number text. *)
Definition delimited (rest : string) : Prop :=
  match rest with EmptyString => True | String c _ => is_num_char c = false end.

Lemma span_delimited t rest :
  nonempty (span is_num_char t).2 = false -> delimited rest ->
  span is_num_char (t ++ rest) = (t, rest).
Proof.
  intros Ht Hr. induction t as [|c t IH]; simpl in *.
  - destruct rest as [|c r]; simpl in *; [done|]. by rewrite Hr.
  - destruct (is_num_char c); [|done].
    destruct (span is_num_char t) as [a b]. simpl in *. by rewrite (IH Ht).
Qed.

(** A number text starts with a character that starts nothing else. *)
Lemma num_text_head t :
  num_text t = true ->
  exists c r, t = String c r /\ is_num_char c = true.
Proof.
  unfold num_text. destruct t as [|c r]; simpl; [done|]. intros H.
  exists c, r. split; [done|]. destruct (is_num_char c); [done|].
  simpl in H. by rewrite andb_false_r in H.
Qed.

Lemma parse_number fuel t rest :
  num_text t = true -> delimited rest ->
  parse_value (S fuel) (t ++ rest) = Some (JNum t, rest).
Proof.
  intros Hn Hr. destruct (num_text_head t Hn) as (c & r & -> & Hc).
  unfold num_text in Hn. apply andb_prop in Hn as [Hv Hs]. apply negb_true_iff in Hs.
  pose proof (span_delimited _ _ Hs Hr) as Hspan. clear Hs Hr.
  change (String c r ++ rest) with (String c (r ++ rest)) in *.
  assert (skip_ws (String c (r ++ rest)) = String c (r ++ rest)) as Hw.
  { apply skip_ws_nonws. revert Hc. clear.
    destruct c as [[] [] [] [] [] [] [] []]; vm_compute; congruence. }
  cbn [parse_value]. rewrite Hw.
  assert ((code c =? 123)%N = false /\ (code c =? 91)%N = false /\ (code c =? 34)%N = false
          /\ strip "true" (String c (r ++ rest)) = None
          /\ strip "false" (String c (r ++ rest)) = None
          /\ strip "null" (String c (r ++ rest)) = None) as (-> & -> & -> & -> & -> & ->).
  { revert Hc. clear. destruct c as [[] [] [] [] [] [] [] []];
      intros Hc; vm_compute in Hc; try discriminate Hc; repeat split. }
  rewrite Hspan, Hv. done.
Qed.

(** The fuel [parse_value] uses on the text of a value. *)
Fixpoint need (v : json) : nat :=
  match v with
  | JArr l => S (foldr (fun x n => S (need x + n)) 0%nat l)
  | JObj l => S (foldr (fun m n => S (need m.2 + n)) 0%nat l)
  | _ => 1%nat
  end.

Definition elems_need (l : list json) : nat := foldr (fun x n => S (need x + n)) 0%nat l.
Definition members_need (l : list (string * json)) : nat :=
  foldr (fun m n => S (need m.2 + n)) 0%nat l.

Definition parses (v : json) : Prop :=
  wf_json v = true -> forall fuel rest,
  (need v <= fuel)%nat -> delimited rest ->
  parse_value fuel (stringify v ++ rest) = Some (v, rest).

Lemma delimited_elems l rest : delimited (elems_text l ++ rest).
Proof. by destruct l. Qed.

Lemma delimited_members l rest : delimited (members_text l ++ rest).
Proof. by destruct l. Qed.

(** The text of a value starts with none of the characters that end a list. *)
Lemma stringify_head v rest :
  wf_json v = true ->
  exists c r, stringify v ++ rest = String c r /\ is_ws c = false
              /\ (code c =? 93)%N = false.
Proof.
  intros Hw. destruct v as [|[]|t|s|[|x l]|[|m l]];
    try (eexists _, _; repeat split; reflexivity).
  destruct (num_text_head t Hw) as (c & r & -> & Hc).
  exists c, (r ++ rest). split; [done|]. revert Hc. clear.
  destruct c as [[] [] [] [] [] [] [] []]; intros Hc; vm_compute in Hc;
    try discriminate Hc; by split.
Qed.

Lemma parse_elems_text l : forall x fuel rest,
  Forall parses (x :: l) -> forallb wf_json (x :: l) = true ->
  (elems_need (x :: l) <= fuel)%nat ->
  parse_elems fuel (stringify x ++ elems_text l ++ rest) = Some (x :: l, rest).
Proof.
  induction l as [|y l IH]; intros x fuel rest HF Hw Hf;
    (destruct fuel as [|fuel]; [simpl in Hf; lia|]);
    apply Forall_cons in HF as [Hx HF]; simpl in Hw; apply andb_prop in Hw as [Hwx Hw];
    cbn [parse_elems]; rewrite (Hx Hwx) by
      (simpl in *; first [lia | apply delimited_elems | done]); [done|].
  change (elems_text (y :: l) ++ rest)
    with (String (chr 44) ((stringify y ++ elems_text l) ++ rest)).
  rewrite append_assoc. cbn [mbind option_bind]. rewrite skip_ws_nonws by done.
  change (code (chr 44) =? 44)%N with true. cbv iota.
  rewrite (IH y fuel rest HF); [done | done | unfold elems_need in *; simpl in *; lia].
Qed.

Lemma parse_members_text l : forall m fuel rest,
  Forall (fun m => parses m.2) (m :: l) -> forallb (fun m => wf_json m.2) (m :: l) = true ->
  (members_need (m :: l) <= fuel)%nat ->
  parse_members fuel (member_text m ++ members_text l ++ rest) = Some (m :: l, rest).
Proof.
  induction l as [|n l IH]; intros [k v] fuel rest HF Hw Hf;
    (destruct fuel as [|fuel]; [simpl in Hf; lia|]);
    apply Forall_cons in HF as [Hx HF]; simpl in Hx, Hw; apply andb_prop in Hw as [Hwx Hw];
    unfold member_text at 1, quote at 1; cbn [fst snd];
    rewrite !append_assoc; cbn [parse_members String.append];
    rewrite skip_ws_nonws by done; change (code DQUOTE =? 34)%N with true; cbv iota;
    rewrite !append_assoc, parse_string_quote; cbn [mbind option_bind String.append];
    rewrite skip_ws_nonws by done;
    change (code (Ascii.Ascii false true false true true true false false) =? 58)%N with true;
    cbv iota;
    rewrite (Hx Hwx) by (simpl in *; first [lia | apply delimited_members | done]); [done|].
  change (members_text (n :: l) ++ rest)
    with (String (chr 44) ((member_text n ++ members_text l) ++ rest)).
  rewrite append_assoc. cbn [mbind option_bind]. rewrite skip_ws_nonws by done.
  change (code (chr 44) =? 44)%N with true. cbv iota.
  rewrite (IH n fuel rest HF); [done | done | unfold members_need in *; simpl in *; lia].
Qed.

Lemma parse_stringify v : parses v.
Proof.
  induction v as [|b|t|s|l HF|l HF] using json_nested_ind; intros Hw fuel rest Hf Hr;
    (destruct fuel as [|fuel]; [simpl in Hf; lia|]).
  - done.
  - by destruct b.
  - by apply parse_number.
  - simpl. rewrite append_assoc, parse_string_quote. done.
  - destruct l as [|x l]; [done|]. rewrite stringify_arr.
    destruct (stringify_head x (elems_text l ++ rest)) as (c & r & Hs & Hws & H93).
    { simpl in Hw. by apply andb_prop in Hw as [? _]. }
    pose proof (parse_elems_text l x fuel rest HF Hw) as He.
    change (String (chr 91) (stringify x ++ elems_text l) ++ rest)
      with (String (chr 91) ((stringify x ++ elems_text l) ++ rest)).
    rewrite append_assoc. rewrite Hs in *.
    cbn [parse_value]. rewrite (skip_ws_nonws (chr 91)) by done. simpl (code _ =? _)%N.
    cbv iota. rewrite skip_ws_nonws by done. rewrite H93.
    rewrite He; [done|]. unfold elems_need; simpl in *; lia.
  - destruct l as [|m l]; [done|]. rewrite stringify_obj.
    pose proof (parse_members_text l m fuel rest HF Hw) as He.
    change (String (chr 123) (member_text m ++ members_text l) ++ rest)
      with (String (chr 123) ((member_text m ++ members_text l) ++ rest)).
    rewrite append_assoc. revert He. generalize (members_text l ++ rest). intros z He.
    cbn [parse_value]. rewrite (skip_ws_nonws (chr 123)) by done. simpl (code _ =? _)%N.
    cbv iota. unfold member_text, quote in *. cbn [String.append] in *.
    rewrite skip_ws_nonws by done. change (code DQUOTE =? 125)%N with false. cbv iota.
    rewrite He; [done|].
    unfold members_need; simpl in *; lia.
Qed.

Lemma elems_need_le x l :
  Forall (fun v => wf_json v = true -> (need v <= 2 * String.length (stringify v))%nat) (x :: l) ->
  forallb wf_json (x :: l) = true ->
  (elems_need (x :: l) <= 2 * String.length (stringify x ++ elems_text l))%nat.
Proof.
  revert x. induction l as [|y l IH]; intros x HF Hw;
    apply Forall_cons in HF as [Hx HF]; simpl in Hw; apply andb_prop in Hw as [Hwx Hw];
    specialize (Hx Hwx); unfold elems_need in *; rewrite length_append; simpl.
  - lia.
  - specialize (IH y HF Hw). simpl in IH. lia.
Qed.

Lemma members_need_le m l :
  Forall (fun m => wf_json m.2 = true -> (need m.2 <= 2 * String.length (stringify m.2))%nat) (m :: l) ->
  forallb (fun m => wf_json m.2) (m :: l) = true ->
  (members_need (m :: l) <= 2 * String.length (member_text m ++ members_text l))%nat.
Proof.
  revert m. induction l as [|n l IH]; intros m HF Hw;
    apply Forall_cons in HF as [Hx HF]; simpl in Hw; apply andb_prop in Hw as [Hwx Hw];
    specialize (Hx Hwx); unfold members_need in *; unfold member_text, quote in *.
  - simpl. rewrite !length_append; simpl; rewrite ?length_append; simpl. lia.
  - specialize (IH n HF Hw). simpl in *.
    repeat (rewrite ?length_append in *; simpl in *). lia.
Qed.

Lemma need_le v : wf_json v = true -> (need v <= 2 * String.length (stringify v))%nat.
Proof.
  induction v as [|b|t|s|l HF|l HF] using json_nested_ind; intros Hw.
  - simpl. lia.
  - destruct b; simpl; lia.
  - destruct (num_text_head t Hw) as (c & r & -> & _). simpl. lia.
  - simpl. lia.
  - destruct l as [|x l]; [simpl; lia|]. rewrite stringify_arr.
    pose proof (elems_need_le x l HF Hw). unfold elems_need in *. simpl in *. lia.
  - destruct l as [|m l]; [simpl; lia|]. rewrite stringify_obj.
    pose proof (members_need_le m l HF Hw). unfold members_need in *. simpl in *. lia.
Qed.

(** [JSON.parse] reads back what [JSON.stringify] prints. *)
Lemma JSON_parse_stringify v : wf_json v = true -> JSON_parse (stringify v) = Some v.
Proof.
  intros Hw. unfold JSON_parse, parse_fuel.
  pose proof (parse_stringify v Hw (S (2 * String.length (stringify v))) "") as H.
  rewrite append_nil_r in H. rewrite H; [done | | done].
  pose proof (need_le v Hw). lia.
Qed.

(** What [JSON.parse] returns can be printed again. *)
Lemma span_again p s t z : span p s = (t, z) -> span p t = (t, "").
Proof.
  revert t z. induction s as [|c s IH]; intros t z; simpl; [by intros [= <- <-]|].
  destruct (p c) eqn:Hc; [|by intros [= <- <-]].
  destruct (span p s) as [a b]. intros [= <- <-]. simpl. by rewrite Hc, (IH a b).
Qed.

Lemma parse_wf fuel :
  (forall s v r, parse_value fuel s = Some (v, r) -> wf_json v = true)
  /\ (forall s l r, parse_elems fuel s = Some (l, r) -> forallb wf_json l = true)
  /\ (forall s l r, parse_members fuel s = Some (l, r) -> forallb (fun m => wf_json m.2) l = true).
Proof.
  induction fuel as [|fuel (IHv & IHe & IHm)]; [by repeat split|]. repeat split.
  - intros s v r. cbn [parse_value]. destruct (skip_ws s) as [|c s']; [done|].
    destruct (code c =? 123)%N.
    { destruct (skip_ws s') as [|d r']; [done|]. destruct (code d =? 125)%N; [by intros [= <- _]|].
      intros ([l z] & Hl & [= <- _])%bind_Some. by eapply IHm. }
    destruct (code c =? 91)%N.
    { destruct (skip_ws s') as [|d r']; [done|]. destruct (code d =? 93)%N; [by intros [= <- _]|].
      intros ([l z] & Hl & [= <- _])%bind_Some. by eapply IHe. }
    destruct (code c =? 34)%N; [by intros ([t z] & Ht & [= <- _])%bind_Some|].
    destruct (strip "true" _); [by intros [= <- _]|].
    destruct (strip "false" _); [by intros [= <- _]|].
    destruct (strip "null" _); [by intros [= <- _]|].
    destruct (span is_num_char (String c s')) as [t z] eqn:Hs.
    destruct (valid_number t) eqn:Hv; [|done]. intros [= <- _]. simpl. unfold num_text.
    by rewrite Hv, (span_again _ _ _ _ Hs).
  - intros s l r. cbn [parse_elems]. intros ([v z] & Hv & Hl)%bind_Some.
    destruct (skip_ws z) as [|c r']; [done|]. destruct (code c =? 44)%N.
    + apply bind_Some in Hl as ([l' z'] & Hl' & [= <- _]). simpl.
      by rewrite (IHv _ _ _ Hv), (IHe _ _ _ Hl').
    + destruct (code c =? 93)%N; [|done]. injection Hl as <- _. simpl.
      by rewrite (IHv _ _ _ Hv).
  - intros s l r. cbn [parse_members]. destruct (skip_ws s) as [|c s']; [done|].
    destruct (code c =? 34)%N; [|done]. intros ([k z] & Hk & Hl)%bind_Some.
    destruct (skip_ws z) as [|d z']; [done|]. destruct (code d =? 58)%N; [|done].
    apply bind_Some in Hl as ([v z2] & Hv & Hl).
    destruct (skip_ws z2) as [|e r']; [done|]. destruct (code e =? 44)%N.
    + apply bind_Some in Hl as ([l' z3] & Hl' & [= <- _]). simpl.
      by rewrite (IHv _ _ _ Hv), (IHm _ _ _ Hl').
    + destruct (code e =? 125)%N; [|done]. injection Hl as <- _. simpl.
      by rewrite (IHv _ _ _ Hv).
Qed.

Lemma JSON_parse_wf s v : JSON_parse s = Some v -> wf_json v = true.
Proof.
  unfold JSON_parse. intros ([w r] & Hw & Hr)%bind_Some.
  destruct (skip_ws r); [|done]. injection Hr as <-. by eapply parse_wf.
Qed.

Lemma get_prop_wf key v x : wf_json v = true -> get_prop key v = Some x -> wf_json x = true.
Proof.
  destruct v as [| | | | |l]; try done. simpl.
  enough (forall acc, (forall y, acc = Some y -> wf_json y = true) ->
    forallb (fun m => wf_json m.2) l = true ->
    fold_left (fun acc m => if String.eqb m.1 key then Some m.2 else acc) l acc = Some x ->
    wf_json x = true) as Hgen by (intros Hw; by apply (Hgen None)).
  induction l as [|m l IH]; intros acc Hacc Hw Hx; simpl in *; [by apply Hacc|].
  apply andb_prop in Hw as [Hm Hw]. eapply IH; [|done|exact Hx].
  intros y. destruct (String.eqb m.1 key); [by intros [= <-]|apply Hacc].
Qed.
