(* ===== verification/Postgres.v ===== *)
(** * The two tables and the SQL statements of the services

    The rows of [jobs] and [outbox_events] (infra/migrations/*.sql, the [Job]
    and [OutboxEvent] interfaces) and the meaning of every SQL text that the
    API and the worker send, statement by statement.  A statement is atomic:
    PostgreSQL's row locks and its re-check of the WHERE clause under READ
    COMMITTED make a single-row conditional UPDATE so.  [now()] is in
    microseconds, the resolution of [timestamptz]; an INT column that would
    exceed its 32-bit range makes the statement fail.

    What only PostgreSQL and its Node client know is a parameter, the class
    [Pg]: the text a JavaScript value has as a query parameter, the uuid that a
    text denotes, and the order of rows where SQL leaves it open (a scan, the
    answer of an UPDATE with RETURNING).  Counts are integers (the code's
    [Number] of a bigint text is exact below 2^53). *)
From S2P Require Import Prelude Json.
#[local] Open Scope stdpp_scope.

(** ** Rows *)

Inductive Status :=
| QUEUED | PROCESSING | COMPLETED | FAILED | RETRYING | DEAD_LETTERED.

#[export] Instance Status_eq_dec : EqDecision Status.
Proof. solve_decision. Defined.

Record Job := mkJob {
  j_id : string;
  j_type : string;
  j_payload : json;
  j_status : Status;
  j_attempt_count : Z;
  j_max_attempts : Z;
  j_last_error : option string;
  j_created_at : Z;
  j_updated_at : Z;
  j_total_attempt_count : Z;
  j_replay_count : Z;
  j_last_dead_lettered_at : option Z;
  j_last_dead_letter_reason : option string }.

Record OutboxEvent := mkEvent {
  ev_id : string;
  ev_job_id : string;
  ev_created_at : Z;
  ev_claimed_at : option Z;
  ev_published_at : option Z;
  ev_attempts : Z;
  ev_last_error : option string }.

#[export] Instance OutboxEvent_eq_dec : EqDecision OutboxEvent.
Proof. solve_decision. Defined.

Record db := mkDb { jobs : gmap string Job; outbox : gmap string OutboxEvent }.

Definition set_jobs (d : db) (m : gmap string Job) : db := mkDb m (outbox d).
Definition set_outbox (d : db) (m : gmap string OutboxEvent) : db := mkDb (jobs d) m.

(** ** The client library and the uuid type *)

Class Pg := {
  (** the canonical text of the uuid a text denotes; [None]: error 22P02 *)
  uuid_in : string -> option string;
  uuid_in_canonical s u : uuid_in s = Some u -> uuid_in u = Some u;
  (** the text node-postgres sends for a JavaScript value; [None]: NULL.
      The argument [None] is [undefined]. *)
  pg_param : option json -> option string;
  pg_param_undefined : pg_param None = None;
  pg_param_null : pg_param (Some JNull) = None;
  pg_param_string s : pg_param (Some (JStr s)) = Some s;
  (** some order of the rows, one for each number *)
  row_order : nat -> forall A, list A -> list A;
  row_order_perm order A (l : list A) : row_order order A l ≡ₚ l }.

Definition canonical `{Pg} (u : string) : Prop := uuid_in u = Some u.

Definition INT4_MAX : Z := 2147483647.
Definition int4_succ (n : Z) : option Z :=
  if n + 1 <=? INT4_MAX then Some (n + 1) else None.

Definition invalid_text_representation : js_err :=
  mk_pg_error "22P02" "invalid input syntax for type uuid".
Definition numeric_value_out_of_range : js_err :=
  mk_pg_error "22003" "integer out of range".
Definition unique_violation : js_err :=
  mk_pg_error "23505" "duplicate key value violates unique constraint".
Definition foreign_key_violation : js_err :=
  mk_pg_error "23503" "insert or update on table violates foreign key constraint".

Section statements.
Context `{Pg}.

(** [id = $1]: the row the parameter selects, none for NULL. *)
Definition id_param (p : option string) : res js_err (option string) :=
  match p with
  | None => Ok None
  | Some s => match uuid_in s with
              | Some u => Ok (Some u)
              | None => Err invalid_text_representation
              end
  end.

(** [UPDATE jobs SET .. WHERE id = $1 AND .. RETURNING *] *)
Definition update_job (p : option string) (where_ : Job -> bool)
    (set : Job -> option Job) (d : db) : res js_err (list Job * db) :=
  match id_param p with
  | Err e => Err e
  | Ok None => Ok ([], d)
  | Ok (Some u) =>
      match jobs d !! u with
      | None => Ok ([], d)
      | Some j =>
          if where_ j then
            match set j with
            | Some j' => Ok ([j'], set_jobs d (<[u := j']> (jobs d)))
            | None => Err numeric_value_out_of_range
            end
          else Ok ([], d)
      end
  end.

(** [SELECT * FROM jobs WHERE id = $1] *)
Definition select_job_by_id (p : option string) (d : db) : res js_err (list Job * db) :=
  match id_param p with
  | Err e => Err e
  | Ok None => Ok ([], d)
  | Ok (Some u) => Ok (match jobs d !! u with Some j => [j] | None => [] end, d)
  end.

(** [now() - ($2 * interval '1 second')], in microseconds *)
Definition seconds_before (now seconds : Z) : Z := now - seconds * 1000000.

Definition has_status (s : Status) (j : Job) : bool := bool_decide (j_status j = s).

(** The WHERE clause of [claimJob] below [id = $1]. *)
Definition claimable (now stale : Z) (j : Job) : bool :=
  (has_status QUEUED j || has_status RETRYING j)
  || (has_status PROCESSING j && (j_updated_at j <? seconds_before now stale)).

Definition update_claim_job (now : Z) (p : option string) (stale : Z)
  : db -> res js_err (list Job * db) :=
  update_job p (claimable now stale) (fun j =>
    attempts ← int4_succ (j_attempt_count j);
    total ← int4_succ (j_total_attempt_count j);
    Some (mkJob (j_id j) (j_type j) (j_payload j) PROCESSING attempts
            (j_max_attempts j) (j_last_error j) (j_created_at j) now total
            (j_replay_count j) (j_last_dead_lettered_at j)
            (j_last_dead_letter_reason j))).

Definition update_mark_completed (now : Z) (p : option string)
  : db -> res js_err (list Job * db) :=
  update_job p (has_status PROCESSING) (fun j =>
    Some (mkJob (j_id j) (j_type j) (j_payload j) COMPLETED (j_attempt_count j)
            (j_max_attempts j) None (j_created_at j) now (j_total_attempt_count j)
            (j_replay_count j) (j_last_dead_lettered_at j)
            (j_last_dead_letter_reason j))).

Definition update_mark_failed (now : Z) (p : option string) (errorMessage : string)
  : db -> res js_err (list Job * db) :=
  update_job p (fun _ => true) (fun j =>
    Some (mkJob (j_id j) (j_type j) (j_payload j) FAILED (j_attempt_count j)
            (j_max_attempts j) (Some errorMessage) (j_created_at j) now
            (j_total_attempt_count j) (j_replay_count j)
            (j_last_dead_lettered_at j) (j_last_dead_letter_reason j))).

Definition update_mark_retrying (now : Z) (p : option string) (errorMessage : string)
  : db -> res js_err (list Job * db) :=
  update_job p (has_status PROCESSING) (fun j =>
    Some (mkJob (j_id j) (j_type j) (j_payload j) RETRYING (j_attempt_count j)
            (j_max_attempts j) (Some errorMessage) (j_created_at j) now
            (j_total_attempt_count j) (j_replay_count j)
            (j_last_dead_lettered_at j) (j_last_dead_letter_reason j))).

Definition update_mark_dead_lettered (now : Z) (p : option string) (errorMessage : string)
  : db -> res js_err (list Job * db) :=
  update_job p (has_status PROCESSING) (fun j =>
    Some (mkJob (j_id j) (j_type j) (j_payload j) DEAD_LETTERED (j_attempt_count j)
            (j_max_attempts j) (Some errorMessage) (j_created_at j) now
            (j_total_attempt_count j) (j_replay_count j)
            (Some now) (Some errorMessage))).

Definition update_claim_replay (now : Z) (p : option string)
  : db -> res js_err (list Job * db) :=
  update_job p (has_status DEAD_LETTERED) (fun j =>
    replays ← int4_succ (j_replay_count j);
    Some (mkJob (j_id j) (j_type j) (j_payload j) QUEUED 0 (j_max_attempts j)
            None (j_created_at j) now (j_total_attempt_count j) replays
            (j_last_dead_lettered_at j) (j_last_dead_letter_reason j))).

(** [INSERT INTO jobs (type, payload) VALUES ($1, $2) RETURNING *], the other
    columns at their defaults (001_create_jobs_table.sql, 002). *)
Definition insert_job (now : Z) (uuid : string) (type : string) (payload : json)
    (d : db) : res js_err (list Job * db) :=
  match jobs d !! uuid with
  | Some _ => Err unique_violation
  | None =>
      let j := mkJob uuid type payload QUEUED 0 5 None now now 0 0 None None in
      Ok ([j], set_jobs d (<[uuid := j]> (jobs d)))
  end.

(** [INSERT INTO outbox_events (job_id) VALUES ($1)] *)
Definition insert_outbox_event (now : Z) (uuid : string) (p : option string)
    (d : db) : res js_err (unit * db) :=
  match id_param p with
  | Err e => Err e
  | Ok None => Err (mk_pg_error "23502" "null value in column job_id")
  | Ok (Some u) =>
      match jobs d !! u, outbox d !! uuid with
      | None, _ => Err foreign_key_violation
      | _, Some _ => Err unique_violation
      | Some _, None =>
          Ok (tt, set_outbox d (<[uuid := mkEvent uuid u now None None 0 None]> (outbox d)))
      end
  end.

(** [published_at IS NULL] *)
Definition unpublished (e : OutboxEvent) : bool := bool_decide (ev_published_at e = None).

(** The WHERE clause of the inner SELECT of [claimPendingOutboxEvents]. *)
Definition event_pending (now stale : Z) (e : OutboxEvent) : bool :=
  unpublished e &&
  match ev_claimed_at e with
  | None => true
  | Some t => t <? seconds_before now stale
  end.

Definition created_before (e1 e2 : OutboxEvent) : Prop := ev_created_at e1 <= ev_created_at e2.

#[export] Instance created_before_dec e1 e2 : Decision (created_before e1 e2).
Proof. unfold created_before. apply _. Defined.

Definition events (d : db) : list OutboxEvent := (map_to_list (outbox d)).*2.
Definition rows (d : db) : list Job := (map_to_list (jobs d)).*2.

(** [ORDER BY created_at ASC LIMIT $1 FOR UPDATE SKIP LOCKED]: [locked] are
    the rows other transactions hold. *)
Definition pending_events (order : nat) (now : Z) (locked : gset string) (batch : nat)
    (stale : Z) (d : db) : list OutboxEvent :=
  take batch (merge_sort created_before
    (filter (fun e => event_pending now stale e = true /\ ev_id e ∉ locked)
       (row_order order _ (events d)))).

Definition claim_event (now : Z) (e : OutboxEvent) : OutboxEvent :=
  mkEvent (ev_id e) (ev_job_id e) (ev_created_at e) (Some now) (ev_published_at e)
    (ev_attempts e) (ev_last_error e).

Definition store_events (l : list OutboxEvent) (d : db) : db :=
  set_outbox d (foldr (fun e m => <[ev_id e := e]> m) (outbox d) l).

(** The rows of RETURNING come in no particular order. *)
Definition update_claim_events (order : nat) (now : Z) (locked : gset string) (batch : nat)
    (stale : Z) (d : db) : list OutboxEvent * db :=
  let claimed := claim_event now <$> pending_events order now locked batch stale d in
  (row_order order _ claimed, store_events claimed d).

Definition update_event (p : option string) (set : OutboxEvent -> option OutboxEvent)
    (d : db) : res js_err (unit * db) :=
  match id_param p with
  | Err e => Err e
  | Ok None => Ok (tt, d)
  | Ok (Some u) =>
      match outbox d !! u with
      | None => Ok (tt, d)
      | Some e => match set e with
                  | Some e' => Ok (tt, set_outbox d (<[u := e']> (outbox d)))
                  | None => Err numeric_value_out_of_range
                  end
      end
  end.

Definition update_outbox_published (now : Z) (p : option string)
  : db -> res js_err (unit * db) :=
  update_event p (fun e =>
    Some (mkEvent (ev_id e) (ev_job_id e) (ev_created_at e) (ev_claimed_at e) (Some now)
            (ev_attempts e) (ev_last_error e))).

Definition update_outbox_failed (p : option string) (errorMessage : string)
  : db -> res js_err (unit * db) :=
  update_event p (fun e =>
    attempts ← int4_succ (ev_attempts e);
    Some (mkEvent (ev_id e) (ev_job_id e) (ev_created_at e) None (ev_published_at e)
            attempts (Some errorMessage))).

(** [SELECT COUNT] of the rows that satisfy a condition *)
Definition count {A} (p : A -> bool) (l : list A) : Z :=
  Z.of_nat (List.length (List.filter p l)).

(** [COALESCE(SUM(..), 0)] *)
Definition sum {A} (f : A -> Z) (l : list A) : Z := foldr (fun x a => f x + a) 0 l.

Definition count_pending (d : db) : Z := count unpublished (events d).

Record StatsRow := mkStatsRow {
  total_jobs : Z; queued : Z; processing : Z; completed : Z; failed : Z;
  retrying : Z; dead_lettered : Z; total_replays : Z; total_attempts : Z;
  pending_outbox_events : Z }.

Definition select_stats (d : db) : StatsRow :=
  let l := rows d in
  mkStatsRow (count (fun _ => true) l) (count (has_status QUEUED) l)
    (count (has_status PROCESSING) l) (count (has_status COMPLETED) l)
    (count (has_status FAILED) l) (count (has_status RETRYING) l)
    (count (has_status DEAD_LETTERED) l) (sum j_replay_count l)
    (sum j_total_attempt_count l) (count_pending d).

Definition updated_after (j1 j2 : Job) : Prop := j_updated_at j2 <= j_updated_at j1.
Definition updated_before (j1 j2 : Job) : Prop := j_updated_at j1 <= j_updated_at j2.

#[export] Instance updated_after_dec j1 j2 : Decision (updated_after j1 j2).
Proof. unfold updated_after. apply _. Defined.
#[export] Instance updated_before_dec j1 j2 : Decision (updated_before j1 j2).
Proof. unfold updated_before. apply _. Defined.

(** The columns of [listRecentJobs], in [interface RecentJob]. *)
Record RecentJob := mkRecentJob {
  rec_id : string; rec_type : string; rec_status : Status;
  rec_attempt_count : Z; rec_max_attempts : Z;
  rec_created_at : Z; rec_updated_at : Z }.

Definition recent_columns (j : Job) : RecentJob :=
  mkRecentJob (j_id j) (j_type j) (j_status j) (j_attempt_count j) (j_max_attempts j)
    (j_created_at j) (j_updated_at j).

(** [ORDER BY updated_at DESC LIMIT 20] *)
Definition recent_rows (order : nat) (d : db) : list Job :=
  take 20 (merge_sort updated_after (row_order order _ (rows d))).

Definition select_recent_jobs (order : nat) (d : db) : list RecentJob :=
  recent_columns <$> recent_rows order d.

(** The columns of [getJobChangesSince], in [interface JobChange]. *)
Record JobChange := mkChange { jc_id : string; jc_status : Status; jc_updated_at : Z }.

Definition change_columns (j : Job) : JobChange :=
  mkChange (j_id j) (j_status j) (j_updated_at j).

(** [WHERE updated_at > $1 ORDER BY updated_at ASC]; the parameter is a
    JavaScript [Date], in milliseconds. *)
Definition changed_rows (order : nat) (since_ms : Z) (d : db) : list Job :=
  merge_sort updated_before
    (filter (fun j => since_ms * 1000 < j_updated_at j) (row_order order _ (rows d))).

Definition select_job_changes (order : nat) (since_ms : Z) (d : db) : list JobChange :=
  change_columns <$> changed_rows order since_ms d.
End statements.
