(* ===== verification/Amqp.v ===== *)
(** * RabbitMQ: the topology the processes declare and the broker interface

    The exchange, queue and routing-key names and the declarations of
    apps/worker/src/queue/connection.ts and apps/api/src/queue/connection.ts.
    RabbitMQ itself and amqplib are not code of the repository: the broker is
    the class [Broker], a state with its operations and the documented laws of
    direct exchanges, durable queues and dead-letter exchanges that the code
    relies on.  [Queues] is a broker that satisfies them. *)
From S2P Require Import Prelude.
#[local] Open Scope stdpp_scope.

(** ** Names *)

Definition EXCHANGE_NAME : string := "deadletter.jobs.exchange".
Definition QUEUE_NAME : string := "deadletter.jobs.queue".
Definition ROUTING_KEY : string := "job.created".
Definition FAILURES_EXCHANGE_NAME : string := "deadletter.jobs.failures.exchange".
Definition RETRY_QUEUE_NAME : string := "deadletter.jobs.retry.queue".
Definition RETRY_ROUTING_KEY : string := "job.retry".
Definition DLQ_QUEUE_NAME : string := "deadletter.jobs.dlq".
Definition DLQ_ROUTING_KEY : string := "job.dead_letter".

(** ** Declarations *)

Inductive decl :=
| AssertExchange (name : string) (durable : bool)
| AssertQueue (name : string) (durable : bool) (dead_letter : option (string * string))
| BindQueue (queue exchange routing_key : string).

#[export] Instance decl_eq_dec : EqDecision decl.
Proof. solve_decision. Defined.

(** [getChannel] of the worker, after the connection is open. *)
Definition worker_topology : list decl :=
  [ AssertExchange EXCHANGE_NAME true;
    AssertQueue QUEUE_NAME true None;
    BindQueue QUEUE_NAME EXCHANGE_NAME ROUTING_KEY;
    AssertExchange FAILURES_EXCHANGE_NAME true;
    AssertQueue RETRY_QUEUE_NAME true (Some (EXCHANGE_NAME, ROUTING_KEY));
    BindQueue RETRY_QUEUE_NAME FAILURES_EXCHANGE_NAME RETRY_ROUTING_KEY;
    AssertQueue DLQ_QUEUE_NAME true None;
    BindQueue DLQ_QUEUE_NAME FAILURES_EXCHANGE_NAME DLQ_ROUTING_KEY ].

(** [getChannel] of the API. *)
Definition api_topology : list decl :=
  [ AssertExchange EXCHANGE_NAME true;
    AssertQueue QUEUE_NAME true None;
    BindQueue QUEUE_NAME EXCHANGE_NAME ROUTING_KEY ].

(** ** Messages and the broker interface *)

Record message := mkMessage {
  m_content : string;
  m_persistent : bool;
  m_expiration : option string }.

#[export] Instance message_eq_dec : EqDecision message.
Proof. solve_decision. Defined.

(** A message that a queue dead-lettered has lost its per-message TTL. *)
Definition drop_expiration (m : message) : message :=
  mkMessage (m_content m) (m_persistent m) None.

Class Broker (B : Type) := {
  (** the broker after these declarations, before any message *)
  declared : list decl -> B;
  (** [channel.publish]: routing by exact match of the key *)
  publish : string -> string -> message -> B -> B;
  (** [take q m b b']: [b] hands the message [m] of [q] to a consumer *)
  take_message : string -> message -> B -> B -> Prop;
  (** a message comes back to its queue: nack with requeue, channel closed *)
  requeue : string -> message -> B -> B;
  (** an internal step, e.g. a TTL that expires *)
  internal : B -> B -> Prop;
  bound : B -> string -> string -> string -> Prop;
  dead_letter_to : B -> string -> option (string * string);
  in_queue : B -> string -> message -> Prop;

  declared_bound l q ex rk : BindQueue q ex rk ∈ l -> bound (declared l) ex rk q;
  declared_dead_letter l q dl :
    (forall d o, AssertQueue q d o ∈ l <-> (d, o) = (true, dl)) ->
    dead_letter_to (declared l) q = dl;
  publish_bound b ex rk m ex' rk' q : bound b ex' rk' q -> bound (publish ex rk m b) ex' rk' q;
  publish_dead_letter b ex rk m q :
    dead_letter_to (publish ex rk m b) q = dead_letter_to b q;
  publish_routes b ex rk m q : bound b ex rk q -> in_queue (publish ex rk m b) q m;
  publish_keeps b ex rk m q m' : in_queue b q m' -> in_queue (publish ex rk m b) q m';
  take_bound q0 m0 b b' ex rk q : take_message q0 m0 b b' -> bound b ex rk q -> bound b' ex rk q;
  take_dead_letter q0 m0 b b' q :
    take_message q0 m0 b b' -> dead_letter_to b' q = dead_letter_to b q;
  take_present q0 m0 b b' : take_message q0 m0 b b' -> in_queue b q0 m0;
  take_keeps q0 m0 b b' q m :
    take_message q0 m0 b b' -> in_queue b q m -> in_queue b' q m \/ (q, m) = (q0, m0);
  requeue_bound b q0 m ex rk q : bound b ex rk q -> bound (requeue q0 m b) ex rk q;
  requeue_dead_letter b q0 m q : dead_letter_to (requeue q0 m b) q = dead_letter_to b q;
  requeue_present b q m : in_queue (requeue q m b) q m;
  requeue_keeps b q0 m0 q m : in_queue b q m -> in_queue (requeue q0 m0 b) q m;
  internal_bound b b' ex rk q : internal b b' -> bound b ex rk q -> bound b' ex rk q;
  internal_dead_letter b b' q : internal b b' -> dead_letter_to b' q = dead_letter_to b q;
  (** only a message with a TTL leaves a queue on its own, and it goes where
      its queue dead-letters it *)
  internal_keeps b b' q m :
    internal b b' -> in_queue b q m ->
    in_queue b' q m
    \/ (m_expiration m <> None /\
        forall ex rk q', dead_letter_to b q = Some (ex, rk) -> bound b ex rk q' ->
                   in_queue b' q' (drop_expiration m)) }.

(** What the processes rely on once [worker_topology] is declared. *)
Record topology_ok {B} `{Broker B} (b : B) : Prop := {
  jobs_bound : bound b EXCHANGE_NAME ROUTING_KEY QUEUE_NAME;
  retry_bound : bound b FAILURES_EXCHANGE_NAME RETRY_ROUTING_KEY RETRY_QUEUE_NAME;
  dlq_bound : bound b FAILURES_EXCHANGE_NAME DLQ_ROUTING_KEY DLQ_QUEUE_NAME;
  retry_returns : dead_letter_to b RETRY_QUEUE_NAME = Some (EXCHANGE_NAME, ROUTING_KEY) }.

(** What is sent to the retry queue has a TTL. *)
Definition orderly (ex rk : string) (m : message) : bool :=
  negb (String.eqb ex FAILURES_EXCHANGE_NAME && String.eqb rk RETRY_ROUTING_KEY)
  || match m_expiration m with Some _ => true | None => false end.

Section broker.
Context {B : Type} `{Broker B}.

Lemma worker_topology_ok : topology_ok (declared worker_topology).
Proof.
  split; try (apply declared_bound; unfold worker_topology; set_solver).
  apply declared_dead_letter. unfold worker_topology. intros d o.
  rewrite !elem_of_cons, elem_of_nil. split.
  - intros Hin. decompose [or] Hin; simplify_eq; done.
  - intros [= -> ->]. tauto.
Qed.

Lemma publish_topology b ex rk m : topology_ok b -> topology_ok (publish ex rk m b).
Proof. intros []. split; [by apply publish_bound..|]. by rewrite publish_dead_letter. Qed.

Lemma take_topology q m b b' : take_message q m b b' -> topology_ok b -> topology_ok b'.
Proof.
  intros Ht []. split; [by eapply take_bound..|]. by rewrite (take_dead_letter q m b b').
Qed.

Lemma requeue_topology b q m : topology_ok b -> topology_ok (requeue q m b).
Proof. intros []. split; [by apply requeue_bound..|]. by rewrite requeue_dead_letter. Qed.

Lemma internal_topology b b' : internal b b' -> topology_ok b -> topology_ok b'.
Proof.
  intros Ht []. split; [by eapply internal_bound..|].
  by rewrite (internal_dead_letter b b').
Qed.

(** A content that consumers of the job queue will still be handed: it is in
    that queue for good, or in the retry queue with a TTL running. *)
Definition held (b : B) (content : string) : Prop :=
  exists m, m_content m = content /\
    ((in_queue b QUEUE_NAME m /\ m_expiration m = None)
     \/ (in_queue b RETRY_QUEUE_NAME m /\ m_expiration m <> None)).

Lemma held_published b ex rk m :
  topology_ok b ->
  (ex, rk, m_expiration m) = (EXCHANGE_NAME, ROUTING_KEY, None)
  \/ (ex, rk) = (FAILURES_EXCHANGE_NAME, RETRY_ROUTING_KEY) /\ m_expiration m <> None ->
  held (publish ex rk m b) (m_content m).
Proof.
  intros [Hj Hr _ _] [[= -> -> Hm] | [[= -> ->] Hm]]; exists m; (split; [done|]);
    [left | right]; (split; [|done]); by apply publish_routes.
Qed.

Lemma held_publish b ex rk m c : held b c -> held (publish ex rk m b) c.
Proof.
  intros (n & Hc & [[Hq He] | [Hq He]]); exists n; (split; [done|]);
    [left | right]; (split; [|done]); by apply publish_keeps.
Qed.

Lemma held_requeue b q m c : held b c -> held (requeue q m b) c.
Proof.
  intros (n & Hc & [[Hq He] | [Hq He]]); exists n; (split; [done|]);
    [left | right]; (split; [|done]); by apply requeue_keeps.
Qed.

Lemma held_requeued b m :
  m_expiration m = None -> held (requeue QUEUE_NAME m b) (m_content m).
Proof. exists m. split; [done|]. left. split; [apply requeue_present|done]. Qed.

Lemma held_take b b' m c :
  take_message QUEUE_NAME m b b' -> held b c ->
  held b' c \/ (c = m_content m /\ m_expiration m = None).
Proof.
  intros Ht (n & Hc & [[Hq He] | [Hq He]]);
    destruct (take_keeps _ _ _ _ _ _ Ht Hq) as [|Heq];
    try (left; exists n; by eauto); injection Heq as <-; by right.
Qed.

Lemma held_internal b b' c : topology_ok b -> internal b b' -> held b c -> held b' c.
Proof.
  intros [Hj _ _ Hd] Hi (n & Hc & [[Hq He] | [Hq He]]);
    destruct (internal_keeps _ _ _ _ Hi Hq) as [Hk | [He' Hk]]; try done;
    try (exists n; by eauto).
  exists (drop_expiration n). split; [done|]. left. split; [by eapply Hk|done].
Qed.
End broker.

(** ** A broker that satisfies the laws *)

Module Queues.
Record t := mk {
  bindings : list (string * string * string);
  dead_letters : gmap string (option (string * string));
  contents : list (string * message) }.

Definition declare (b : t) (d : decl) : t :=
  match d with
  | AssertExchange _ _ => b
  | AssertQueue q _ dl =>
      mk (bindings b)
        (match dead_letters b !! q with
         | Some _ => dead_letters b
         | None => <[q := dl]> (dead_letters b)
         end) (contents b)
  | BindQueue q ex rk => mk ((q, ex, rk) :: bindings b) (dead_letters b) (contents b)
  end.

Definition declared (l : list decl) : t := foldl declare (mk [] ∅ []) l.

Definition bound (b : t) (ex rk q : string) : Prop := (q, ex, rk) ∈ bindings b.

(** The queues a publication reaches. *)
Definition targets (b : t) (ex rk : string) : list string :=
  (filter (fun x => (x.1.2, x.2) = (ex, rk)) (bindings b)).*1.*1.

Definition publish (ex rk : string) (m : message) (b : t) : t :=
  mk (bindings b) (dead_letters b)
    (contents b ++ map (fun q => (q, m)) (targets b ex rk)).

Definition dead_letter_to (b : t) (q : string) : option (string * string) :=
  mjoin (dead_letters b !! q).

Definition take_message (q : string) (m : message) (b b' : t) : Prop :=
  exists l1 l2, contents b = l1 ++ (q, m) :: l2
    /\ b' = mk (bindings b) (dead_letters b) (l1 ++ l2).

Definition requeue (q : string) (m : message) (b : t) : t :=
  mk (bindings b) (dead_letters b) ((q, m) :: contents b).

(** The TTL of a message expires. *)
Definition internal (b b' : t) : Prop :=
  exists l1 q m l2, contents b = l1 ++ (q, m) :: l2 /\ m_expiration m <> None /\
    b' = mk (bindings b) (dead_letters b)
           (l1 ++ l2 ++ match dead_letter_to b q with
                        | Some (ex, rk) =>
                            map (fun q' => (q', drop_expiration m)) (targets b ex rk)
                        | None => []
                        end).

Definition in_queue (b : t) (q : string) (m : message) : Prop := (q, m) ∈ contents b.

Lemma elem_of_targets b ex rk q : bound b ex rk q -> q ∈ targets b ex rk.
Proof.
  intros Hb. unfold targets. apply list_elem_of_fmap. exists (q, ex). split; [done|].
  apply list_elem_of_fmap. exists (q, ex, rk). split; [done|].
  by apply list_elem_of_filter.
Qed.

Lemma declared_bound l q ex rk : BindQueue q ex rk ∈ l -> bound (declared l) ex rk q.
Proof.
  unfold declared, bound. generalize (mk [] ∅ []) as b.
  assert (forall l b x, x ∈ bindings b -> x ∈ bindings (foldl declare b l)) as Hkeep.
  { intros l'. induction l' as [|d l' IH]; intros b x Hx; [done|].
    apply IH. destruct d; simpl; [done..|]. by right. }
  induction l as [|d l IH]; intros b Hin; [by apply not_elem_of_nil in Hin|].
  apply elem_of_cons in Hin as [<-|Hin]; [|by apply IH].
  apply (Hkeep l (declare b (BindQueue q ex rk))). simpl. left.
Qed.

Lemma declared_dead_letter l q dl :
  (forall d o, AssertQueue q d o ∈ l <-> (d, o) = (true, dl)) ->
  dead_letter_to (declared l) q = dl.
Proof.
  intros Hl.
  assert (AssertQueue q true dl ∈ l) as Hin by by apply Hl.
  assert (forall d o, AssertQueue q d o ∈ l -> o = dl) as Hall.
  { intros d o Hd. apply Hl in Hd. congruence. }
  clear Hl. unfold declared, dead_letter_to.
  assert (forall b, (dead_letters b !! q = None \/ dead_letters b !! q = Some dl) ->
            (AssertQueue q true dl ∈ l \/ dead_letters b !! q = Some dl) ->
            dead_letters (foldl declare b l) !! q = Some dl) as Hgen.
  { clear Hin. induction l as [|d l IH]; intros b Hb Hor.
    - destruct Hor as [Hor|]; [by apply not_elem_of_nil in Hor|done].
    - assert (forall d' o, AssertQueue q d' o ∈ l -> o = dl) as Hall'.
      { intros d' o Hd. eapply Hall. by right. }
      simpl. apply IH; [done|..]; clear IH.
      + destruct d as [|q' d' o|]; simpl; [done| |done].
        destruct (decide (q = q')) as [<-|Hne].
        * destruct Hb as [Hb|Hb]; rewrite Hb; [|by right].
          right. rewrite lookup_insert_eq. f_equal. eapply Hall. left.
        * destruct (dead_letters b !! q'); [done|]. by rewrite lookup_insert_ne.
      + rewrite elem_of_cons in Hor. destruct d as [|q' d' o|]; simpl.
        * destruct Hor as [[?|?]|?]; try done; by auto.
        * destruct (decide (q = q')) as [<-|Hne].
          -- right. destruct Hb as [Hb|Hb]; rewrite Hb; [|done].
             rewrite lookup_insert_eq. f_equal. eapply Hall. left.
          -- destruct Hor as [[?|?]|?]; [congruence|by auto|right].
             destruct (dead_letters b !! q'); [done|]. by rewrite lookup_insert_ne.
        * destruct Hor as [[?|?]|?]; try done; by auto. }
  by rewrite Hgen; auto.
Qed.

#[export, refine] Instance broker : Broker t := {|
  Amqp.declared := declared; Amqp.publish := publish; Amqp.take_message := take_message;
  Amqp.requeue := requeue; Amqp.internal := internal; Amqp.bound := bound;
  Amqp.dead_letter_to := dead_letter_to; Amqp.in_queue := in_queue;
  Amqp.declared_bound := declared_bound; Amqp.declared_dead_letter := declared_dead_letter
|}.
Proof.
  all: unfold bound, in_queue; try done.
  - intros b ex rk m q Hb. simpl. apply elem_of_app. right.
    apply (list_elem_of_fmap_2 (fun q => (q, m))). by apply elem_of_targets.
  - intros. simpl. apply elem_of_app. by left.
  - intros q0 m0 b b' ex rk q (l1 & l2 & Hc & ->). done.
  - intros q0 m0 b b' q (l1 & l2 & Hc & ->). done.
  - intros q0 m0 b b' (l1 & l2 & -> & ->).
    apply elem_of_app. right. left.
  - intros q0 m0 b b' q m (l1 & l2 & -> & ->). simpl.
    rewrite !elem_of_app, elem_of_cons. intros [|[|]]; auto.
  - intros. simpl. left.
  - intros. simpl. by right.
  - intros b b' ex rk q (? & ? & ? & ? & ? & ? & ->). done.
  - intros b b' q (? & ? & ? & ? & ? & ? & ->). done.
  - intros b b' q m (l1 & q1 & m1 & l2 & -> & He & ->) Hin. simpl in *.
    rewrite !elem_of_app, elem_of_cons in *.
    destruct Hin as [|[[= <- <-]|]]; [by auto| |by auto].
    right. split; [done|]. intros ex rk q' -> Hb. rewrite !elem_of_app. right. right.
    apply (list_elem_of_fmap_2 (fun q' => (q', drop_expiration m))). by apply elem_of_targets.
Defined.
End Queues.
