(* ===== verification/Queueing.v ===== *)
(** * What the broker does in the end

    [Broker] (Amqp.v) says what RabbitMQ does not lose; this file adds what it
    does with a message: it hands it out after those before it, or sends it on
    when its TTL is over, and a queue holds nothing but what was sent to it.  With
    these laws a message that is held reaches the job queue's head. *)
From S2P Require Import Prelude Amqp.
#[local] Open Scope stdpp_scope.

Class Serving (B : Type) `{Broker B} := {
  (** nothing but the declarations *)
  declared_empty l q m : ~ in_queue (declared l) q m;
  declared_bound_only l ex rk q : bound (declared l) ex rk q -> BindQueue q ex rk ∈ l;
  declared_dead_letter_only l q dl :
    dead_letter_to (declared l) q = Some dl -> exists d, AssertQueue q d (Some dl) ∈ l;
  publish_bound_only b ex rk m ex' rk' q : bound (publish ex rk m b) ex' rk' q -> bound b ex' rk' q;
  take_bound_only q0 m0 b b' ex rk q : take_message q0 m0 b b' -> bound b' ex rk q -> bound b ex rk q;
  requeue_bound_only b q0 m ex rk q : bound (requeue q0 m b) ex rk q -> bound b ex rk q;
  internal_bound_only b b' ex rk q : internal b b' -> bound b' ex rk q -> bound b ex rk q;
  (** nothing but what was sent there *)
  publish_only b ex rk m q m' :
    in_queue (publish ex rk m b) q m' -> in_queue b q m' \/ (m' = m /\ bound b ex rk q);
  take_only q0 m0 b b' q m : take_message q0 m0 b b' -> in_queue b' q m -> in_queue b q m;
  requeue_only b q0 m0 q m : in_queue (requeue q0 m0 b) q m -> in_queue b q m \/ (q, m) = (q0, m0);
  internal_only b b' q m :
    internal b b' -> in_queue b' q m ->
    in_queue b q m
    \/ exists q0 ex rk, dead_letter_to b q0 = Some (ex, rk) /\ bound b ex rk q;
  (** The TTL of a message is over when it is at the head of its queue, and those
      before it leave when theirs is. *)
  expires b q m :
    in_queue b q m -> (forall m', in_queue b q m' -> m_expiration m' <> None) ->
    exists b', rtc internal b b'
      /\ forall ex rk q', dead_letter_to b q = Some (ex, rk) -> bound b ex rk q' ->
           in_queue b' q' (drop_expiration m);
  (** A message is handed out after those before it, as long as consumers ask. *)
  handed_out b q m :
    in_queue b q m -> m_expiration m = None ->
    exists b1 b2, rtc (fun b b' => internal b b'
        \/ exists m0, m_expiration m0 = None /\ take_message q m0 b b') b b1
      /\ take_message q m b1 b2 }.

Section serving.
Context {B : Type} `{Serving B}.

(** ** The retry queue never blocks *)

(** Everything in the retry queue has a TTL, and only retries get there. *)
Record clean (b : B) : Prop := {
  retry_ttl m : in_queue b RETRY_QUEUE_NAME m -> m_expiration m <> None;
  retry_sources ex rk :
    bound b ex rk RETRY_QUEUE_NAME -> (ex, rk) = (FAILURES_EXCHANGE_NAME, RETRY_ROUTING_KEY);
  expired_targets q ex rk :
    dead_letter_to b q = Some (ex, rk) -> (ex, rk) = (EXCHANGE_NAME, ROUTING_KEY) }.

(** What the processes and the broker do to the queues. *)
Inductive queue_move (b : B) : B -> Prop :=
| move_none : queue_move b b
| move_publish ex rk m : orderly ex rk m = true -> queue_move b (publish ex rk m b)
| move_requeue m : queue_move b (requeue QUEUE_NAME m b)
| move_take m b' : take_message QUEUE_NAME m b b' -> queue_move b b'
| move_internal b' : internal b b' -> queue_move b b'.

Lemma clean_declared : clean (declared worker_topology).
Proof.
  split.
  - intros m Hm. by apply declared_empty in Hm.
  - intros ex rk Hb%declared_bound_only. unfold worker_topology in Hb.
    rewrite !elem_of_cons, elem_of_nil in Hb. decompose [or] Hb; by simplify_eq.
  - intros q ex rk Hd. apply declared_dead_letter_only in Hd as [d Hd]. unfold worker_topology in Hd.
    rewrite !elem_of_cons, elem_of_nil in Hd. decompose [or] Hd; by simplify_eq.
Qed.

Lemma clean_move b b' : clean b -> queue_move b b' -> clean b'.
Proof.
  intros [Hm Hs Hd]. destruct 1 as [|ex rk m Ho|m|m b' Ht|b' Hi]; [done| | | |].
  - split.
    + intros m' [?|[-> Hb]]%publish_only; [by apply Hm|].
      apply Hs in Hb as [= -> ->]. unfold orderly in Ho. rewrite !String.eqb_refl in Ho.
      by destruct (m_expiration m).
    + intros ex' rk' Hb%publish_bound_only. by apply Hs.
    + intros q ex' rk'. rewrite publish_dead_letter. apply Hd.
  - split.
    + intros m' [?|[=]]%requeue_only. by apply Hm.
    + intros ex' rk' Hb%requeue_bound_only. by apply Hs.
    + intros q ex' rk'. rewrite requeue_dead_letter. apply Hd.
  - split.
    + intros m' Hq. eapply Hm, take_only; done.
    + intros ex' rk' Hb. eapply Hs, take_bound_only; done.
    + intros q ex' rk'. rewrite (take_dead_letter _ _ _ _ _ Ht). apply Hd.
  - split.
    + intros m' Hq. destruct (internal_only _ _ _ _ Hi Hq) as [?|(q0 & ex & rk & Hdl & Hb)]; [by apply Hm|].
      apply Hd in Hdl as [= -> ->]. by apply Hs in Hb.
    + intros ex' rk' Hb. eapply Hs, internal_bound_only; done.
    + intros q ex' rk'. rewrite (internal_dead_letter _ _ _ Hi). apply Hd.
Qed.

(** ** A held message reaches a consumer *)

(** What the broker does while the consumers of the job queue ask for messages. *)
Definition serves (b b' : B) : Prop :=
  internal b b' \/ exists m, m_expiration m = None /\ take_message QUEUE_NAME m b b'.

Lemma held_handed_out b c :
  topology_ok b -> clean b -> held b c ->
  exists b1 b2 m, rtc serves b b1 /\ take_message QUEUE_NAME m b1 b2
    /\ m_content m = c /\ m_expiration m = None.
Proof.
  intros Htop Hc (m & <- & [[Hq He]|[Hq He]]).
  - destruct (handed_out b QUEUE_NAME m Hq He) as (b1 & b2 & Hs & Ht). by exists b1, b2, m.
  - destruct (expires b RETRY_QUEUE_NAME m Hq (retry_ttl _ Hc)) as (b0 & Hi & Hin).
    specialize (Hin _ _ _ (retry_returns _ Htop) (jobs_bound _ Htop)).
    destruct (handed_out b0 QUEUE_NAME _ Hin eq_refl) as (b1 & b2 & Hs & Ht).
    exists b1, b2, (drop_expiration m). split; [|done]. etrans; [|exact Hs].
    eapply rtc_subrel; [|exact Hi]. intros ? ? ?. by left.
Qed.
End serving.

(** ** The broker of Amqp.v satisfies the laws *)

Section queues.
Import Queues.
#[local] Existing Instance broker.
Implicit Types b : t.

Lemma elem_of_targets_inv b ex rk q : q ∈ targets b ex rk -> Queues.bound b ex rk q.
Proof.
  unfold targets. intros ([? ?] & -> & ([[q' ex'] rk'] & [= -> ->] & Hin)%list_elem_of_fmap)%list_elem_of_fmap.
  apply list_elem_of_filter in Hin as [[= -> ->] Hin]. exact Hin.
Qed.

Lemma declare_contents l b : contents (foldl declare b l) = contents b.
Proof. revert b. induction l as [|d l IH]; intros b; [done|]. simpl. rewrite IH. by destruct d. Qed.

Lemma declared_bindings l b q ex rk :
  (q, ex, rk) ∈ bindings (foldl declare b l) -> (q, ex, rk) ∈ bindings b \/ BindQueue q ex rk ∈ l.
Proof.
  revert b. induction l as [|d l IH]; intros b Hin; [by left|]. simpl in Hin.
  apply IH in Hin as [Hin|Hin]; [|right; by right].
  destruct d; simpl in Hin; [by left..|]. apply elem_of_cons in Hin as [[= -> -> ->]|?]; [|by left].
  right. left.
Qed.

Lemma declared_dead_letters l b q dl :
  Queues.dead_letter_to (foldl declare b l) q = Some dl ->
  Queues.dead_letter_to b q = Some dl \/ exists d, AssertQueue q d (Some dl) ∈ l.
Proof.
  revert b. induction l as [|d l IH]; intros b Hd; [by left|]. simpl in Hd.
  apply IH in Hd as [Hd|[d' Hd]]; [|right; exists d'; by right].
  destruct d as [|q' d o|]; simpl in Hd; [by left| |by left].
  unfold Queues.dead_letter_to in *. simpl in Hd.
  destruct (dead_letters b !! q') eqn:Hq; [by left|].
  destruct (decide (q = q')) as [->|Hne]; [|rewrite lookup_insert_ne in Hd by done; by left].
  rewrite lookup_insert_eq in Hd. simpl in Hd. subst o. right. exists d. left.
Qed.

Lemma take_one b q m : (q, m) ∈ contents b -> exists b', Queues.take_message q m b b'.
Proof. intros (l1 & l2 & Hl)%list_elem_of_split. by eexists _, l1, l2. Qed.
End queues.

#[export] Instance queues_serving : @Serving Queues.t Queues.broker.
Proof.
  split; simpl.
  - intros l q m. unfold Queues.in_queue, Queues.declared. rewrite declare_contents.
    apply not_elem_of_nil.
  - intros l ex rk q [Hin|Hin]%declared_bindings; [by apply not_elem_of_nil in Hin|done].
  - intros l q dl [Hd|Hd]%declared_dead_letters; [done|exact Hd].
  - done.
  - by intros q0 m0 b b' ex rk q (? & ? & ? & ->).
  - done.
  - by intros b b' ex rk q (? & ? & ? & ? & ? & ? & ->).
  - intros b ex rk m q m' [?|Hin]%elem_of_app; [by left|].
    apply list_elem_of_fmap in Hin as (q' & [= -> ->] & Hin). right.
    split; [done|]. by apply elem_of_targets_inv.
  - intros q0 m0 b b' q m (l1 & l2 & Hc & ->). unfold Queues.in_queue. rewrite Hc. simpl.
    rewrite !elem_of_app, elem_of_cons. tauto.
  - intros b q0 m0 q m [?|?]%elem_of_cons; [by right|by left].
  - intros b b' q m (l1 & q1 & m1 & l2 & Hc & He & ->). unfold Queues.in_queue. rewrite Hc. simpl.
    rewrite !elem_of_app, elem_of_cons. intros [?|[?|Hin]]; [tauto..|]. right.
    destruct (Queues.dead_letter_to b q1) as [[ex rk]|] eqn:Hd; [|by apply not_elem_of_nil in Hin].
    apply list_elem_of_fmap in Hin as (q' & [= -> ->] & Hin). exists q1, ex, rk.
    split; [done|]. by apply elem_of_targets_inv.
  - intros b q m Hin Hall. pose proof Hin as (l1 & l2 & Hl)%list_elem_of_split.
    eexists. split.
    + apply rtc_once. exists l1, q, m, l2. split; [exact Hl|]. split; [by apply Hall|reflexivity].
    + intros ex rk q' Hd Hb. unfold Queues.in_queue. simpl. rewrite Hd, !elem_of_app. right. right.
      apply (list_elem_of_fmap_2 (fun q' => (q', drop_expiration m))). by apply Queues.elem_of_targets.
  - intros b q m Hin _. destruct (take_one b q m Hin) as [b' Hb]. exists b, b'. by split.
Qed.
