(* ===== verification/Programs.v ===== *)
(** * Asynchronous programs

    The functions of the repository are [async] functions: between two [await]s
    other handlers run.  They are translated into [prog], a tree with one node
    per effect (an SQL statement, a publication, an acknowledgement, a sleep),
    whose continuation receives the value or the error that the effect
    produced; [throw], [try/catch] and [try/finally] are functions on trees.

    Programs are generic in their effects.  A meaning of the effects on a state
    is an instance of [Semantics]; [run] executes a program, [wp] is its
    weakest-precondition logic, and [holds] the logic of which that and the
    logics of other files are instances. *)
From S2P Require Import Prelude.
#[local] Open Scope stdpp_scope.

(** ** Programs over a signature of operations *)

Section prog.
Context {O : Type} {answer : O -> Type}.

Inductive prog (R : Type) : Type :=
| Ret (r : R)
| Throw (e : js_err)
| Vis (o : O) (k : res js_err (answer o) -> prog R).
#[global] Arguments Ret {R} r.
#[global] Arguments Throw {R} e.
#[global] Arguments Vis {R} o k.

(** Continue with a value, propagate a thrown error. *)
Definition of_res {A} (r : res js_err A) : prog A :=
  match r with Ok a => Ret a | Err e => Throw e end.

(** [await op] *)
Definition call (o : O) : prog (answer o) := Vis o of_res.

Fixpoint bind {A B} (p : prog A) (f : A -> prog B) : prog B :=
  match p with
  | Ret a => f a
  | Throw e => Throw e
  | Vis o k => Vis o (fun x => bind (k x) f)
  end.

(** [try { p } catch (e) { h(e) }] *)
Fixpoint try_catch {A} (p : prog A) (h : js_err -> prog A) : prog A :=
  match p with
  | Ret a => Ret a
  | Throw e => h e
  | Vis o k => Vis o (fun x => try_catch (k x) h)
  end.

(** [try { p } finally { q }] *)
Fixpoint try_finally {A} (p : prog A) (q : prog unit) : prog A :=
  match p with
  | Ret a => bind q (fun _ => Ret a)
  | Throw e => bind q (fun _ => Throw e)
  | Vis o k => Vis o (fun x => try_finally (k x) q)
  end.
End prog.
Arguments prog {O} answer R.

Declare Scope prog_scope.
Delimit Scope prog_scope with prog.
Notation "'let!' x ':=' p 'in' q" := (bind p (fun x => q))
  (at level 10, x pattern, p at level 200, q at level 200) : prog_scope.
Notation "p ;;; q" := (bind p (fun _ => q))
  (at level 100, q at level 200, right associativity) : prog_scope.
#[global] Open Scope prog_scope.

(** ** Program logics *)

(** A logic for programs, with states [S]: what has to hold before an effect so
    that what holds of its answer and the next state does. *)
Definition transformer {O} (answer : O -> Type) (S : Type) : Type :=
  S -> forall o, (res js_err (answer o) -> S -> Prop) -> Prop.

Class Monotone {O} {answer : O -> Type} {S} (T : transformer answer S) : Prop :=
  monotone s o (Φ Ψ : res js_err (answer o) -> S -> Prop) :
    (forall x s', Φ x s' -> Ψ x s') -> T s o Φ -> T s o Ψ.

Section logic.
Context {O : Type} {answer : O -> Type} {S : Type} (T : transformer answer S) `{!Monotone T}.

(** From the state [s], the program runs within [T], and its result and last
    state satisfy [Φ]. *)
Fixpoint holds {R} (p : prog answer R) (Φ : res js_err R -> S -> Prop) (s : S) : Prop :=
  match p with
  | Ret r => Φ (Ok r) s
  | Throw e => Φ (Err e) s
  | Vis o k => T s o (fun x s' => holds (k x) Φ s')
  end.

Lemma holds_mono {R} (p : prog answer R) (Φ Ψ : res js_err R -> S -> Prop) s :
  (forall r s, Φ r s -> Ψ r s) -> holds p Φ s -> holds p Ψ s.
Proof.
  intros HΦ. revert s. induction p as [r|e|o k IH]; intros s; simpl; [by apply HΦ..|].
  apply monotone. intros x s'. apply IH.
Qed.

Lemma holds_bind {R R'} (p : prog answer R) (f : R -> prog answer R') Φ s :
  holds p (fun r s' => match r with Ok a => holds (f a) Φ s' | Err e => Φ (Err e) s' end) s ->
  holds (bind p f) Φ s.
Proof.
  revert s. induction p as [r|e|o k IH]; intros s; simpl; [done..|].
  apply monotone. intros x s'. apply IH.
Qed.

Lemma holds_try_catch {R} (p : prog answer R) h Φ s :
  holds p (fun r s' => match r with Ok a => Φ (Ok a) s' | Err e => holds (h e) Φ s' end) s ->
  holds (try_catch p h) Φ s.
Proof.
  revert s. induction p as [r|e|o k IH]; intros s; simpl; [done..|].
  apply monotone. intros x s'. apply IH.
Qed.

Lemma holds_try_finally {R} (p : prog answer R) (q : prog answer unit) Φ s :
  holds p (fun r s' => holds q (fun x s'' =>
      match x with Ok _ => Φ r s'' | Err e => Φ (Err e) s'' end) s') s ->
  holds (try_finally p q) Φ s.
Proof.
  revert s. induction p as [r|e|o k IH]; intros s; simpl.
  - intros Hq. apply holds_bind. eapply holds_mono; [|exact Hq]. by intros [] ?.
  - intros Hq. apply holds_bind. eapply holds_mono; [|exact Hq]. by intros [] ?.
  - apply monotone. intros x s'. apply IH.
Qed.
End logic.

(** ** Execution *)

(** What an effect does to a state of [W], under a choice of the environment. *)
Class Semantics {O} (answer : O -> Type) (C W : Type) : Type :=
  perform : C -> forall o : O, W -> res js_err (answer o) * W.

Section execution.
Context {O : Type} {answer : O -> Type} {C W : Type} `{!Semantics answer C W}.

(** One handler alone, under the choices [cs 0], [cs 1], ... *)
Fixpoint run {R} (p : prog answer R) (cs : nat -> C) (w : W)
  : res js_err R * W * (nat -> C) :=
  match p with
  | Ret r => (Ok r, w, cs)
  | Throw e => (Err e, w, cs)
  | Vis o k => let '(x, w') := perform (cs 0%nat) o w in run (k x) (fun n => cs (S n)) w'
  end.

(** The first [n] effects: what is left of the program, and the state. *)
Fixpoint run_for {R} (n : nat) (p : prog answer R) (cs : nat -> C) (w : W) : prog answer R * W :=
  match n, p with
  | S n, Vis o k =>
      let '(x, w') := perform (cs 0%nat) o w in run_for n (k x) (fun i => cs (S i)) w'
  | _, _ => (p, w)
  end.

(** [wp G p Q w]: whatever the environment chooses within [G], [p] ends, and
    its result and final state satisfy [Q]. *)
Definition wp_step (G : O -> C -> Prop) : transformer answer W := fun w o Q =>
  forall c, G o c -> let '(x, w') := perform c o w in Q x w'.

#[global] Instance wp_step_monotone G : Monotone (wp_step G).
Proof.
  intros w o Q Q' HQ Hw c Hc. specialize (Hw c Hc). destruct (perform c o w). by apply HQ.
Qed.

Definition wp {R} (G : O -> C -> Prop) (p : prog answer R)
    (Q : res js_err R -> W -> Prop) (w : W) : Prop := holds (wp_step G) p Q w.

(** Every failure may happen. *)
Definition any_choice : O -> C -> Prop := fun _ _ => True.

(** Each choice of a run is within [G] for the effect it is made at. *)
Fixpoint conforms {R} (G : O -> C -> Prop) (p : prog answer R) (cs : nat -> C)
    (w : W) : Prop :=
  match p with
  | Vis o k => G o (cs 0%nat) /\
      let '(x, w') := perform (cs 0%nat) o w in conforms G (k x) (fun n => cs (S n)) w'
  | _ => True
  end.

(** The same, of choices that are within [G] for every effect. *)
Definition within (G : O -> C -> Prop) (cs : nat -> C) : Prop :=
  forall n o, G o (cs n).

Lemma within_conforms {R} G (p : prog answer R) cs w : within G cs -> conforms G p cs w.
Proof.
  revert cs w. induction p as [r|e|o k IH]; intros cs w HG; simpl; [done..|].
  split; [apply HG|]. destruct (perform (cs 0%nat) o w). apply IH. intros n. apply HG.
Qed.

Lemma wp_conforms {R} (G : O -> C -> Prop) (p : prog answer R) Q w cs :
  conforms G p cs w -> wp G p Q w -> let '(r, w', _) := run p cs w in Q r w'.
Proof.
  revert cs w. induction p as [r|e|o k IH]; intros cs w HG Hp; simpl in *; [done..|].
  destruct HG as [HG Hr]. specialize (Hp (cs 0%nat) HG).
  destruct (perform (cs 0%nat) o w) as [x w']. by apply IH.
Qed.

Lemma wp_run {R} (G : O -> C -> Prop) (p : prog answer R) Q w cs :
  within G cs -> wp G p Q w -> let '(r, w', _) := run p cs w in Q r w'.
Proof. intros HG. by apply wp_conforms, within_conforms. Qed.

(** A run whose first choice is named. *)
Lemma wp_call_conforms {R} (G : O -> C -> Prop) o (f : answer o -> prog answer R) Q w cs :
  conforms G (bind (call o) f) cs w ->
  match perform (cs 0%nat) o w with
  | (Ok a, w') => wp G (f a) Q w'
  | (Err e, w') => Q (Err e) w'
  end ->
  let '(r, w', _) := run (bind (call o) f) cs w in Q r w'.
Proof.
  simpl. intros [_ HG] Hf. destruct (perform (cs 0%nat) o w) as [[a|e] w']; [|exact Hf].
  by apply (wp_conforms G).
Qed.

Lemma wp_call_first {R} (G : O -> C -> Prop) o (f : answer o -> prog answer R) Q w cs :
  within G cs ->
  match perform (cs 0%nat) o w with
  | (Ok a, w') => wp G (f a) Q w'
  | (Err e, w') => Q (Err e) w'
  end ->
  let '(r, w', _) := run (bind (call o) f) cs w in Q r w'.
Proof. intros HG. by apply wp_call_conforms, within_conforms. Qed.

Lemma wp_mono {R} G (p : prog answer R) (Q Q' : res js_err R -> W -> Prop) w :
  (forall r w, Q r w -> Q' r w) -> wp G p Q w -> wp G p Q' w.
Proof. exact (holds_mono _ p Q Q' w). Qed.

Lemma wp_bind {R S} G (p : prog answer R) (f : R -> prog answer S) Q w :
  wp G p (fun r w' => match r with Ok a => wp G (f a) Q w' | Err e => Q (Err e) w' end) w ->
  wp G (bind p f) Q w.
Proof. exact (holds_bind _ p f Q w). Qed.

Lemma wp_try_catch {R} G (p : prog answer R) h Q w :
  wp G p (fun r w' => match r with Ok a => Q (Ok a) w' | Err e => wp G (h e) Q w' end) w ->
  wp G (try_catch p h) Q w.
Proof. exact (holds_try_catch _ p h Q w). Qed.

Lemma wp_try_finally {R} G (p : prog answer R) (q : prog answer unit) Q w :
  wp G p (fun r w' => wp G q (fun x w'' =>
            match x with Ok _ => Q r w'' | Err e => Q (Err e) w'' end) w') w ->
  wp G (try_finally p q) Q w.
Proof. exact (holds_try_finally _ p q Q w). Qed.

(** One effect at a time. *)
Lemma wp_call {R} G o (f : answer o -> prog answer R) Q w :
  (forall c, G o c ->
     match perform c o w with
     | (Ok a, w') => wp G (f a) Q w'
     | (Err e, w') => Q (Err e) w'
     end) ->
  wp G (bind (call o) f) Q w.
Proof.
  intros Hf c Hc. specialize (Hf c Hc). simpl.
  by destruct (perform c o w) as [[a|e] w'].
Qed.

Lemma wp_call_last G o Q w :
  (forall c, G o c -> let '(r, w') := perform c o w in Q r w') -> wp G (call o) Q w.
Proof.
  intros Hf c Hc. specialize (Hf c Hc). simpl.
  by destruct (perform c o w) as [[a|e] w'].
Qed.

Lemma run_bind {R S} (p : prog answer R) (f : R -> prog answer S) cs w :
  run (bind p f) cs w =
  let '(r, w', cs') := run p cs w in
  match r with Ok a => run (f a) cs' w' | Err e => (Err e, w', cs') end.
Proof.
  revert cs w. induction p as [r|e|o k IH]; intros cs w; simpl; [done..|].
  destruct (perform (cs 0%nat) o w). apply IH.
Qed.
End execution.
