(* ===== verification/Effects.v ===== *)
(** * The effects of the processes

    The signature of effects that the API and the worker have (SQL statements
    through the pool or a client, transactions, publications, settlements,
    clocks, the consumer's error counter), and their meaning on the shared
    state.  One handler is executed by [run], alone and under a sequence of
    environment choices (faults included); [System] interleaves many. *)
From S2P Require Import Prelude Json Postgres Amqp Programs.
#[local] Open Scope stdpp_scope.

(** ** The statements and the effects of the processes *)

Inductive stmt :=
| SGetJobById (id : option string)
| SClaimJob (id : option string) (stale_seconds : Z)
| SMarkCompleted (id : option string)
| SMarkFailed (id : option string) (errorMessage : string)
| SMarkRetrying (id : option string) (errorMessage : string)
| SMarkDeadLettered (id : option string) (errorMessage : string)
| SInsertJob (type : string) (payload : json)
| SListRecentJobs
| SClaimReplay (id : option string)
| SInsertOutboxEvent (job_id : option string)
| SClaimPendingEvents (batch : nat) (stale_seconds : Z)
| SMarkOutboxPublished (id : option string)
| SMarkOutboxFailed (id : option string) (errorMessage : string)
| SCountPending
| SStats
| SJobChangesSince (since_ms : Z)
| SNow
| SSelectOne.                            (* SELECT 1 *)

(** [result.rows], typed as the code types it. *)
Definition stmt_rows (s : stmt) : Type :=
  match s with
  | SInsertOutboxEvent _ | SMarkOutboxPublished _ | SMarkOutboxFailed _ _ => unit
  | SClaimPendingEvents _ _ => list OutboxEvent
  | SCountPending | SNow | SSelectOne => list Z
  | SStats => list StatsRow
  | SListRecentJobs => list RecentJob
  | SJobChangesSince _ => list JobChange
  | _ => list Job
  end.

Inductive op :=
| Query (s : stmt)                       (* pool.query *)
| ClientQuery (s : stmt)                 (* client.query inside a transaction *)
| TxConnect | TxBegin | TxCommit | TxRollback | TxRelease
| GetChannel                            (* its declarations are there already *)
| CheckQueue (queue : string)           (* channel.checkQueue *)
| Publish (exchange routing_key : string) (m : message)
| Ack (tag : nat)
| Nack (tag : nat) (all_up_to requeue : bool)
| Sleep (ms : Q)
| DateNow
| ErrCountIncr                           (* dbErrorCount += 1, and its value *)
| ErrCountReset.                         (* dbErrorCount = 0 *)

Definition answer (o : op) : Type :=
  match o with
  | Query s | ClientQuery s => stmt_rows s
  | Publish _ _ _ => bool
  | DateNow | ErrCountIncr => Z
  | _ => unit
  end.

Abbreviation async := (prog answer).

Definition await (o : op) : async (answer o) := call o.

(** ** What the environment chooses at each effect *)

Record choice := mkChoice {
  ch_now : Z;                       (* PostgreSQL's now(), in microseconds *)
  ch_uuid : string;                 (* gen_random_uuid() *)
  ch_locked : gset string;          (* outbox rows other transactions hold *)
  ch_order : nat;                   (* the order of rows that SQL leaves open *)
  ch_date_ms : Z;                   (* Date.now() *)
  ch_published : bool;              (* what channel.publish returns: [false], the
                                       write buffer is full; it is sent all the same *)
  ch_stored : bool;                 (* whether the broker gets the message *)
  ch_fault : option (bool * js_err) (* a failure, after the effect if [true] *)
}.

(** ** The state *)

Record world (B : Type) := mkWorld {
  w_db : db;
  w_tx : option db;                 (* an open transaction: the state at BEGIN *)
  w_broker : B;
  w_unacked : gmap nat message;     (* deliveries not settled, by delivery tag *)
  w_err_count : Z;                  (* dbErrorCount *)
  w_log : list (op * bool)          (* the effects so far; [false]: it threw *)
}.
Arguments mkWorld {B}.
Arguments w_db {B}.
Arguments w_tx {B}.
Arguments w_broker {B}.
Arguments w_unacked {B}.
Arguments w_err_count {B}.
Arguments w_log {B}.

Section semantics.
Context `{Pg} {B : Type} `{Broker B}.

Definition exec (c : choice) (s : stmt) (d : db) : res js_err (stmt_rows s * db) :=
  match s with
  | SGetJobById id => select_job_by_id id d
  | SClaimJob id stale => update_claim_job (ch_now c) id stale d
  | SMarkCompleted id => update_mark_completed (ch_now c) id d
  | SMarkFailed id m => update_mark_failed (ch_now c) id m d
  | SMarkRetrying id m => update_mark_retrying (ch_now c) id m d
  | SMarkDeadLettered id m => update_mark_dead_lettered (ch_now c) id m d
  | SInsertJob type payload => insert_job (ch_now c) (ch_uuid c) type payload d
  | SListRecentJobs => Ok (select_recent_jobs (ch_order c) d, d)
  | SClaimReplay id => update_claim_replay (ch_now c) id d
  | SInsertOutboxEvent id => insert_outbox_event (ch_now c) (ch_uuid c) id d
  | SClaimPendingEvents n stale =>
      Ok (update_claim_events (ch_order c) (ch_now c) (ch_locked c) n stale d)
  | SMarkOutboxPublished id => update_outbox_published (ch_now c) id d
  | SMarkOutboxFailed id m => update_outbox_failed id m d
  | SCountPending => Ok ([count_pending d], d)
  | SStats => Ok ([select_stats d], d)
  | SJobChangesSince since => Ok (select_job_changes (ch_order c) since d, d)
  | SNow => Ok ([ch_now c], d)
  | SSelectOne => Ok ([1], d)
  end.

Definition with_db (d : db) (w : world B) : world B :=
  mkWorld d (w_tx w) (w_broker w) (w_unacked w) (w_err_count w) (w_log w).
Definition with_tx (t : option db) (w : world B) : world B :=
  mkWorld (w_db w) t (w_broker w) (w_unacked w) (w_err_count w) (w_log w).
Definition with_broker (b : B) (w : world B) : world B :=
  mkWorld (w_db w) (w_tx w) b (w_unacked w) (w_err_count w) (w_log w).
Definition with_unacked (u : gmap nat message) (w : world B) : world B :=
  mkWorld (w_db w) (w_tx w) (w_broker w) u (w_err_count w) (w_log w).
Definition with_err_count (n : Z) (w : world B) : world B :=
  mkWorld (w_db w) (w_tx w) (w_broker w) (w_unacked w) n (w_log w).
Definition with_log (l : list (op * bool)) (w : world B) : world B :=
  mkWorld (w_db w) (w_tx w) (w_broker w) (w_unacked w) (w_err_count w) l.

(** amqplib throws on a channel that is closed. *)
Definition channel_closed : js_err :=
  JsErr CError "IllegalOperationError" "Channel closed" None [].

(** The open transaction is undone. *)
Definition rolled_back (w : world B) : world B :=
  match w_tx w with
  | Some d => with_tx None (with_db d w)
  | None => w
  end.

(** The effect itself: its answer and the state after it, or its error. *)
Definition effect (c : choice) (o : op) (w : world B) : res js_err (answer o * world B) :=
  match o with
  | Query s | ClientQuery s =>
      match exec c s (w_db w) with
      | Ok (r, d) => Ok (r, with_db d w)
      | Err e => Err e
      end
  | TxConnect => Ok (tt, w)
  | TxBegin =>
      (* inside a transaction BEGIN is a warning *)
      Ok (tt, match w_tx w with Some _ => w | None => with_tx (Some (w_db w)) w end)
  | TxCommit => Ok (tt, with_tx None w)
  | TxRollback => Ok (tt, rolled_back w)
  | TxRelease => Ok (tt, w)   (* the client goes back to the pool as it is *)
  | GetChannel | CheckQueue _ => Ok (tt, w)
  | Publish ex rk m =>
      Ok (ch_published c,
          if ch_stored c then with_broker (publish ex rk m (w_broker w)) w else w)
  | Ack tag =>
      match w_unacked w !! tag with
      | Some m => Ok (tt, with_unacked (delete tag (w_unacked w)) w)
      | None => Err channel_closed
      end
  | Nack tag _ again =>
      match w_unacked w !! tag with
      | Some m =>
          Ok (tt, with_unacked (delete tag (w_unacked w))
                    (if again
                     then with_broker (requeue QUEUE_NAME m (w_broker w)) w
                     else w))
      | None => Err channel_closed
      end
  | Sleep _ => Ok (tt, w)
  | DateNow => Ok (ch_date_ms c, w)
  | ErrCountIncr => Ok (w_err_count w + 1, with_err_count (w_err_count w + 1) w)
  | ErrCountReset => Ok (tt, with_err_count 0 w)
  end.

(** Effects that cannot fail: timers, clocks, variables, giving a client back. *)
Definition infallible (o : op) : bool :=
  match o with
  | TxRelease | Sleep _ | DateNow | ErrCountIncr | ErrCountReset => true
  | _ => false
  end.

(** Effects that may be carried out although the caller sees an error: a
    statement whose answer is lost. *)
Definition may_execute_and_fail (o : op) : bool :=
  match o with
  | Query _ | ClientQuery _ | TxBegin | TxCommit => true
  | _ => false
  end.

(** What a failed effect has done.  ROLLBACK fails only when its connection is
    lost, and then PostgreSQL rolls back. *)
Definition carried_out (executed : bool) (o : op) : bool :=
  match o with TxRollback => true | _ => executed && may_execute_and_fail o end.

Definition log_op (o : op) (ok : bool) (w : world B) : world B :=
  with_log (w_log w ++ [(o, ok)]) w.

Definition handle (c : choice) (o : op) (w : world B) : res js_err (answer o) * world B :=
  match ch_fault c, infallible o with
  | Some (executed, e), false =>
      (Err e, log_op o false
                (if carried_out executed o
                 then match effect c o w with Ok (_, w') => w' | Err _ => w end
                 else w))
  | _, _ =>
      match effect c o w with
      | Ok (a, w') => (Ok a, log_op o true w')
      | Err e => (Err e, log_op o false w)
      end
  end.

#[global] Instance world_semantics : Semantics answer choice (world B) := handle.

(** Nothing fails, and publications are accepted, at instants of [lo, hi]. *)
Definition healthy (lo hi : Z) : op -> choice -> Prop := fun _ c =>
  ch_fault c = None /\ ch_published c = true /\ ch_stored c = true
  /\ lo <= ch_now c <= hi.

(** One effect of the world at a time. *)
Lemma wp_op {R} G o (f : answer o -> async R) Q w :
  (forall c, G o c ->
     match handle c o w with
     | (Ok a, w') => wp G (f a) Q w'
     | (Err e, w') => Q (Err e) w'
     end) ->
  wp G (bind (await o) f) Q w.
Proof. exact (wp_call G o f Q w). Qed.

Lemma wp_op_last G o Q w :
  (forall c, G o c -> let '(r, w') := handle c o w in Q r w') -> wp G (await o) Q w.
Proof. exact (wp_call_last G o Q w). Qed.


Lemma run_first {R} (G : op -> choice -> Prop) o (f : answer o -> async R) Q w cs :
  within G cs ->
  match handle (cs 0%nat) o w with
  | (Ok a, w') => wp G (f a) Q w'
  | (Err e, w') => Q (Err e) w'
  end ->
  let '(r, w', _) := run (bind (await o) f) cs w in Q r w'.
Proof. exact (wp_call_first G o f Q w cs). Qed.

Lemma run_conforms {R} (G : op -> choice -> Prop) o (f : answer o -> async R) Q w cs :
  conforms G (bind (await o) f) cs w ->
  match handle (cs 0%nat) o w with
  | (Ok a, w') => wp G (f a) Q w'
  | (Err e, w') => Q (Err e) w'
  end ->
  let '(r, w', _) := run (bind (await o) f) cs w in Q r w'.
Proof. exact (wp_call_conforms G o f Q w cs). Qed.
End semantics.
