(* ===== verification/Retry.v ===== *)
(** * Back-off and claim policies

    apps/worker/src/retry/retryPolicy.ts, apps/worker/src/retry/claimPolicy.ts,
    and the delay of apps/worker/src/consumer.ts before a requeue. *)
From S2P Require Import Prelude.

Definition STALE_PROCESSING_THRESHOLD_SECONDS : Z := 60.

Definition BASE_DELAY_MS : Z := 2000.
Definition MULTIPLIER : Z := 2.
Definition MAX_DELAY_MS : Z := 20000.

(** [attempt_count] is an INT column: the exponent is a natural number, and the
    products and powers below 2^53 are exact; beyond, the double (or Infinity)
    is above [MAX_DELAY_MS] like the integer. *)
Definition calculateBackoffMs (attemptCount : Z) : Z :=
  let delay := BASE_DELAY_MS * MULTIPLIER ^ Z.max (attemptCount - 1) 0 in
  Z.min delay MAX_DELAY_MS.

Definition DB_ERROR_BASE_DELAY_MS : Z := 1000.
Definition DB_ERROR_MAX_DELAY_MS : Z := 30000.

(** The exponent may be negative here ([2 ** -1] is 0.5): a rational. *)
Definition computeDbErrorBackoffMs (consecutiveErrors : Z) : Q :=
  Qmin (inject_Z DB_ERROR_BASE_DELAY_MS * Qpower 2 (consecutiveErrors - 1))
       (inject_Z DB_ERROR_MAX_DELAY_MS).

(** ** The retry delay *)

Lemma pow2_ge_1 n : 0 <= n -> 1 <= 2 ^ n.
Proof. intros. pose proof (Z.pow_pos_nonneg 2 n). lia. Qed.

Lemma calculateBackoffMs_first n : n <= 1 -> calculateBackoffMs n = BASE_DELAY_MS.
Proof. intros. unfold calculateBackoffMs. rewrite Z.max_r by lia. done. Qed.

(** Doubling with a ceiling, as a recurrence. *)
Lemma calculateBackoffMs_succ n :
  1 <= n -> calculateBackoffMs (n + 1) = Z.min (2 * calculateBackoffMs n) MAX_DELAY_MS.
Proof.
  intros. unfold calculateBackoffMs, BASE_DELAY_MS, MULTIPLIER, MAX_DELAY_MS.
  rewrite !Z.max_l by lia. replace (n + 1 - 1) with (Z.succ (n - 1)) by lia.
  rewrite Z.pow_succ_r by lia. pose proof (pow2_ge_1 (n - 1)). lia.
Qed.

Lemma calculateBackoffMs_range n :
  BASE_DELAY_MS <= calculateBackoffMs n <= MAX_DELAY_MS.
Proof.
  unfold calculateBackoffMs, BASE_DELAY_MS, MULTIPLIER, MAX_DELAY_MS.
  pose proof (pow2_ge_1 (Z.max (n - 1) 0)). lia.
Qed.

Lemma calculateBackoffMs_mono m n : m <= n -> calculateBackoffMs m <= calculateBackoffMs n.
Proof.
  intros. unfold calculateBackoffMs, BASE_DELAY_MS, MULTIPLIER.
  assert (2 ^ Z.max (m - 1) 0 <= 2 ^ Z.max (n - 1) 0) by (apply Z.pow_le_mono_r; lia).
  lia.
Qed.

(** From the fifth attempt on the ceiling is reached. *)
Lemma calculateBackoffMs_ceiling n : calculateBackoffMs n = MAX_DELAY_MS <-> 5 <= n.
Proof.
  split.
  - intros Hc. destruct (Z.le_gt_cases 5 n) as [|Hlt]; [done|].
    assert (calculateBackoffMs n <= calculateBackoffMs 4) as Hm
      by (apply calculateBackoffMs_mono; lia).
    rewrite Hc in Hm. by vm_compute in Hm.
  - intros Hn. apply (calculateBackoffMs_mono 5) in Hn.
    change (calculateBackoffMs 5) with MAX_DELAY_MS in Hn.
    pose proof (calculateBackoffMs_range n). lia.
Qed.

(** ** The delay before a requeue *)

Lemma computeDbErrorBackoffMs_Z n :
  1 <= n ->
  computeDbErrorBackoffMs n ==
  inject_Z (Z.min (DB_ERROR_BASE_DELAY_MS * 2 ^ (n - 1)) DB_ERROR_MAX_DELAY_MS).
Proof.
  intros Hn. unfold computeDbErrorBackoffMs.
  assert (Qpower 2 (n - 1) == inject_Z (2 ^ (n - 1))) as ->.
  { change 2%Q with (inject_Z 2). rewrite Zpower_Qpower; [reflexivity|lia]. }
  rewrite <- inject_Z_mult.
  destruct (Z.le_gt_cases (DB_ERROR_BASE_DELAY_MS * 2 ^ (n - 1)) DB_ERROR_MAX_DELAY_MS).
  - rewrite Z.min_l by lia. apply Q.min_l. by rewrite <- Zle_Qle.
  - rewrite Z.min_r by lia. apply Q.min_r. rewrite <- Zle_Qle. lia.
Qed.

Lemma computeDbErrorBackoffMs_range n :
  1 <= n ->
  (inject_Z DB_ERROR_BASE_DELAY_MS <= computeDbErrorBackoffMs n
   <= inject_Z DB_ERROR_MAX_DELAY_MS)%Q.
Proof.
  intros Hn. rewrite (computeDbErrorBackoffMs_Z n Hn), <- !Zle_Qle.
  unfold DB_ERROR_BASE_DELAY_MS, DB_ERROR_MAX_DELAY_MS.
  pose proof (pow2_ge_1 (n - 1)). lia.
Qed.
