(* ===== verification/Worker.v ===== *)
(** * The worker: its job service, processor, publishers and message handler

    apps/worker/src/services/jobService.ts, processors/, queue/retryPublisher.ts
    and the handler that consumer.ts passes to [channel.consume].  Log calls are
    left out: they change no state.  The job id of a message is whatever JSON
    value its body holds, [None] when it holds none ([undefined]). *)
From stdpp Require Import pretty.
From S2P Require Import Prelude Json Postgres Amqp Programs Effects Retry.
#[local] Open Scope stdpp_scope.

(** [String(v)] of a parsed JSON value, as template literals apply it. *)
Fixpoint js_String (v : json) : string :=
  match v with
  | JNull => "null"
  | JBool b => if b then "true" else "false"
  | JNum text => text
  | JStr s => s
  | JArr l =>
      (fix join (l : list json) : string :=
         match l with
         | [] => ""
         | [x] => match x with JNull => "" | _ => js_String x end
         | x :: r => match x with JNull => "" | _ => js_String x end +:+ "," +:+ join r
         end) l
  | JObj _ => "[object Object]"
  end.

Definition id_String (v : option json) : string :=
  match v with Some v => js_String v | None => "undefined" end.

Section services.
Context `{Pg}.

(** ** services/jobService.ts *)

Definition getJobById (id : option json) : async (option Job) :=
  let! rows := await (Query (SGetJobById (pg_param id))) in
  Ret (head rows).

Definition claimJob (id : option json) : async (option Job) :=
  let! rows := await (Query (SClaimJob (pg_param id) STALE_PROCESSING_THRESHOLD_SECONDS)) in
  Ret (head rows).

(** [const job = result.rows[0]; if (!job) throw new Error(..); return job;] *)
Definition first_row_or_throw (rows : list Job) (message : string) : async Job :=
  match head rows with
  | Some job => Ret job
  | None => Throw (mk_error message)
  end.

Definition markCompleted (id : option json) : async Job :=
  let! rows := await (Query (SMarkCompleted (pg_param id))) in
  first_row_or_throw rows
    ("markCompleted: job " +:+ id_String id +:+ " not found or not in PROCESSING state").

Definition markFailed (id : option json) (errorMessage : string) : async Job :=
  let! rows := await (Query (SMarkFailed (pg_param id) errorMessage)) in
  first_row_or_throw rows ("markFailed: job " +:+ id_String id +:+ " not found").

Definition markRetrying (id : option json) (errorMessage : string) : async Job :=
  let! rows := await (Query (SMarkRetrying (pg_param id) errorMessage)) in
  first_row_or_throw rows
    ("markRetrying: job " +:+ id_String id +:+ " not found or not in PROCESSING state").

Definition markDeadLettered (id : option json) (errorMessage : string) : async Job :=
  let! rows := await (Query (SMarkDeadLettered (pg_param id) errorMessage)) in
  first_row_or_throw rows
    ("markDeadLettered: job " +:+ id_String id +:+ " not found or not in PROCESSING state").

(** ** processors/ *)

Definition NonRetryableError (message : string) : js_err :=
  JsErr CNonRetryable "NonRetryableError" message None [].

Definition quoted (s : string) : string := String DQUOTE s +:+ String DQUOTE "".

(** [job.payload?.key === true] *)
Definition payload_flag (key : string) (payload : json) : bool :=
  match get_prop key payload with Some (JBool true) => true | _ => false end.

Definition processJob (job : Job) : async unit :=
  if payload_flag "shouldFailPermanently" (j_payload job) then
    Throw (NonRetryableError
             ("Simulated non-retryable failure for job type " +:+ quoted (j_type job)))
  else if payload_flag "shouldFail" (j_payload job) then
    Throw (mk_error ("Simulated failure for job type " +:+ quoted (j_type job)))
  else await (Sleep 200).

(** ** queue/retryPublisher.ts *)

(** [JSON.stringify({ jobId })]: a member that is [undefined] is left out. *)
Definition job_message (jobId : option json) : string :=
  stringify (JObj match jobId with Some v => [("jobId", v)] | None => [] end).

Definition publishRetry (jobId : option json) (delayMs : Z) : async unit :=
  await GetChannel ;;;
  let! published := await (Publish FAILURES_EXCHANGE_NAME RETRY_ROUTING_KEY
                            (mkMessage (job_message jobId) true (Some (pretty delayMs)))) in
  if published then Ret tt
  else Throw (mk_error ("Failed to publish retry message for job " +:+ id_String jobId
                        +:+ ": channel buffer full or closed")).

Definition publishDeadLetter (jobId : option json) : async unit :=
  await GetChannel ;;;
  let! published := await (Publish FAILURES_EXCHANGE_NAME DLQ_ROUTING_KEY
                            (mkMessage (job_message jobId) true None)) in
  if published then Ret tt
  else Throw (mk_error ("Failed to publish dead-letter message for job " +:+ id_String jobId
                        +:+ ": channel buffer full or closed")).

(** ** consumer.ts *)

Definition isInvalidTextRepresentationError (err : js_err) : bool :=
  match err with
  | JsErr _ _ _ (Some code) _ => String.eqb code "22P02"
  | _ => false
  end.

Definition backoffBeforeRequeue : async unit :=
  let! dbErrorCount := await ErrCountIncr in
  await (Sleep (computeDbErrorBackoffMs dbErrorCount)).

(** [const { jobId } = content]: destructuring [null] throws. *)
Definition message_job_id (content : json) : res js_err (option json) :=
  match content with
  | JNull => Err (JsErr CError "TypeError"
                   "Cannot destructure property 'jobId' of 'content' as it is null."
                   None [])
  | _ => Ok (get_prop "jobId" content)
  end.

(** TEST-ONLY wait until a shared target time; 0 disables it. *)
Definition wait_for_claim_test (target_epoch_ms : Z) : async unit :=
  if 0 <? target_epoch_ms then
    let! now := await DateNow in
    let waitMs := target_epoch_ms - now in
    if 0 <? waitMs then await (Sleep (inject_Z waitMs)) else Ret tt
  else Ret tt.

(** The claim, up to the early returns: [None] when the handler returned. *)
Definition claim_or_settle (tag : nat) (jobId : option json) : async (option Job) :=
  try_catch
    (let! job := claimJob jobId in
     await ErrCountReset ;;;
     match job with
     | None =>
         try_catch (getJobById jobId) (fun _ => Ret None) ;;;
         await (Ack tag) ;;;
         Ret None
     | Some job =>
         await DateNow ;;;                                (* claimedAt *)
         Ret (Some job)
     end)
    (fun dbErr =>
       if isInvalidTextRepresentationError dbErr then
         await (Ack tag) ;;; Ret None
       else
         backoffBeforeRequeue ;;;
         await (Nack tag false true) ;;;
         Ret None).

(** [processingErr], or [None] when [processingSucceeded]. *)
Definition execute_job (job : Job) : async (option js_err) :=
  try_catch (processJob job ;;; Ret None) (fun err => Ret (Some err)).

Definition record_completion (tag : nat) (jobId : option json) : async unit :=
  try_catch
    (markCompleted jobId ;;;
     await DateNow ;;;                                    (* durationMs *)
     await (Ack tag))
    (fun bookkeepingErr =>
       backoffBeforeRequeue ;;;
       await (Nack tag false true)).

(** [processingErr instanceof Error ? processingErr.message : String(processingErr)] *)
Definition error_message (err : js_err) : string :=
  match err with
  | JsErr _ _ message _ _ => message
  | JsThrown text => text
  end.

Definition is_non_retryable (err : js_err) : bool :=
  match err with JsErr CNonRetryable _ _ _ _ => true | _ => false end.

Definition record_failure (tag : nat) (jobId : option json) (job : Job)
    (processingErr : js_err) : async unit :=
  let message := error_message processingErr in
  let nonRetryable := is_non_retryable processingErr in
  let exhausted := j_max_attempts job <=? j_attempt_count job in
  await DateNow ;;;                                       (* durationMs *)
  let! recorded :=
    try_catch
      ((if nonRetryable then
          markDeadLettered jobId message ;;; publishDeadLetter jobId
        else if exhausted then
          markDeadLettered jobId message ;;; publishDeadLetter jobId
        else
          let delayMs := calculateBackoffMs (j_attempt_count job) in
          markRetrying jobId message ;;; publishRetry jobId delayMs) ;;;
       Ret true)
      (fun dbOrPublishErr =>
         backoffBeforeRequeue ;;;
         await (Nack tag false true) ;;;
         Ret false) in
  if recorded then await (Ack tag) else Ret tt.

(** The handler given to [channel.consume]: [None] when the broker cancelled
    the consumer, else the delivery tag and [msg.content.toString()]. *)
Definition on_message (CLAIM_TEST_SYNC_EPOCH_MS : Z) (msg : option (nat * string))
  : async unit :=
  match msg with
  | None => Ret tt
  | Some (tag, text) =>
      match JSON_parse text with
      | None => await (Ack tag)
      | Some content =>
          let! jobId := of_res (message_job_id content) in
          wait_for_claim_test CLAIM_TEST_SYNC_EPOCH_MS ;;;
          let! claimed := claim_or_settle tag jobId in
          match claimed with
          | None => Ret tt
          | Some job =>
              let! processingErr := execute_job job in
              match processingErr with
              | None => record_completion tag jobId
              | Some err => record_failure tag jobId job err
              end
          end
      end
  end.
End services.
