(* ===== verification/Api.v ===== *)
(** * The API's job service, transactions and outbox

    apps/api/src/db/withTransaction.ts, services/jobService.ts,
    services/statsService.ts, outbox/outboxService.ts, outbox/dispatcher.ts and
    queue/publisher.ts. *)
From S2P Require Import Prelude Json Postgres Amqp Programs Effects.
#[local] Open Scope stdpp_scope.

Section api.
Context `{Pg}.

(** A string as a query parameter. *)
Definition text_param (s : string) : option string := pg_param (Some (JStr s)).

(** ** db/withTransaction.ts *)

Definition withTransaction {T} (fn : async T) : async T :=
  await TxConnect ;;;
  try_finally
    (try_catch
       (await TxBegin ;;;
        let! result := fn in
        await TxCommit ;;;
        Ret result)
       (fun err =>
          await TxRollback ;;;
          Throw err))
    (await TxRelease).

(** ** outbox/outboxService.ts *)

Definition STALE_CLAIM_THRESHOLD_SECONDS : Z := 30.

Definition insertOutboxEvent (jobId : string) : async unit :=
  await (ClientQuery (SInsertOutboxEvent (text_param jobId))).

Definition claimPendingOutboxEvents (batchSize : nat) : async (list OutboxEvent) :=
  await (Query (SClaimPendingEvents batchSize STALE_CLAIM_THRESHOLD_SECONDS)).

Definition markOutboxPublished (id : string) : async unit :=
  await (Query (SMarkOutboxPublished (text_param id))).

Definition markOutboxFailed (id : string) (errorMessage : string) : async unit :=
  await (Query (SMarkOutboxFailed (text_param id) errorMessage)).

(** [Number(result.rows[0]?.count ?? 0)] *)
Definition countPendingOutboxEvents : async Z :=
  let! rows := await (Query SCountPending) in
  Ret (default 0 (head (rows : list Z))).

(** ** services/jobService.ts *)

(** [CreateJobInput], what [createJobSchema] lets through. *)
Record CreateJobInput := mkInput { in_type : string; in_payload : json }.

Definition createJob (input : CreateJobInput) : async Job :=
  withTransaction
    (let! rows := await (ClientQuery (SInsertJob (in_type input) (in_payload input))) in
     match head (rows : list Job) with
     | None => Throw (mk_error "Failed to create job: no row returned from INSERT")
     | Some job =>
         insertOutboxEvent (j_id job) ;;;
         Ret job
     end).

Definition api_getJobById (id : string) : async (option Job) :=
  let! rows := await (Query (SGetJobById (text_param id))) in
  Ret (head (rows : list Job)).

Definition listRecentJobs : async (list RecentJob) := await (Query SListRecentJobs).

Definition claimReplay (id : string) : async (option Job) :=
  withTransaction
    (let! rows := await (ClientQuery (SClaimReplay (text_param id))) in
     match head (rows : list Job) with
     | None => Ret None
     | Some job =>
         insertOutboxEvent (j_id job) ;;;
         Ret (Some job)
     end).

(** ** services/statsService.ts *)

Record JobStats := mkStats {
  totalJobs : Z;
  byStatus : list (string * Z);
  totalReplays : Z;
  totalAttempts : Z;
  pendingOutboxEvents : Z }.

Definition getStats : async JobStats :=
  let! rows := await (Query SStats) in
  match head (rows : list StatsRow) with
  | None => Throw (mk_error "getStats: no row returned from aggregate query")
  | Some row =>
      Ret (mkStats (total_jobs row)
             [ ("QUEUED", queued row); ("PROCESSING", processing row);
               ("COMPLETED", completed row); ("FAILED", failed row);
               ("RETRYING", retrying row); ("DEAD_LETTERED", dead_lettered row) ]
             (total_replays row) (total_attempts row) (pending_outbox_events row))
  end.

(** ** queue/publisher.ts *)

Definition job_created_message (jobId : string) : string :=
  stringify (JObj [("jobId", JStr jobId)]).

Definition publishJobCreated (jobId : string) : async unit :=
  await GetChannel ;;;
  let! published := await (Publish EXCHANGE_NAME ROUTING_KEY
                             (mkMessage (job_created_message jobId) true None)) in
  if published then Ret tt
  else Throw (mk_error "Failed to publish job message: channel buffer full or closed").

(** ** outbox/dispatcher.ts *)

Definition BATCH_SIZE : nat := 10.

(** [e instanceof Error ? e.message : String(e)] *)
Definition nested_message (e : js_err) : string :=
  match e with JsErr _ _ message _ _ => message | JsThrown text => text end.

Definition join (sep : string) (l : list string) : string :=
  match l with [] => "" | x :: r => foldl (fun a y => a +:+ sep +:+ y) x r end.

(** The text recorded in [last_error]. *)
Definition dispatch_error_message (err : js_err) : string :=
  match err with
  | JsErr CAggregate _ _ _ (_ :: _ as errors) => join "; " (nested_message <$> errors)
  | JsErr _ name message _ _ =>
      if String.eqb message "" then
        if String.eqb name "" then js_err_String err else name
      else message
  | JsThrown text => text
  end.

(** One iteration of the loop: [true] when [published] was incremented,
    [false] when [failed] was. *)
Definition dispatch_event (event : OutboxEvent) : async bool :=
  try_catch
    (publishJobCreated (ev_job_id event) ;;;
     markOutboxPublished (ev_id event) ;;;
     Ret true)
    (fun err =>
       markOutboxFailed (ev_id event) (dispatch_error_message err) ;;;
       Ret false).

Fixpoint dispatch_events (claimed : list OutboxEvent) (published failed : Z)
  : async (Z * Z) :=
  match claimed with
  | [] => Ret (published, failed)
  | event :: claimed =>
      let! ok := dispatch_event event in
      if ok then dispatch_events claimed (published + 1) failed
      else dispatch_events claimed published (failed + 1)
  end.

Record DispatchResult := mkDispatch {
  d_attempted : Z; d_published : Z; d_failed : Z }.

Definition dispatchOutboxBatch : async DispatchResult :=
  let! claimed := claimPendingOutboxEvents BATCH_SIZE in
  let! counts := dispatch_events claimed 0 0 in
  Ret (mkDispatch (Z.of_nat (List.length claimed)) counts.1 counts.2).
End api.
