(* ===== verification/Lifecycle.v ===== *)
(** * What the statements may do to the tables

    The life cycle of a job (the transitions that the statements of both
    services can make), the invariant of the rows that they keep, and the
    exclusivity of the conditional claims. *)
From S2P Require Import Prelude Json Postgres Amqp Programs Effects Retry Api.
#[local] Open Scope stdpp_scope.

(** ** The life cycle *)

(** [status -> status] edges of the conditional UPDATEs. *)
Definition status_edge (s s' : Status) : bool :=
  match s, s' with
  | (QUEUED | RETRYING | PROCESSING), PROCESSING => true       (* claimJob *)
  | PROCESSING, (COMPLETED | RETRYING | DEAD_LETTERED) => true (* mark* *)
  | DEAD_LETTERED, QUEUED => true                              (* claimReplay *)
  | _, _ => false
  end.

(** The columns that no statement changes. *)
Definition same_identity (j j' : Job) : Prop :=
  j_id j' = j_id j /\ j_type j' = j_type j /\ j_payload j' = j_payload j
  /\ j_max_attempts j' = j_max_attempts j /\ j_created_at j' = j_created_at j.

(** The counters, by the status that is entered. *)
Definition counters_step (j j' : Job) : Prop :=
  match j_status j' with
  | PROCESSING =>
      j_attempt_count j' = j_attempt_count j + 1
      /\ j_total_attempt_count j' = j_total_attempt_count j + 1
      /\ j_replay_count j' = j_replay_count j
  | QUEUED =>
      j_attempt_count j' = 0
      /\ j_total_attempt_count j' = j_total_attempt_count j
      /\ j_replay_count j' = j_replay_count j + 1
  | _ =>
      j_attempt_count j' = j_attempt_count j
      /\ j_total_attempt_count j' = j_total_attempt_count j
      /\ j_replay_count j' = j_replay_count j
  end.

(** The dead-letter record: written on entering DEAD_LETTERED, else kept. *)
Definition history_step (j j' : Job) : Prop :=
  match j_status j' with
  | DEAD_LETTERED =>
      j_last_dead_lettered_at j' = Some (j_updated_at j')
      /\ j_last_dead_letter_reason j' = j_last_error j'
  | _ =>
      j_last_dead_lettered_at j' = j_last_dead_lettered_at j
      /\ j_last_dead_letter_reason j' = j_last_dead_letter_reason j
  end.

Definition legal_step (j j' : Job) : Prop :=
  status_edge (j_status j) (j_status j') = true
  /\ same_identity j j' /\ counters_step j j' /\ history_step j j'.

(** Every job of [d] is still there, unchanged or after legal steps. *)
Definition job_evolves : Job -> Job -> Prop := rtc legal_step.

Definition db_evolves (d d' : db) : Prop :=
  forall u j, jobs d !! u = Some j -> exists j', jobs d' !! u = Some j' /\ job_evolves j j'.

#[export] Instance db_evolves_preorder : PreOrder db_evolves.
Proof.
  split.
  - intros d u j Hj. exists j. split; [done|]. apply rtc_refl.
  - intros d1 d2 d3 H12 H23 u j Hj.
    destruct (H12 u j Hj) as (j2 & Hj2 & He2). destruct (H23 u j2 Hj2) as (j3 & Hj3 & He3).
    exists j3. split; [done|]. by etrans.
Qed.

(** ** The invariant of the rows *)

Section rows.
Context `{Pg}.

Record job_row_ok (u : string) (j : Job) : Prop := {
  row_id : j_id j = u;
  row_canonical : canonical u;
  row_attempts : 0 <= j_attempt_count j <= j_total_attempt_count j;
  row_total : j_total_attempt_count j <= INT4_MAX;
  row_replays : 0 <= j_replay_count j <= INT4_MAX;
  row_history : j_status j = DEAD_LETTERED -> j_last_dead_lettered_at j <> None }.

Record event_row_ok (d : db) (u : string) (e : OutboxEvent) : Prop := {
  event_id : ev_id e = u;
  event_canonical : canonical u;
  event_job : is_Some (jobs d !! ev_job_id e);
  event_attempts : 0 <= ev_attempts e <= INT4_MAX }.

Record wf_db (d : db) : Prop := {
  wf_jobs : map_Forall job_row_ok (jobs d);
  wf_events : map_Forall (event_row_ok d) (outbox d) }.

(** ** The conditional UPDATE of one row *)

Lemma int4_succ_Some n m : int4_succ n = Some m <-> m = n + 1 /\ n + 1 <= INT4_MAX.
Proof. unfold int4_succ. case_match; split; intros Hn; simplify_eq; try lia.
  destruct Hn as [-> _]. done. Qed.

Lemma update_job_cases p where_ set d r d' :
  update_job p where_ set d = Ok (r, d') ->
  (r = [] /\ d' = d)
  \/ exists s u j j', p = Some s /\ uuid_in s = Some u /\ jobs d !! u = Some j
       /\ where_ j = true /\ set j = Some j' /\ r = [j']
       /\ d' = set_jobs d (<[u := j']> (jobs d)).
Proof.
  unfold update_job, id_param. intros Hu. destruct p as [s|]; simplify_eq; [|by auto].
  destruct (uuid_in s) as [u|] eqn:Hs; simplify_eq.
  destruct (jobs d !! u) as [j|] eqn:Hj; simplify_eq; [|by auto].
  destruct (where_ j) eqn:Hw; simplify_eq; [|by auto].
  destruct (set j) as [j'|] eqn:Hset; simplify_eq. right. naive_solver.
Qed.

(** No row returned: none has this id, or its condition is false. *)
Lemma update_job_none p where_ set d d' s u :
  update_job p where_ set d = Ok ([], d') -> p = Some s -> uuid_in s = Some u ->
  d' = d /\ forall j, jobs d !! u = Some j -> where_ j = false.
Proof.
  unfold update_job, id_param. intros Hu -> Hs. rewrite Hs in Hu.
  destruct (jobs d !! u) as [j|] eqn:Hj; simplify_eq; [|by split].
  destruct (where_ j) eqn:Hw; simplify_eq.
  - by destruct (set j).
  - split; [done|]. by intros j' [= <-].
Qed.

Definition legal_update (where_ : Job -> bool) (set : Job -> option Job) : Prop :=
  forall j j', where_ j = true -> set j = Some j' -> legal_step j j'.

Lemma update_job_evolves p where_ set d r d' :
  legal_update where_ set -> update_job p where_ set d = Ok (r, d') -> db_evolves d d'.
Proof.
  intros Hl Hu. destruct (update_job_cases _ _ _ _ _ _ Hu)
    as [[_ ->] | (s & u & j & j' & _ & _ & Hj & Hw & Hset & _ & ->)]; [done|].
  intros v k Hk. simpl. destruct (decide (u = v)) as [<-|Hne].
  - exists j'. rewrite lookup_insert_eq. split; [done|]. rewrite Hj in Hk.
    injection Hk as <-. apply rtc_once. by apply Hl.
  - exists k. rewrite lookup_insert_ne by done. split; [done|]. apply rtc_refl.
Qed.

(** A legal step keeps a row well formed, the ranges apart. *)
Lemma update_job_wf p where_ set d r d' :
  (forall u j j', job_row_ok u j -> where_ j = true -> set j = Some j' -> job_row_ok u j') ->
  wf_db d -> update_job p where_ set d = Ok (r, d') -> wf_db d'.
Proof.
  intros Hset [Hj He] Hu. destruct (update_job_cases _ _ _ _ _ _ Hu)
    as [[_ ->] | (s & u & j & j' & _ & _ & Hl & Hw & Hs & _ & ->)]; [done|].
  split; simpl.
  - apply map_Forall_insert_2; [|done]. eapply Hset; [|done..]. by apply Hj.
  - intros v e Hv. destruct (He v e Hv) as [? ? [k Hk] ?]. split; try done. simpl.
    destruct (decide (u = ev_job_id e)) as [<-|Hne];
      [rewrite lookup_insert_eq | rewrite lookup_insert_ne by done]; by eexists.
Qed.

(** ** Statement by statement *)

Ltac use_status := unfold has_status in *; repeat match goal with
  | H : (_ || _)%bool = true |- _ => apply orb_prop in H as [H|H]
  | H : (_ && _)%bool = true |- _ => apply andb_prop in H as [H ?]
  | H : bool_decide _ = true |- _ => apply bool_decide_eq_true in H
  end.

Ltac open_set := repeat match goal with
  | H : (_ ≫= _) = Some _ |- _ => apply bind_Some in H as (? & ? & H)
  | H : int4_succ _ = Some _ |- _ => apply int4_succ_Some in H as [-> H]
  | H : Some _ = Some _ |- _ => injection H as <-
  end.

Ltac legal := intros j j' Hw Hset; use_status; open_set;
  unfold legal_step, same_identity, counters_step, history_step; simpl;
  repeat match goal with Hs : j_status j = _ |- _ => rewrite Hs; clear Hs end;
  done.

Ltac row_ok := intros u j j' [] Hw Hset; use_status; open_set; split; simpl in *;
  try done; try lia; congruence.

Lemma claim_job_legal now stale :
  legal_update (claimable now stale) (fun j =>
    attempts ← int4_succ (j_attempt_count j);
    total ← int4_succ (j_total_attempt_count j);
    Some (mkJob (j_id j) (j_type j) (j_payload j) PROCESSING attempts
            (j_max_attempts j) (j_last_error j) (j_created_at j) now total
            (j_replay_count j) (j_last_dead_lettered_at j)
            (j_last_dead_letter_reason j))).
Proof. unfold claimable. legal. Qed.

Lemma claim_job_evolves now p stale d r d' :
  update_claim_job now p stale d = Ok (r, d') -> db_evolves d d'.
Proof. apply update_job_evolves, claim_job_legal. Qed.

Lemma mark_completed_evolves now p d r d' :
  update_mark_completed now p d = Ok (r, d') -> db_evolves d d'.
Proof. apply update_job_evolves. legal. Qed.

Lemma mark_retrying_evolves now p m d r d' :
  update_mark_retrying now p m d = Ok (r, d') -> db_evolves d d'.
Proof. apply update_job_evolves. legal. Qed.

Lemma mark_dead_lettered_evolves now p m d r d' :
  update_mark_dead_lettered now p m d = Ok (r, d') -> db_evolves d d'.
Proof. apply update_job_evolves. legal. Qed.

Lemma claim_replay_evolves now p d r d' :
  update_claim_replay now p d = Ok (r, d') -> db_evolves d d'.
Proof. apply update_job_evolves. legal. Qed.

Lemma insert_job_evolves now uuid type payload d r d' :
  insert_job now uuid type payload d = Ok (r, d') -> db_evolves d d'.
Proof.
  unfold insert_job. intros Hi. destruct (jobs d !! uuid) eqn:Hu; simplify_eq.
  intros u j Hj. exists j. simpl. split; [|apply rtc_refl].
  rewrite lookup_insert_ne; [done|]. congruence.
Qed.

Lemma claim_job_wf now p stale d r d' :
  wf_db d -> update_claim_job now p stale d = Ok (r, d') -> wf_db d'.
Proof. apply update_job_wf. row_ok. Qed.

Lemma mark_completed_wf now p d r d' :
  wf_db d -> update_mark_completed now p d = Ok (r, d') -> wf_db d'.
Proof. apply update_job_wf. row_ok. Qed.

Lemma mark_failed_wf now p m d r d' :
  wf_db d -> update_mark_failed now p m d = Ok (r, d') -> wf_db d'.
Proof. apply update_job_wf. row_ok. Qed.

Lemma mark_retrying_wf now p m d r d' :
  wf_db d -> update_mark_retrying now p m d = Ok (r, d') -> wf_db d'.
Proof. apply update_job_wf. row_ok. Qed.

Lemma mark_dead_lettered_wf now p m d r d' :
  wf_db d -> update_mark_dead_lettered now p m d = Ok (r, d') -> wf_db d'.
Proof. apply update_job_wf. row_ok. Qed.

Lemma claim_replay_wf now p d r d' :
  wf_db d -> update_claim_replay now p d = Ok (r, d') -> wf_db d'.
Proof. apply update_job_wf. row_ok. Qed.

Lemma insert_job_wf now uuid type payload d r d' :
  canonical uuid -> wf_db d -> insert_job now uuid type payload d = Ok (r, d') -> wf_db d'.
Proof.
  unfold insert_job. intros Hc [Hj He] Hi. destruct (jobs d !! uuid) eqn:Hu; simplify_eq.
  split; simpl.
  - apply map_Forall_insert_2; [|done]. by split.
  - intros v e Hv. destruct (He v e Hv) as [? ? [k Hk] ?]. split; try done. simpl.
    rewrite lookup_insert_ne; [by eexists|congruence].
Qed.

(** ** The outbox *)

(** What no statement undoes: the event stays, for its job, and stays
    published. *)
Definition event_evolves (e e' : OutboxEvent) : Prop :=
  ev_id e' = ev_id e /\ ev_job_id e' = ev_job_id e /\ ev_created_at e' = ev_created_at e
  /\ (ev_published_at e <> None -> ev_published_at e' <> None).

Definition outbox_evolves (d d' : db) : Prop :=
  forall u e, outbox d !! u = Some e ->
    exists e', outbox d' !! u = Some e' /\ event_evolves e e'.

Lemma event_evolves_refl e : event_evolves e e.
Proof. by repeat split. Qed.

Lemma outbox_evolves_same d d' : outbox d' = outbox d -> outbox_evolves d d'.
Proof. intros Ho u e He. exists e. rewrite Ho. split; [done|apply event_evolves_refl]. Qed.

Lemma elem_of_events d e : e ∈ events d <-> exists u, outbox d !! u = Some e.
Proof.
  unfold events. rewrite list_elem_of_fmap. split.
  - intros ([u e'] & -> & Hin). exists u. by apply elem_of_map_to_list in Hin.
  - intros (u & Hu). exists (u, e). split; [done|]. by apply elem_of_map_to_list.
Qed.

Lemma elem_of_rows d j : j ∈ rows d <-> exists u, jobs d !! u = Some j.
Proof.
  unfold rows. rewrite list_elem_of_fmap. split.
  - intros ([u e'] & -> & Hin). exists u. by apply elem_of_map_to_list in Hin.
  - intros (u & Hu). exists (u, j). split; [done|]. by apply elem_of_map_to_list.
Qed.

Lemma elem_of_pending order now locked batch stale d e :
  e ∈ pending_events order now locked batch stale d ->
  e ∈ events d /\ event_pending now stale e = true /\ ev_id e ∉ locked.
Proof.
  unfold pending_events. intros Hin. apply elem_of_take in Hin as (i & Hin & _).
  apply list_elem_of_lookup_2 in Hin.
  rewrite merge_sort_Permutation, list_elem_of_filter, row_order_perm in Hin. tauto.
Qed.

Lemma length_pending order now locked batch stale d :
  (List.length (pending_events order now locked batch stale d) <= batch)%nat.
Proof. unfold pending_events. rewrite length_take. lia. Qed.

Lemma pending_row d order now locked batch stale e :
  wf_db d -> e ∈ pending_events order now locked batch stale d -> outbox d !! ev_id e = Some e.
Proof.
  intros [_ He] Hin. apply elem_of_pending in Hin as (Hin & _).
  apply elem_of_events in Hin as (u & Hu). by rewrite (event_id _ _ _ (He u e Hu)).
Qed.

(** The ids of a batch are distinct. *)
Lemma pending_NoDup order now locked batch stale d :
  wf_db d -> NoDup (ev_id <$> pending_events order now locked batch stale d).
Proof.
  intros Hwf. unfold pending_events.
  assert (NoDup (ev_id <$> (map_to_list (outbox d)).*2)) as Hnd.
  { enough (ev_id <$> (map_to_list (outbox d)).*2 = (map_to_list (outbox d)).*1) as ->
      by apply NoDup_fst_map_to_list.
    rewrite <- list_fmap_compose. apply list_fmap_ext. intros i [v e] Hi.
    apply list_elem_of_lookup_2, elem_of_map_to_list in Hi. simpl.
    by destruct (wf_events _ Hwf v e Hi). }
  eapply sublist_NoDup; [|apply fmap_sublist, sublist_take].
  rewrite merge_sort_Permutation. eapply sublist_NoDup; [|apply fmap_sublist, sublist_filter].
  by rewrite row_order_perm.
Qed.

(** ** The answer of a claim *)

Lemma elem_of_claimed order now locked batch stale d e :
  e ∈ (update_claim_events order now locked batch stale d).1 <->
  exists e0, e = claim_event now e0 /\ e0 ∈ pending_events order now locked batch stale d.
Proof. simpl. by rewrite row_order_perm, list_elem_of_fmap. Qed.

Lemma elem_of_claimed_ids order now locked batch stale d v :
  v ∈ ev_id <$> (update_claim_events order now locked batch stale d).1 <->
  exists e0, v = ev_id e0 /\ e0 ∈ pending_events order now locked batch stale d.
Proof.
  rewrite list_elem_of_fmap. setoid_rewrite elem_of_claimed. split.
  - intros (e & -> & e0 & -> & He). by exists e0.
  - intros (e0 & -> & He). exists (claim_event now e0). split; [done|]. by exists e0.
Qed.

Lemma length_claimed order now locked batch stale d :
  List.length (update_claim_events order now locked batch stale d).1 =
  List.length (pending_events order now locked batch stale d).
Proof. simpl. by rewrite row_order_perm, length_fmap. Qed.

Lemma claimed_NoDup order now locked batch stale d :
  wf_db d -> NoDup (ev_id <$> (update_claim_events order now locked batch stale d).1).
Proof.
  intros Hwf. simpl. rewrite row_order_perm, <- list_fmap_compose.
  by apply (pending_NoDup order now locked batch stale d).
Qed.

(** Writing the claimed rows back changes exactly them. *)
Lemma store_claimed_lookup now l d u :
  (forall u e, outbox d !! u = Some e -> ev_id e = u) ->
  Forall (fun e => outbox d !! ev_id e = Some e) l ->
  outbox (store_events (claim_event now <$> l) d) !! u =
  (fun e => if decide (e ∈ l) then claim_event now e else e) <$> outbox d !! u.
Proof.
  unfold store_events. simpl. intros Hid Hl.
  induction Hl as [|e l He Hl IH]; cbn [fmap list_fmap foldr].
  - by destruct (outbox d !! u).
  - destruct (decide (ev_id e = u)) as [<-|Hne].
    + rewrite lookup_insert_eq, He. simpl. rewrite decide_True; [done|left].
    + rewrite lookup_insert_ne, IH by done.
      destruct (outbox d !! u) as [e'|] eqn:Hu; simpl; [|done]. f_equal.
      destruct (decide (e' ∈ l)) as [Hin|Hin].
      * rewrite decide_True; [done|by right].
      * rewrite decide_False; [done|]. rewrite elem_of_cons. intros [->|]; [|done].
        by apply Hid in Hu.
Qed.

Lemma claim_events_lookup order now locked batch stale d u :
  wf_db d ->
  outbox (update_claim_events order now locked batch stale d).2 !! u =
  (fun e => if decide (e ∈ pending_events order now locked batch stale d)
            then claim_event now e else e) <$> outbox d !! u.
Proof.
  intros Hwf. simpl. apply store_claimed_lookup.
  - intros v e He. by destruct (wf_events _ Hwf v e He).
  - apply Forall_forall. intros e He. by eapply pending_row.
Qed.

Lemma claim_events_wf order now locked batch stale d :
  wf_db d -> wf_db (update_claim_events order now locked batch stale d).2.
Proof.
  intros Hwf. split; [apply Hwf|]. intros u e He.
  rewrite claim_events_lookup in He by done.
  apply fmap_Some in He as (e0 & He0 & ->). destruct Hwf as [_ Hwf].
  specialize (Hwf u e0 He0). destruct Hwf.
  case_decide; by split.
Qed.

Lemma claim_events_evolves order now locked batch stale d :
  wf_db d -> outbox_evolves d (update_claim_events order now locked batch stale d).2.
Proof.
  intros Hwf u e He. rewrite claim_events_lookup, He by done. simpl. eexists.
  split; [done|]. case_decide; by repeat split.
Qed.

Lemma update_event_cases p set d r d' :
  update_event p set d = Ok (r, d') ->
  d' = d \/ exists s u e e', p = Some s /\ uuid_in s = Some u /\ outbox d !! u = Some e
              /\ set e = Some e' /\ d' = set_outbox d (<[u := e']> (outbox d)).
Proof.
  unfold update_event, id_param. intros Hu. destruct p as [s|]; simplify_eq; [|by auto].
  destruct (uuid_in s) as [u|] eqn:Hs; simplify_eq.
  destruct (outbox d !! u) as [e|] eqn:He; simplify_eq; [|by auto].
  destruct (set e) as [e'|] eqn:Hset; simplify_eq. right. naive_solver.
Qed.

Lemma update_event_keeps p set d r d' :
  (forall u e e', event_row_ok d u e -> set e = Some e' ->
     event_row_ok d u e' /\ event_evolves e e') ->
  wf_db d -> update_event p set d = Ok (r, d') -> wf_db d' /\ outbox_evolves d d'.
Proof.
  intros Hset [Hj He] Hu. destruct (update_event_cases _ _ _ _ _ Hu)
    as [-> | (s & u & e & e' & _ & _ & Hl & Hs & ->)].
  { split; [by split|by apply outbox_evolves_same]. }
  destruct (Hset u e e' (He u e Hl) Hs) as [Hrow Hev]. split.
  - split; [done|]. simpl. apply map_Forall_insert_2; [by destruct Hrow|].
    intros v k Hk. destruct (He v k Hk). by split.
  - intros v k Hk. simpl. destruct (decide (u = v)) as [<-|Hne].
    + exists e'. rewrite lookup_insert_eq. split; [done|]. congruence.
    + exists k. rewrite lookup_insert_ne by done. split; [done|apply event_evolves_refl].
Qed.

Lemma outbox_published_keeps now p d r d' :
  wf_db d -> update_outbox_published now p d = Ok (r, d') -> wf_db d' /\ outbox_evolves d d'.
Proof. apply update_event_keeps. intros u e e' [] [= <-]. split; [by split|by repeat split]. Qed.

Lemma outbox_failed_keeps p m d r d' :
  wf_db d -> update_outbox_failed p m d = Ok (r, d') -> wf_db d' /\ outbox_evolves d d'.
Proof.
  apply update_event_keeps. intros u e e' [] Hs. open_set. split; [|by repeat split].
  split; simpl; try done. lia.
Qed.

Lemma insert_outbox_keeps now uuid p d r d' :
  canonical uuid -> wf_db d -> insert_outbox_event now uuid p d = Ok (r, d') ->
  wf_db d' /\ outbox_evolves d d'.
Proof.
  unfold insert_outbox_event, id_param. intros Hc [Hj He] Hi. destruct p as [s|]; simplify_eq.
  destruct (uuid_in s) as [u|]; simplify_eq.
  destruct (jobs d !! u) as [j|] eqn:Hu; simplify_eq.
  destruct (outbox d !! uuid) as [e|] eqn:Ho; simplify_eq. split.
  - split; [done|]. simpl. apply map_Forall_insert_2.
    + by split.
    + intros v k Hk. destruct (He v k Hk). by split.
  - intros v k Hk. simpl. exists k. rewrite lookup_insert_ne by congruence.
    split; [done|apply event_evolves_refl].
Qed.

(** ** All statements *)

(** [markFailed] has no guard and no caller: the statements the program
    sends are the others. *)
Definition in_use (s : stmt) : Prop :=
  match s with SMarkFailed _ _ => False | _ => True end.

Lemma update_job_outbox p where_ set d r d' :
  update_job p where_ set d = Ok (r, d') -> outbox d' = outbox d.
Proof.
  intros Hu. by destruct (update_job_cases _ _ _ _ _ _ Hu)
    as [[_ ->] | (s & u & j & j' & _ & _ & Hl & Hw & Hs & _ & ->)].
Qed.

Lemma update_event_jobs p set d r d' :
  update_event p set d = Ok (r, d') -> jobs d' = jobs d.
Proof.
  intros Hu. by destruct (update_event_cases _ _ _ _ _ Hu)
    as [-> | (s & u & e & e' & _ & _ & Hl & Hs & ->)].
Qed.

Lemma insert_outbox_jobs now uuid p d r d' :
  insert_outbox_event now uuid p d = Ok (r, d') -> jobs d' = jobs d.
Proof. unfold insert_outbox_event. intros Hi. by repeat case_match; simplify_eq. Qed.

Lemma insert_job_outbox now uuid type payload d r d' :
  insert_job now uuid type payload d = Ok (r, d') -> outbox d' = outbox d.
Proof. unfold insert_job. intros Hi. by case_match; simplify_eq. Qed.

Lemma select_job_same p d r d' : select_job_by_id p d = Ok (r, d') -> d' = d.
Proof. unfold select_job_by_id. intros Hs. by repeat case_match; simplify_eq. Qed.

Lemma db_evolves_same d d' : jobs d' = jobs d -> db_evolves d d'.
Proof. intros Hj u j Hu. exists j. rewrite Hj. split; [done|apply rtc_refl]. Qed.

#[local] Hint Resolve claim_job_wf mark_completed_wf mark_failed_wf mark_retrying_wf
  mark_dead_lettered_wf insert_job_wf claim_replay_wf : tables.

Lemma exec_wf c s d r d' :
  canonical (ch_uuid c) -> wf_db d -> exec c s d = Ok (r, d') -> wf_db d'.
Proof.
  intros Hc Hwf. destruct s; simpl; intros He; simplify_eq; eauto with tables.
  - by apply select_job_same in He as ->.
  - by eapply insert_outbox_keeps in He as [].
  - by apply claim_events_wf.
  - by eapply outbox_published_keeps in He as [].
  - by eapply outbox_failed_keeps in He as [].
Qed.

#[local] Hint Resolve db_evolves_same claim_job_evolves mark_completed_evolves
  mark_retrying_evolves mark_dead_lettered_evolves insert_job_evolves claim_replay_evolves
  insert_outbox_jobs update_event_jobs : tables.

Lemma exec_evolves c s d r d' :
  in_use s -> exec c s d = Ok (r, d') -> db_evolves d d'.
Proof.
  intros Hs. destruct s; simpl; intros He; simplify_eq; eauto with tables; try done.
  by apply select_job_same in He as ->.
Qed.

Lemma exec_outbox_evolves c s d r d' :
  canonical (ch_uuid c) -> wf_db d -> exec c s d = Ok (r, d') -> outbox_evolves d d'.
Proof.
  intros Hc Hwf. destruct s; simpl; intros He; simplify_eq; try (by apply outbox_evolves_same).
  all: try (by eapply outbox_evolves_same, update_job_outbox).
  - apply select_job_same in He as ->. by apply outbox_evolves_same.
  - by eapply outbox_evolves_same, insert_job_outbox.
  - by eapply insert_outbox_keeps in He as [].
  - by apply claim_events_evolves.
  - by eapply outbox_published_keeps in He as [].
  - by eapply outbox_failed_keeps in He as [].
Qed.
End rows.
