(* ===== verification/Settle.v ===== *)
(** * Every delivery is settled exactly once

    The handler of apps/worker/src/consumer.ts acknowledges or requeues its
    message once, on every path and under every database or publication
    failure; the one exception is the JSON text [null]. *)
From S2P Require Import Prelude Json Postgres Amqp Programs Effects Retry Worker.
#[local] Open Scope stdpp_scope.

Definition is_settle (o : op) : bool :=
  match o with Ack _ | Nack _ _ _ => true | _ => false end.

(** The settlements of a log. *)
Definition settlements (l : list (op * bool)) : list (op * bool) :=
  List.filter (fun x => is_settle x.1) l.

(** Acknowledgements reach an open channel; everything else may fail. *)
Definition channel_open : op -> choice -> Prop := fun o c =>
  is_settle o = true -> ch_fault c = None.

Section settle.
Context `{Pg} {B : Type} `{Broker B}.
Implicit Types w : world B.

(** ** Programs that settle nothing *)

(** [quiet p Φ]: [p] settles nothing, and however its fallible effects turn
    out its result satisfies [Φ]. *)
Definition quiet_step : transformer answer unit := fun _ o Φ =>
  is_settle o = false /\ forall x, (infallible o = true -> is_ok x = true) -> Φ x tt.

#[local] Instance quiet_step_monotone : Monotone quiet_step.
Proof. intros [] o Φ Ψ HΦ [Ho Hx]. split; [done|]. intros x Hok. by apply HΦ, Hx. Qed.

Definition quiet {R} (p : async R) (Φ : res js_err R -> Prop) : Prop :=
  holds quiet_step p (fun r _ => Φ r) tt.

Lemma quiet_mono {R} (p : async R) (Φ Ψ : res js_err R -> Prop) :
  (forall r, Φ r -> Ψ r) -> quiet p Φ -> quiet p Ψ.
Proof. intros HΦ. apply (holds_mono quiet_step). intros r _. apply HΦ. Qed.

Lemma quiet_bind {R S} (p : async R) (f : R -> async S) Φ :
  quiet p (fun r => match r with Ok a => quiet (f a) Φ | Err e => Φ (Err e) end) ->
  quiet (bind p f) Φ.
Proof.
  intros Hp. apply (holds_bind quiet_step). revert Hp. apply (holds_mono quiet_step).
  by intros [] [] ?.
Qed.

Lemma quiet_try_catch {R} (p : async R) h Φ :
  quiet p (fun r => match r with Ok a => Φ (Ok a) | Err e => quiet (h e) Φ end) ->
  quiet (try_catch p h) Φ.
Proof.
  intros Hp. apply (holds_try_catch quiet_step). revert Hp. apply (holds_mono quiet_step).
  by intros [] [] ?.
Qed.

(** [w'] comes after [w] with nothing settled. *)
Definition silent w w' : Prop :=
  w_unacked w' = w_unacked w /\
  exists l, w_log w' = w_log w ++ l /\ settlements l = [].

Lemma silent_refl w : silent w w.
Proof. split; [done|]. exists []. by rewrite app_nil_r. Qed.

Lemma silent_trans w1 w2 w3 : silent w1 w2 -> silent w2 w3 -> silent w1 w3.
Proof.
  intros [Hu1 (l1 & Hl1 & Hs1)] [Hu2 (l2 & Hl2 & Hs2)]. split; [congruence|].
  exists (l1 ++ l2). split; [by rewrite Hl2, Hl1, app_assoc|].
  unfold settlements in *. by rewrite List.filter_app, Hs1, Hs2.
Qed.

Lemma handle_silent c o w :
  is_settle o = false -> silent w (handle c o w).2.
Proof.
  intros Ho. unfold handle, effect, rolled_back, silent.
  destruct o; try discriminate Ho; simpl; repeat case_match; simplify_eq/=;
    (split; [done|]; eexists; split; reflexivity).
Qed.

Lemma handle_infallible c o w : infallible o = true -> is_ok (handle c o w).1 = true.
Proof. unfold handle. destruct o; try done; intros _; simpl;
  by repeat case_match. Qed.

Lemma wp_quiet {R} G (p : async R) Φ w :
  quiet p Φ -> wp G p (fun r w' => Φ r /\ silent w w') w.
Proof.
  revert w. induction p as [r|e|o k IH]; intros w; simpl; intros Hq;
    [split; [done|apply silent_refl]..|].
  destruct Hq as [Ho Hk]. intros c _. change (perform c o w) with (handle c o w).
  pose proof (handle_silent c o w Ho) as Hs. pose proof (handle_infallible c o w) as Hi.
  destruct (handle c o w) as [x w']. eapply wp_mono; [|by apply IH, Hk].
  intros r w'' [HΦ Hs']. split; [done|]. by eapply silent_trans.
Qed.

(** ** One settlement *)

Definition settles_once (tag : nat) w w' : Prop :=
  w_unacked w' = delete tag (w_unacked w) /\
  exists l s, w_log w' = w_log w ++ l /\ settlements l = [(s, true)]
              /\ (s = Ack tag \/ s = Nack tag false true).

Lemma silent_settles tag w1 w2 w3 :
  silent w1 w2 -> settles_once tag w2 w3 -> settles_once tag w1 w3.
Proof.
  intros [Hu1 (l1 & Hl1 & Hs1)] [Hu2 (l2 & s & Hl2 & Hs2 & Hs)].
  split; [congruence|]. exists (l1 ++ l2), s.
  split; [by rewrite Hl2, Hl1, app_assoc|]. split; [|done].
  unfold settlements in *. by rewrite List.filter_app, Hs1, Hs2.
Qed.

Lemma handle_ack c tag w :
  ch_fault c = None -> is_Some (w_unacked w !! tag) ->
  exists w', handle c (Ack tag) w = (Ok tt, w') /\ settles_once tag w w'.
Proof.
  intros Hc [m Hm]. unfold handle, effect. rewrite Hc, Hm. eexists. split; [done|].
  split; [done|]. eexists [_], _. split; [done|]. split; [done|]. by left.
Qed.

Lemma handle_nack c tag w :
  ch_fault c = None -> is_Some (w_unacked w !! tag) ->
  exists w', handle c (Nack tag false true) w = (Ok tt, w') /\ settles_once tag w w'.
Proof.
  intros Hc [m Hm]. unfold handle, effect. rewrite Hc, Hm. eexists. split; [done|].
  split; [done|]. eexists [_], _. split; [done|]. split; [done|]. by right.
Qed.

(** A settlement as the last effect that matters. *)
Lemma wp_settle {R} o (p : async R) tag w0 w Q :
  (o = Ack tag \/ o = Nack tag false true) ->
  is_Some (w_unacked w0 !! tag) -> silent w0 w ->
  (forall w', settles_once tag w0 w' -> wp channel_open p Q w') ->
  wp channel_open (await o ;;; p) Q w.
Proof.
  intros Ho Hu Hs Hp. apply wp_op. intros c Hc.
  assert (is_Some (w_unacked w !! tag)) as Hu' by (destruct Hs as [-> _]; done).
  destruct Ho as [-> | ->];
    [destruct (handle_ack c tag w (Hc eq_refl) Hu') as (w' & -> & Hset)
    | destruct (handle_nack c tag w (Hc eq_refl) Hu') as (w' & -> & Hset)];
    by eapply Hp, silent_settles.
Qed.

Lemma wp_settle_last o tag w0 w :
  (o = Ack tag \/ o = Nack tag false true) ->
  is_Some (w_unacked w0 !! tag) -> silent w0 w ->
  wp channel_open (await o) (fun r w' => is_ok r = true /\ settles_once tag w0 w') w.
Proof.
  intros Ho Hu Hs. apply wp_op_last. intros c Hc.
  assert (is_Some (w_unacked w !! tag)) as Hu' by (destruct Hs as [-> _]; done).
  destruct Ho as [-> | ->];
    [destruct (handle_ack c tag w (Hc eq_refl) Hu') as (w' & -> & Hset)
    | destruct (handle_nack c tag w (Hc eq_refl) Hu') as (w' & -> & Hset)];
    (split; [done|by eapply silent_settles]).
Qed.

(** A quiet part in front. *)
Lemma wp_quiet_then {R S} (p : async R) (f : R -> async S) Φ Q w0 w :
  silent w0 w -> quiet p Φ ->
  (forall a w', Φ (Ok a) -> silent w0 w' -> wp channel_open (f a) Q w') ->
  (forall e w', Φ (Err e) -> silent w0 w' -> Q (Err e) w') ->
  wp channel_open (bind p f) Q w.
Proof.
  intros Hs Hq Hok Herr. apply wp_bind.
  eapply wp_mono; [|by apply wp_quiet]. intros [a|e] w' [HΦ Hs'];
    [apply Hok | apply Herr]; try done; by eapply silent_trans.
Qed.

(** ** The pieces of the handler *)

Definition anything {R} : res js_err R -> Prop := fun _ => True.
Definition succeeds {R} : res js_err R -> Prop := fun r => is_ok r = true.

Ltac quiet := repeat first
  [ split; [reflexivity|] | intros [?|?] ?; simpl | exact I
  | match goal with |- quiet (if ?b then _ else _) _ => destruct b end
  | case_match; simpl | by auto ].

Lemma quiet_claimJob id : quiet (claimJob id) anything.
Proof. quiet. Qed.

Lemma quiet_getJobById id : quiet (getJobById id) anything.
Proof. quiet. Qed.

Lemma quiet_await o : is_settle o = false -> quiet (await o) anything.
Proof. intros Ho. split; [done|]. by intros [?|?] ?. Qed.

Lemma quiet_backoff : quiet backoffBeforeRequeue succeeds.
Proof.
  split; [done|]. intros [n|e] Hx; [|by specialize (Hx eq_refl)]. simpl.
  split; [done|]. intros [?|e] Hx'; [done|by specialize (Hx' eq_refl)].
Qed.

Lemma quiet_wait t : quiet (wait_for_claim_test t) succeeds.
Proof.
  unfold wait_for_claim_test. destruct (0 <? t); [|done].
  split; [done|]. intros [n|e] Hx; [|by specialize (Hx eq_refl)]. simpl.
  destruct (0 <? t - n); [|done].
  split; [done|]. intros [?|e] Hx'; [done|by specialize (Hx' eq_refl)].
Qed.

(** [backoffBeforeRequeue(); channel.nack(msg, false, true)] *)
Lemma wp_requeue {R} tag (p : async R) Q w0 w :
  is_Some (w_unacked w0 !! tag) -> silent w0 w ->
  (forall w', settles_once tag w0 w' -> wp channel_open p Q w') ->
  wp channel_open (backoffBeforeRequeue ;;; await (Nack tag false true) ;;; p) Q w.
Proof.
  intros Hu Hs Hp. eapply wp_quiet_then; [done|apply quiet_backoff|..].
  - intros _ w' _ Hs'. by eapply wp_settle; eauto.
  - intros e w' Hok. discriminate Hok.
Qed.

Lemma wp_requeue_last tag w0 w :
  is_Some (w_unacked w0 !! tag) -> silent w0 w ->
  wp channel_open (backoffBeforeRequeue ;;; await (Nack tag false true))
    (fun r w' => is_ok r = true /\ settles_once tag w0 w') w.
Proof.
  intros Hu Hs. eapply wp_quiet_then; [done|apply quiet_backoff|..].
  - intros _ w' _ Hs'. apply wp_settle_last; auto.
  - intros e w' Hok. discriminate Hok.
Qed.

Lemma wp_claim_or_settle tag jobId w :
  is_Some (w_unacked w !! tag) ->
  wp channel_open (claim_or_settle tag jobId)
    (fun r w' => match r with
                 | Ok (Some _) => silent w w'
                 | Ok None => settles_once tag w w'
                 | Err _ => False
                 end) w.
Proof.
  intros Hu. unfold claim_or_settle. apply wp_try_catch.
  assert (forall e w', silent w w' ->
    wp channel_open
      (if isInvalidTextRepresentationError e then await (Ack tag);;; Ret (@None Job)
       else backoffBeforeRequeue;;; await (Nack tag false true);;; Ret None)
      (fun r w' => match r with
                   | Ok (Some _) => silent w w'
                   | Ok None => settles_once tag w w'
                   | Err _ => False
                   end : Prop) w') as Hcatch.
  { intros e w' Hs. destruct (isInvalidTextRepresentationError e).
    - by eapply wp_settle; eauto.
    - by eapply wp_requeue; eauto. }
  eapply wp_quiet_then; [apply silent_refl|apply quiet_claimJob| |by auto].
  intros job w1 _ Hs1.
  eapply wp_quiet_then; [exact Hs1|by apply quiet_await| |by auto].
  intros _ w2 _ Hs2. destruct job as [job|].
  - eapply wp_quiet_then; [exact Hs2|by apply quiet_await| |by auto]. by intros.
  - eapply wp_quiet_then with (Φ := succeeds); [exact Hs2| | |by intros].
    + apply quiet_try_catch. eapply quiet_mono; [|apply quiet_getJobById].
      by intros [|] _.
    + intros _ w3 _ Hs3. by eapply wp_settle; eauto.
Qed.

Lemma quiet_execute job : quiet (execute_job job) succeeds.
Proof.
  unfold execute_job, processJob. apply quiet_try_catch.
  destruct (payload_flag "shouldFailPermanently" (j_payload job)); [done|].
  destruct (payload_flag "shouldFail" (j_payload job)); [done|].
  split; [done|]. by intros [?|?] ?.
Qed.

Lemma wp_record_completion tag jobId w :
  is_Some (w_unacked w !! tag) ->
  wp channel_open (record_completion tag jobId)
    (fun r w' => is_ok r = true /\ settles_once tag w w') w.
Proof.
  intros Hu. unfold record_completion. apply wp_try_catch.
  eapply wp_quiet_then with (Φ := anything); [apply silent_refl| | |].
  - unfold markCompleted. split; [done|]. intros [rows|e] _; [|done]. simpl.
    unfold first_row_or_throw. by destruct (head rows).
  - intros _ w1 _ Hs1.
    eapply wp_quiet_then; [exact Hs1|by apply quiet_await| |].
    + intros _ w2 _ Hs2. eapply wp_mono; [|apply wp_settle_last; eauto].
      by intros [|] ? [Hok ?].
    + intros e w2 _ Hs2. by apply wp_requeue_last.
  - intros e w1 _ Hs1. by apply wp_requeue_last.
Qed.

Lemma quiet_publish ex rk m (bad : js_err) :
  quiet (await GetChannel ;;;
         let! published := await (Publish ex rk m) in
         if published then Ret tt else Throw bad) anything.
Proof.
  split; [done|]. intros [|] _; [|done]. simpl. split; [done|].
  intros [[]|] _; done.
Qed.

Lemma quiet_mark rows message : quiet (first_row_or_throw rows message) anything.
Proof. unfold first_row_or_throw. by destruct (head rows). Qed.

Lemma quiet_then {R S} (p : async R) (q : async S) :
  quiet p anything -> quiet q anything -> quiet (p ;;; q) anything.
Proof. intros Hp Hq. apply quiet_bind. eapply quiet_mono; [|exact Hp]. by intros []. Qed.

Lemma wp_record_failure tag jobId job err w :
  is_Some (w_unacked w !! tag) ->
  wp channel_open (record_failure tag jobId job err)
    (fun r w' => is_ok r = true /\ settles_once tag w w') w.
Proof.
  intros Hu. unfold record_failure.
  eapply wp_quiet_then with (Φ := succeeds); [apply silent_refl| | |by intros ?? Hok].
  { split; [done|]. intros [?|e] Hx; [done|by specialize (Hx eq_refl)]. }
  intros _ w1 _ Hs1. apply wp_bind.
  eapply wp_mono with (Q := fun r w' => match r with
     | Ok true => silent w w' | Ok false => settles_once tag w w' | Err _ => False end).
  { intros [[]|] w2 Hw2; [|by split|done].
    eapply wp_mono; [|apply wp_settle_last; eauto]. done. }
  apply wp_try_catch.
  eapply wp_quiet_then with (Φ := anything); [exact Hs1| |by intros|].
  - destruct (is_non_retryable err); [|destruct (j_max_attempts job <=? j_attempt_count job)];
      (apply quiet_then; [|apply quiet_publish]);
      (split; [done|]; intros [rows|] _; [apply quiet_mark|done]).
  - intros e w2 _ Hs2. by eapply wp_requeue; eauto.
Qed.

(** The whole handler. *)
Lemma wp_on_message sync tag text w :
  is_Some (w_unacked w !! tag) -> JSON_parse text <> Some JNull ->
  wp channel_open (on_message sync (Some (tag, text)))
    (fun r w' => is_ok r = true /\ settles_once tag w w') w.
Proof.
  intros Hu Hn. unfold on_message. destruct (JSON_parse text) as [content|];
    [|apply wp_settle_last; auto using silent_refl].
  assert (exists jobId, message_job_id content = Ok jobId) as [jobId ->].
  { destruct content; [done|by eexists..]. }
  cbn [of_res bind]. eapply wp_quiet_then; [apply silent_refl|apply quiet_wait| |by intros ?? Hok].
  intros _ w1 _ Hs1. apply wp_bind.
  eapply wp_mono; [|apply wp_claim_or_settle; destruct Hs1 as [-> _]; done].
  intros [[job|]|] w2 Hw2; [| |done].
  - assert (silent w w2) as Hs2 by by eapply silent_trans.
    eapply wp_quiet_then; [exact Hs2|apply quiet_execute| |by intros ?? Hok].
    intros processingErr w3 _ Hs3.
    assert (is_Some (w_unacked w3 !! tag)) as Hu3 by (destruct Hs3 as [-> _]; done).
    eapply wp_mono with (Q := fun r w' => is_ok r = true /\ settles_once tag w3 w').
    { intros r w' [Hok Hset]. split; [done|]. by eapply silent_settles. }
    destruct processingErr; [by apply wp_record_failure|by apply wp_record_completion].
  - split; [done|]. by eapply silent_settles.
Qed.
End settle.
