(* ===== verification/Transactions.v ===== *)
(** * Transactions: all or nothing

    [withTransaction] of apps/api/src/db/withTransaction.ts, and the two
    operations of apps/api/src/services/jobService.ts that run in it.  A job and
    its outbox event are written together, whatever fails. *)
From S2P Require Import Prelude Json Postgres Amqp Programs Effects Api Lifecycle.
#[local] Open Scope stdpp_scope.

Section transactions.
Context `{Pg} {B : Type} `{Broker B}.
Implicit Types w : world B.

(** The parts of the state that a transaction does not touch. *)
Definition same_rest w w' : Prop :=
  w_broker w' = w_broker w /\ w_unacked w' = w_unacked w /\ w_err_count w' = w_err_count w.

Lemma same_rest_refl w : same_rest w w.
Proof. done. Qed.

Lemma same_rest_trans w1 w2 w3 : same_rest w1 w2 -> same_rest w2 w3 -> same_rest w1 w3.
Proof. unfold same_rest. intros (-> & -> & ->) (-> & -> & ->). done. Qed.

(** [client.query] of a statement. *)
Lemma handle_client_query c s w :
  let '(x, w') := handle c (ClientQuery s) w in
  same_rest w w' /\ w_tx w' = w_tx w /\
  forall a, x = Ok a -> exec c s (w_db w) = Ok (a, w_db w').
Proof.
  unfold handle, effect, same_rest. simpl.
  destruct (ch_fault c) as [[executed e]|]; destruct (exec c s (w_db w)) as [[a d]|e'] eqn:He;
    simpl; try destruct executed; simpl; (split; [done|]); (split; [done|]); intros a' Ha;
    simplify_eq; done.
Qed.

(** ROLLBACK closes the transaction, with the state it started from. *)
Lemma handle_rollback c w :
  let '(x, w') := handle c TxRollback w in
  same_rest w w' /\ w_tx w' = None /\ w_db w' = default (w_db w) (w_tx w).
Proof.
  unfold handle, effect, rolled_back, same_rest.
  destruct (w_tx w) eqn:Ht; destruct (ch_fault c) as [[[] e]|]; simpl; rewrite ?Ht; auto.
Qed.

(** Giving the client back does nothing to its transaction. *)
Lemma handle_release c w :
  let '(x, w') := handle c TxRelease w in
  same_rest w w' /\ w_tx w' = w_tx w /\ w_db w' = w_db w /\ x = Ok tt.
Proof. unfold handle, effect, same_rest. by destruct (ch_fault c) as [[[] e]|]. Qed.

(** The connection, BEGIN outside a transaction, and COMMIT. *)
Lemma handle_open c o w t :
  (o, t) = (TxConnect, w_tx w)
  \/ (w_tx w = None /\ (o, t) = (TxBegin, Some (w_db w))) \/ (o, t) = (TxCommit, None) ->
  let '(x, w') := handle c o w in
  same_rest w w' /\ w_db w' = w_db w /\
  (w_tx w' = t \/ (w_tx w' = w_tx w /\ is_ok x = false)).
Proof.
  unfold handle, effect, same_rest.
  intros [[= -> ->] | [[Ht [= -> ->]] | [= -> ->]]]; simpl; rewrite ?Ht;
    destruct (ch_fault c) as [[[] e]|]; simpl; rewrite ?Ht; auto.
Qed.

Section withTransaction.
Context {T : Type} (G : op -> choice -> Prop) (P : db -> T -> db -> Prop) (w : world B).

(** Nothing written, or everything. *)
Definition all_or_nothing (d : db) : Prop :=
  d = w_db w \/ exists a, P (w_db w) a d.

(** The transaction is closed. *)
Definition tx_done (r : res js_err T) (w' : world B) : Prop :=
  w_tx w' = None /\ same_rest w w' /\
  match r with
  | Ok a => P (w_db w) a (w_db w')
  | Err _ => all_or_nothing (w_db w')
  end.

Lemma wp_release r w2 :
  tx_done r w2 ->
  wp G (await TxRelease) (fun x w3 =>
    match x with Ok _ => tx_done r w3 | Err e => tx_done (Err e) w3 end) w2.
Proof.
  intros (Ht2 & Hr2 & Hres). apply wp_op_last. intros c _.
  pose proof (handle_release c w2) as Hc. destruct (handle c TxRelease w2) as [x w3].
  destruct Hc as (Hr3 & Ht3 & Hd3 & ->). unfold tx_done. rewrite Ht3, Hd3.
  split; [done|]. split; [by eapply same_rest_trans|done].
Qed.

Lemma wp_rollback e w2 :
  same_rest w w2 ->
  w_tx w2 = Some (w_db w) \/ (w_tx w2 = None /\ all_or_nothing (w_db w2)) ->
  wp G (await TxRollback;;; Throw e) tx_done w2.
Proof.
  intros Hr2 Hst. apply wp_op. intros c _.
  pose proof (handle_rollback c w2) as Hc. destruct (handle c TxRollback w2) as [x w3].
  destruct Hc as (Hr3 & Ht3 & Hd3).
  assert (forall e, tx_done (Err e) w3) as Hgoal.
  { intros e'. split; [done|]. split; [by eapply same_rest_trans|]. rewrite Hd3.
    destruct Hst as [->|[-> Hdb]]; [by left|exact Hdb]. }
  destruct x; apply Hgoal.
Qed.

(** [BEGIN; fn; COMMIT], rolled back on any error: the effect of [fn] is
    there when it returns, and there or not, as a whole, when it throws (a
    COMMIT whose answer is lost). *)
Lemma wp_withTransaction (fn : async T) :
  w_tx w = None ->
  (forall w1, w_tx w1 = Some (w_db w) -> w_db w1 = w_db w -> same_rest w w1 ->
     wp G fn (fun r w2 => w_tx w2 = Some (w_db w) /\ same_rest w w2 /\
                forall a, r = Ok a -> P (w_db w) a (w_db w2)) w1) ->
  wp G (withTransaction fn) tx_done w.
Proof.
  intros Ht Hfn. unfold withTransaction. apply wp_op. intros c0 _.
  pose proof (handle_open c0 TxConnect w (w_tx w) (or_introl eq_refl)) as H0'.
  destruct (handle c0 TxConnect w) as [[[]|e] w1]; destruct H0' as (Hr1 & Hd1 & Ht1);
    (assert (w_tx w1 = None) as Ht1' by (rewrite <- Ht; tauto));
    [|split; [done|]; split; [done|by left]].
  apply wp_try_finally. eapply wp_mono with (Q := tx_done); [by apply wp_release|].
  apply wp_try_catch. apply wp_op. intros c1 _.
  pose proof (handle_open c1 TxBegin w1 (Some (w_db w1))
                (or_intror (or_introl (conj Ht1' eq_refl)))) as H1'.
  destruct (handle c1 TxBegin w1) as [[[]|e] w2]; destruct H1' as (Hr2 & Hd2 & Ht2);
    rewrite Hd1 in *; pose proof (same_rest_trans _ _ _ Hr1 Hr2) as Hr2'.
  2: { apply wp_rollback; [done|]. destruct Ht2 as [Ht2|[Ht2 _]]; [by auto|].
       right. split; [congruence|by left]. }
  destruct Ht2 as [Ht2|[_ [=]]].
  apply wp_bind. eapply wp_mono; [|by apply Hfn].
  intros [a|e] w3 (Ht3 & Hr3 & HP); [|by apply wp_rollback; auto].
  specialize (HP a eq_refl). apply wp_op. intros c2 _.
  pose proof (handle_open c2 TxCommit w3 None (or_intror (or_intror eq_refl))) as H2'.
  destruct (handle c2 TxCommit w3) as [[[]|e] w4]; destruct H2' as (Hr4 & Hd4 & Ht4);
    pose proof (same_rest_trans _ _ _ Hr3 Hr4) as Hr4'.
  - destruct Ht4 as [Ht4|[_ [=]]]. split; [done|]. split; [done|]. by rewrite Hd4.
  - apply wp_rollback; [done|]. destruct Ht4 as [Ht4|[Ht4 _]].
    + right. split; [done|]. right. exists a. by rewrite Hd4.
    + left. congruence.
Qed.
End withTransaction.

(** ** createJob *)

(** [gen_random_uuid()] gives canonical uuids. *)
Definition canonical_uuids : op -> choice -> Prop := fun _ c => canonical (ch_uuid c).

(** A new QUEUED job together with its pending outbox event. *)
Definition job_created (input : CreateJobInput) (d : db) (job : Job) (d' : db) : Prop :=
  exists u v t t',
    jobs d !! u = None /\ outbox d !! v = None /\ canonical u /\ canonical v
    /\ job = mkJob u (in_type input) (in_payload input) QUEUED 0 5 None t t 0 0 None None
    /\ d' = mkDb (<[u := job]> (jobs d))
                 (<[v := mkEvent v u t' None None 0 None]> (outbox d)).

Lemma text_param_String s : text_param s = Some s.
Proof. apply pg_param_string. Qed.

Lemma wp_createJob input w :
  w_tx w = None ->
  wp canonical_uuids (createJob input)
    (tx_done (job_created input) w) w.
Proof.
  intros Ht. apply wp_withTransaction; [done|]. intros w1 Ht1 Hd1 Hr1.
  apply wp_op. intros c Hc.
  pose proof (handle_client_query c (SInsertJob (in_type input) (in_payload input)) w1) as Hq.
  destruct (handle _ _ w1) as [[rows|e] w2]; destruct Hq as (Hr2 & Ht2 & Hx);
    [|split; [congruence|]; split; [by eapply same_rest_trans|done]].
  specialize (Hx rows eq_refl). simpl in Hx. unfold insert_job in Hx.
  rewrite Hd1 in Hx. destruct (jobs (w_db w) !! ch_uuid c) eqn:Hu; [done|].
  injection Hx as <- Hdb. cbn [head]. apply wp_op. intros c' Hc'.
  set (job := mkJob _ _ _ _ _ _ _ _ _ _ _ _ _) in *.
  pose proof (handle_client_query c' (SInsertOutboxEvent (text_param (j_id job))) w2) as Hq.
  destruct (handle _ _ w2) as [[x|e] w3]; destruct Hq as (Hr3 & Ht3 & Hx);
    (split; [congruence|]); (split; [by do 2 (eapply same_rest_trans; [eassumption|])|]); [|done].
  intros a [= <-]. specialize (Hx x eq_refl). simpl in Hx. rewrite <- Hdb in Hx.
  unfold insert_outbox_event, id_param in Hx. rewrite text_param_String in Hx.
  cbn [j_id job] in Hx. rewrite Hc in Hx. simpl in Hx. rewrite lookup_insert_eq in Hx.
  destruct (outbox (w_db w) !! ch_uuid c') eqn:Hv; [done|]. injection Hx as _ Hdb3.
  exists (ch_uuid c), (ch_uuid c'), (ch_now c), (ch_now c').
  by repeat split.
Qed.

(** ** claimReplay *)

(** The row of a dead-lettered job goes back to QUEUED, together with a new
    pending outbox event; or there was no such row and nothing changed. *)
Definition job_replayed (id : string) (d : db) (r : option Job) (d' : db) : Prop :=
  match r with
  | None => d' = d /\
      forall u j, uuid_in id = Some u -> jobs d !! u = Some j -> j_status j <> DEAD_LETTERED
  | Some job => exists u v j t t',
      uuid_in id = Some u /\ jobs d !! u = Some j /\ j_status j = DEAD_LETTERED
      /\ j_replay_count j + 1 <= INT4_MAX /\ outbox d !! v = None /\ canonical v
      /\ job = mkJob (j_id j) (j_type j) (j_payload j) QUEUED 0 (j_max_attempts j) None
                 (j_created_at j) t (j_total_attempt_count j) (j_replay_count j + 1)
                 (j_last_dead_lettered_at j) (j_last_dead_letter_reason j)
      /\ d' = mkDb (<[u := job]> (jobs d))
                   (<[v := mkEvent v u t' None None 0 None]> (outbox d))
  end.

Lemma wp_claimReplay id w :
  w_tx w = None -> wf_db (w_db w) ->
  wp canonical_uuids (claimReplay id)
    (tx_done (job_replayed id) w) w.
Proof.
  intros Ht Hwf. apply wp_withTransaction; [done|]. intros w1 Ht1 Hd1 Hr1.
  apply wp_op. intros c Hc.
  pose proof (handle_client_query c (SClaimReplay (text_param id)) w1) as Hq.
  destruct (handle _ _ w1) as [[rows|e] w2]; destruct Hq as (Hr2 & Ht2 & Hx);
    [|split; [congruence|]; split; [by eapply same_rest_trans|done]].
  specialize (Hx rows eq_refl). simpl in Hx. rewrite Hd1 in Hx. unfold update_claim_replay in Hx.
  destruct (update_job_cases _ _ _ _ _ _ Hx)
    as [[-> Hdb] | (s & u & j & j' & Hs & Hu & Hj & Hw & Hset & -> & Hdb)].
  - cbn [head]. split; [congruence|]. split; [by eapply same_rest_trans|].
    intros a [= <-]. split; [done|]. intros u j Hu Hj Hst.
    destruct (update_job_none _ _ _ _ _ id u Hx) as [_ Hnone]; [apply text_param_String|done|].
    specialize (Hnone j Hj). unfold has_status in Hnone.
    by rewrite bool_decide_eq_false in Hnone.
  - cbn [head]. rewrite text_param_String in Hs. injection Hs as <-.
    apply bind_Some in Hset as (replays & Hr & Hset). apply int4_succ_Some in Hr as [-> Hle].
    injection Hset as Hj'.
    pose proof (wf_jobs _ Hwf u j Hj) as [Hid Hcan _ _ _ _].
    apply wp_op. intros c' Hc'.
    pose proof (handle_client_query c' (SInsertOutboxEvent (text_param (j_id j'))) w2) as Hq.
    destruct (handle _ _ w2) as [[x|e] w3]; destruct Hq as (Hr3 & Ht3 & Hx3);
      (split; [congruence|]); (split; [by do 2 (eapply same_rest_trans; [eassumption|])|]); [|done].
    intros a [= <-]. specialize (Hx3 x eq_refl). simpl in Hx3. rewrite Hdb in Hx3.
    unfold insert_outbox_event, id_param in Hx3. rewrite text_param_String in Hx3.
    assert (j_id j' = u) as Hid' by (rewrite <- Hj'; done).
    rewrite Hid', Hcan in Hx3. simpl in Hx3. rewrite lookup_insert_eq in Hx3.
    destruct (outbox (w_db w) !! ch_uuid c') eqn:Hv; [done|]. injection Hx3 as _ Hdb3.
    exists u, (ch_uuid c'), j, (ch_now c), (ch_now c').
    unfold has_status in Hw. apply bool_decide_eq_true in Hw.
    by repeat split.
Qed.

(** ** What the two operations keep *)

Lemma insert_pair (d : db) u v job t' :
  wf_db d -> canonical u -> canonical v -> outbox d !! v = None ->
  job_row_ok u job -> wf_db (mkDb (<[u := job]> (jobs d))
                        (<[v := mkEvent v u t' None None 0 None]> (outbox d))).
Proof.
  intros [Hj He] Hu Hv Hv' Hrow. split; simpl.
  - by apply map_Forall_insert_2.
  - assert (forall k e, event_row_ok d k e -> event_row_ok
      (mkDb (<[u := job]> (jobs d)) (<[v := mkEvent v u t' None None 0 None]> (outbox d))) k e)
      as Hmono.
    { intros k e [? ? [j Hk] ?]. split; try done. simpl.
      destruct (decide (u = ev_job_id e)) as [<-|Hne];
        [rewrite lookup_insert_eq|rewrite lookup_insert_ne by done]; by eexists. }
    apply map_Forall_insert_2; [|by intros k e Hk; apply Hmono, He].
    split; simpl; try done. by rewrite lookup_insert_eq.
Qed.

Lemma insert_outbox_evolves d m v e :
  outbox d !! v = None -> outbox_evolves d (mkDb m (<[v := e]> (outbox d))).
Proof.
  intros Hv k e' Hk. exists e'. simpl. rewrite lookup_insert_ne by congruence.
  split; [done|apply event_evolves_refl].
Qed.

Lemma job_created_keeps input d job d' :
  wf_db d -> job_created input d job d' ->
  wf_db d' /\ db_evolves d d' /\ outbox_evolves d d'.
Proof.
  intros Hwf (u & v & t & t' & Hu & Hv & Hcu & Hcv & -> & ->).
  split; [by apply insert_pair|]. split; [|by apply insert_outbox_evolves].
  intros k j Hk. exists j. simpl. rewrite lookup_insert_ne by congruence.
  split; [done|apply rtc_refl].
Qed.

Lemma job_replayed_keeps id d r d' :
  wf_db d -> job_replayed id d r d' ->
  wf_db d' /\ db_evolves d d' /\ outbox_evolves d d'.
Proof.
  destruct r as [job|]; simpl.
  2: { intros Hwf [-> _]. split; [done|]. split; [done|by apply outbox_evolves_same]. }
  intros Hwf (u & v & j & t & t' & _ & Hj & Hst & Hle & Hv & Hcv & -> & ->).
  pose proof (wf_jobs _ Hwf u j Hj) as [Hid Hcan Hatt Htot Hrep Hhis].
  split; [apply insert_pair; try done; split; simpl; try done; lia|].
  split; [|by apply insert_outbox_evolves].
  intros k j' Hk. simpl. destruct (decide (u = k)) as [<-|Hne].
  - rewrite lookup_insert_eq. eexists. split; [done|]. rewrite Hj in Hk. injection Hk as <-.
    apply rtc_once. unfold legal_step. by rewrite Hst.
  - rewrite lookup_insert_ne by done. exists j'. split; [done|apply rtc_refl].
Qed.
End transactions.
