(* ===== verification/Delivery.v ===== *)
(** * What a running handler owes to its message

    A logic for one handler among others.  A delivery that is not yet settled
    may stand for the obligation to process a job ([Live]), have discharged it
    ([Spent]), or be settled ([Settled]); [wok] says that a program only
    acknowledges a delivery that is not [Live].  The message handler of the
    worker and the dispatcher of the API satisfy their logics; [System] uses
    that for every interleaving. *)
From S2P Require Import Prelude Json Postgres Amqp Programs Effects Retry Worker Api Lifecycle.
#[local] Open Scope stdpp_scope.

Inductive ghost := Live | Spent | Settled.

#[export] Instance ghost_eq_dec : EqDecision ghost.
Proof. solve_decision. Defined.

Section delivery.
Context `{Pg}.

(** The query parameter that the handler makes of a message text, and the
    job it names. *)
Definition message_param (text : string) : option string :=
  content ← JSON_parse text;
  match message_job_id content with Ok id => pg_param id | Err _ => None end.

Definition text_job (text : string) : option string := message_param text ≫= uuid_in.

(** ** The worker's obligation *)

Section worker.
(** The delivery tag and the id parameter of the message at hand. *)
Variables (tag : nat) (q : option string).
Let target : option string := q ≫= uuid_in.

(** PostgreSQL answers 22P02 only to a text that is no uuid. *)
Definition plausible {A} (x : res js_err A) : Prop :=
  forall e, x = Err e -> isInvalidTextRepresentationError e = true -> target = None.

Definition permitted (g : ghost) (o : op) : Prop :=
  match o with
  | Query (SGetJobById id) | Query (SClaimJob id _) | Query (SMarkCompleted id)
  | Query (SMarkDeadLettered id _) => id = q
  | Query (SMarkRetrying id _) => id = q /\ g <> Settled
  | Query _ | ClientQuery _ | TxConnect | TxBegin | TxCommit | TxRollback | TxRelease => False
  | Ack t => t = tag /\ (g <> Live \/ target = None)
  | Nack t _ again => t = tag /\ again = true
  | Publish ex rk m => orderly ex rk m = true
  | _ => True
  end.

(** A publication that comes back to the job queue and names the job. *)
Definition retries_target (ex rk : string) (m : message) : Prop :=
  (ex, rk) = (FAILURES_EXCHANGE_NAME, RETRY_ROUTING_KEY)
  /\ m_expiration m <> None /\ text_job (m_content m) = target.

#[export] Instance retries_target_dec ex rk m : Decision (retries_target ex rk m).
Proof. unfold retries_target. apply _. Defined.

Definition next (g : ghost) (o : op) : res js_err (answer o) -> ghost :=
  match o return res js_err (answer o) -> ghost with
  | Query (SClaimJob _ _) => fun x =>
      if is_ok x then (if decide (g = Settled) then Settled else Spent) else g
  | Query (SMarkRetrying _ _) => fun _ => Live
  | Publish ex rk m => fun x =>
      match x with
      | Ok true => if decide (g = Live /\ retries_target ex rk m) then Spent else g
      | _ => g
      end
  | Ack _ | Nack _ _ _ => fun x => if is_ok x then Settled else g
  | _ => fun _ => g
  end.

Definition wok_step : transformer answer ghost := fun g o Φ =>
  permitted g o /\ forall x, plausible x -> Φ x (next g o x).

#[local] Instance wok_step_monotone : Monotone wok_step.
Proof. intros g o Φ Ψ HΦ [Hp Hx]. split; [done|]. intros x Hpl. by apply HΦ, Hx. Qed.

Definition wok {R} (g : ghost) (p : async R) (Φ : res js_err R -> ghost -> Prop) : Prop :=
  holds wok_step p Φ g.

Lemma wok_mono {R} (p : async R) (Φ Ψ : res js_err R -> ghost -> Prop) g :
  (forall r g, Φ r g -> Ψ r g) -> wok g p Φ -> wok g p Ψ.
Proof. exact (holds_mono wok_step p Φ Ψ g). Qed.

Lemma wok_bind {R S} (p : async R) (f : R -> async S) Φ g :
  wok g p (fun r g => match r with Ok a => wok g (f a) Φ | Err e => Φ (Err e) g end) ->
  wok g (bind p f) Φ.
Proof. exact (holds_bind wok_step p f Φ g). Qed.

Lemma wok_try_catch {R} (p : async R) h Φ g :
  wok g p (fun r g => match r with Ok a => Φ (Ok a) g | Err e => wok g (h e) Φ end) ->
  wok g (try_catch p h) Φ.
Proof. exact (holds_try_catch wok_step p h Φ g). Qed.

Lemma wok_await {R} o (f : answer o -> async R) Φ g :
  permitted g o ->
  (forall a, wok (next g o (Ok a)) (f a) Φ) ->
  (forall e, plausible (A := answer o) (Err e) -> Φ (Err e) (next g o (Err e))) ->
  wok g (bind (await o) f) Φ.
Proof. intros Hp Hok Herr. split; [done|]. intros [a|e] Hx; [apply Hok|by apply Herr]. Qed.

Lemma wok_await_last o Φ g :
  permitted g o ->
  (forall x, plausible x -> Φ x (next g o x)) ->
  wok g (await o) Φ.
Proof. intros Hp Hx. split; [done|]. intros [a|e] He; by apply Hx. Qed.

(** The back-off and the requeue are allowed in every state. *)
Lemma wok_requeue {R} (p : async R) g (Φ : res js_err R -> ghost -> Prop) :
  (forall g, wok g p Φ) -> (forall e g, Φ (Err e) g) ->
  wok g (backoffBeforeRequeue ;;; await (Nack tag false true) ;;; p) Φ.
Proof.
  intros Hp He. apply wok_bind, wok_await; [done| |by auto].
  intros n. apply wok_await_last; [done|]. intros [a|e] _; [|by auto].
  apply wok_await; [done| |by auto]. intros. apply Hp.
Qed.

Lemma wok_requeue_last g (Φ : res js_err unit -> ghost -> Prop) :
  (forall r g, Φ r g) ->
  wok g (backoffBeforeRequeue ;;; await (Nack tag false true)) Φ.
Proof.
  intros Hp. apply wok_bind, wok_await; [done| |by auto].
  intros n. apply wok_await_last; [done|]. intros [a|e] _; [|by auto].
  apply wok_await_last; [done|]. by auto.
Qed.

Definition whatever {R} : res js_err R -> ghost -> Prop := fun _ _ => True.

Variable jobId : option json.
Hypothesis jobId_param : pg_param jobId = q.
Hypothesis jobId_wf : forall v, jobId = Some v -> wf_json v = true.

(** The message about a job names that job. *)
Lemma text_job_message : text_job (job_message jobId) = target.
Proof.
  unfold text_job, message_param, job_message. rewrite JSON_parse_stringify.
  - destruct jobId; simpl; [|]; by rewrite ?String.eqb_refl, jobId_param.
  - destruct jobId as [v|]; simpl; [|done]. by rewrite (jobId_wf v).
Qed.

(** The claim ends with the delivery settled, or spent by the claimed job. *)
Lemma wok_claim_or_settle :
  wok Live (claim_or_settle tag jobId) (fun r g =>
    match r with Ok (Some _) => g = Spent | _ => True end).
Proof.
  unfold claim_or_settle. apply wok_try_catch.
  assert (forall e g, g <> Live \/ (isInvalidTextRepresentationError e = true -> target = None) ->
    wok g (if isInvalidTextRepresentationError e then await (Ack tag) ;;; Ret (@None Job)
           else backoffBeforeRequeue ;;; await (Nack tag false true) ;;; Ret None)
      (fun r g => match r with Ok (Some _) => g = Spent | _ => True end)) as Hcatch.
  { intros e g Hg. destruct (isInvalidTextRepresentationError e).
    - apply wok_await; [|done..]. split; [done|]. tauto.
    - by apply wok_requeue. }
  unfold claimJob. apply wok_bind, wok_bind, wok_await_last; [by rewrite jobId_param|].
  intros [rows|e] Hx; cbn [next is_ok]; [|apply Hcatch; right; by apply Hx].
  rewrite decide_False by done. cbn [wok holds].
  apply wok_await; [done| |intros; apply Hcatch; by left]. intros ?.
  destruct (head rows) as [job|].
  - by apply wok_await; [done| |intros; apply Hcatch; by left].
  - apply wok_bind, wok_try_catch. unfold getJobById. apply wok_await; [by rewrite jobId_param| |].
    + intros ?. apply wok_await; [by split; [|left]|done|]. intros e _. apply Hcatch. by left.
    + intros e _. apply wok_await; [by split; [|left]|done|]. intros e' _. apply Hcatch. by left.
Qed.

Lemma wok_execute_job job g : wok g (execute_job job) (fun _ g' => g' = g).
Proof.
  unfold execute_job, processJob. apply wok_try_catch, wok_bind.
  destruct (payload_flag "shouldFailPermanently" (j_payload job)); [done|].
  destruct (payload_flag "shouldFail" (j_payload job)); [done|].
  apply wok_await_last; [done|]. by intros [|] _.
Qed.

Lemma wok_record_completion : wok Spent (record_completion tag jobId) whatever.
Proof.
  unfold record_completion. apply wok_try_catch.
  assert (forall g, wok g (backoffBeforeRequeue ;;; await (Nack tag false true)) whatever)
    as Hcatch by (intros; by apply wok_requeue_last).
  unfold markCompleted. apply wok_bind, wok_await;
    [by rewrite jobId_param| |intros; apply Hcatch].
  intros rows. unfold first_row_or_throw. destruct (head rows); [|apply Hcatch].
  cbn [wok holds]. apply wok_await; [done| |intros; apply Hcatch]. intros ?.
  apply wok_await_last; [by split; [|left]|]. intros [|] _; [done|apply Hcatch].
Qed.

Lemma wok_publish g ex rk m bad Φ :
  orderly ex rk m = true ->
  (forall x, Φ x g) ->
  Φ (Ok tt) (next g (Publish ex rk m) (Ok true)) ->
  wok g (await GetChannel ;;;
         let! published := await (Publish ex rk m) in
         if published then Ret tt else Throw bad) Φ.
Proof.
  intros Hm Hall Hok. apply wok_await; [done| |by auto]. intros ?.
  apply wok_await; [done| |by auto]. intros [|]; [exact Hok|by apply Hall].
Qed.

(** Recording the failure ends with the delivery spent, or requeued. *)
Lemma wok_record_failure job err : wok Spent (record_failure tag jobId job err) whatever.
Proof.
  unfold record_failure. apply wok_await; [done| |done]. intros ?.
  apply wok_bind. apply wok_mono with (Φ := fun r g => r = Ok true -> g = Spent).
  { intros [[]|] g Hg; [|done..]. apply wok_await_last; [|done].
    split; [done|]. left. by rewrite Hg. }
  apply wok_try_catch.
  assert (forall g, wok g (backoffBeforeRequeue ;;; await (Nack tag false true) ;;; Ret false)
            (fun r g => r = Ok true -> g = Spent)) as Hcatch
    by (intros; by apply wok_requeue).
  assert (wok Spent (markDeadLettered jobId (error_message err) ;;; publishDeadLetter jobId)
            (fun r g => match r with Ok _ => g = Spent | Err _ => True end)) as Hdead.
  { apply wok_bind. unfold markDeadLettered. apply wok_await; [by rewrite jobId_param| |done].
    intros rows. unfold first_row_or_throw. destruct (head rows); [|done]. cbn [wok holds].
    by apply wok_publish; [|intros [|]|]. }
  assert (wok Spent (markRetrying jobId (error_message err) ;;;
                     publishRetry jobId (calculateBackoffMs (j_attempt_count job)))
            (fun r g => match r with Ok _ => g = Spent | Err _ => True end)) as Hretry.
  { apply wok_bind. unfold markRetrying. apply wok_await; [by rewrite jobId_param| |done].
    intros rows. unfold first_row_or_throw. destruct (head rows); [|done]. cbn [wok holds].
    apply wok_await; [done| |done]. intros ?. apply wok_await; [done| |done].
    intros [|]; [|done]. cbn [wok holds next]. rewrite decide_True; [done|]. split; [done|].
    split; [done|]. split; [done|]. apply text_job_message. }
  apply wok_bind. eapply wok_mono with
    (Φ := fun r g => match r with Ok _ => g = Spent | Err _ => True end).
  { intros [|] g Hg; [by intros _|]. by eapply wok_mono; [|apply Hcatch]. }
  destruct (is_non_retryable err); [done|]. by destruct (j_max_attempts job <=? j_attempt_count job).
Qed.
End worker.

(** The message handler, on any text. *)
Lemma wok_on_message sync tag text :
  wok tag (message_param text) Live (on_message sync (Some (tag, text))) whatever.
Proof.
  unfold on_message, message_param. destruct (JSON_parse text) as [content|] eqn:Htext;
    cbn [mbind option_bind].
  2: { apply wok_await_last; [|done]. split; [done|]. by right. }
  destruct (message_job_id content) as [jobId|e] eqn:Hid; [|done]. cbn [of_res bind].
  assert (forall v, jobId = Some v -> wf_json v = true) as Hwf.
  { intros v ->. apply (get_prop_wf "jobId" content); [by eapply JSON_parse_wf|].
    destruct content; simplify_eq/=; done. }
  apply wok_bind. apply wok_mono with (Φ := fun _ g => g = Live).
  - intros [_|e] g ->; [|done]. apply wok_bind.
    eapply wok_mono; [|by apply wok_claim_or_settle].
    intros [[job|]|] g Hg; [subst g|done..]. apply wok_bind.
    eapply wok_mono; [|apply wok_execute_job]. intros [[err|]|] g ->; [| |done].
    + by apply wok_record_failure.
    + by apply wok_record_completion.
  - unfold wait_for_claim_test. destruct (0 <? sync); [|done].
    apply wok_await; [done| |done]. intros now. destruct (0 <? sync - now); [|done].
    by apply wok_await_last.
Qed.

(** ** The dispatcher's obligation *)

(** The events it claimed, with their jobs, and those of them whose message
    the broker accepted since: only these may be marked published. *)
Record duty := mkDuty { known : list (string * string); sent : gset string }.

Definition created_message (jobId : string) : message :=
  mkMessage (job_created_message jobId) true None.

Definition permitted_dispatch (D : duty) (o : op) : Prop :=
  match o with
  | Query (SClaimPendingEvents _ _) | Query (SMarkOutboxFailed _ _)
  | GetChannel => True
  | Publish ex rk m => orderly ex rk m = true
  | Query (SMarkOutboxPublished id) => exists v, id = Some v /\ v ∈ sent D
  | _ => False
  end.

(** The claimed events that a publication announces. *)
Definition announced (ex rk : string) (m : message) (l : list (string * string)) : gset string :=
  list_to_set (filter (fun x =>
    (ex, rk, m) = (EXCHANGE_NAME, ROUTING_KEY, created_message x.2)) l).*1.

Lemma elem_of_announced ex rk m l v :
  v ∈ announced ex rk m l <->
  exists j, (v, j) ∈ l /\ (ex, rk, m) = (EXCHANGE_NAME, ROUTING_KEY, created_message j).
Proof.
  unfold announced. rewrite elem_of_list_to_set, list_elem_of_fmap. split.
  - intros ([w j] & -> & Hin). apply list_elem_of_filter in Hin as [Hm Hin]. by exists j.
  - intros (j & Hin & Hm). exists (v, j). split; [done|]. by apply list_elem_of_filter.
Qed.

Definition event_key (e : OutboxEvent) : string * string := (ev_id e, ev_job_id e).

Definition next_dispatch (D : duty) (o : op) : res js_err (answer o) -> duty :=
  match o return res js_err (answer o) -> duty with
  | Query (SClaimPendingEvents _ _) => fun x =>
      match x with
      | Ok rows => mkDuty (known D ++ (event_key <$> (rows : list OutboxEvent))) (sent D)
      | Err _ => D
      end
  | Publish ex rk m => fun x =>
      match x with
      | Ok true => mkDuty (known D) (sent D ∪ announced ex rk m (known D))
      | _ => D
      end
  | _ => fun _ => D
  end.

Definition dok_step : transformer answer duty := fun D o Φ =>
  permitted_dispatch D o /\ forall x, Φ x (next_dispatch D o x).

#[local] Instance dok_step_monotone : Monotone dok_step.
Proof. intros D o Φ Ψ HΦ [Hp Hx]. split; [done|]. intros x. by apply HΦ. Qed.

Definition dok {R} (D : duty) (p : async R) (Φ : res js_err R -> duty -> Prop) : Prop :=
  holds dok_step p Φ D.

Lemma dok_mono {R} (p : async R) (Φ Ψ : res js_err R -> duty -> Prop) D :
  (forall r D, Φ r D -> Ψ r D) -> dok D p Φ -> dok D p Ψ.
Proof. exact (holds_mono dok_step p Φ Ψ D). Qed.

Lemma dok_bind {R S} (p : async R) (f : R -> async S) Φ D :
  dok D p (fun r D => match r with Ok a => dok D (f a) Φ | Err e => Φ (Err e) D end) ->
  dok D (bind p f) Φ.
Proof. exact (holds_bind dok_step p f Φ D). Qed.

Lemma dok_try_catch {R} (p : async R) h Φ D :
  dok D p (fun r D => match r with Ok a => Φ (Ok a) D | Err e => dok D (h e) Φ end) ->
  dok D (try_catch p h) Φ.
Proof. exact (holds_try_catch dok_step p h Φ D). Qed.

Lemma dok_await {R} o (f : answer o -> async R) Φ D :
  permitted_dispatch D o ->
  (forall a, dok (next_dispatch D o (Ok a)) (f a) Φ) ->
  (forall e, Φ (Err e) (next_dispatch D o (Err e))) ->
  dok D (bind (await o) f) Φ.
Proof. intros Hp Hok Herr. split; [done|]. intros [a|e]; [apply Hok|by apply Herr]. Qed.

Lemma dok_dispatch_event e D :
  event_key e ∈ known D -> dok D (dispatch_event e) (fun _ D' => known D' = known D).
Proof.
  intros He. unfold dispatch_event. apply dok_try_catch.
  assert (forall err D', known D' = known D ->
    dok D' (markOutboxFailed (ev_id e) (dispatch_error_message err) ;;; Ret false)
      (fun _ D'' => known D'' = known D)) as Hcatch.
  { intros err D' HD. by apply dok_await. }
  unfold publishJobCreated. apply dok_bind, dok_await; [done| |intros e'; by apply Hcatch].
  intros ?. apply dok_await; [done| |intros e'; by apply Hcatch].
  intros [|]; [|by apply Hcatch]. cbn [dok holds].
  apply dok_await; [|done|intros e'; by apply Hcatch].
  exists (ev_id e). split; [apply pg_param_string|]. cbn [next_dispatch sent].
  apply elem_of_union. right. apply elem_of_announced. by exists (ev_job_id e).
Qed.

Lemma dok_dispatch_events claimed published failed D :
  (forall e, e ∈ claimed -> event_key e ∈ known D) ->
  dok D (dispatch_events claimed published failed) (fun _ _ => True).
Proof.
  revert published failed D. induction claimed as [|e l IH]; intros pub fai D Hin; [done|].
  cbn [dispatch_events]. apply dok_bind. eapply dok_mono; [|apply dok_dispatch_event, Hin; left].
  intros [[|]|] D' HD; [| |done]; (apply IH; intros e' He'; rewrite HD; apply Hin; by right).
Qed.

Lemma dok_dispatchOutboxBatch :
  dok (mkDuty [] ∅) dispatchOutboxBatch (fun _ _ => True).
Proof.
  unfold dispatchOutboxBatch. apply dok_await; [done| |done]. intros rows.
  apply dok_bind. eapply dok_mono; [|apply dok_dispatch_events]; [by intros [|]|].
  intros e He. cbn. by apply (list_elem_of_fmap_2 event_key).
Qed.

(** The message about a created job names it. *)
Lemma text_job_created u : canonical u -> text_job (job_created_message u) = Some u.
Proof.
  intros Hu. change (job_created_message u) with (job_message (Some (JStr u))).
  rewrite (text_job_message (Some u)); [done|apply pg_param_string|by intros v [= <-]].
Qed.
End delivery.
