(* ===== verification/System.v ===== *)
(** * The system: API, dispatchers and message handlers, interleaved

    Any number of handlers and dispatchers run at once; a step is one effect of
    one of them, a delivery, a broker step, an API transaction, a crash, or the
    loss of the worker's channel.  The invariant: a job that is waiting to be
    processed is in flight. *)
From S2P Require Import Prelude Json Postgres Amqp Programs Effects Retry Worker Api Lifecycle Transactions Delivery.
#[local] Open Scope stdpp_scope.

(** ** States and steps *)

Inductive proc :=
| Handler (text : string) (p : async unit)            (* on_message, at a delivery *)
| Dispatcher (p : async DispatchResult).              (* dispatchOutboxBatch *)

Record sys (B : Type) := mkSys {
  s_world : world B;
  s_procs : gmap nat proc }.        (* a handler at its delivery tag *)
Arguments mkSys {B}.
Arguments s_world {B}.
Arguments s_procs {B}.

Section system.
Context `{Pg} {B : Type} `{Broker B}.
Implicit Types w : world B.
Implicit Types s : sys B.

(** What holds of the environment: PostgreSQL's uuids are canonical, and an
    outage is not reported as SQLSTATE 22P02.  When it is [reliable], moreover, a
    message that [channel.publish] accepted reaches the broker: without publisher
    confirms amqplib does not promise it, the message may be lost in its buffer
    or on the connection. *)
Record sane_in (reliable : bool) (c : choice) : Prop := {
  sane_uuid : canonical (ch_uuid c);
  sane_stored : reliable = true -> ch_published c = true -> ch_stored c = true;
  sane_fault : forall x e, ch_fault c = Some (x, e) ->
                 isInvalidTextRepresentationError e = false }.

(** The tag of a new delivery, or the name of a new dispatcher. *)
Definition fresh_tag (t : nat) s : Prop :=
  s_procs s !! t = None /\ w_unacked (s_world s) !! t = None.

(** The broker takes an unsettled delivery back. *)
Definition return_delivery (t : nat) w : world B :=
  match w_unacked w !! t with
  | Some m => with_broker (requeue QUEUE_NAME m (w_broker w))
                (with_unacked (delete t (w_unacked w)) w)
  | None => w
  end.

(** [reliable]: what [sane_in] says; [closures]: whether the worker's channel may be lost under a running
    handler (which then goes on, and fails to settle). *)
Inductive step_in (reliable closures : bool) : sys B -> sys B -> Prop :=
| step_deliver s t m b sync :
    fresh_tag t s -> m_expiration m = None ->
    take_message QUEUE_NAME m (w_broker (s_world s)) b ->
    step_in reliable closures s
      (mkSys (with_unacked (<[t := m]> (w_unacked (s_world s))) (with_broker b (s_world s)))
         (<[t := Handler (m_content m) (on_message sync (Some (t, m_content m)))]> (s_procs s)))
| step_handler s t text o k c x w' :
    s_procs s !! t = Some (Handler text (Vis o k)) -> sane_in reliable c ->
    handle c o (s_world s) = (x, w') ->
    step_in reliable closures s (mkSys w' (<[t := Handler text (k x)]> (s_procs s)))
| step_dispatch s t :
    fresh_tag t s ->
    step_in reliable closures s
      (mkSys (s_world s) (<[t := Dispatcher dispatchOutboxBatch]> (s_procs s)))
| step_dispatcher s t o k c x w' :
    s_procs s !! t = Some (Dispatcher (Vis o k)) -> sane_in reliable c ->
    handle c o (s_world s) = (x, w') ->
    step_in reliable closures s (mkSys w' (<[t := Dispatcher (k x)]> (s_procs s)))
| step_create s input cs r w' cs' :
    within canonical_uuids cs -> run (createJob input) cs (s_world s) = (r, w', cs') ->
    step_in reliable closures s (mkSys w' (s_procs s))
| step_replay s id cs r w' cs' :
    within canonical_uuids cs -> run (claimReplay id) cs (s_world s) = (r, w', cs') ->
    step_in reliable closures s (mkSys w' (s_procs s))
| step_broker s b :
    internal (w_broker (s_world s)) b ->
    step_in reliable closures s (mkSys (with_broker b (s_world s)) (s_procs s))
| step_crash s t p :
    s_procs s !! t = Some p ->
    step_in reliable closures s (mkSys (return_delivery t (s_world s)) (delete t (s_procs s)))
| step_close s t :
    closures = true ->
    step_in reliable closures s (mkSys (return_delivery t (s_world s)) (s_procs s)).

(** Empty tables, the queues declared, nothing running. *)
Definition initial : sys B :=
  mkSys (mkWorld (mkDb ∅ ∅) None (declared worker_topology) ∅ 0 []) ∅.

Definition reachable_in (reliable closures : bool) (s : sys B) : Prop :=
  rtc (step_in reliable closures) initial s.

(** The theorems are about a reliable environment where nothing else is said. *)
#[local] Abbreviation sane := (sane_in true).
#[local] Abbreviation step := (step_in true).
#[local] Abbreviation reachable := (reachable_in true).

(** A job is in flight: an outbox event that is not published yet, a message
    in the job queue or waiting in the retry queue, or a delivery that the
    broker takes back unless it is acknowledged. *)
Definition in_flight w (u : string) : Prop :=
  (exists v e, outbox (w_db w) !! v = Some e /\ ev_job_id e = u /\ unpublished e = true)
  \/ (exists text, held (w_broker w) text /\ text_job text = Some u)
  \/ (exists t m, w_unacked w !! t = Some m /\ text_job (m_content m) = Some u).

(** ** Tokens *)

(** The same, less what is already used up: an event whose message was
    published, a delivery whose obligation is discharged. *)
Inductive token w (γ : gmap nat ghost) (spent : gset string) (u : string) : Prop :=
| tok_event v e :
    outbox (w_db w) !! v = Some e -> ev_job_id e = u -> unpublished e = true ->
    v ∉ spent -> token w γ spent u
| tok_held text :
    held (w_broker w) text -> text_job text = Some u -> token w γ spent u
| tok_live t m :
    w_unacked w !! t = Some m -> text_job (m_content m) = Some u -> γ !! t = Some Live ->
    token w γ spent u.

Lemma token_in_flight w γ spent u : token w γ spent u -> in_flight w u.
Proof. unfold in_flight. intros []; naive_solver. Qed.

(** The jobs that wait for a message. *)
Definition waiting (closures : bool) (j : Job) : bool :=
  has_status QUEUED j || (negb closures && has_status RETRYING j).

Definition covered (closures : bool) w (γ : gmap nat ghost) (spent : gset string) : Prop :=
  forall u j, jobs (w_db w) !! u = Some j -> waiting closures j = true -> token w γ spent u.

Definition duty_ok w (spent : gset string) (D : duty) : Prop :=
  (forall v u, (v, u) ∈ known D -> exists e, outbox (w_db w) !! v = Some e /\ ev_job_id e = u)
  /\ sent D ⊆ spent
  /\ (forall v, v ∈ sent D -> v ∈ (known D).*1).

Definition proc_ok (closures : bool) w (γ : gmap nat ghost) (spent : gset string)
    (t : nat) (p : proc) : Prop :=
  match p with
  | Handler text q => exists g, γ !! t = Some g
      /\ wok t (message_param text) g q whatever
      /\ (closures = false -> g <> Settled -> is_Some (w_unacked w !! t))
  | Dispatcher q => exists D, duty_ok w spent D /\ dok D q (fun _ _ => True)
  end.

Record inv (closures : bool) (s : sys B) (γ : gmap nat ghost) (spent : gset string) : Prop := {
  inv_topology : topology_ok (w_broker (s_world s));
  inv_tx : w_tx (s_world s) = None;
  inv_wf : wf_db (w_db (s_world s));
  inv_spent : forall v, v ∈ spent -> is_Some (outbox (w_db (s_world s)) !! v);
  inv_covered : covered closures (s_world s) γ spent;
  inv_procs : forall t p, s_procs s !! t = Some p ->
                proc_ok closures (s_world s) γ spent t p;
  inv_unacked : forall t m, w_unacked (s_world s) !! t = Some m ->
                m_expiration m = None /\ exists p, s_procs s !! t = Some (Handler (m_content m) p) }.

(** ** What a step of the world leaves alone *)

Definition grows w w' : Prop :=
  db_evolves (w_db w) (w_db w') /\ outbox_evolves (w_db w) (w_db w').

Lemma duty_ok_mono w w' spent spent' D :
  outbox_evolves (w_db w) (w_db w') -> spent ⊆ spent' ->
  duty_ok w spent D -> duty_ok w' spent' D.
Proof.
  intros Ho Hs (Hk & Hsent & Hin). split; [|split; [set_solver|done]].
  intros v u Hv. destruct (Hk v u Hv) as (e & He & <-).
  destruct (Ho v e He) as (e' & He' & _ & Hj & _). by exists e'.
Qed.

Lemma proc_ok_mono cl w w' γ γ' spent spent' t p :
  outbox_evolves (w_db w) (w_db w') -> spent ⊆ spent' ->
  γ' !! t = γ !! t ->
  (cl = false -> is_Some (w_unacked w !! t) -> is_Some (w_unacked w' !! t)) ->
  proc_ok cl w γ spent t p -> proc_ok cl w' γ' spent' t p.
Proof.
  intros Ho Hs Hγ Hu. destruct p as [text q|q]; simpl.
  - intros (g & Hg & Hq & Hun). exists g. rewrite Hγ. by auto.
  - intros (D & HD & Hq). exists D. split; [|done]. by eapply duty_ok_mono.
Qed.

(** The outcome of a statement: carried out (whether or not its answer
    arrives), or not at all. *)
Lemma handle_query c q w x w' :
  sane c -> handle c (Query q) w = (x, w') ->
  w_broker w' = w_broker w /\ w_unacked w' = w_unacked w /\ w_tx w' = w_tx w /\
  ((exists r, exec c q (w_db w) = Ok (r, w_db w') /\ (x = Ok r \/ is_ok x = false))
   \/ (w_db w' = w_db w /\ is_ok x = false)) /\
  (forall e, x = Err e -> isInvalidTextRepresentationError e = true ->
     exec c q (w_db w) = Err e).
Proof.
  intros [_ _ Hf] Hh. unfold handle, effect in Hh. simpl in Hh.
  destruct (ch_fault c) as [[executed e]|] eqn:Hc;
    destruct (exec c q (w_db w)) as [[r d]|e'] eqn:He; try destruct executed; simpl in Hh;
    injection Hh as <- <-; simpl; repeat split; eauto.
  all: intros e0 [= <-] Ht; first [done | by rewrite (Hf _ _ eq_refl) in Ht].
Qed.

(** ** The statements and the jobs that wait *)

Lemma update_job_waiting cl p where_ set d r d' :
  (forall j j', where_ j = true -> set j = Some j' -> waiting cl j' = false) ->
  update_job p where_ set d = Ok (r, d') ->
  forall u j', jobs d' !! u = Some j' -> waiting cl j' = true -> jobs d !! u = Some j'.
Proof.
  intros Hset Hu u j' Hj Hw. destruct (update_job_cases _ _ _ _ _ _ Hu)
    as [[_ ->] | (x & v & k & k' & _ & _ & Hl & Hwh & Hs & _ & ->)]; [done|].
  simpl in Hj. destruct (decide (v = u)) as [->|Hne]; [|by rewrite lookup_insert_ne in Hj].
  rewrite lookup_insert_eq in Hj. injection Hj as ->. by rewrite (Hset _ _ Hwh Hs) in Hw.
Qed.

Lemma update_job_others p where_ set d r d' u :
  update_job p where_ set d = Ok (r, d') -> p ≫= uuid_in <> Some u ->
  jobs d' !! u = jobs d !! u.
Proof.
  intros Hu Hne. destruct (update_job_cases _ _ _ _ _ _ Hu)
    as [[_ ->] | (x & v & k & k' & -> & Hx & Hl & Hwh & Hs & _ & ->)]; [done|].
  simpl. rewrite lookup_insert_ne; [done|]. intros ->. done.
Qed.

(** A claim that is answered leaves its job claimed, or not waiting. *)
Lemma claim_not_waiting cl now p stale d r d' u j :
  update_claim_job now p stale d = Ok (r, d') -> p ≫= uuid_in = Some u ->
  jobs d' !! u = Some j -> waiting cl j = false.
Proof.
  unfold update_claim_job. intros Hu Hp Hj. destruct (update_job_cases _ _ _ _ _ _ Hu)
    as [[-> ->] | (x & v & k & k' & -> & Hx & Hl & Hwh & Hs & _ & ->)].
  - destruct p as [x|]; [|done]. simpl in Hp.
    destruct (update_job_none _ _ _ _ _ x u Hu) as [_ Hn]; [done..|].
    specialize (Hn j Hj). unfold claimable, waiting in *.
    destruct (has_status QUEUED j), (has_status RETRYING j); simpl in *; try done.
    by destruct (negb cl).
  - simpl in Hp. rewrite Hx in Hp. injection Hp as ->. simpl in Hj.
    rewrite lookup_insert_eq in Hj. injection Hj as ->.
    apply bind_Some in Hs as (? & _ & Hs). apply bind_Some in Hs as (? & _ & Hs).
    injection Hs as <-. unfold waiting, has_status. simpl. by destruct cl.
Qed.

(** The statements of a handler make no job wait, [markRetrying] apart. *)
Lemma handler_query_waiting cl tag q g c st d r d' u j :
  permitted tag q g (Query st) -> exec c st d = Ok (r, d') ->
  jobs d' !! u = Some j -> waiting cl j = true ->
  jobs d !! u = Some j \/ ((exists m, st = SMarkRetrying q m) /\ cl = false /\ q ≫= uuid_in = Some u).
Proof.
  destruct st; try done; intros Hp He Hj Hw; simpl in He.
  - apply select_job_same in He as ->. by left.
  - left. eapply update_job_waiting; [|exact He|done..]. intros k k' _ Hs.
    apply bind_Some in Hs as (? & _ & Hs). apply bind_Some in Hs as (? & _ & Hs).
    injection Hs as <-. unfold waiting, has_status. simpl. by destruct cl.
  - left. eapply update_job_waiting; [|exact He|done..]. intros k k' _ [= <-].
    unfold waiting, has_status. simpl. by destruct cl.
  - destruct Hp as [-> _]. destruct cl.
    + left. eapply update_job_waiting; [|exact He|done..]. by intros k k' _ [= <-].
    + destruct (decide (q ≫= uuid_in = Some u)) as [Ht|Ht]; [right; by eauto|left].
      by rewrite <- (update_job_others _ _ _ _ _ _ _ He Ht).
  - left. eapply update_job_waiting; [|exact He|done..]. intros k k' _ [= <-].
    unfold waiting, has_status. simpl. by destruct cl.
Qed.

Lemma handler_query_outbox tag q g c st d r d' :
  permitted tag q g (Query st) -> exec c st d = Ok (r, d') ->
  outbox d' = outbox d /\ in_use st.
Proof.
  destruct st; try done; intros Hp He; simpl in He; (split; [|done]);
    try by eapply update_job_outbox. by apply select_job_same in He as ->.
Qed.

(** ** One effect of a handler *)

Section handler.
Variables (cl : bool) (s : sys B) (γ : gmap nat ghost) (spent : gset string).
Variables (t : nat) (text : string) (g : ghost).
Hypothesis Hinv : inv cl s γ spent.
Hypothesis Hg : γ !! t = Some g.
Let w := s_world s.
Let q := message_param text.

(** The content of the delivery that the handler has. *)
Hypothesis Htext : forall m, w_unacked w !! t = Some m -> m_content m = text.

(** A waiting job keeps its token, but for the one of this delivery. *)
Lemma token_kept w' g' u :
  outbox (w_db w') = outbox (w_db w) ->
  (forall c, held (w_broker w) c -> held (w_broker w') c) ->
  (forall t', t' <> t -> w_unacked w' !! t' = w_unacked w !! t') ->
  (g = Live -> text_job text = Some u -> forall m, w_unacked w !! t = Some m ->
     token w' (<[t := g']> γ) spent u) ->
  token w γ spent u -> token w' (<[t := g']> γ) spent u.
Proof.
  intros Ho Hh Hu Hlive Htok. destruct Htok as [v e He Hj Hun Hs|c Hc Hj|t' m Hm Hj Hl].
  - eapply tok_event; [|done..]. by rewrite Ho.
  - eapply tok_held; [|done]. by apply Hh.
  - destruct (decide (t' = t)) as [->|Hne].
    + apply (Hlive ltac:(congruence)) with m; [|done]. by rewrite <- (Htext m Hm).
    + eapply tok_live; [by rewrite Hu|done|]. by rewrite lookup_insert_ne.
Qed.

Lemma inv_handler w' g' p :
  topology_ok (w_broker w') -> w_tx w' = None -> wf_db (w_db w') ->
  outbox_evolves (w_db w) (w_db w') ->
  w_unacked w' = w_unacked w
  \/ (w_unacked w' = delete t (w_unacked w) /\ g' = Settled) ->
  (g' <> Settled -> g <> Settled) ->
  covered cl w' (<[t := g']> γ) spent -> wok t q g' p whatever ->
  is_Some (s_procs s !! t) -> proc_ok cl w γ spent t (Handler text (Ret tt)) ->
  inv cl (mkSys w' (<[t := Handler text p]> (s_procs s))) (<[t := g']> γ) spent.
Proof.
  intros Htop Htx Hwf Hout Hun Hgs Hcov Hp Hin (g0 & Hg0 & _ & Hset0).
  assert (g0 = g) as -> by congruence.
  split; simpl; [done|done|done| |done| |].
  - intros v Hv. destruct (inv_spent _ _ _ _ Hinv v Hv) as [e He].
    destruct (Hout v e He) as (e' & He' & _). by eexists.
  - intros t' p' Hp'. destruct (decide (t = t')) as [<-|Hne].
    + rewrite lookup_insert_eq in Hp'. injection Hp' as <-. exists g'.
      rewrite lookup_insert_eq. split; [done|]. split; [done|]. intros Hcl Hns.
      destruct Hun as [->|[_ ?]]; [|done]. by auto.
    + rewrite lookup_insert_ne in Hp' by done.
      eapply proc_ok_mono; [done|done|by apply lookup_insert_ne| |
        by eapply (inv_procs _ _ _ _ Hinv)].
      intros _. destruct Hun as [->|[-> _]]; [done|]. by rewrite lookup_delete_ne.
  - intros t' m Hm.
    assert (w_unacked w !! t' = Some m) as Hm'.
    { destruct Hun as [Hun|[Hun _]]; rewrite Hun in Hm; [done|].
      by apply lookup_delete_Some in Hm as []. }
    destruct (inv_unacked _ _ _ _ Hinv t' m Hm') as (He & p0 & Hp0). split; [done|].
    destruct (decide (t = t')) as [<-|Hne].
    + exists p. rewrite lookup_insert_eq. by rewrite (Htext m Hm').
    + exists p0. by rewrite lookup_insert_ne.
Qed.

Definition kept w' g' : Prop :=
  topology_ok (w_broker w') /\ w_tx w' = None /\ wf_db (w_db w') /\ grows w w'
  /\ (w_unacked w' = w_unacked w \/ (w_unacked w' = delete t (w_unacked w) /\ g' = Settled))
  /\ covered cl w' (<[t := g']> γ) spent.

(** Nothing but clocks, counters and the log. *)
Lemma kept_idle w' :
  w_db w' = w_db w -> w_tx w' = w_tx w -> w_broker w' = w_broker w ->
  w_unacked w' = w_unacked w -> kept w' g.
Proof.
  intros Hd Ht Hb Hu. destruct Hinv as [Htop Htx Hwf _ Hcov _ _].
  split; [by rewrite Hb|]. split; [by rewrite Ht|]. split; [by rewrite Hd|].
  split; [|split; [by left|]].
  - split; rewrite Hd; [done|by apply outbox_evolves_same].
  - intros u j Hj Hw. rewrite Hd in Hj.
    eapply token_kept; [by rewrite Hd|by rewrite Hb|by rewrite Hu| |by eapply Hcov].
    intros Hl Hu' m Hm. eapply tok_live; [by rewrite Hu|by rewrite (Htext m Hm)|].
    by rewrite Hl, lookup_insert_eq.
Qed.

Lemma kept_query c st x w' :
  permitted t q g (Query st) -> sane c ->
  (cl = false -> g <> Settled -> is_Some (w_unacked w !! t)) ->
  handle c (Query st) w = (x, w') -> kept w' (next q g (Query st) x).
Proof.
  intros Hp Hc Hset Hh.
  destruct (handle_query _ _ _ _ _ Hc Hh) as (Hb & Hu & Ht & Hout & _).
  destruct Hinv as [Htop Htx Hwf _ Hcov _ _].
  destruct Hout as [(r & He & Hx)|[Hd Hx]].
  2: { replace (next q g (Query st) x) with (match st with SMarkRetrying _ _ => Live | _ => g end)
         by (destruct x; [done|by destruct st]).
       pose proof (kept_idle w' Hd Ht Hb Hu) as Hk. destruct st; try exact Hk.
       destruct Hk as (? & ? & ? & ? & [?|[? Hs]] & Hk); destruct Hp as [_ Hns]; [|done].
       do 4 (split; [done|]). split; [by left|]. intros u j Hj Hw.
       destruct (Hk u j Hj Hw) as [v e He Hje Hun Hs|k Hke Hj'|t' m Hm Hj' Hl];
         [by eapply tok_event|by eapply tok_held|].
       eapply tok_live; [done..|]. destruct (decide (t' = t)) as [->|Hne];
         [by rewrite lookup_insert_eq|by rewrite lookup_insert_ne in * by done]. }
  pose proof (handler_query_outbox _ _ _ _ _ _ _ _ Hp He) as [Ho Huse].
  split; [by rewrite Hb|]. split; [by rewrite Ht|].
  split; [by eapply exec_wf; [apply Hc| |]|].
  split; [split; [by eapply exec_evolves|by apply outbox_evolves_same]|].
  split; [by left|]. intros u j Hj Hw.
  assert (exists g', next q g (Query st) x = g') as [g' Hg'] by by eexists.
  destruct (handler_query_waiting cl _ _ _ _ _ _ _ _ _ _ Hp He Hj Hw)
    as [Hj0|((m & ->) & Hcl & Htgt)].
  - rewrite Hg'. eapply token_kept; [done|by rewrite Hb|by rewrite Hu| |by eapply Hcov].
    intros Hl Hjob m Hm. enough (g' = Live) as ->.
    { eapply tok_live; [by rewrite Hu|by rewrite (Htext m Hm)|by rewrite lookup_insert_eq]. }
    destruct st; simpl in Hg'; subst g'; try done.
    destruct x as [a|e]; [exfalso|done].
    destruct Hx as [[= ->]|]; [|done]. simpl in He, Hp. subst id.
    by rewrite (claim_not_waiting cl _ _ _ _ _ _ u j He) in Hw.
  - destruct Hp as [_ Hns]. destruct (Hset Hcl Hns) as [m' Hm'].
    eapply tok_live; [by rewrite Hu|by rewrite (Htext m' Hm')|].
    by rewrite lookup_insert_eq.
Qed.

(** A state that differs in the broker, which holds what it held, and in
    this delivery. *)
Lemma kept_broker w' g' :
  w_db w' = w_db w -> w_tx w' = w_tx w -> topology_ok (w_broker w') ->
  (forall k, held (w_broker w) k -> held (w_broker w') k) ->
  w_unacked w' = w_unacked w \/ (w_unacked w' = delete t (w_unacked w) /\ g' = Settled) ->
  (forall u, g = Live -> text_job text = Some u -> forall m, w_unacked w !! t = Some m ->
     token w' (<[t := g']> γ) spent u) ->
  kept w' g'.
Proof.
  intros Hd Ht Htop' Hh Hu Hlive. destruct Hinv as [Htop Htx Hwf _ Hcov _ _].
  split; [done|]. split; [by rewrite Ht|]. split; [by rewrite Hd|].
  split; [|split; [done|]].
  - split; rewrite Hd; [done|by apply outbox_evolves_same].
  - intros u j Hj Hw. rewrite Hd in Hj.
    eapply token_kept; [by rewrite Hd|done| |by eauto|by eapply Hcov].
    intros t' Hne. destruct Hu as [->|[-> _]]; [done|]. by rewrite lookup_delete_ne.
Qed.

Lemma kept_publish c ex rk m x w' :
  sane c -> handle c (Publish ex rk m) w = (x, w') ->
  kept w' (next q g (Publish ex rk m) x).
Proof.
  intros [_ Hst _] Hh.
  assert (w_db w' = w_db w /\ w_tx w' = w_tx w /\ w_unacked w' = w_unacked w
    /\ (w_broker w' = w_broker w /\ x <> Ok true
        \/ w_broker w' = publish ex rk m (w_broker w))) as (Hd & Ht & Hu & Hb).
  { unfold handle, effect in Hh. simpl in Hh.
    destruct (ch_fault c) as [[[] e]|]; injection Hh as <- <-; simpl; try by auto 10.
    destruct (ch_stored c); simpl; repeat split; auto.
    left. split; [done|]. intros [= Hp]. by specialize (Hst eq_refl Hp). }
  destruct Hinv as [Htop _ _ _ _ _ _].
  assert (forall k, held (w_broker w) k -> held (w_broker w') k) as Hheld.
  { intros k Hk. destruct Hb as [[-> _]| ->]; [done|by apply held_publish]. }
  assert (topology_ok (w_broker w')) as Htop'.
  { destruct Hb as [[-> _]| ->]; [done|by apply publish_topology]. }
  apply kept_broker; try done; [by left|]. intros u Hl Hjob m' Hm'.
  assert (forall g', g' = Live -> token w' (<[t := g']> γ) spent u) as Hstay.
  { intros g' ->. eapply tok_live; [by rewrite Hu|by rewrite (Htext m' Hm')|].
    by rewrite lookup_insert_eq. }
  destruct x as [[|]|e]; simpl; [|by auto..].
  destruct (decide _) as [[_ Hr]|]; [|by auto]. destruct Hr as ([= -> ->] & He & Hj).
  destruct Hb as [[_ []]|Hb]; [done|]. eapply tok_held; [|by rewrite Hj].
  rewrite Hb. apply held_published; [done|]. by right.
Qed.

Lemma kept_ack c x w' :
  permitted t q g (Ack t) -> handle c (Ack t) w = (x, w') -> kept w' (next q g (Ack t) x).
Proof.
  intros [_ Hor] Hh. destruct Hinv as [Htop _ _ _ _ _ _].
  assert (w_db w' = w_db w /\ w_tx w' = w_tx w /\ w_broker w' = w_broker w
    /\ (w_unacked w' = w_unacked w /\ is_ok x = false
        \/ w_unacked w' = delete t (w_unacked w) /\ is_ok x = true)) as (Hd & Ht & Hb & Hu).
  { unfold handle, effect in Hh. simpl in Hh.
    destruct (ch_fault c) as [[[] e]|]; [by injection Hh as <- <-; auto 10..|].
    destruct (w_unacked w !! t) as [m|]; injection Hh as <- <-; simpl; auto 10. }
  destruct Hu as [[Hu Hx]|[Hu Hx]].
  - replace (next q g (Ack t) x) with g by (by destruct x). by apply kept_idle.
  - replace (next q g (Ack t) x) with Settled by (by destruct x).
    apply kept_broker; try done; rewrite ?Hb; [done|done|by right|].
    intros u Hl Hjob. destruct Hor as [?|Hor]; [done|].
    change (q ≫= uuid_in = Some u) in Hjob. by rewrite Hor in Hjob.
Qed.

Lemma kept_nack c all x w' :
  (forall m, w_unacked w !! t = Some m -> m_expiration m = None) ->
  handle c (Nack t all true) w = (x, w') -> kept w' (next q g (Nack t all true) x).
Proof.
  intros Hexp Hh. destruct Hinv as [Htop _ _ _ _ _ _].
  assert (w_db w' = w_db w /\ w_tx w' = w_tx w
    /\ (w_unacked w' = w_unacked w /\ w_broker w' = w_broker w /\ is_ok x = false
        \/ exists m, w_unacked w !! t = Some m /\ w_unacked w' = delete t (w_unacked w)
           /\ w_broker w' = requeue QUEUE_NAME m (w_broker w) /\ is_ok x = true))
    as (Hd & Ht & Hu).
  { unfold handle, effect in Hh. simpl in Hh.
    destruct (ch_fault c) as [[[] e]|]; [by injection Hh as <- <-; auto 10..|].
    destruct (w_unacked w !! t) as [m|] eqn:Hm; injection Hh as <- <-; simpl; eauto 10. }
  destruct Hu as [(Hu & Hb & Hx)|(m & Hm & Hu & Hb & Hx)].
  - replace (next q g (Nack t all true) x) with g by (by destruct x).
    by apply kept_idle.
  - replace (next q g (Nack t all true) x) with Settled by (by destruct x).
    apply kept_broker; try done; rewrite ?Hb; [by apply requeue_topology| |by right|].
    + intros k. apply held_requeue.
    + intros u Hl Hjob m' Hm'. eapply tok_held; [|exact Hjob]. rewrite Hb, <- (Htext m Hm).
      apply held_requeued. by apply Hexp.
Qed.

(** Every effect that a handler may have. *)
Lemma kept_handler c o x w' :
  permitted t q g o -> sane c ->
  (cl = false -> g <> Settled -> is_Some (w_unacked w !! t)) ->
  (forall m, w_unacked w !! t = Some m -> m_expiration m = None) ->
  handle c o w = (x, w') -> kept w' (next q g o x).
Proof.
  intros Hp Hc Hset Hexp Hh.
  assert (permitted t q g o -> kept w' (next q g o x) \/
    (w_db w' = w_db w /\ w_tx w' = w_tx w /\ w_broker w' = w_broker w
     /\ w_unacked w' = w_unacked w /\ next q g o x = g)) as Hcase.
  { destruct o; try done; intros Hp'; try (left; by eauto using kept_query, kept_publish).
    3: { destruct Hp as [-> ?]. left. by eapply kept_ack. }
    3: { destruct Hp as [-> ->]. left. by eapply kept_nack. }
    all: right; unfold handle, effect in Hh; simpl in Hh.
    all: destruct (ch_fault c) as [[[] e]|]; injection Hh as <- <-; done. }
  destruct (Hcase Hp) as [?|(Hd & Ht & Hb & Hu & ->)]; [done|]. by apply kept_idle.
Qed.
End handler.

Lemma next_settled tag q g o x :
  permitted tag q g o -> next q g o x <> Settled -> g <> Settled.
Proof.
  intros Hp Hn ->. destruct o as [[]| | | | | | | | | | | | | | |]; simpl in *; try done;
    try (by destruct Hp); destruct (is_ok x) eqn:?; try done.
  all: destruct x as [[]|]; simpl in *; try done; by rewrite decide_False in Hn by naive_solver.
Qed.

(** The database answers 22P02 to a text that is no uuid, and nothing else
    does. *)
Lemma handle_plausible tag q g c o w x w' :
  permitted tag q g o -> sane c -> handle c o w = (x, w') -> plausible q x.
Proof.
  intros Hp Hc Hh e -> Ht. assert ((exists st, o = Query st) \/ ~ exists st, o = Query st) as [[st ->]|Hno]
    by (destruct o; first [right; by intros [] | left; by eexists]).
  - destruct (handle_query _ _ _ _ _ Hc Hh) as (_ & _ & _ & _ & He). specialize (He e eq_refl Ht).
    assert (forall p wh st' d, p = q -> update_job p wh st' d = Err e -> q ≫= uuid_in = None) as Hu.
    { intros p wh st' d -> Hu. unfold update_job, id_param in Hu. destruct q as [v|]; [|done].
      simpl. destruct (uuid_in v); [|done]. by repeat case_match; simplify_eq. }
    destruct st; try done; simpl in Hp, He; try (by eapply Hu).
    + subst. unfold select_job_by_id, id_param in He. destruct q as [v|]; [|done].
      simpl. by destruct (uuid_in v).
    + destruct Hp. by eapply Hu.
  - exfalso. destruct Hc as [_ _ Hf]. unfold handle, effect in Hh.
    destruct (ch_fault c) as [[b e']|] eqn:Hcf, (infallible o) eqn:Hi;
      try (simplify_eq; by rewrite (Hf b _ eq_refl) in Ht).
    all: destruct o; try done; try (destruct Hno; eexists; reflexivity).
    all: destruct (w_unacked w !! _); injection Hh as Hx _; simplify_eq.
    all: discriminate.
Qed.

(** ** One effect of a dispatcher *)

(** Events that are not used up stay so. *)
Definition events_kept (spent : gset string) (d d' : db) : Prop :=
  forall v e, outbox d !! v = Some e -> v ∉ spent -> unpublished e = true ->
    exists e', outbox d' !! v = Some e' /\ ev_job_id e' = ev_job_id e /\ unpublished e' = true.

Lemma events_kept_refl spent d : events_kept spent d d.
Proof. intros v e He _ Hu. by exists e. Qed.

Lemma token_events w w' γ spent u :
  events_kept spent (w_db w) (w_db w') -> w_broker w' = w_broker w ->
  w_unacked w' = w_unacked w -> token w γ spent u -> token w' γ spent u.
Proof.
  intros Hk Hb Hu [v e He Hj Hun Hs|k Hh Hj|t m Hm Hj Hl].
  - destruct (Hk v e He Hs Hun) as (e' & He' & Hj' & Hun').
    eapply tok_event; [done|by rewrite Hj'|done..].
  - eapply tok_held; [by rewrite Hb|done].
  - eapply tok_live; [by rewrite Hu|done..].
Qed.

Lemma update_event_keeps_events p set spent d r d' :
  (forall e e', set e = Some e' ->
     ev_job_id e' = ev_job_id e /\ (unpublished e = true -> unpublished e' = true)) ->
  update_event p set d = Ok (r, d') -> events_kept spent d d'.
Proof.
  intros Hset Hu v e He Hs Hun. destruct (update_event_cases _ _ _ _ _ Hu)
    as [-> | (x & u & k & k' & _ & _ & Hl & Hs' & ->)]; [by exists e|].
  simpl. destruct (decide (u = v)) as [->|Hne].
  - rewrite lookup_insert_eq. exists k'. destruct (Hset k k' Hs') as [Hj Hp].
    split; [done|]. assert (k = e) as -> by congruence. auto.
  - exists e. by rewrite lookup_insert_ne.
Qed.

Lemma published_keeps_events now v spent d r d' :
  canonical v -> v ∈ spent ->
  update_outbox_published now (Some v) d = Ok (r, d') -> events_kept spent d d'.
Proof.
  intros Hv Hin Hu v' e He Hs Hun. destruct (update_event_cases _ _ _ _ _ Hu)
    as [-> | (x & u & k & k' & [= <-] & Hx & Hl & Hs' & ->)]; [by exists e|].
  rewrite Hv in Hx. injection Hx as <-. simpl. exists e.
  rewrite lookup_insert_ne; [done|]. congruence.
Qed.

Lemma claim_keeps_events order now locked batch stale spent d :
  wf_db d -> events_kept spent d (update_claim_events order now locked batch stale d).2.
Proof.
  intros Hwf v e He _ Hu. rewrite claim_events_lookup, He by done. simpl. eexists.
  split; [done|]. by case_decide.
Qed.

Lemma claimed_known order now locked batch stale d e :
  wf_db d -> e ∈ (update_claim_events order now locked batch stale d).1 ->
  outbox (update_claim_events order now locked batch stale d).2 !! ev_id e = Some e.
Proof.
  intros Hwf He. apply elem_of_claimed in He as (e0 & -> & Hin).
  rewrite claim_events_lookup by done. simpl.
  rewrite (pending_row d order now locked batch stale e0) by done. simpl. by rewrite decide_True.
Qed.

Section dispatcher.
Variables (cl : bool) (s : sys B) (γ : gmap nat ghost) (spent : gset string).
Variables (t : nat) (D : duty).
Hypothesis Hinv : inv cl s γ spent.
Let w := s_world s.
Hypothesis HD : duty_ok w spent D.

Definition kept_dispatch w' spent' D' : Prop :=
  topology_ok (w_broker w') /\ w_tx w' = None /\ wf_db (w_db w') /\ grows w w'
  /\ w_unacked w' = w_unacked w /\ covered cl w' γ spent' /\ spent ⊆ spent'
  /\ (forall v, v ∈ spent' -> is_Some (outbox (w_db w') !! v)) /\ duty_ok w' spent' D'.

Lemma inv_dispatcher w' spent' D' p :
  (exists q, s_procs s !! t = Some (Dispatcher q)) ->
  kept_dispatch w' spent' D' -> dok D' p (fun _ _ => True) ->
  inv cl (mkSys w' (<[t := Dispatcher p]> (s_procs s))) γ spent'.
Proof.
  intros [q0 Hq0] (Htop & Htx & Hwf & [_ Hout] & Hun & Hcov & Hsp & Hdom & HD') Hp.
  split; simpl; [done|done|done|done|done| |].
  - intros t' p' Hp'. destruct (decide (t = t')) as [<-|Hne].
    + rewrite lookup_insert_eq in Hp'. injection Hp' as <-. by exists D'.
    + rewrite lookup_insert_ne in Hp' by done.
      eapply proc_ok_mono; [done|done|done| |by eapply (inv_procs _ _ _ _ Hinv)].
      by rewrite Hun.
  - intros t' m Hm. rewrite Hun in Hm.
    destruct (inv_unacked _ _ _ _ Hinv t' m Hm) as (He & p0 & Hp0). split; [done|].
    exists p0. rewrite lookup_insert_ne; [done|]. intros ->. congruence.
Qed.

(** A statement that changes no job, and no event that is not used up. *)
Lemma kept_events w' D' :
  w_tx w' = None -> w_broker w' = w_broker w -> w_unacked w' = w_unacked w ->
  wf_db (w_db w') -> jobs (w_db w') = jobs (w_db w) ->
  outbox_evolves (w_db w) (w_db w') -> events_kept spent (w_db w) (w_db w') ->
  duty_ok w' spent D' -> kept_dispatch w' spent D'.
Proof.
  intros Ht Hb Hu Hwf Hj Ho Hk HD'. destruct Hinv as [Htop _ _ Hsp Hcov _ _].
  split; [by rewrite Hb|]. split; [done|]. split; [done|].
  split; [split; [by apply db_evolves_same|done]|]. split; [done|].
  split; [|split; [done|split; [|done]]].
  - intros u j Huj Hw. rewrite Hj in Huj. eapply token_events; [done..|]. by eapply Hcov.
  - intros v Hv. destruct (Hsp v Hv) as [e He]. destruct (Ho v e He) as (e' & ? & _).
    by eexists.
Qed.

Lemma kept_dispatch_query c st x w' :
  permitted_dispatch D (Query st) -> sane c -> handle c (Query st) w = (x, w') ->
  kept_dispatch w' spent (next_dispatch D (Query st) x).
Proof.
  intros Hp Hc Hh.
  destruct (handle_query _ _ _ _ _ Hc Hh) as (Hb & Hu & Ht & Hout & _).
  destruct Hinv as [_ Htx Hwf Hsp _ _ _]. fold w in Htx, Hwf.
  destruct Hout as [(r & He & Hx)|[Hd Hx]].
  2: { replace (next_dispatch D (Query st) x) with D by (destruct x; [done|by destruct st]).
       assert (outbox_evolves (w_db w) (w_db w')) by (apply outbox_evolves_same; by rewrite Hd).
       apply kept_events; try done; rewrite ?Hd; try done; [by rewrite Ht| |].
       - apply events_kept_refl.
       - by eapply duty_ok_mono. }
  pose proof (exec_outbox_evolves _ _ _ _ _ (sane_uuid _ _ Hc) Hwf He) as Ho.
  pose proof (exec_wf _ _ _ _ _ (sane_uuid _ _ Hc) Hwf He) as Hwf'.
  assert (duty_ok w' spent D) as HD' by by eapply duty_ok_mono.
  destruct st; try done; simpl in He.
  - injection He as Hr Hd.
    apply kept_events; try done; [by rewrite Ht|by rewrite <- Hd| |].
    { rewrite <- Hd. by apply claim_keeps_events. }
    destruct x as [rows|]; [|done]. destruct Hx as [[= ->]|]; [|done].
    destruct HD' as (Hk & Hs & Hin). split; [|split; [done|]].
    + intros v u Hv. simpl in Hv. apply elem_of_app in Hv as [Hv|Hv]; [by apply Hk|].
      apply list_elem_of_fmap in Hv as (e & [= -> ->] & He). exists e. split; [|done].
      rewrite <- Hd. apply claimed_known; [done|]. simpl. by rewrite Hr.
    + intros v Hv. simpl. rewrite fmap_app. apply elem_of_app. left. by apply Hin.
  - destruct Hp as (v & -> & Hv). destruct HD as (Hk & Hsub & Hin).
    assert (canonical v) as Hcan.
    { specialize (Hin v Hv). apply list_elem_of_fmap in Hin as ([v' u] & -> & Hin).
      destruct (Hk v' u Hin) as (e & Hoe & _). by destruct (wf_events _ Hwf v' e Hoe). }
    apply kept_events; try done; [by rewrite Ht|by eapply update_event_jobs|].
    eapply published_keeps_events; [done|by apply Hsub|done].
  - apply kept_events; try done; [by rewrite Ht|by eapply update_event_jobs|].
    eapply update_event_keeps_events; [|done]. intros e e' Hs.
    apply bind_Some in Hs as (? & _ & Hs). by injection Hs as <-.
Qed.

Lemma kept_dispatch_publish c ex rk m x w' :
  sane c -> handle c (Publish ex rk m) w = (x, w') ->
  exists spent', kept_dispatch w' spent' (next_dispatch D (Publish ex rk m) x).
Proof.
  intros [_ Hst _] Hh. destruct Hinv as [Htop Htx Hwf Hsp Hcov _ _].
  fold w in Htop, Htx, Hwf, Hsp, Hcov.
  assert (w_db w' = w_db w /\ w_tx w' = w_tx w /\ w_unacked w' = w_unacked w
    /\ (w_broker w' = w_broker w /\ x <> Ok true
        \/ w_broker w' = publish ex rk m (w_broker w))) as (Hd & Ht & Hu & Hb).
  { unfold handle, effect in Hh. simpl in Hh.
    destruct (ch_fault c) as [[[] e]|]; injection Hh as <- <-; simpl; try by auto 10.
    destruct (ch_stored c); simpl; repeat split; auto.
    left. split; [done|]. intros [= Hp]. by specialize (Hst eq_refl Hp). }
  assert (forall k, held (w_broker w) k -> held (w_broker w') k) as Hheld.
  { intros k Hk. destruct Hb as [[-> _]| ->]; [done|by apply held_publish]. }
  set (D' := next_dispatch D (Publish ex rk m) x).
  exists (spent ∪ sent D'). destruct HD as (Hk & Hsub & Hin).
  assert (known D' = known D) as HkD by (by destruct x as [[]|]).
  assert (forall v, v ∈ sent D' -> v ∈ sent D \/
    (x = Ok true /\ v ∈ announced ex rk m (known D))) as HsD.
  { destruct x as [[]|]; simpl; set_solver. }
  assert (forall v, v ∈ sent D' -> v ∈ (known D').*1) as Hin'.
  { intros v Hv. rewrite HkD. apply HsD in Hv as [Hv|[_ Hv]]; [by apply Hin|].
    apply elem_of_announced in Hv as (j & Hv & _). by apply (list_elem_of_fmap_2 fst) in Hv. }
  split; [destruct Hb as [[-> _]| ->]; [done|by apply publish_topology]|].
  split; [by rewrite Ht|]. split; [by rewrite Hd|].
  split; [split; rewrite Hd; [done|by apply outbox_evolves_same]|]. split; [done|].
  split; [|split; [set_solver|split]].
  - intros u j Hj Hw. rewrite Hd in Hj.
    destruct (Hcov u j Hj Hw) as [v e He Hje Hun Hs|k Hke Hj'|t' m' Hm Hj' Hl].
    + destruct (decide (v ∈ sent D')) as [Hv|Hv];
        [|eapply tok_event; [by rewrite Hd|done..|set_solver]].
      apply HsD in Hv as [Hv|[-> Hv]]; [set_solver|].
      apply elem_of_announced in Hv as (u' & Hv & [= -> -> ->]).
      destruct (Hk v u' Hv) as (e' & He' & Hj'). rewrite He in He'. injection He' as <-.
      assert (u' = u) as -> by congruence.
      destruct Hb as [[_ []]|Hb]; [done|]. eapply tok_held.
      * rewrite Hb. apply held_published; [done|by left].
      * apply text_job_created. by destruct (wf_jobs _ Hwf u j Hj).
    + eapply tok_held; [by apply Hheld|done].
    + eapply tok_live; [by rewrite Hu|done..].
  - intros v Hv. rewrite Hd. apply elem_of_union in Hv as [Hv|Hv]; [by apply Hsp|].
    apply Hin' in Hv. rewrite HkD in Hv. apply list_elem_of_fmap in Hv as ([v' u] & -> & Hv).
    destruct (Hk v' u Hv) as (e & He & _). by eexists.
  - split; [|split; [set_solver|done]]. intros v u Hv. rewrite HkD in Hv. rewrite Hd. by apply Hk.
Qed.

Lemma kept_dispatcher c o x w' :
  permitted_dispatch D o -> sane c -> handle c o w = (x, w') ->
  exists spent', kept_dispatch w' spent' (next_dispatch D o x).
Proof.
  intros Hp Hc Hh. destruct o; try done.
  - exists spent. by eapply kept_dispatch_query.
  - exists spent.
    assert (w_db w' = w_db w /\ w_tx w' = w_tx w /\ w_broker w' = w_broker w
            /\ w_unacked w' = w_unacked w) as (Hd & Ht & Hb & Hu).
    { unfold handle, effect in Hh; simpl in Hh.
      destruct (ch_fault c) as [[[] e]|]; injection Hh as <- <-; done. }
    destruct Hinv as [_ Htx Hwf _ _ _ _].
    assert (outbox_evolves (w_db w) (w_db w')) by (apply outbox_evolves_same; by rewrite Hd).
    apply kept_events; try done; rewrite ?Hd; try done; [by rewrite Ht| |].
    + apply events_kept_refl.
    + by eapply duty_ok_mono.
  - by eapply kept_dispatch_publish.
Qed.
End dispatcher.

(** ** The steps *)

Lemma inv_step_handler cl s γ spent t text o k c x w' :
  inv cl s γ spent -> s_procs s !! t = Some (Handler text (Vis o k)) -> sane c ->
  handle c o (s_world s) = (x, w') ->
  exists γ', inv cl (mkSys w' (<[t := Handler text (k x)]> (s_procs s))) γ' spent
             /\ grows (s_world s) w'.
Proof.
  intros Hinv Ht Hc Hh. destruct (inv_procs _ _ _ _ Hinv t _ Ht) as (g & Hg & [Hp Hk] & Hset).
  assert (forall m, w_unacked (s_world s) !! t = Some m ->
            m_content m = text /\ m_expiration m = None) as Hun.
  { intros m Hm. destruct (inv_unacked _ _ _ _ Hinv t m Hm) as (He & p & Hp').
    rewrite Ht in Hp'. by injection Hp' as ->. }
  set (q := message_param text) in *.
  destruct (kept_handler cl s γ spent t text g Hinv Hg ltac:(intros; by apply Hun)
    c o x w' Hp Hc Hset ltac:(intros; by apply Hun) Hh) as (Htop & Htx & Hwf & Hgr & Hu & Hcov).
  exists (<[t := next q g o x]> γ). split; [|done].
  eapply inv_handler; try done.
  - intros m Hm. by apply Hun.
  - apply Hgr.
  - by eapply next_settled.
  - apply Hk. by eapply handle_plausible.
  - exists g. done.
Qed.

Lemma inv_step_dispatcher cl s γ spent t o k c x w' :
  inv cl s γ spent -> s_procs s !! t = Some (Dispatcher (Vis o k)) -> sane c ->
  handle c o (s_world s) = (x, w') ->
  exists spent', inv cl (mkSys w' (<[t := Dispatcher (k x)]> (s_procs s))) γ spent'
                 /\ grows (s_world s) w'.
Proof.
  intros Hinv Ht Hc Hh. destruct (inv_procs _ _ _ _ Hinv t _ Ht) as (D & HD & [Hp Hk]).
  destruct (kept_dispatcher cl s γ spent D Hinv HD c o x w' Hp Hc Hh) as [spent' Hkept].
  exists spent'. split; [|by destruct Hkept as (_ & _ & _ & ? & _)].
  eapply inv_dispatcher; [done|by eexists|done|]. apply Hk.
Qed.

Lemma inv_step_deliver cl s γ spent t m b sync :
  inv cl s γ spent -> fresh_tag t s -> m_expiration m = None ->
  take_message QUEUE_NAME m (w_broker (s_world s)) b ->
  inv cl (mkSys (with_unacked (<[t := m]> (w_unacked (s_world s))) (with_broker b (s_world s)))
         (<[t := Handler (m_content m) (on_message sync (Some (t, m_content m)))]> (s_procs s)))
      (<[t := Live]> γ) spent.
Proof.
  intros [Htop Htx Hwf Hsp Hcov Hpr Hun] [Hf1 Hf2] He Hb.
  split; simpl; [by eapply take_topology|done|done|done| | |].
  - intros u j Hj Hw. destruct (Hcov u j Hj Hw) as [v e Hv Hje Hu Hs|k Hk Hj'|t' m' Hm Hj' Hl].
    + by eapply tok_event.
    + destruct (held_take _ _ _ _ Hb Hk) as [Hk'|[-> _]]; [by eapply tok_held|].
      eapply tok_live; [simpl; by apply lookup_insert_eq|done|by rewrite lookup_insert_eq].
    + assert (t <> t') by congruence.
      eapply tok_live; [simpl; by rewrite lookup_insert_ne|done|by rewrite lookup_insert_ne].
  - intros t' p Hp. destruct (decide (t = t')) as [<-|Hne].
    + rewrite lookup_insert_eq in Hp. injection Hp as <-. exists Live.
      rewrite lookup_insert_eq. split; [done|]. split; [apply wok_on_message|].
      intros _ _. simpl. rewrite lookup_insert_eq. by eexists.
    + rewrite lookup_insert_ne in Hp by done.
      eapply (proc_ok_mono cl (s_world s) _ γ _ spent spent);
        [by apply outbox_evolves_same|done|by apply lookup_insert_ne| |by eapply Hpr].
      intros _ Hs. simpl. by rewrite lookup_insert_ne.
  - intros t' m' Hm. change (<[t := m]> (w_unacked (s_world s)) !! t' = Some m') in Hm.
    destruct (decide (t = t')) as [<-|Hne].
    + rewrite lookup_insert_eq in Hm. injection Hm as <-. split; [done|].
      rewrite lookup_insert_eq. by eexists.
    + rewrite lookup_insert_ne in Hm by done. rewrite lookup_insert_ne by done. by apply Hun.
Qed.

Lemma inv_step_dispatch cl s γ spent t :
  inv cl s γ spent -> fresh_tag t s ->
  inv cl (mkSys (s_world s) (<[t := Dispatcher dispatchOutboxBatch]> (s_procs s))) γ spent.
Proof.
  intros [Htop Htx Hwf Hsp Hcov Hpr Hun] [Hf1 Hf2]. split; simpl; try done.
  - intros t' p Hp. destruct (decide (t = t')) as [<-|Hne].
    + rewrite lookup_insert_eq in Hp. injection Hp as <-. exists (mkDuty [] ∅).
      split; [|apply dok_dispatchOutboxBatch]. split; [|split; [done|]].
      * intros v u Hv. by apply not_elem_of_nil in Hv.
      * intros v Hv. by apply not_elem_of_empty in Hv.
    + rewrite lookup_insert_ne in Hp by done. by apply Hpr.
  - intros t' m' Hm. rewrite lookup_insert_ne by congruence. by apply Hun.
Qed.

(** An API transaction: nothing, or [d'] with a message for each job that it
    made wait. *)
Lemma inv_step_tx cl s γ spent w' :
  inv cl s γ spent -> w_tx w' = None -> same_rest (s_world s) w' ->
  wf_db (w_db w') -> outbox_evolves (w_db (s_world s)) (w_db w') ->
  (forall v e, outbox (w_db (s_world s)) !! v = Some e -> outbox (w_db w') !! v = Some e) ->
  (forall u j, jobs (w_db w') !! u = Some j ->
     jobs (w_db (s_world s)) !! u = Some j
     \/ exists v e, outbox (w_db w') !! v = Some e /\ outbox (w_db (s_world s)) !! v = None
           /\ ev_job_id e = u /\ unpublished e = true) ->
  inv cl (mkSys w' (s_procs s)) γ spent.
Proof.
  intros [Htop Htx Hwf Hsp Hcov Hpr Hun] Ht (Hb & Hu & _) Hwf' Ho Hkeep Hjobs.
  split; simpl; [by rewrite Hb|done|done| | | |by rewrite Hu].
  - intros v Hv. destruct (Hsp v Hv) as [e He]. eexists. by apply Hkeep.
  - intros u j Hj Hw. destruct (Hjobs u j Hj) as [Hj'|(v & e & He & Hnew & Hje & Hue)].
    + eapply (token_events (s_world s)); [|done|done|by eapply Hcov].
      intros v e He _ Hue. exists e. by auto.
    + eapply tok_event; [done..|]. intros Hv. destruct (Hsp v Hv) as [? ?]. congruence.
  - intros t p Hp. eapply proc_ok_mono; [done|done|done| |by apply Hpr]. by rewrite Hu.
Qed.

Lemma inv_step_create cl s γ spent w' input :
  inv cl s γ spent -> w_tx w' = None -> same_rest (s_world s) w' ->
  (w_db w' = w_db (s_world s) \/ exists job, job_created input (w_db (s_world s)) job (w_db w')) ->
  inv cl (mkSys w' (s_procs s)) γ spent /\ grows (s_world s) w'.
Proof.
  intros Hinv Ht Hr Hd. pose proof (inv_wf _ _ _ _ Hinv) as Hwf.
  destruct Hd as [Hd|(job & Hd)].
  - split; [|split; rewrite Hd; [done|by apply outbox_evolves_same]].
    apply inv_step_tx; try done; rewrite ?Hd; auto. by apply outbox_evolves_same.
  - destruct (job_created_keeps _ _ _ _ Hwf Hd) as (Hwf' & He & Ho). split; [|by split].
    apply inv_step_tx; try done; destruct Hd as (u & v & t & t' & Hu & Hv & _ & _ & -> & ->); simpl.
    + intros k e Hk. by rewrite lookup_insert_ne by congruence.
    + intros k j Hk. destruct (decide (u = k)) as [<-|Hne];
        [|left; by rewrite lookup_insert_ne in Hk].
      right. exists v. eexists. rewrite lookup_insert_eq. by repeat split.
Qed.

Lemma inv_step_replay cl s γ spent w' id :
  inv cl s γ spent -> w_tx w' = None -> same_rest (s_world s) w' ->
  (w_db w' = w_db (s_world s) \/ exists r, job_replayed id (w_db (s_world s)) r (w_db w')) ->
  inv cl (mkSys w' (s_procs s)) γ spent /\ grows (s_world s) w'.
Proof.
  intros Hinv Ht Hr Hd. pose proof (inv_wf _ _ _ _ Hinv) as Hwf.
  assert (w_db w' = w_db (s_world s) \/
    exists job, job_replayed id (w_db (s_world s)) (Some job) (w_db w')) as [Hd'|(job & Hd')].
  { destruct Hd as [|([job|] & Hd)]; [by left|by right; eexists|left; by destruct Hd]. }
  - split; [|split; rewrite Hd'; [done|by apply outbox_evolves_same]].
    apply inv_step_tx; try done; rewrite ?Hd'; auto. by apply outbox_evolves_same.
  - destruct (job_replayed_keeps _ _ _ _ Hwf Hd') as (Hwf' & He & Ho). split; [|by split].
    apply inv_step_tx; try done;
      destruct Hd' as (u & v & j0 & t & t' & _ & Hu & _ & _ & Hv & _ & -> & ->); simpl.
    + intros k e Hk. by rewrite lookup_insert_ne by congruence.
    + intros k j Hk. destruct (decide (u = k)) as [<-|Hne];
        [|left; by rewrite lookup_insert_ne in Hk].
      right. exists v. eexists. rewrite lookup_insert_eq. by repeat split.
Qed.

Lemma inv_step_broker cl s γ spent b :
  inv cl s γ spent -> internal (w_broker (s_world s)) b ->
  inv cl (mkSys (with_broker b (s_world s)) (s_procs s)) γ spent.
Proof.
  intros [Htop Htx Hwf Hsp Hcov Hpr Hun] Hb.
  split; simpl; [by eapply internal_topology|done|done|done| |done|done].
  intros u j Hj Hw. destruct (Hcov u j Hj Hw) as [v e Hv Hje Hu Hs|k Hk Hj'|t' m' Hm Hj' Hl].
  - by eapply tok_event.
  - eapply tok_held; [by eapply held_internal|done].
  - by eapply tok_live.
Qed.

(** A delivery goes back to its queue: its handler is gone, or left to go on
    without it. *)
Lemma inv_step_return cl s γ spent t procs :
  inv cl s γ spent ->
  (procs = delete t (s_procs s) \/ (procs = s_procs s /\ cl = true)) ->
  inv cl (mkSys (return_delivery t (s_world s)) procs) γ spent.
Proof.
  intros [Htop Htx Hwf Hsp Hcov Hpr Hun] Hprocs.
  set (w := s_world s) in *. set (w' := return_delivery t w).
  assert (w_db w' = w_db w /\ w_tx w' = w_tx w /\ w_unacked w' = delete t (w_unacked w)
    /\ topology_ok (w_broker w') /\ (forall k, held (w_broker w) k -> held (w_broker w') k)
    /\ (forall m, w_unacked w !! t = Some m -> held (w_broker w') (m_content m)))
    as (Hd & Ht & Hu & Htop' & Hheld & Hback).
  { unfold w', return_delivery. destruct (w_unacked w !! t) as [m|] eqn:Hm; simpl.
    - destruct (Hun t m Hm) as [He _]. do 3 (split; [done|]).
      split; [by apply requeue_topology|]. split; [intros k; apply held_requeue|].
      intros ? [= <-]. by apply held_requeued.
    - do 2 (split; [done|]). split; [by rewrite delete_id|].
      split; [done|]. by split. }
  assert (forall t' p, procs !! t' = Some p -> s_procs s !! t' = Some p /\ (cl = false -> t <> t'))
    as Hsub.
  { intros t' p Hp. destruct Hprocs as [->|[-> ->]]; [|done].
    by apply lookup_delete_Some in Hp as [? ?]. }
  split; simpl; fold w'; rewrite ?Hd; try done; [by rewrite Ht| | |].
  - intros u j Hj Hw. rewrite Hd in Hj.
    destruct (Hcov u j Hj Hw) as [v e Hv Hje Hue Hs|k Hk Hj'|t' m' Hm Hj' Hl].
    + eapply tok_event; [by rewrite Hd|done..].
    + eapply tok_held; [by apply Hheld|done].
    + destruct (decide (t = t')) as [<-|Hne]; [eapply tok_held; [by apply Hback|done]|].
      eapply tok_live; [by rewrite Hu, lookup_delete_ne|done..].
  - intros t' p Hp. destruct (Hsub t' p Hp) as [Hp' Hne].
    eapply (proc_ok_mono cl w); [apply outbox_evolves_same; by rewrite Hd|done|done| |by apply Hpr].
    intros Hcl. rewrite Hu, lookup_delete_ne; auto.
  - intros t' m Hm. rewrite Hu in Hm. apply lookup_delete_Some in Hm as [Hne Hm].
    destruct (Hun t' m Hm) as (He & p & Hp). split; [done|]. exists p.
    destruct Hprocs as [->|[-> _]]; [by rewrite lookup_delete_ne|done].
Qed.

Lemma return_delivery_db t w : w_db (return_delivery t w) = w_db w.
Proof. unfold return_delivery. by destruct (w_unacked w !! t). Qed.

Lemma grows_same w w' : w_db w' = w_db w -> grows w w'.
Proof. intros Hd. split; rewrite Hd; [done|by apply outbox_evolves_same]. Qed.

(** Every step keeps the invariant, and the tables only evolve. *)
Lemma inv_step cl s s' :
  step cl s s' -> (exists γ spent, inv cl s γ spent) ->
  (exists γ spent, inv cl s' γ spent) /\ grows (s_world s) (s_world s').
Proof.
  intros Hstep (γ & spent & Hinv).
  destruct Hstep as [s t m b sync Hf He Hb|s t text o k c x w' Ht Hc Hh|s t Hf
    |s t o k c x w' Ht Hc Hh|s input cs r w' cs' Hcs Hrun|s id cs r w' cs' Hcs Hrun
    |s b Hb|s t p Ht|s t Hcl].
  - split; [|by apply grows_same]. do 2 eexists. by apply inv_step_deliver.
  - destruct (inv_step_handler _ _ _ _ _ _ _ _ _ _ _ Hinv Ht Hc Hh) as (γ' & Hinv' & Hg).
    split; [by do 2 eexists|done].
  - split; [|by apply grows_same]. do 2 eexists. by apply inv_step_dispatch.
  - destruct (inv_step_dispatcher _ _ _ _ _ _ _ _ _ _ Hinv Ht Hc Hh) as (spent' & Hinv' & Hg).
    split; [by do 2 eexists|done].
  - pose proof (wp_run _ _ _ _ _ Hcs (wp_createJob input _ (inv_tx _ _ _ _ Hinv))) as Hwp.
    rewrite Hrun in Hwp. destruct Hwp as (Ht & Hr & Hd).
    destruct (inv_step_create cl s γ spent w' input) as [Hi Hg]; try done.
    { destruct r as [job|]; [right; by eexists|exact Hd]. }
    split; [by do 2 eexists|done].
  - pose proof (wp_run _ _ _ _ _ Hcs
      (wp_claimReplay id _ (inv_tx _ _ _ _ Hinv) (inv_wf _ _ _ _ Hinv))) as Hwp.
    rewrite Hrun in Hwp. destruct Hwp as (Ht & Hr & Hd).
    destruct (inv_step_replay cl s γ spent w' id) as [Hi Hg]; try done.
    { destruct r as [job|]; [right; by eexists|exact Hd]. }
    split; [by do 2 eexists|done].
  - split; [|by apply grows_same]. do 2 eexists. by apply inv_step_broker.
  - split; [|apply grows_same, return_delivery_db]. do 2 eexists.
    apply inv_step_return; [done|by left].
  - split; [|apply grows_same, return_delivery_db]. do 2 eexists.
    apply inv_step_return; [done|by right].
Qed.

Lemma inv_initial cl : inv cl initial ∅ ∅.
Proof.
  split; simpl; [apply worker_topology_ok|done|by split|set_solver|done|done|done].
Qed.

Lemma inv_steps cl s s' :
  rtc (step cl) s s' -> (exists γ spent, inv cl s γ spent) ->
  (exists γ spent, inv cl s' γ spent) /\ grows (s_world s) (s_world s').
Proof.
  induction 1 as [s|s1 s2 s3 Hstep _ IH]; intros Hinv; [split; [done|by apply grows_same]|].
  destruct (inv_step _ _ _ Hstep Hinv) as [Hinv2 [Hd12 Ho12]].
  destruct (IH Hinv2) as [Hinv3 [Hd23 Ho23]]. split; [done|].
  split; [by etrans|]. intros v e He. destruct (Ho12 v e He) as (e2 & He2 & Hi2 & Hj2 & Hc2 & Hp2).
  destruct (Ho23 v e2 He2) as (e3 & He3 & Hi3 & Hj3 & Hc3 & Hp3).
  exists e3. split; [done|]. repeat split; try congruence. by auto.
Qed.

Lemma reachable_inv cl s : reachable cl s -> exists γ spent, inv cl s γ spent.
Proof. intros Hr. eapply inv_steps; [done|]. do 2 eexists. apply inv_initial. Qed.

(** Every waiting job of a reachable state is in flight. *)
Lemma reachable_in_flight cl s u j :
  reachable cl s -> jobs (w_db (s_world s)) !! u = Some j -> waiting cl j = true ->
  in_flight (s_world s) u.
Proof.
  intros Hr Hj Hw. destruct (reachable_inv _ _ Hr) as (γ & spent & Hinv).
  eapply token_in_flight. by eapply (inv_covered _ _ _ _ Hinv).
Qed.

(** ** A process that runs alone *)

(** How a run ends: a value or a thrown error. *)
Definition ended {R} (r : res js_err R) : async R :=
  match r with Ok a => Ret a | Err e => Throw e end.

Lemma steps_handler {reliable} cl t text (p : async unit) cs w procs r w' cs' :
  (forall n, sane_in reliable (cs n)) -> run p cs w = (r, w', cs') ->
  rtc (step_in reliable cl) (mkSys w (<[t := Handler text p]> procs))
                (mkSys w' (<[t := Handler text (ended r)]> procs)).
Proof.
  revert cs w. induction p as [a|e|o k IH]; intros cs w Hcs Hr; simpl in Hr;
    [injection Hr as <- <- <-; done..|].
  destruct (perform (cs 0%nat) o w) as [x w1] eqn:Hh. eapply rtc_l.
  - eapply step_handler; [by apply lookup_insert_eq|apply (Hcs 0%nat)|exact Hh].
  - cbn [s_world s_procs]. rewrite insert_insert_eq.
    eapply (IH x (fun n => cs (S n))); [intros n; apply Hcs|done].
Qed.

(** The same, up to an effect. *)
Lemma steps_handler_for {reliable} cl n t text (p : async unit) cs w procs p' w' :
  (forall n, sane_in reliable (cs n)) -> run_for n p cs w = (p', w') ->
  rtc (step_in reliable cl) (mkSys w (<[t := Handler text p]> procs))
                (mkSys w' (<[t := Handler text p']> procs)).
Proof.
  revert p cs w. induction n as [|n IH]; intros p cs w Hcs Hr; [by injection Hr as <- <-|].
  destruct p as [a|e|o k]; simpl in Hr; [by injection Hr as <- <-..|].
  destruct (perform (cs 0%nat) o w) as [x w1] eqn:Hh. eapply rtc_l.
  - eapply step_handler; [by apply lookup_insert_eq|apply (Hcs 0%nat)|exact Hh].
  - cbn [s_world s_procs]. rewrite insert_insert_eq.
    eapply (IH (k x) (fun n => cs (S n))); [intros i; apply Hcs|done].
Qed.

Lemma steps_dispatcher {reliable} cl t (p : async DispatchResult) cs w procs r w' cs' :
  (forall n, sane_in reliable (cs n)) -> run p cs w = (r, w', cs') ->
  rtc (step_in reliable cl) (mkSys w (<[t := Dispatcher p]> procs))
                (mkSys w' (<[t := Dispatcher (ended r)]> procs)).
Proof.
  revert cs w. induction p as [a|e|o k IH]; intros cs w Hcs Hr; simpl in Hr;
    [injection Hr as <- <- <-; done..|].
  destruct (perform (cs 0%nat) o w) as [x w1] eqn:Hh. eapply rtc_l.
  - eapply step_dispatcher; [by apply lookup_insert_eq|apply (Hcs 0%nat)|exact Hh].
  - cbn [s_world s_procs]. rewrite insert_insert_eq.
    eapply (IH x (fun n => cs (S n))); [intros n; apply Hcs|done].
Qed.

(** A delivery and its handler, alone. *)
Lemma steps_delivery {reliable} cl s t m b sync cs r w' cs' :
  fresh_tag t s -> m_expiration m = None ->
  take_message QUEUE_NAME m (w_broker (s_world s)) b ->
  (forall n, sane_in reliable (cs n)) ->
  run (on_message sync (Some (t, m_content m))) cs
    (with_unacked (<[t := m]> (w_unacked (s_world s))) (with_broker b (s_world s)))
    = (r, w', cs') ->
  rtc (step_in reliable cl) s (mkSys w' (<[t := Handler (m_content m) (ended r)]> (s_procs s))).
Proof.
  intros. eapply rtc_l; [by eapply step_deliver|]. by eapply steps_handler.
Qed.

(** A delivery whose handler stops after [n] effects, with its process: the
    broker takes the delivery back. *)
Lemma steps_crashed_delivery {reliable} cl n s t m b sync cs p' w' :
  fresh_tag t s -> m_expiration m = None ->
  take_message QUEUE_NAME m (w_broker (s_world s)) b ->
  (forall n, sane_in reliable (cs n)) ->
  run_for n (on_message sync (Some (t, m_content m))) cs
    (with_unacked (<[t := m]> (w_unacked (s_world s))) (with_broker b (s_world s)))
    = (p', w') ->
  rtc (step_in reliable cl) s (mkSys (return_delivery t w') (s_procs s)).
Proof.
  intros Hf Hm Ht Hcs Hr. eapply rtc_l; [by eapply step_deliver|].
  eapply rtc_r; [by eapply steps_handler_for|].
  assert (s_procs s = delete t (<[t := Handler (m_content m) p']> (s_procs s))) as Hp.
  { rewrite delete_insert_eq, delete_id; [done|apply Hf]. }
  rewrite Hp at 2. by eapply step_crash; apply lookup_insert_eq.
Qed.

Lemma steps_dispatch {reliable} cl s t cs r w' cs' :
  fresh_tag t s -> (forall n, sane_in reliable (cs n)) ->
  run dispatchOutboxBatch cs (s_world s) = (r, w', cs') ->
  rtc (step_in reliable cl) s (mkSys w' (<[t := Dispatcher (ended r)]> (s_procs s))).
Proof.
  intros. eapply rtc_l; [by apply step_dispatch|]. by eapply steps_dispatcher.
Qed.
End system.

Abbreviation sane := (sane_in true).
Abbreviation step := (step_in true).
Abbreviation reachable := (reachable_in true).
