(* ===== verification/Processing.v ===== *)
(** * What one delivery does to its job

    The message handler against an abstract specification, when nothing fails:
    the job is claimed, executed, and recorded as completed, due for a retry
    after a delay, or dead-lettered; and the message is acknowledged. *)
From stdpp Require Import pretty.
From S2P Require Import Prelude Json Postgres Amqp Programs Effects Retry Worker Api Lifecycle Delivery.
#[local] Open Scope stdpp_scope.

(** ** The specification *)

(** What executing the job comes to, a function of its payload. *)
Inductive verdict :=
| Succeeds
| Fails (message : string)
| FailsForGood (message : string).

Definition job_verdict (j : Job) : verdict :=
  if payload_flag "shouldFailPermanently" (j_payload j) then
    FailsForGood ("Simulated non-retryable failure for job type " +:+ quoted (j_type j))
  else if payload_flag "shouldFail" (j_payload j) then
    Fails ("Simulated failure for job type " +:+ quoted (j_type j))
  else Succeeds.

(** What becomes of the delivery. *)
Inductive outcome :=
| Done
| RetryAfter (delay_ms : Z) (message : string)
| Dead (message : string).

(** The decision, for the number of attempts that includes this one. *)
Definition decide_outcome (v : verdict) (attempts max_attempts : Z) : outcome :=
  match v with
  | Succeeds => Done
  | FailsForGood m => Dead m
  | Fails m => if max_attempts <=? attempts then Dead m
               else RetryAfter (calculateBackoffMs attempts) m
  end.

Definition job_outcome (j : Job) : outcome :=
  decide_outcome (job_verdict j) (j_attempt_count j + 1) (j_max_attempts j).

Definition outcome_status (o : outcome) : Status :=
  match o with Done => COMPLETED | RetryAfter _ _ => RETRYING | Dead _ => DEAD_LETTERED end.

(** The row after the delivery, recorded at the instant [t]. *)
Definition job_after (o : outcome) (t : Z) (j : Job) : Job :=
  mkJob (j_id j) (j_type j) (j_payload j) (outcome_status o) (j_attempt_count j + 1)
    (j_max_attempts j)
    (match o with Done => None | RetryAfter _ m | Dead m => Some m end)
    (j_created_at j) t (j_total_attempt_count j + 1) (j_replay_count j)
    (match o with Dead _ => Some t | _ => j_last_dead_lettered_at j end)
    (match o with Dead m => Some m | _ => j_last_dead_letter_reason j end).

(** The message that follows it, about the same job. *)
Definition follow_up (o : outcome) (jobId : option json) : option (string * string * message) :=
  match o with
  | Done => None
  | RetryAfter ms _ =>
      Some (FAILURES_EXCHANGE_NAME, RETRY_ROUTING_KEY,
            mkMessage (job_message jobId) true (Some (pretty ms)))
  | Dead _ =>
      Some (FAILURES_EXCHANGE_NAME, DLQ_ROUTING_KEY, mkMessage (job_message jobId) true None)
  end.

Section processing.
Context `{Pg} {B : Type} `{Broker B}.
Implicit Types w : world B.

Definition send (x : option (string * string * message)) (b : B) : B :=
  match x with Some (ex, rk, m) => publish ex rk m b | None => b end.

(** The state after one delivery of the job [u], handled between [lo] and
    [hi]. *)
Definition delivered (lo hi : Z) (tag : nat) (jobId : option json) (u : string) (j : Job)
    w w' : Prop :=
  exists t, lo <= t <= hi
    /\ w_db w' = set_jobs (w_db w) (<[u := job_after (job_outcome j) t j]> (jobs (w_db w)))
    /\ w_broker w' = send (follow_up (job_outcome j) jobId) (w_broker w)
    /\ w_unacked w' = delete tag (w_unacked w)
    /\ w_tx w' = w_tx w.

(** ** Effects when nothing fails *)

(** Equal states, logs and the error counter apart. *)
Definition same w w' : Prop :=
  w_db w' = w_db w /\ w_tx w' = w_tx w /\ w_broker w' = w_broker w /\ w_unacked w' = w_unacked w.

Definition idle (o : op) : bool :=
  match o with GetChannel | Sleep _ | DateNow | ErrCountIncr | ErrCountReset => true | _ => false end.

Lemma wp_idle {R} lo hi o (f : answer o -> async R) Q w :
  idle o = true -> (forall a w', same w w' -> wp (healthy lo hi) (f a) Q w') ->
  wp (healthy lo hi) (bind (await o) f) Q w.
Proof.
  intros Ho Hf. apply wp_op. intros c (Hc & _). unfold handle, effect. rewrite Hc.
  by destruct o; try done; apply Hf.
Qed.

Lemma wp_healthy_query {R} lo hi s (f : stmt_rows s -> async R) Q w :
  (forall c, healthy lo hi (Query s) c -> exists r d, exec c s (w_db w) = Ok (r, d) /\
     forall w', w_db w' = d -> w_tx w' = w_tx w -> w_broker w' = w_broker w ->
       w_unacked w' = w_unacked w -> wp (healthy lo hi) (f r) Q w') ->
  wp (healthy lo hi) (bind (await (Query s)) f) Q w.
Proof.
  intros Hf. apply wp_op. intros c Hc. destruct (Hf c Hc) as (r & d & He & Hr).
  destruct Hc as (Hc & _). unfold handle, effect. rewrite Hc, He. by apply Hr.
Qed.

Lemma wp_healthy_publish {R} lo hi ex rk m (f : bool -> async R) Q w :
  (forall w', w_db w' = w_db w -> w_tx w' = w_tx w ->
     w_broker w' = publish ex rk m (w_broker w) -> w_unacked w' = w_unacked w ->
     wp (healthy lo hi) (f true) Q w') ->
  wp (healthy lo hi) (bind (await (Publish ex rk m)) f) Q w.
Proof.
  intros Hf. apply wp_op. intros c (Hc & Hp & Hs & _). unfold handle, effect.
  rewrite Hc, Hp, Hs. by apply Hf.
Qed.

Lemma wp_healthy_ack lo hi tag Q w :
  is_Some (w_unacked w !! tag) ->
  (forall w', w_db w' = w_db w -> w_tx w' = w_tx w -> w_broker w' = w_broker w ->
     w_unacked w' = delete tag (w_unacked w) -> Q (Ok tt) w') ->
  wp (healthy lo hi) (await (Ack tag)) Q w.
Proof.
  intros [m Hm] Hf. apply wp_op_last. intros c (Hc & _). unfold handle, effect.
  rewrite Hc, Hm. by apply Hf.
Qed.

(** A job that can be claimed can be claimed later. *)
Lemma claimable_mono now now' stale j :
  now <= now' -> claimable now stale j = true -> claimable now' stale j = true.
Proof.
  intros Hle. unfold claimable, seconds_before. intros Hc.
  apply orb_true_iff in Hc as [->|Hc]; [done|].
  apply andb_true_iff in Hc as [-> Hc]. apply Z.ltb_lt in Hc.
  assert ((j_updated_at j <? now' - stale * 1000000) = true) as -> by (apply Z.ltb_lt; lia).
  apply orb_true_r.
Qed.

(** ** The handler *)

Section handler.
Variables (lo hi : Z) (sync : Z) (tag : nat) (text : string) (u : string) (j : Job) (w : world B).
Hypothesis Htext : text_job text = Some u.
Hypothesis Hj : jobs (w_db w) !! u = Some j.
Hypothesis Hready : claimable lo STALE_PROCESSING_THRESHOLD_SECONDS j = true.
Hypothesis Hattempts : j_attempt_count j + 1 <= INT4_MAX.
Hypothesis Htotal : j_total_attempt_count j + 1 <= INT4_MAX.
Hypothesis Htag : is_Some (w_unacked w !! tag).

(** The claimed row. *)
Definition claimed_row (t : Z) : Job :=
  mkJob (j_id j) (j_type j) (j_payload j) PROCESSING (j_attempt_count j + 1)
    (j_max_attempts j) (j_last_error j) (j_created_at j) t (j_total_attempt_count j + 1)
    (j_replay_count j) (j_last_dead_lettered_at j) (j_last_dead_letter_reason j).

Lemma claim_ready now p :
  p ≫= uuid_in = Some u -> lo <= now ->
  update_claim_job now p STALE_PROCESSING_THRESHOLD_SECONDS (w_db w) =
  Ok ([claimed_row now], set_jobs (w_db w) (<[u := claimed_row now]> (jobs (w_db w)))).
Proof.
  intros Hp Hnow. destruct p as [s|]; [|done]. simpl in Hp.
  unfold update_claim_job, update_job, id_param. rewrite Hp, Hj.
  rewrite (claimable_mono _ _ _ _ Hnow Hready).
  rewrite (proj2 (int4_succ_Some (j_attempt_count j) (j_attempt_count j + 1))) by done. simpl.
  by rewrite (proj2 (int4_succ_Some (j_total_attempt_count j) (j_total_attempt_count j + 1))).
Qed.

(** A mark of the claimed row, at the instant [t']. *)
Lemma mark_claimed where_ set p t j' w' :
  p ≫= uuid_in = Some u ->
  w_db w' = set_jobs (w_db w) (<[u := claimed_row t]> (jobs (w_db w))) ->
  where_ (claimed_row t) = true -> set (claimed_row t) = Some j' ->
  update_job p where_ set (w_db w') =
  Ok ([j'], set_jobs (w_db w) (<[u := j']> (jobs (w_db w)))).
Proof.
  intros Hp Hd Hw Hs. destruct p as [s|]; [|done]. simpl in Hp.
  unfold update_job, id_param. rewrite Hp, Hd. simpl. rewrite lookup_insert_eq, Hw, Hs.
  do 2 f_equal. unfold set_jobs. simpl. by rewrite insert_insert_eq.
Qed.

Variable jobId : option json.
Hypothesis Hparam : pg_param jobId ≫= uuid_in = Some u.
Let o := job_outcome j.

Definition claimed_state (t : Z) w' : Prop :=
  w_db w' = set_jobs (w_db w) (<[u := claimed_row t]> (jobs (w_db w)))
  /\ w_tx w' = w_tx w /\ w_broker w' = w_broker w /\ w_unacked w' = w_unacked w.

(** The outcome is in the table, with the broker in the state [b]. *)
Definition recorded (b : B) w' : Prop :=
  exists t, lo <= t <= hi
    /\ w_db w' = set_jobs (w_db w) (<[u := job_after o t j]> (jobs (w_db w)))
    /\ w_tx w' = w_tx w /\ w_broker w' = b /\ w_unacked w' = w_unacked w.

Lemma claimed_same t w1 w2 : claimed_state t w1 -> same w1 w2 -> claimed_state t w2.
Proof. unfold claimed_state, same. intros (-> & -> & -> & ->) (-> & -> & -> & ->). done. Qed.

Lemma recorded_same b w1 w2 : recorded b w1 -> same w1 w2 -> recorded b w2.
Proof.
  unfold recorded, same. intros (t & Ht & Hd & Hx & Hb & Hu) (-> & -> & -> & ->). by exists t.
Qed.

Lemma wp_markCompleted t w1 :
  claimed_state t w1 -> o = Done ->
  wp (healthy lo hi) (markCompleted jobId)
    (fun r w' => is_ok r = true /\ recorded (w_broker w) w') w1.
Proof.
  intros (Hd & Ht & Hb & Hu) Ho. apply wp_healthy_query. intros c (_ & _ & _ & Hc).
  do 2 eexists. split; [by eapply mark_claimed|]. intros w2 Hd2 Ht2 Hb2 Hu2.
  split; [done|]. exists (ch_now c). rewrite Ho, Hd2, Ht2, Hb2, Hu2. by split.
Qed.

Lemma wp_markRetrying t w1 ms m :
  claimed_state t w1 -> o = RetryAfter ms m ->
  wp (healthy lo hi) (markRetrying jobId m)
    (fun r w' => is_ok r = true /\ recorded (w_broker w) w') w1.
Proof.
  intros (Hd & Ht & Hb & Hu) Ho. apply wp_healthy_query. intros c (_ & _ & _ & Hc).
  do 2 eexists. split; [by eapply mark_claimed|]. intros w2 Hd2 Ht2 Hb2 Hu2.
  split; [done|]. exists (ch_now c). rewrite Ho, Hd2, Ht2, Hb2, Hu2. by split.
Qed.

Lemma wp_markDeadLettered t w1 m :
  claimed_state t w1 -> o = Dead m ->
  wp (healthy lo hi) (markDeadLettered jobId m)
    (fun r w' => is_ok r = true /\ recorded (w_broker w) w') w1.
Proof.
  intros (Hd & Ht & Hb & Hu) Ho. apply wp_healthy_query. intros c (_ & _ & _ & Hc).
  do 2 eexists. split; [by eapply mark_claimed|]. intros w2 Hd2 Ht2 Hb2 Hu2.
  split; [done|]. exists (ch_now c). rewrite Ho, Hd2, Ht2, Hb2, Hu2. by split.
Qed.

(** The publication after the mark. *)
Lemma wp_publication ex rk m bad w1 :
  recorded (w_broker w) w1 -> follow_up o jobId = Some (ex, rk, m) ->
  wp (healthy lo hi)
    (await GetChannel ;;;
     let! published := await (Publish ex rk m) in
     if published then Ret tt else Throw bad)
    (fun r w' => is_ok r = true /\ recorded (send (follow_up o jobId) (w_broker w)) w') w1.
Proof.
  intros Hrec Ho. apply wp_idle; [done|]. intros _ w2 Hw2.
  apply wp_healthy_publish. intros w3 Hd3 Ht3 Hb3 Hu3. split; [done|].
  destruct (recorded_same _ _ _ Hrec Hw2) as (t & Ht & Hd & Hx & Hb & Hu).
  exists t. rewrite Hd3, Ht3, Hb3, Hu3, Hb, Ho. by split.
Qed.

Lemma wp_ack_recorded w1 :
  recorded (send (follow_up o jobId) (w_broker w)) w1 ->
  wp (healthy lo hi) (await (Ack tag))
    (fun r w' => r = Ok tt /\ delivered lo hi tag jobId u j w w') w1.
Proof.
  intros (t & Ht & Hd & Hx & Hb & Hu). apply wp_healthy_ack; [by rewrite Hu|].
  intros w2 Hd2 Ht2 Hb2 Hu2. split; [done|]. exists t.
  rewrite Hd2, Ht2, Hb2, Hu2, Hu. by split.
Qed.

Lemma record_failure_spec t err w1 :
  claimed_state t w1 ->
  job_verdict j = (if is_non_retryable err then FailsForGood (error_message err)
                   else Fails (error_message err)) ->
  wp (healthy lo hi) (record_failure tag jobId (claimed_row t) err)
    (fun r w' => r = Ok tt /\ delivered lo hi tag jobId u j w w') w1.
Proof.
  intros Hc1 Hv. unfold record_failure. apply wp_idle; [done|]. intros _ w2 Hw2.
  pose proof (claimed_same _ _ _ Hc1 Hw2) as Hc2. apply wp_bind.
  eapply wp_mono with (Q := fun r w' => r = Ok true
    /\ recorded (send (follow_up o jobId) (w_broker w)) w').
  { intros r w' [-> Hrec]. by apply wp_ack_recorded. }
  apply wp_try_catch, wp_bind.
  eapply wp_mono with (Q := fun r w' => is_ok r = true
    /\ recorded (send (follow_up o jobId) (w_broker w)) w').
  { intros [[]|] w' [Hok Hrec]; [|done]. by split. }
  cbn [j_attempt_count j_max_attempts claimed_row].
  assert (forall m, o = Dead m ->
    wp (healthy lo hi) (markDeadLettered jobId m ;;; publishDeadLetter jobId)
      (fun r w' => is_ok r = true /\ recorded (send (follow_up o jobId) (w_broker w)) w') w2)
    as Hdead.
  { intros m Ho. apply wp_bind. eapply wp_mono; [|by eapply wp_markDeadLettered].
    intros [job|] w' [Hok Hrec]; [|done]. apply wp_publication; [done|by rewrite Ho]. }
  destruct (is_non_retryable err);
    [apply Hdead; unfold o, job_outcome; by rewrite Hv|].
  destruct (j_max_attempts j <=? j_attempt_count j + 1) eqn:Hmax;
    [apply Hdead; unfold o, job_outcome; rewrite Hv; simpl; by rewrite Hmax|].
  assert (o = RetryAfter (calculateBackoffMs (j_attempt_count j + 1)) (error_message err)) as Ho
    by (unfold o, job_outcome; rewrite Hv; simpl; by rewrite Hmax).
  apply wp_bind. eapply wp_mono; [|by eapply wp_markRetrying].
  intros [job|] w' [Hok Hrec]; [|done]. apply wp_publication; [done|by rewrite Ho].
Qed.

Lemma record_completion_spec t w1 :
  claimed_state t w1 -> job_verdict j = Succeeds ->
  wp (healthy lo hi) (record_completion tag jobId)
    (fun r w' => r = Ok tt /\ delivered lo hi tag jobId u j w w') w1.
Proof.
  intros Hc1 Hv. assert (o = Done) as Ho by (unfold o, job_outcome; by rewrite Hv).
  apply wp_try_catch, wp_bind. eapply wp_mono; [|by eapply wp_markCompleted].
  intros [job|] w2 [Hok Hrec]; [|done]. apply wp_idle; [done|]. intros _ w3 Hw3.
  eapply wp_mono; [|apply wp_ack_recorded; rewrite Ho; by eapply recorded_same].
  by intros r w' [-> Hd].
Qed.

Lemma wp_claim_or_settle_ready w1 :
  same w w1 ->
  wp (healthy lo hi) (claim_or_settle tag jobId)
    (fun r w' => exists t, r = Ok (Some (claimed_row t)) /\ claimed_state t w') w1.
Proof.
  intros (Hd & Ht & Hb & Hu). apply wp_try_catch. apply wp_bind.
  unfold claimJob. apply wp_healthy_query.
  intros c (_ & _ & _ & Hc). do 2 eexists.
  split; [simpl; rewrite Hd; apply claim_ready; [done|lia]|]. intros w2 Hd2 Ht2 Hb2 Hu2.
  cbn [wp holds head]. apply wp_idle; [done|]. intros _ w3 Hw3.
  apply wp_idle; [done|]. intros _ w4 Hw4. exists (ch_now c). split; [done|].
  eapply claimed_same; [|done]. eapply claimed_same; [|done].
  split; [done|]. split; [congruence|]. split; congruence.
Qed.

(** What executing the claimed job comes to. *)
Lemma wp_execute t w1 :
  wp (healthy lo hi) (execute_job (claimed_row t))
    (fun r w' => same w1 w' /\
       match job_verdict j with
       | Succeeds => r = Ok None
       | Fails m => exists err, r = Ok (Some err) /\ error_message err = m
                      /\ is_non_retryable err = false
       | FailsForGood m => exists err, r = Ok (Some err) /\ error_message err = m
                      /\ is_non_retryable err = true
       end) w1.
Proof.
  unfold execute_job, processJob, job_verdict. cbn [j_payload j_type claimed_row].
  apply wp_try_catch, wp_bind.
  destruct (payload_flag "shouldFailPermanently" (j_payload j)); [split; [done|by eexists]|].
  destruct (payload_flag "shouldFail" (j_payload j)); [split; [done|by eexists]|].
  apply wp_op_last. intros c (Hc & _). unfold handle, effect. rewrite Hc. by split.
Qed.
End handler.

Lemma wp_healthy_on_message lo hi sync tag text content jobId u j w :
  JSON_parse text = Some content -> message_job_id content = Ok jobId ->
  pg_param jobId ≫= uuid_in = Some u ->
  jobs (w_db w) !! u = Some j -> claimable lo STALE_PROCESSING_THRESHOLD_SECONDS j = true ->
  j_attempt_count j + 1 <= INT4_MAX -> j_total_attempt_count j + 1 <= INT4_MAX ->
  is_Some (w_unacked w !! tag) ->
  wp (healthy lo hi) (on_message sync (Some (tag, text)))
    (fun r w' => r = Ok tt /\ delivered lo hi tag jobId u j w w') w.
Proof.
  intros Htext Hid Hp Hj Hready Hatt Htot Htag. unfold on_message. rewrite Htext, Hid.
  cbn [of_res bind]. apply wp_bind.
  eapply wp_mono with (Q := fun r w' => r = Ok tt /\ same w w').
  2: { unfold wait_for_claim_test. destruct (0 <? sync); [|by split].
       apply wp_idle; [done|]. intros now w1 Hw1. destruct (0 <? sync - now); [|by split].
       apply wp_op_last. intros c (Hc & _). unfold handle, effect. rewrite Hc. by split. }
  intros r w1 [-> Hw1]. apply wp_bind.
  eapply wp_mono; [|by eapply wp_claim_or_settle_ready]. intros r w2 (t & -> & Hc2).
  apply wp_bind. eapply wp_mono; [|by eapply wp_execute]. intros r w3 [Hw3 Hr].
  pose proof (claimed_same _ _ _ _ _ _ Hc2 Hw3) as Hc3.
  destruct (job_verdict j) eqn:Hv.
  - subst r. by eapply record_completion_spec.
  - destruct Hr as (err & -> & <- & Hne). eapply record_failure_spec; try done. by rewrite Hne.
  - destruct Hr as (err & -> & <- & Hne). eapply record_failure_spec; try done. by rewrite Hne.
Qed.

(** ** Deliveries without effect *)

(** Only the delivery is gone. *)
Definition acknowledged (tag : nat) w w' : Prop :=
  w_db w' = w_db w /\ w_tx w' = w_tx w /\ w_broker w' = w_broker w
  /\ w_unacked w' = delete tag (w_unacked w).

(** The id parameter selects no job that can be claimed up to [hi]. *)
Definition not_claimable (hi : Z) (p : option string) (d : db) : Prop :=
  forall u j, p ≫= uuid_in = Some u -> jobs d !! u = Some j ->
    claimable hi STALE_PROCESSING_THRESHOLD_SECONDS j = false.

Lemma claim_nothing hi now p d :
  not_claimable hi p d -> now <= hi ->
  update_claim_job now p STALE_PROCESSING_THRESHOLD_SECONDS d = Ok ([], d)
  \/ update_claim_job now p STALE_PROCESSING_THRESHOLD_SECONDS d = Err invalid_text_representation.
Proof.
  intros Hn Hle. unfold update_claim_job, update_job, id_param. destruct p as [s|]; [|by left].
  destruct (uuid_in s) as [u|] eqn:Hs; [|by right]. left.
  destruct (jobs d !! u) as [j|] eqn:Hj; [|done].
  destruct (claimable now STALE_PROCESSING_THRESHOLD_SECONDS j) eqn:Hc; [|done].
  apply (claimable_mono _ hi) in Hc; [|done]. by rewrite (Hn u j Hs Hj) in Hc.
Qed.

Lemma wp_ack_unchanged lo hi tag w w1 :
  same w w1 -> is_Some (w_unacked w !! tag) ->
  wp (healthy lo hi) (await (Ack tag)) (fun r w' => r = Ok tt /\ acknowledged tag w w') w1.
Proof.
  intros (Hd & Ht & Hb & Hu) Htag. apply wp_healthy_ack; [by rewrite Hu|].
  intros w2 Hd2 Ht2 Hb2 Hu2. split; [done|].
  split; [congruence|]. split; [congruence|]. split; congruence.
Qed.

Lemma same_trans w1 w2 w3 : same w1 w2 -> same w2 w3 -> same w1 w3.
Proof. unfold same. intros (-> & -> & -> & ->) (-> & -> & -> & ->). done. Qed.

Lemma wp_healthy_ignored lo hi sync tag text content jobId w :
  JSON_parse text = Some content -> message_job_id content = Ok jobId ->
  not_claimable hi (pg_param jobId) (w_db w) -> is_Some (w_unacked w !! tag) ->
  wp (healthy lo hi) (on_message sync (Some (tag, text)))
    (fun r w' => r = Ok tt /\ acknowledged tag w w') w.
Proof.
  intros Htext Hid Hn Htag. unfold on_message. rewrite Htext, Hid. cbn [of_res bind].
  apply wp_bind. eapply wp_mono with (Q := fun r w' => r = Ok tt /\ same w w').
  2: { unfold wait_for_claim_test. destruct (0 <? sync); [|by split].
       apply wp_idle; [done|]. intros now w1 Hw1. destruct (0 <? sync - now); [|by split].
       apply wp_op_last. intros c (Hc & _). unfold handle, effect. rewrite Hc. by split. }
  intros r w1 [-> Hw1]. apply wp_bind.
  eapply wp_mono with (Q := fun r w' => r = Ok None /\ acknowledged tag w w');
    [by intros r w' [-> Hw']|].
  assert (forall w2, same w w2 -> wp (healthy lo hi) (await (Ack tag) ;;; Ret (@None Job))
    (fun r w' => r = Ok None /\ acknowledged tag w w') w2) as Hack.
  { intros w2 Hw2. apply wp_bind. eapply wp_mono; [|by apply wp_ack_unchanged].
    by intros r w' [-> Hw']. }
  apply wp_try_catch. apply wp_bind. unfold claimJob. apply wp_op.
  intros c (Hc & _ & _ & Hnow). unfold handle, effect. rewrite Hc. cbn [infallible exec].
  destruct Hw1 as (Hd1 & Ht1 & Hb1 & Hu1). rewrite Hd1.
  destruct (claim_nothing hi (ch_now c) _ _ Hn (proj2 Hnow)) as [-> | ->].
  2: { eapply Hack. by split. }
  cbn [wp holds head]. apply wp_idle; [done|]. intros _ w2 Hw2.
  assert (same w w2) as Hw2' by (eapply same_trans; [|done]; by split).
  apply wp_bind. unfold getJobById. apply wp_try_catch, wp_op. intros c' (Hc' & _).
  unfold handle, effect. rewrite Hc'. cbn [infallible exec].
  destruct (select_job_by_id (pg_param jobId) (w_db w2)) as [[rows d]|e] eqn:Hs; cbn [wp holds].
  - apply select_job_same in Hs as ->. eapply wp_mono; [|by eapply Hack].
    intros r w' [-> Hw']. by split.
  - eapply wp_mono; [|by eapply Hack]. intros r w' [-> Hw']. by split.
Qed.
End processing.
