(* ===== verification/RateLimiter.v ===== *)
(** * The token-bucket rate limiter

    apps/api/src/middleware/rateLimiter.ts, for the numbers of JavaScript
    ([doubles], IEEE binary64 with its rounding) and for exact ones ([exact]):
    the code is written once, over the operations of [Number]. *)
From stdpp Require Import pretty.
From Stdlib Require Import SpecFloat.
From S2P Require Import Prelude Json.
#[local] Open Scope stdpp_scope.

(** ** Numbers *)

(** The operations of [number] that the code uses. *)
Class Number (N : Type) := {
  num_of_Z : Z -> N;
  num_add : N -> N -> N;
  num_sub : N -> N -> N;
  num_mul : N -> N -> N;
  num_div : N -> N -> N;
  num_leb : N -> N -> bool;                (* <= *)
  num_ltb : N -> N -> bool;                (* < *)
  num_min : N -> N -> N;                   (* Math.min *)
  num_max : N -> N -> N;                   (* Math.max *)
  num_ceil : N -> N;                       (* Math.ceil *)
  num_String : N -> string                 (* String(n) of an integer *)
}.

(** Exact numbers. *)
#[export] Instance exact : Number Q := {|
  num_of_Z := inject_Z;
  num_add := Qplus; num_sub := Qminus; num_mul := Qmult; num_div := Qdiv;
  num_leb := Qle_bool;
  num_ltb a b := negb (Qle_bool b a);
  num_min := Qmin; num_max := Qmax;
  num_ceil a := inject_Z (Qceiling a);
  num_String a := pretty (Qceiling a)
|}.

(** Binary64, round to nearest even. *)
Module Double.
Definition prec : Z := 53.
Definition emax : Z := 1024.

Definition of_Z (n : Z) : spec_float := binary_normalize prec emax n 0 false.

Definition leb (a b : spec_float) : bool :=
  match SFcompare a b with Some Lt | Some Eq => true | _ => false end.
Definition ltb (a b : spec_float) : bool :=
  match SFcompare a b with Some Lt => true | _ => false end.

(** [Math.min] and [Math.max]: NaN wins, and -0 is below +0. *)
Definition min (a b : spec_float) : spec_float :=
  match SFcompare a b with
  | Some Lt => a
  | Some Gt => b
  | Some Eq => match a with S754_zero true => a | _ => b end
  | None => S754_nan
  end.
Definition max (a b : spec_float) : spec_float :=
  match SFcompare a b with
  | Some Lt => b
  | Some Gt => a
  | Some Eq => match a with S754_zero false => a | _ => b end
  | None => S754_nan
  end.

(** The integer above a finite number. *)
Definition ceil_Z (s : bool) (m : positive) (e : Z) : Z :=
  let v := if s then Zneg m else Zpos m in
  if 0 <=? e then v * 2 ^ e else - ((- v) / 2 ^ (- e)).

Definition ceil (a : spec_float) : spec_float :=
  match a with
  | S754_finite s m e =>
      match ceil_Z s m e with 0 => S754_zero s | n => of_Z n end
  | _ => a
  end.

Definition text (a : spec_float) : string :=
  match a with
  | S754_finite s m e => pretty (ceil_Z s m e)
  | S754_zero _ => "0"
  | S754_infinity s => if s then "-Infinity" else "Infinity"
  | S754_nan => "NaN"
  end.

#[export] Instance doubles : Number spec_float := {|
  num_of_Z := of_Z;
  num_add := SFadd prec emax; num_sub := SFsub prec emax;
  num_mul := SFmul prec emax; num_div := SFdiv prec emax;
  num_leb := leb; num_ltb := ltb; num_min := min; num_max := max;
  num_ceil := ceil; num_String := text
|}.
End Double.

(** ** The limiter *)

(** What a middleware does with a request: answer it, or call [next()]. *)
Record reply := mkReply {
  r_status : Z;
  r_headers : list (string * string);
  r_body : json }.

Section limiter.
Context {N : Type} `{Number N}.

Record RateLimiterOptions := mkOptions { capacity : N; windowSeconds : N }.

Record Bucket := mkBucket { tokens : N; lastRefillMs : N }.

(** The constants of a limiter, captured by its closure. *)
Record limiter := mkLimiter { lim_capacity : N; refillTokensPerMs : N }.

Definition createRateLimiter (options : RateLimiterOptions) : res js_err limiter :=
  if num_leb (capacity options) (num_of_Z 0) then
    Err (mk_error "createRateLimiter: capacity must be > 0")
  else if num_leb (windowSeconds options) (num_of_Z 0) then
    Err (mk_error "createRateLimiter: windowSeconds must be > 0")
  else
    Ok (mkLimiter (capacity options)
          (num_div (capacity options) (num_mul (windowSeconds options) (num_of_Z 1000)))).

Definition getOrRefillBucket (l : limiter) (key : string) (nowMs : N)
    (buckets : gmap string Bucket) : Bucket * gmap string Bucket :=
  match buckets !! key with
  | None =>
      let fresh := mkBucket (lim_capacity l) nowMs in
      (fresh, <[key := fresh]> buckets)
  | Some existing =>
      let elapsedMs := num_sub nowMs (lastRefillMs existing) in
      let refilled :=
        if num_ltb (num_of_Z 0) elapsedMs then
          mkBucket (num_min (lim_capacity l)
                      (num_add (tokens existing) (num_mul elapsedMs (refillTokensPerMs l))))
            nowMs
        else existing in
      (refilled, <[key := refilled]> buckets)
  end.

(** The [Retry-After] header of a bucket without a token. *)
Definition retryAfterSeconds (l : limiter) (bucket : Bucket) : N :=
  let tokensNeeded := num_sub (num_of_Z 1) (tokens bucket) in
  let msUntilNextToken := num_div tokensNeeded (refillTokensPerMs l) in
  num_max (num_of_Z 1) (num_ceil (num_div msUntilNextToken (num_of_Z 1000))).

(** The bucket that the map holds is the one that is decremented. *)
Definition rateLimiter (l : limiter) (key : string) (nowMs : N) (buckets : gmap string Bucket)
  : option reply * gmap string Bucket :=
  let '(bucket, buckets) := getOrRefillBucket l key nowMs buckets in
  if num_leb (num_of_Z 1) (tokens bucket) then
    (None, <[key := mkBucket (num_sub (tokens bucket) (num_of_Z 1)) (lastRefillMs bucket)]> buckets)
  else
    (Some (mkReply 429 [("Retry-After", num_String (retryAfterSeconds l bucket))]
             (JObj [("error", JStr "Too many requests"); ("reason", JStr "rate_limited")])),
     buckets).

(** A sequence of requests (client key and time): which ones pass. *)
Fixpoint requests (l : limiter) (rs : list (string * N)) (buckets : gmap string Bucket)
  : list bool * gmap string Bucket :=
  match rs with
  | [] => ([], buckets)
  | (key, nowMs) :: rs =>
      let '(r, buckets) := rateLimiter l key nowMs buckets in
      let '(passed, buckets) := requests l rs buckets in
      (match r with None => true | Some _ => false end :: passed, buckets)
  end.
End limiter.
Arguments limiter : clear implicits.
Arguments Bucket : clear implicits.
Arguments RateLimiterOptions : clear implicits.

(** ** Exact arithmetic: the bounds of a bucket *)

Section exact.
Local Open Scope Q_scope.
Variable l : limiter Q.
Hypothesis capacity_pos : 0 < lim_capacity l.
Hypothesis rate_pos : 0 < refillTokensPerMs l.

Definition bucket_ok (b : Bucket Q) : Prop := 0 <= tokens b /\ tokens b <= lim_capacity l.

Definition buckets_ok (m : gmap string (Bucket Q)) : Prop := map_Forall (fun _ => bucket_ok) m.

Lemma exact_leb a b : num_leb (N := Q) a b = true <-> a <= b.
Proof. apply Qle_bool_iff. Qed.

Lemma exact_leb_false a b : num_leb (N := Q) a b = false <-> b < a.
Proof.
  rewrite <- not_true_iff_false, exact_leb. split; [apply Qnot_le_lt|apply Qlt_not_le].
Qed.

Lemma exact_ltb a b : num_ltb (N := Q) a b = true <-> a < b.
Proof. simpl. rewrite negb_true_iff. apply exact_leb_false. Qed.

Lemma exact_ltb_false a b : num_ltb (N := Q) a b = false <-> b <= a.
Proof. simpl. rewrite negb_false_iff. apply exact_leb. Qed.

Lemma exact_min a b :
  num_min (N := Q) a b <= a /\ num_min (N := Q) a b <= b
  /\ (num_min (N := Q) a b == a \/ num_min (N := Q) a b == b).
Proof.
  simpl. destruct (Q.min_spec a b) as [[Hl He]|[Hl He]]; rewrite He; repeat split; auto;
    first [apply Qle_refl | by apply Qlt_le_weak | done | left; reflexivity | right; reflexivity].
Qed.

(** The bucket that the request finds, and what it leaves of the map. *)
Lemma refill_spec key t m b m' :
  buckets_ok m -> getOrRefillBucket l key t m = (b, m') ->
  m' = <[key := b]> m /\ bucket_ok b /\
  match m !! key with
  | None => tokens b == lim_capacity l /\ lastRefillMs b = t
  | Some b0 =>
      tokens b <= tokens b0 + (lastRefillMs b - lastRefillMs b0) * refillTokensPerMs l
      /\ lastRefillMs b0 <= lastRefillMs b
      /\ (lastRefillMs b = lastRefillMs b0 \/ lastRefillMs b = t)
      /\ (lastRefillMs b0 <= t ->
          tokens b == lim_capacity l
          \/ tokens b == tokens b0 + (t - lastRefillMs b0) * refillTokensPerMs l)
  end.
Proof.
  intros Hm. unfold getOrRefillBucket. destruct (m !! key) as [b0|] eqn:Hb0.
  - pose proof (Hm key b0 Hb0) as [H0 Hc].
    destruct (num_ltb (num_of_Z 0) (num_sub t (lastRefillMs b0))) eqn:Hlt;
      intros Hg; injection Hg as <- <-; (split; [done|]).
    + apply exact_ltb in Hlt. cbn [num_of_Z num_sub exact] in Hlt.
      change (inject_Z 0) with 0 in Hlt.
      destruct (exact_min (lim_capacity l)
        (num_add (tokens b0) (num_mul (num_sub t (lastRefillMs b0)) (refillTokensPerMs l))))
        as (Hle1 & Hle2 & Heq).
      assert (0 <= (t - lastRefillMs b0) * refillTokensPerMs l) as Hr
        by (apply Qmult_le_0_compat; lra).
      cbn [num_add num_mul num_sub num_min exact] in *.
      unfold bucket_ok. cbn [tokens lastRefillMs].
      split; [split; [|exact Hle1]; destruct Heq as [-> | ->]; lra|].
      split; [exact Hle2|]. split; [lra|]. split; [by right|]. by intros _.
    + apply exact_ltb_false in Hlt. cbn [num_of_Z num_sub exact] in Hlt.
      change (inject_Z 0) with 0 in Hlt.
      split; [by split|]. split; [lra|]. split; [lra|]. split; [by left|].
      intros Hle. right. assert (t - lastRefillMs b0 == 0) as -> by lra. lra.
  - intros Hg; injection Hg as <- <-. split; [done|]. unfold bucket_ok. cbn [tokens].
    split; [lra|]. split; [lra|done].
Qed.

Lemma rateLimiter_ok key t m r m' :
  1 <= lim_capacity l -> buckets_ok m -> rateLimiter l key t m = (r, m') -> buckets_ok m'.
Proof.
  intros Hcap Hm Hr. unfold rateLimiter in Hr.
  destruct (getOrRefillBucket l key t m) as [b m1] eqn:Hg.
  destruct (refill_spec _ _ _ _ _ Hm Hg) as (-> & [Hb0 Hbc] & _).
  destruct (num_leb (num_of_Z 1) (tokens b)) eqn:Hle; injection Hr as <- <-.
  - apply exact_leb in Hle. cbn in Hle. change (inject_Z 1) with 1 in Hle.
    rewrite insert_insert_eq. apply map_Forall_insert_2; [|done].
    unfold bucket_ok. cbn. change (inject_Z 1) with 1. lra.
  - by apply map_Forall_insert_2.
Qed.

(** A request that passes spends a token, one that does not spends none. *)
Definition passed_count (l : list bool) : Z := Z.of_nat (List.length (List.filter id l)).

Definition spent (r : option reply) : Q := match r with Some _ => 0 | None => 1 end.

(** The requests of one client: the tokens it spends are at most those it
    had and those that came in since its last refill. *)
Lemma rateLimiter_spends key t m r m' b0 :
  buckets_ok m -> m !! key = Some b0 -> rateLimiter l key t m = (r, m') ->
  exists b', m' !! key = Some b' /\ lastRefillMs b0 <= lastRefillMs b'
    /\ (lastRefillMs b' = lastRefillMs b0 \/ lastRefillMs b' = t)
    /\ tokens b' + spent r <=
       tokens b0 + (lastRefillMs b' - lastRefillMs b0) * refillTokensPerMs l.
Proof.
  intros Hm Hb0 Hr. unfold rateLimiter in Hr.
  destruct (getOrRefillBucket l key t m) as [b m1] eqn:Hg.
  destruct (refill_spec _ _ _ _ _ Hm Hg) as (-> & Hb & Hspec). rewrite Hb0 in Hspec.
  destruct Hspec as (Htok & Hlast & Hor & _).
  destruct (num_leb (num_of_Z 1) (tokens b)); injection Hr as <- <-;
    rewrite lookup_insert_eq; eexists; (split; [done|]); cbn; (split; [done|]);
    (split; [done|]); change (inject_Z 1) with 1; lra.
Qed.

Lemma rateLimiter_others key key' t m r m' :
  key' <> key -> rateLimiter l key t m = (r, m') -> m' !! key' = m !! key'.
Proof.
  intros Hne Hr. unfold rateLimiter, getOrRefillBucket in Hr.
  destruct (m !! key); cbn in Hr; repeat case_match; injection Hr as <- <-;
    by rewrite ?lookup_insert_ne by done.
Qed.

(** All requests by [key] in [rs], at times in [t0, t1]: no more pass than
    the tokens of the bucket and what [t1 - t0] refills. *)
Lemma requests_spend key t1 rs m passed m' b0 :
  1 <= lim_capacity l -> buckets_ok m -> m !! key = Some b0 -> lastRefillMs b0 <= t1 ->
  Forall (fun r => r.1 = key /\ r.2 <= t1) rs -> requests l rs m = (passed, m') ->
  inject_Z (passed_count passed) <=
  tokens b0 + (t1 - lastRefillMs b0) * refillTokensPerMs l.
Proof.
  intros Hcap. revert m passed m' b0.
  induction rs as [|[k t] rs IH]; intros m passed m' b0 Hm Hb0 Ht1 Hrs Hr; simpl in Hr.
  - injection Hr as <- <-. destruct (Hm key b0 Hb0) as [H0 _].
    assert (0 <= (t1 - lastRefillMs b0) * refillTokensPerMs l)
      by (apply Qmult_le_0_compat; lra).
    change (inject_Z (passed_count [])) with 0. lra.
  - apply Forall_cons in Hrs as [[Hk Ht] Hrs]. simpl in Hk, Ht. subst k.
    destruct (rateLimiter l key t m) as [r m1] eqn:Hr1.
    destruct (requests l rs m1) as [p m2] eqn:Hr2. injection Hr as <- <-.
    destruct (rateLimiter_spends _ _ _ _ _ _ Hm Hb0 Hr1) as (b1 & Hb1 & Hmono & Hor & Hsp).
    assert (lastRefillMs b1 <= t1) as Ht1' by (destruct Hor as [-> | ->]; done).
    pose proof (IH m1 p m2 b1 (rateLimiter_ok _ _ _ _ _ Hcap Hm Hr1) Hb1 Ht1' Hrs Hr2) as Hp.
    assert (inject_Z (passed_count ((match r with None => true | Some _ => false end) :: p))
            == inject_Z (passed_count p) + spent r) as ->.
    { unfold passed_count, spent. destruct r; simpl; [ring|].
      rewrite ?Zpos_P_of_succ_nat, ?Nat2Z.inj_succ. unfold Z.succ. rewrite inject_Z_plus.
      change (inject_Z 1) with 1. ring. }
    lra.
Qed.

(** After the seconds of [Retry-After], with no other request of this
    client, the next one passes. *)
Lemma retry_after_enough key t m r m' bucket seconds :
  1 <= lim_capacity l -> buckets_ok m -> rateLimiter l key t m = (Some r, m') ->
  m' !! key = Some bucket -> lastRefillMs bucket <= t ->
  seconds == retryAfterSeconds l bucket ->
  (rateLimiter l key (t + 1000 * seconds) m').1 = None.
Proof.
  intros Hcap Hm Hr Hb Hlast Hs.
  pose proof (rateLimiter_ok _ _ _ _ _ Hcap Hm Hr) as Hm'.
  unfold rateLimiter. destruct (getOrRefillBucket l key (t + 1000 * seconds) m') as [b m1] eqn:Hg.
  destruct (refill_spec _ _ _ _ _ Hm' Hg) as (-> & Hbok & Hspec). rewrite Hb in Hspec.
  set (needed := 1 - tokens bucket) in *.
  assert (needed <= 1000 * seconds * refillTokensPerMs l /\ 0 <= seconds) as [Hn H0].
  { rewrite Hs. unfold retryAfterSeconds. cbn [num_sub num_of_Z num_div num_max num_ceil exact].
    change (inject_Z 1) with 1. change (inject_Z 1000) with 1000. fold needed.
    set (x := needed / refillTokensPerMs l / 1000).
    pose proof (Qle_ceiling x) as Hx. pose proof (Q.le_max_l 1 (inject_Z (Qceiling x))).
    pose proof (Q.le_max_r 1 (inject_Z (Qceiling x))).
    set (y := Qmax 1 (inject_Z (Qceiling x))) in *. split; [|lra].
    assert (needed == x * 1000 * refillTokensPerMs l) as ->.
    { unfold x. field. lra. }
    apply Qmult_le_compat_r; lra. }
  destruct Hspec as (_ & _ & _ & Heq).
  assert (1 <= tokens b) as Hone.
  { destruct Heq as [->|Heq]; [lra|done|]. rewrite Heq.
    assert (0 <= (t - lastRefillMs bucket) * refillTokensPerMs l)
      by (apply Qmult_le_0_compat; lra).
    unfold needed in Hn. lra. }
  apply exact_leb in Hone. change 1 with (num_of_Z (N := Q) 1) in Hone. by rewrite Hone.
Qed.
End exact.
