(* ===== verification/Http.v ===== *)
(** * The HTTP side of the API

    The request pipeline of apps/api/src: authentication (middleware/auth.ts),
    client identity (middleware/rateLimiter.ts), backpressure
    (middleware/backpressure.ts), the validation schemas, the routes, the CORS
    check and the error handler of app.ts, and the production check of
    config/env.ts.  A middleware answers the request, or calls [next()]: an
    [option] of a response.  Express and zod are not code of the repository:
    the order of the middleware is the one the routes list, and zod is the
    class [Zod]. *)
From stdpp Require Import pretty.
From S2P Require Import Prelude Json Postgres Amqp Programs Effects Worker Api RateLimiter.
#[local] Open Scope stdpp_scope.

(** ** Requests and responses *)

Record request := mkRequest {
  rq_header : string -> option string;      (* req.header(name) *)
  rq_ip : option string;                    (* req.ip *)
  rq_body : option json;                    (* req.body *)
  rq_id : string }.                         (* req.params.id *)

(** What [res.json] is given. *)
Inductive body :=
| BJson (v : json)
| BJob (job : Job)
| BJobs (jobs : list RecentJob)
| BStats (stats : JobStats).

Record response := mkResponse {
  status : Z;
  headers : list (string * string);
  content : body }.

Definition json_response (code : Z) (fields : list (string * json)) : response :=
  mkResponse code [] (BJson (JObj fields)).

Definition json_number (n : Z) : json := JNum (pretty n).

Definition every_char (p : Ascii.ascii -> bool) (s : string) : Prop :=
  Forall (fun a => p a = true) (Stdlib.Strings.String.list_ascii_of_string s).

Lemma pretty_char_digit n : is_digit (pretty_N_char n) = true.
Proof. unfold pretty_N_char. by repeat case_match. Qed.

Lemma pretty_go_digits x s :
  (0 < x)%N -> every_char is_digit s ->
  exists n r, pretty_N_go x s = String (pretty_N_char n) r /\ (0 < n)%N
    /\ every_char is_digit r.
Proof.
  revert s. induction (N.lt_wf_0 x) as [x _ IH]. intros s Hx Hs.
  rewrite pretty_N_go_step by done. destruct (decide (x < 10)%N) as [Hlt|Hge].
  - rewrite N.div_small, N.mod_small by done. rewrite pretty_N_go_0. by exists x, s.
  - apply IH; [by apply N.div_lt|apply N.div_str_pos; lia|].
    constructor; [apply pretty_char_digit|done].
Qed.

Lemma span_all p s :
  every_char p s -> span p s = (s, EmptyString).
Proof.
  induction s as [|a s IH]; simpl; [done|]. intros [Ha Hs]%Forall_cons. by rewrite Ha, IH.
Qed.

(** An integer is a number of JSON. *)
Lemma wf_json_number n : wf_json (json_number n) = true.
Proof.
  assert (forall p, num_text (pretty (Zpos p)) = true /\ num_text (pretty (Zneg p)) = true) as Hpos.
  { intros p. change (pretty (Zneg p)) with ("-" +:+ pretty (Zpos p)).
    change (pretty (Zpos p)) with (pretty_N_go (Npos p) "").
    destruct (pretty_go_digits (Npos p) "") as (d & r & -> & Hd & Hr); [done|constructor|].
    assert (every_char is_num_char r) as Hr'.
    { eapply Forall_impl; [exact Hr|]. intros a Ha. unfold is_num_char. by rewrite Ha. }
    assert (forall c, is_digit c = true -> (code c =? 48)%N = false -> (code c =? 45)%N = false ->
      num_text (String c r) = true /\ num_text ("-" +:+ String c r) = true) as Hnum.
    { intros c Hc H0 Hm. assert (is_num_char c = true) as Hn by (unfold is_num_char; by rewrite Hc).
      unfold num_text, valid_number. simpl. rewrite Hm. simpl. rewrite H0, Hc, Hn. simpl.
      rewrite (span_all _ _ Hr), (span_all _ _ Hr'). by split. }
    apply Hnum; [apply pretty_char_digit|..]; unfold pretty_N_char; repeat case_match; done || lia. }
  destruct n as [|p|p]; [done|apply (Hpos p)..].
Qed.

(** [parsed.data] of config/env.ts, the fields that the routes read. *)
Record Env := mkEnv {
  NODE_ENV : string;
  REPLAY_TEST_DELAY_MS : Z;
  RATE_LIMIT_CAPACITY : Z;
  RATE_LIMIT_WINDOW_SECONDS : Z;
  BACKPRESSURE_THRESHOLD : Z;
  API_KEY : option string;
  CORS_ALLOWED_ORIGINS : option string }.

(** A string is falsy when it is empty or missing. *)
Definition truthy (s : option string) : bool :=
  match s with Some s => negb (String.eqb s "") | None => false end.

(** The start-up check of config/env.ts: the process exits unless this is
    empty. *)
Definition missing_in_production (env : Env) : list string :=
  if String.eqb (NODE_ENV env) "production" then
    (if truthy (API_KEY env) then [] else ["API_KEY"])
    ++ (if truthy (CORS_ALLOWED_ORIGINS env) then [] else ["CORS_ALLOWED_ORIGINS"])
  else [].

(** ** Validation *)

(** The schema combinators that validation/jobSchema.ts uses. *)
Inductive schema :=
| ZUnknown
| ZString
| ZStringMin (n : nat) (message : string)
| ZStringUuid (message : string)
| ZRecord (key value : schema)
| ZObject (fields : list (string * schema)).

Definition createJobSchema : schema :=
  ZObject [("type", ZStringMin 1 "type is required");
           ("payload", ZRecord ZString ZUnknown)].

Definition jobIdParamSchema : schema := ZStringUuid "Invalid job id format".

Class Zod `{Pg} := {
  (** [safeParse]: the data, or [error.format()].  [None] is [undefined]. *)
  safeParse : schema -> option json -> res json json;
  zod_nonempty m v r :
    safeParse (ZStringMin 1 m) v = Ok r <-> exists s, v = Some (JStr s) /\ s <> "" /\ r = JStr s;
  (** what zod takes for a uuid, PostgreSQL does *)
  zod_uuid m v r :
    safeParse (ZStringUuid m) v = Ok r ->
    exists s, v = Some (JStr s) /\ r = JStr s /\ is_Some (uuid_in s);
  zod_record k v r :
    safeParse (ZRecord k ZUnknown) v = Ok r ->
    exists l l', v = Some (JObj l) /\ r = JObj l';
  (** an object with these members, each accepted; others are dropped *)
  zod_object fields v r :
    NoDup (fields.*1) ->
    safeParse (ZObject fields) v = Ok r ->
    exists l l', v = Some (JObj l) /\ r = JObj l' /\
      forall k s, (k, s) ∈ fields ->
        exists x, safeParse s (get_prop k (JObj l)) = Ok x /\ get_prop k (JObj l') = Some x }.

(** [parsed.data] as a [CreateJobInput]. *)
Definition as_input (data : json) : CreateJobInput :=
  mkInput (match get_prop "type" data with Some (JStr s) => s | _ => "" end)
          (default JNull (get_prop "payload" data)).

Section pipeline.
Context `{Pg} `{!Zod} {N : Type} `{Number N}.
Variable env : Env.

(** ** middleware/auth.ts *)

Definition API_KEY_HEADER : string := "x-api-key".

Definition unauthorized : response :=
  json_response 401 [("error", JStr "Unauthorized"); ("reason", JStr "missing_or_invalid_api_key")].

Definition requireApiKey (req : request) : option response :=
  match API_KEY env with
  | Some key =>
      if String.eqb key "" then None
      else match rq_header req API_KEY_HEADER with
           | Some provided =>
               if negb (String.eqb provided "") && String.eqb provided key then None
               else Some unauthorized
           | None => Some unauthorized
           end
  | None => None
  end.

(** ** middleware/rateLimiter.ts: the client key *)

Definition TEST_CLIENT_ID_HEADER : string := "x-test-client-id".

Definition defaultIdentify (req : request) : string :=
  let by_address := default "unknown" (rq_ip req) in
  if String.eqb (NODE_ENV env) "production" then by_address
  else match rq_header req TEST_CLIENT_ID_HEADER with
       | Some testClientId =>
           if String.eqb testClientId "" then by_address else "test:" +:+ testClientId
       | None => by_address
       end.

(** [jobsRateLimiter], shared by the two POST routes. *)
Definition jobsRateLimiter : res js_err (limiter N) :=
  createRateLimiter (mkOptions (num_of_Z (RATE_LIMIT_CAPACITY env))
                               (num_of_Z (RATE_LIMIT_WINDOW_SECONDS env))).

Definition of_reply (r : reply) : response :=
  mkResponse (r_status r) (r_headers r) (BJson (r_body r)).

(** ** middleware/backpressure.ts *)

Definition backpressure : async (option response) :=
  let! stats := getStats in
  if BACKPRESSURE_THRESHOLD env <? pendingOutboxEvents stats then
    Ret (Some (mkResponse 503 [("Retry-After", "5")]
      (BJson (JObj [("error", JStr "Service temporarily unable to accept new jobs");
                    ("reason", JStr "backpressure");
                    ("pendingOutboxEvents", json_number (pendingOutboxEvents stats))]))))
  else Ret None.

(** ** routes/jobs.ts *)

Definition status_text (s : Status) : string :=
  match s with
  | QUEUED => "QUEUED" | PROCESSING => "PROCESSING" | COMPLETED => "COMPLETED"
  | FAILED => "FAILED" | RETRYING => "RETRYING" | DEAD_LETTERED => "DEAD_LETTERED"
  end.

Definition post_job (req : request) : async response :=
  match safeParse createJobSchema (rq_body req) with
  | Err details =>
      Ret (json_response 400 [("error", JStr "Invalid request"); ("details", details)])
  | Ok data =>
      let! job := createJob (as_input data) in
      Ret (json_response 201 [("jobId", JStr (j_id job)); ("status", JStr (status_text (j_status job)))])
  end.

Definition get_jobs : async response :=
  let! jobs := listRecentJobs in
  Ret (mkResponse 200 [] (BJobs jobs)).

Definition invalid_job_id : response :=
  json_response 400 [("error", JStr "Invalid job id format")].
Definition job_not_found : response :=
  json_response 404 [("error", JStr "Job not found")].

(** [parsedId.data] *)
Definition as_id (data : json) : string := match data with JStr s => s | _ => "" end.

Definition get_job (req : request) : async response :=
  match safeParse jobIdParamSchema (Some (JStr (rq_id req))) with
  | Err _ => Ret invalid_job_id
  | Ok data =>
      let! job := api_getJobById (as_id data) in
      match job with
      | None => Ret job_not_found
      | Some job => Ret (mkResponse 200 [] (BJob job))
      end
  end.

Definition post_replay (req : request) : async response :=
  match safeParse jobIdParamSchema (Some (JStr (rq_id req))) with
  | Err _ => Ret invalid_job_id
  | Ok data =>
      let jobId := as_id data in
      (if 0 <? REPLAY_TEST_DELAY_MS env then await (Sleep (inject_Z (REPLAY_TEST_DELAY_MS env)))
       else Ret tt) ;;;
      let! job := claimReplay jobId in
      match job with
      | None =>
          let! current := api_getJobById jobId in
          match current with
          | None => Ret job_not_found
          | Some current =>
              Ret (json_response 409 [("error", JStr "Job is not in a replayable state");
                                      ("currentStatus", JStr (status_text (j_status current)))])
          end
      | Some job =>
          Ret (json_response 200 [("jobId", JStr (j_id job));
                                  ("status", JStr (status_text (j_status job)));
                                  ("replayCount", json_number (j_replay_count job))])
      end
  end.

(** ** routes/stats.ts and routes/health.ts *)

Definition get_stats : async response :=
  let! stats := getStats in
  Ret (mkResponse 200 [] (BStats stats)).

Definition get_health : response := json_response 200 [("status", JStr "ok")].

(** The two settled promises of the readiness check. *)
Definition get_ready (postgresResult rabbitmqResult : res js_err unit) : response :=
  let postgresOk := is_ok postgresResult in
  let rabbitmqOk := is_ok rabbitmqResult in
  let text (ok : bool) := JStr (if ok then "ok" else "error") in
  json_response (if postgresOk && rabbitmqOk then 200 else 503)
    [("postgres", text postgresOk); ("rabbitmq", text rabbitmqOk)].

(** A promise of [Promise.allSettled]; the two do not share anything, and run
    one after the other here. *)
Definition settled {A} (p : async A) : async (res js_err unit) :=
  try_catch (p ;;; Ret (Ok tt)) (fun err => Ret (Err err)).

Definition checkRabbitMQHealth : async unit :=
  await GetChannel ;;;
  await (CheckQueue QUEUE_NAME).

Definition ready_route : async response :=
  let! postgresResult := settled (await (Query SSelectOne)) in
  let! rabbitmqResult := settled checkRabbitMQHealth in
  Ret (get_ready postgresResult rabbitmqResult).

(** ** app.ts: errors *)

Definition err_detail (err : js_err) : string :=
  match err with JsErr _ _ message _ _ => message | JsThrown text => text end.

Definition internal_error (err : js_err) : response :=
  json_response 500 (("error", JStr "Internal server error")
    :: if String.eqb (NODE_ENV env) "production" then []
       else [("detail", JStr (err_detail err))]).

(** Express hands what a handler throws to the error handler. *)
Definition with_error_handler (p : async response) : async response :=
  try_catch p (fun err => Ret (internal_error err)).

(** ** The pipelines of the two POST routes: key, limiter, handler *)

(** The limiter runs before the first [await]: the buckets are those at the
    arrival of the request. *)
Definition limited (l : limiter N) (req : request) (nowMs : N) (handler : async response)
    (buckets : gmap string (Bucket N)) : async response * gmap string (Bucket N) :=
  match requireApiKey req with
  | Some r => (Ret r, buckets)
  | None =>
      match rateLimiter l (defaultIdentify req) nowMs buckets with
      | (Some r, buckets) => (Ret (of_reply r), buckets)
      | (None, buckets) => (with_error_handler handler, buckets)
      end
  end.

(** [jobsRouter.post("/", requireApiKey, jobsRateLimiter, backpressure, ..)] *)
Definition POST_jobs (l : limiter N) (req : request) (nowMs : N)
  : gmap string (Bucket N) -> async response * gmap string (Bucket N) :=
  limited l req nowMs
    (let! r := backpressure in
     match r with Some r => Ret r | None => post_job req end).

(** [jobsRouter.post("/:id/replay", requireApiKey, jobsRateLimiter, ..)] *)
Definition POST_replay (l : limiter N) (req : request) (nowMs : N)
  : gmap string (Bucket N) -> async response * gmap string (Bucket N) :=
  limited l req nowMs (post_replay req).
End pipeline.

(** ** app.ts: the CORS allowlist *)

Definition is_space (a : Ascii.ascii) : bool :=
  let n := Ascii.nat_of_ascii a in (9 <=? n)%nat && (n <=? 13)%nat || (n =? 32)%nat.

Fixpoint trim_left (s : string) : string :=
  match s with
  | String a s' => if is_space a then trim_left s' else s
  | EmptyString => s
  end.

(** [s.trim()], of the white space of ASCII. *)
Fixpoint trim_right (s : string) : string :=
  match s with
  | String a s' =>
      match trim_right s' with
      | EmptyString => if is_space a then EmptyString else String a EmptyString
      | t => String a t
      end
  | EmptyString => EmptyString
  end.

Definition trim (s : string) : string := trim_right (trim_left s).

(** [s.split(",")]: the comma is character 44. *)
Fixpoint split_commas (s : string) : list string :=
  match s with
  | EmptyString => [EmptyString]
  | String a s' =>
      if Ascii.eqb a (Ascii.ascii_of_nat 44) then EmptyString :: split_commas s'
      else match split_commas s' with
           | x :: l => String a x :: l
           | [] => [String a EmptyString]
           end
  end.

Definition allowedOrigins (env : Env) : list string :=
  match CORS_ALLOWED_ORIGINS env with
  | Some s => if String.eqb s "" then []
              else List.filter (fun o => negb (String.eqb o "")) (trim <$> split_commas s)
  | None => []
  end.

(** What the [origin] callback is given. *)
Definition cors_origin (env : Env) (requestOrigin : option string) : bool :=
  match requestOrigin with
  | Some o => if String.eqb o "" then true
              else existsb (String.eqb o) (allowedOrigins env)
  | None => true
  end.
