(* ===== verification/Poller.v ===== *)
(** * The change poller and the broadcaster

    apps/api/src/db/changeDetector.ts, ws/changePoller.ts and
    ws/broadcaster.ts.  The cursor is a JavaScript [Date], in milliseconds;
    the column it is compared with has microseconds. *)
From stdpp Require Import pretty.
From S2P Require Import Prelude Json Postgres Amqp Programs Effects Api Lifecycle Http.
#[local] Open Scope stdpp_scope.

Definition POLL_INTERVAL_MS : Z := 2000.

(** [new Date(row.updated_at)] *)
Definition date_of (timestamp : Z) : Z := timestamp / 1000.

Record JobUpdatedEvent := mkUpdate {
  u_jobId : string;
  u_status : Status;
  u_updatedAt : Z }.

(** A WebSocket client: who it is, and whether its [readyState] is OPEN. *)
Record ws_client := mkClient { c_name : nat; c_open : bool }.

(** [broadcast]: what is sent to whom, in the order of [wss.clients]. *)
Definition broadcast {E} (clients : list ws_client) (event : E) : list (nat * E) :=
  (fun c => (c_name c, event)) <$> List.filter c_open clients.

(** ** The text that is sent *)

(** [String(n).padStart(width, "0")] *)
Definition padStart (width : nat) (n : Z) : string :=
  let digits := pretty n in
  String.concat "" (replicate (width - String.length digits) "0" ++ [digits]).

(** The proleptic Gregorian date of a day, counted from 1970-01-01: the cycles
    of 400 years, and within one the years that begin in March. *)
Definition civil (day : Z) : Z * Z * Z :=
  let z := day + 719468 in
  let era := z / 146097 in
  let doe := z mod 146097 in
  let yoe := (doe - doe / 1460 + doe / 36524 - doe / 146096) / 365 in
  let doy := doe - (365 * yoe + yoe / 4 - yoe / 100) in
  let mp := (5 * doy + 2) / 153 in
  let m := if mp <? 10 then mp + 3 else mp - 9 in
  (yoe + era * 400 + (if m <=? 2 then 1 else 0), m, doy - (153 * mp + 2) / 5 + 1).

(** [date.toISOString()], of the years 0 to 9999. *)
Definition toISOString (ms : Z) : string :=
  let '(y, m, d) := civil (ms / 86400000) in
  let t := ms mod 86400000 in
  padStart 4 y +:+ "-" +:+ padStart 2 m +:+ "-" +:+ padStart 2 d +:+ "T"
  +:+ padStart 2 (t / 3600000) +:+ ":" +:+ padStart 2 (t / 60000 mod 60) +:+ ":"
  +:+ padStart 2 (t / 1000 mod 60) +:+ "." +:+ padStart 3 (t mod 1000) +:+ "Z".

(** The event as an object; a [Date] becomes its ISO text in JSON. *)
Definition event_json (event : JobUpdatedEvent) : json :=
  JObj [("type", JStr "job.updated"); ("jobId", JStr (u_jobId event));
        ("status", JStr (status_text (u_status event)));
        ("updatedAt", JStr (toISOString (u_updatedAt event)))].

(** [JSON.stringify(event)] *)
Definition payload (event : JobUpdatedEvent) : string := stringify (event_json event).

Section poller.
Context `{Pg}.

Definition getJobChangesSince (since_ms : Z) : async (list JobChange) :=
  await (Query (SJobChangesSince since_ms)).

Definition getStartupCursor : async Z :=
  let! rows := await (Query SNow) in
  match head (rows : list Z) with
  | None => Throw (mk_error "getStartupCursor: no row returned from SELECT now()")
  | Some now => Ret (date_of now)
  end.

Definition change_event (change : JobChange) : JobUpdatedEvent :=
  mkUpdate (jc_id change) (jc_status change) (date_of (jc_updated_at change)).

(** One tick of the interval: the cursor after it, and what was sent.  The
    clients do not change within a tick's synchronous part. *)
Definition poll_tick (clients : list ws_client) (cursor : Z)
  : async (Z * list (nat * JobUpdatedEvent)) :=
  try_catch
    (let! changes := getJobChangesSince cursor in
     let sent := changes ≫= (fun change => broadcast clients (change_event change)) in
     Ret (match last changes with
          | Some change => date_of (jc_updated_at change)
          | None => cursor
          end, sent))
    (fun err => Ret (cursor, [])).
End poller.

(** ** The changes that a tick sees *)

Lemma elem_of_changes `{Pg} order since d j :
  j ∈ changed_rows order since d <->
  (exists u, jobs d !! u = Some j) /\ since * 1000 < j_updated_at j.
Proof.
  unfold changed_rows.
  rewrite merge_sort_Permutation, list_elem_of_filter, row_order_perm, elem_of_rows. tauto.
Qed.

#[export] Instance updated_before_total `{Pg} : Total updated_before.
Proof. intros j1 j2. unfold updated_before. lia. Qed.

#[export] Instance updated_before_trans `{Pg} : Transitive updated_before.
Proof. intros j1 j2 j3. unfold updated_before. lia. Qed.

Lemma last_of_sorted {A} (R : relation A) (l : list A) x y :
  Reflexive R -> StronglySorted R l -> last l = Some x -> y ∈ l -> R y x.
Proof.
  intros Hrefl Hs. induction Hs as [|z l Hl IH Hz]; intros Hx Hy; [done|].
  destruct l as [|z' l]; simpl in Hx.
  - injection Hx as ->. apply list_elem_of_singleton in Hy as ->. done.
  - apply elem_of_cons in Hy as [->|Hy]; [|by apply IH].
    rewrite Forall_forall in Hz. apply Hz. apply last_Some_elem_of. done.
Qed.

(** The cursor that a tick leaves: the latest change that it saw. *)
Lemma last_change `{Pg} order since d x :
  last (changed_rows order since d) = Some x ->
  x ∈ changed_rows order since d /\
  forall j, j ∈ changed_rows order since d -> j_updated_at j <= j_updated_at x.
Proof.
  intros Hx. split; [by apply last_Some_elem_of|]. intros j Hj.
  eapply (last_of_sorted updated_before) in Hj; [done| | |done].
  - intros k. unfold updated_before. lia.
  - apply (StronglySorted_merge_sort updated_before).
Qed.

Lemma last_changes `{Pg} order since d :
  last (select_job_changes order since d) = change_columns <$> last (changed_rows order since d).
Proof. apply fmap_last. Qed.

Lemma in_changes `{Pg} order since d j :
  j ∈ changed_rows order since d -> change_columns j ∈ select_job_changes order since d.
Proof. apply list_elem_of_fmap_2. Qed.
