(* ===== verification/Sample.v ===== *)
(** * Concrete environments

    A uuid type, a query client, a validator and initial states that satisfy
    the interfaces, on which the theorems are instantiated. *)
From S2P Require Import Prelude Json Postgres Amqp Programs Effects Worker Api Lifecycle RateLimiter Http Delivery System.
#[local] Open Scope stdpp_scope.

#[export] Existing Instance Queues.broker.

(** ** Uuids: 36 characters, lower-case hexadecimal digits and four dashes *)

Definition is_hex (a : Ascii.ascii) : bool :=
  let n := Ascii.nat_of_ascii a in
  ((48 <=? n)%nat && (n <=? 57)%nat) || ((97 <=? n)%nat && (n <=? 102)%nat).

Definition is_dash (a : Ascii.ascii) : bool := (Ascii.nat_of_ascii a =? 45)%nat.

Fixpoint uuid_chars (pattern : list bool) (s : string) : bool :=
  match pattern, s with
  | [], EmptyString => true
  | dash :: pattern, String a s =>
      (if dash : bool then is_dash a else is_hex a) && uuid_chars pattern s
  | _, _ => false
  end.

Definition uuid_pattern : list bool :=
  replicate 8 false ++ true :: replicate 4 false ++ true :: replicate 4 false
  ++ true :: replicate 4 false ++ true :: replicate 12 false.

Definition sample_uuid_in (s : string) : option string :=
  if uuid_chars uuid_pattern s then Some s else None.

Definition sample_param (v : option json) : option string :=
  match v with
  | None | Some JNull => None
  | Some (JStr s) => Some s
  | Some v => Some (stringify v)
  end.

(** As stored, or the other way round. *)
Definition sample_order (order : nat) (A : Type) (l : list A) : list A :=
  if Nat.even order then l else reverse l.

#[export, refine] Instance sample_pg : Pg := {|
  uuid_in := sample_uuid_in; pg_param := sample_param; row_order := sample_order |}.
Proof.
  - unfold sample_uuid_in. intros s u Hs. destruct (uuid_chars uuid_pattern s) eqn:He; [|done].
    injection Hs as <-. by rewrite He.
  - done.
  - done.
  - done.
  - intros order A l. unfold sample_order. destruct (Nat.even order); [done|].
    apply reverse_Permutation.
Defined.

(** ** A validator *)

Fixpoint sample_parse (s : schema) (v : option json) : res json json :=
  match s with
  | ZUnknown => match v with Some x => Ok x | None => Err (JStr "Required") end
  | ZString => match v with Some (JStr x) => Ok (JStr x) | _ => Err (JStr "Expected string") end
  | ZStringMin n m =>
      match v with
      | Some (JStr x) => if (n <=? String.length x)%nat then Ok (JStr x) else Err (JStr m)
      | _ => Err (JStr "Expected string")
      end
  | ZStringUuid m =>
      match v with
      | Some (JStr x) => if uuid_chars uuid_pattern x then Ok (JStr x) else Err (JStr m)
      | _ => Err (JStr "Expected string")
      end
  | ZRecord _ _ =>
      match v with Some (JObj l) => Ok (JObj l) | _ => Err (JStr "Expected object") end
  | ZObject fields =>
      match v with
      | Some (JObj l) =>
          match (fix members (fs : list (string * schema)) : option (list (string * json)) :=
                   match fs with
                   | [] => Some []
                   | (k, s) :: fs =>
                       match sample_parse s (get_prop k (JObj l)), members fs with
                       | Ok x, Some r => Some ((k, x) :: r)
                       | _, _ => None
                       end
                   end) fields with
          | Some r => Ok (JObj r)
          | None => Err (JStr "Invalid member")
          end
      | _ => Err (JStr "Expected object")
      end
  end.

Lemma get_prop_absent k l acc :
  k ∉ l.*1 -> fold_left (fun acc m => if String.eqb m.1 k then Some m.2 else acc) l acc
              = (acc : option json).
Proof.
  revert acc. induction l as [|[k' x] l IH]; intros acc Hk; [done|]. cbn [fmap list_fmap] in Hk.
  apply not_elem_of_cons in Hk as [Hne Hk]. cbn [fold_left fst snd].
  destruct (String.eqb_spec k' k); [by subst|]. by apply IH.
Qed.

Lemma get_prop_member k x l acc :
  NoDup l.*1 -> (k, x) ∈ l ->
  fold_left (fun acc m => if String.eqb m.1 k then Some m.2 else acc) l acc = Some (x : json).
Proof.
  revert acc. induction l as [|[k' x'] l IH]; intros acc Hnd Hin; [by apply not_elem_of_nil in Hin|].
  cbn [fmap list_fmap fst] in Hnd. apply NoDup_cons in Hnd as [Hk Hnd]. cbn [fold_left fst snd].
  apply elem_of_cons in Hin as [[= <- <-]|Hin]; [|by apply IH].
  rewrite String.eqb_refl. by apply get_prop_absent.
Qed.

#[local] Arguments get_prop : simpl never.

#[export, refine] Instance sample_zod : Zod := {| safeParse := sample_parse |}.
Proof.
  - intros m v r. simpl. split.
    + destruct v as [[| | |s| |]|]; try done. destruct s; [done|]. intros [= <-]. by eexists.
    + intros (s & -> & Hne & ->). by destruct s.
  - intros m v r. cbn [sample_parse]. destruct v as [[| | |s| |]|]; try done.
    destruct (uuid_chars uuid_pattern s) eqn:Hs; [|done]. intros [= <-]. exists s.
    split; [done|]. split; [done|]. simpl. unfold sample_uuid_in. rewrite Hs. by eexists.
  - intros k v r. simpl. destruct v as [[| | | | |l]|]; try done. intros [= <-]. by exists l, l.
  - intros fields v r Hnd. simpl. destruct v as [[| | | | |l]|]; try done.
    set (members := fix members (fs : list (string * schema)) := _).
    destruct (members fields) as [rl|] eqn:Hm; [|done]. intros [= <-].
    exists l, rl. split; [done|]. split; [done|].
    assert (rl.*1 = fields.*1 /\ forall k s, (k, s) ∈ fields ->
      exists x, sample_parse s (get_prop k (JObj l)) = Ok x /\ (k, x) ∈ rl) as [Hk Hin].
    { clear Hnd. revert rl Hm. induction fields as [|[k s] fs IH]; intros rl Hm; simpl in Hm.
      - injection Hm as <-. split; [done|]. intros k s Hs. by apply not_elem_of_nil in Hs.
      - destruct (sample_parse s (get_prop k (JObj l))) as [x|] eqn:Hx; [|done].
        destruct (members fs) as [r|] eqn:Hr; [|done]. injection Hm as <-.
        destruct (IH r eq_refl) as [Hk Hall]. split; [cbn; by rewrite Hk|].
        intros k' s' Hs. apply elem_of_cons in Hs as [[= -> ->]|Hs].
        + exists x. split; [done|left].
        + destruct (Hall k' s' Hs) as (x' & Hx' & Hin'). exists x'. split; [done|by right]. }
    intros k s Hs. destruct (Hin k s Hs) as (x & Hx & Hx'). exists x. split; [done|].
    apply get_prop_member; [by rewrite Hk|done].
Defined.

(** ** Rows and states *)

Definition uuid_a : string := "00000000-0000-4000-8000-00000000000a".
Definition uuid_b : string := "00000000-0000-4000-8000-00000000000b".
Definition uuid_e : string := "00000000-0000-4000-8000-00000000000e".
Definition uuid_f : string := "00000000-0000-4000-8000-00000000000f".

Definition sample_job (u : string) (payload : json) (s : Status) (attempts updated : Z) : Job :=
  mkJob u "email" payload s attempts 5 None 0 updated attempts 0 None None.

Definition sample_event (v u : string) (created : Z) : OutboxEvent :=
  mkEvent v u created None None 0 None.

(** One job, and the message [text] as delivery 1 of the worker. *)
Definition sample_world (j : Job) (text : string) : world Queues.t :=
  mkWorld (mkDb {[ j_id j := j ]} ∅) None (Amqp.declared worker_topology)
    {[ 1%nat := mkMessage text true None ]} 0 [].

(** Everything works, at the instant [now]. *)
Definition calm (now : Z) (uuid : string) : choice :=
  mkChoice now uuid ∅ 0%nat 0 true true None.

Lemma healthy_calm now uuid : within (healthy now now) (fun _ => calm now uuid).
Proof. intros n o. split; [done|]. split; [done|]. split; [done|]. simpl. lia. Qed.

Lemma sample_row_ok u payload status attempts updated :
  canonical u -> 0 <= attempts <= INT4_MAX -> status <> DEAD_LETTERED ->
  job_row_ok u (sample_job u payload status attempts updated).
Proof. intros. split; simpl; try done; try lia; unfold INT4_MAX; lia. Qed.

Lemma sample_event_ok d v u created :
  canonical v -> is_Some (jobs d !! u) -> event_row_ok d v (sample_event v u created).
Proof. intros. split; simpl; try done; unfold INT4_MAX; lia. Qed.

(** A job that was dead-lettered after its last attempt. *)
Definition dead_a : Job :=
  mkJob uuid_a "email" (JObj []) DEAD_LETTERED 5 5 (Some "boom") 0 2000000 5 0 (Some 2000000) (Some "boom").

Definition one_job (j : Job) : db := mkDb {[ uuid_a := j ]} ∅.

Definition one_job_world (j : Job) : world Queues.t :=
  mkWorld (one_job j) None (Amqp.declared worker_topology) ∅ 0 [].

Lemma dead_a_wf : wf_db (one_job dead_a).
Proof.
  split; [|apply map_Forall_empty]. apply map_Forall_singleton.
  split; simpl; try done; unfold INT4_MAX; lia.
Qed.
