(* ===== verification/Safety.v ===== *)
(** * What holds in every reachable state

    The properties of [System]: no waiting job is forgotten, the tables stay
    well formed, the life of a job follows its state machine.  And one that
    does not hold: a job in PROCESSING may be left without any message. *)
From S2P Require Import Prelude Json Postgres Amqp Programs Effects Retry Worker Api Lifecycle Transactions Delivery System RateLimiter Http Sample.
#[local] Open Scope stdpp_scope.

(** ** A trace *)

Definition run_world `{Pg} {B} `{Broker B} {R} (p : async R) (cs : nat -> choice) (w : world B)
  : world B := let '(_, w', _) := run p cs w in w'.

Definition sample_input : CreateJobInput := mkInput "email" (JObj []).

(** The job gets [uuid_a], its event [uuid_e]. *)
Definition create_choices (n : nat) : choice :=
  calm 1000000 (if (n <=? 2)%nat then uuid_a else uuid_e).

Definition created (input : CreateJobInput) : world Queues.t :=
  run_world (createJob input) create_choices (s_world initial).

Definition dispatched (input : CreateJobInput) : world Queues.t :=
  run_world dispatchOutboxBatch (fun _ => calm 2000000 uuid_b) (created input).

Definition created_text : string := job_created_message uuid_a.
Definition created_msg : message := mkMessage created_text true None.

(** The message is handed over as delivery [t]. *)
Definition hand_over (t : nat) (w : world Queues.t) : world Queues.t :=
  with_unacked (<[t := created_msg]> (w_unacked w))
    (with_broker (Queues.mk (Queues.bindings (w_broker w)) (Queues.dead_letters (w_broker w)) []) w).

(** PostgreSQL is away when the completion is recorded (the fifth effect). *)
Definition outage_choices (n : nat) : choice :=
  if (n =? 4)%nat
  then mkChoice 3200000 uuid_b ∅ 0%nat 0 true true
         (Some (false, mk_pg_error "57P01" "terminating connection"))
  else calm 3000000 uuid_b.

Definition first_delivery : world Queues.t :=
  run_world (on_message 0 (Some (1%nat, created_text))) outage_choices (hand_over 1 (dispatched sample_input)).

(** The same message again, four seconds later. *)
Definition second_delivery : world Queues.t :=
  run_world (on_message 0 (Some (2%nat, created_text))) (fun _ => calm 7000000 uuid_b)
    (hand_over 2 first_delivery).

Definition state_created (input : CreateJobInput) : sys Queues.t := mkSys (created input) ∅.
Definition state_dispatched (input : CreateJobInput) : sys Queues.t :=
  mkSys (dispatched input) {[ 0%nat := Dispatcher (Ret (mkDispatch 1 1 0)) ]}.
Definition state_first : sys Queues.t :=
  mkSys first_delivery (<[1%nat := Handler created_text (Ret tt)]> (s_procs (state_dispatched sample_input))).
Definition state_second : sys Queues.t :=
  mkSys second_delivery (<[2%nat := Handler created_text (Ret tt)]> (s_procs state_first)).

Lemma sane_calm now uuid : canonical uuid -> sane (calm now uuid).
Proof. intros. by split. Qed.

Lemma reach_created {reliable} cl input : reachable_in reliable cl (state_created input).
Proof.
  apply rtc_once.
  change (state_created input) with (mkSys (created input) (s_procs (B := Queues.t) initial)).
  eapply step_create with (input := input) (cs := create_choices).
  - intros n o. unfold canonical_uuids, create_choices. by destruct (n <=? 2)%nat.
  - vm_compute. reflexivity.
Qed.

Lemma steps_dispatched cl input : rtc (step cl) (state_created input) (state_dispatched input).
Proof.
  change (state_dispatched input) with
    (mkSys (dispatched input)
       (<[0%nat := Dispatcher (ended (Ok (mkDispatch 1 1 0)))]> (s_procs (state_created input)))).
  eapply steps_dispatch with (cs := fun _ => calm 2000000 uuid_b); [done| |].
  - intros _. by apply sane_calm.
  - vm_compute. reflexivity.
Qed.

Lemma steps_first cl : rtc (step cl) (state_dispatched sample_input) state_first.
Proof.
  eapply (steps_delivery cl (state_dispatched sample_input) 1 created_msg _ 0 outage_choices (Ok tt)); [done|done| | |].
  - exists [], []. split; [vm_compute; reflexivity|reflexivity].
  - intros n. unfold outage_choices. destruct (n =? 4)%nat; [|by apply sane_calm].
    split; [done|done|]. by intros x e [= <- <-].
  - vm_compute. reflexivity.
Qed.

Lemma steps_second cl : rtc (step cl) state_first state_second.
Proof.
  eapply (steps_delivery cl state_first 2 created_msg _ 0 (fun _ => calm 7000000 uuid_b) (Ok tt));
    [done|done| | |].
  - exists [], []. split; [vm_compute; reflexivity|reflexivity].
  - intros n. by apply sane_calm.
  - vm_compute. reflexivity.
Qed.

Lemma steps_all cl : rtc (step cl) (state_created sample_input) state_second.
Proof. etrans; [apply steps_dispatched|]. etrans; [apply steps_first|apply steps_second]. Qed.

Lemma reach_second cl : reachable cl state_second.
Proof. unfold reachable_in. etrans; [apply reach_created|apply steps_all]. Qed.

Section safety.
Context `{Pg} {B : Type} `{Broker B}.

(** C1: as long as the broker stores what a channel accepted (there are no
    publisher confirms: see [unwritten_message_forgets_job]), in every reachable
    state, through crashes, outages and lost channels, a QUEUED job has an outbox
    event that is not published, or a message that the broker holds, or a delivery
    that the broker takes back. *)
Theorem queued_job_in_flight closures s u j :
  reachable_in true closures s -> jobs (w_db (s_world s)) !! u = Some j -> j_status j = QUEUED ->
  in_flight (s_world s) u.
Proof.
  intros Hr Hj Hs. eapply reachable_in_flight; [done..|].
  unfold waiting, has_status. by rewrite bool_decide_eq_true_2.
Qed.

(** C12: as long as the channel is not lost under a running handler, a job
    that is due for a retry is in flight too: its retry message waits, or the
    delivery that failed goes back to the queue. *)
Theorem retrying_job_in_flight s u j :
  reachable false s -> jobs (w_db (s_world s)) !! u = Some j -> j_status j = RETRYING ->
  in_flight (s_world s) u.
Proof.
  intros Hr Hj Hs. eapply reachable_in_flight; [done..|].
  unfold waiting, has_status. rewrite (bool_decide_eq_true_2 (_ = RETRYING)) by done.
  by rewrite orb_true_r.
Qed.

(** C28: in every reachable state the rows are well formed: canonical ids, an
    event refers to a job, attempts of a cycle within the total, counters in
    the range of INT, a dead-lettered job with the time of it. *)
Theorem reachable_wf closures s : reachable closures s -> wf_db (w_db (s_world s)).
Proof. intros Hr. destruct (reachable_inv _ _ Hr) as (γ & spent & Hinv). apply Hinv. Qed.

(** What the legal steps of a job keep. *)
Definition job_history (j j' : Job) : Prop :=
  same_identity j j'
  /\ j_total_attempt_count j <= j_total_attempt_count j'
  /\ j_replay_count j <= j_replay_count j'
  /\ (j_last_dead_lettered_at j <> None -> j_last_dead_lettered_at j' <> None)
  /\ (j_status j = COMPLETED -> j' = j).

Lemma legal_step_history j j' : legal_step j j' -> job_history j j'.
Proof.
  unfold legal_step, counters_step, history_step. intros (He & Hi & Hc & Hh).
  split; [done|]. destruct (j_status j), (j_status j'); simpl in *; try done;
    decompose [and] Hc; decompose [and] Hh;
    (split; [lia|]); (split; [lia|]); (split; [congruence|done]).
Qed.

Lemma job_evolves_history j j' : job_evolves j j' -> job_history j j'.
Proof.
  induction 1 as [j|j1 j2 j3 H12 _ IH]; [by repeat split|].
  apply legal_step_history in H12. unfold job_history, same_identity in *.
  destruct H12 as ((?&?&?&?&?) & Ht & Hr & Hd & Hc).
  destruct IH as ((?&?&?&?&?) & Ht' & Hr' & Hd' & Hc').
  split; [repeat split; congruence|]. split; [lia|]. split; [lia|]. split; [by auto|].
  intros Hj. specialize (Hc Hj). subst j2. by apply Hc'.
Qed.

(** C27: whatever happens after a reachable state, a job keeps its row, its id,
    type, payload, limit and creation time; its lifetime counters do not
    decrease; the record of a dead-lettering is not erased, by a replay or a
    success; and a COMPLETED job does not change any more. *)
Theorem job_history_kept closures s s' u j :
  reachable closures s -> rtc (step closures) s s' ->
  jobs (w_db (s_world s)) !! u = Some j ->
  exists j', jobs (w_db (s_world s')) !! u = Some j' /\ job_history j j'.
Proof.
  intros Hr Hs Hj. destruct (inv_steps _ _ _ Hs (reachable_inv _ _ Hr)) as [_ [Hd _]].
  destruct (Hd u j Hj) as (j' & Hj' & He). exists j'. split; [done|].
  by apply job_evolves_history.
Qed.

(** C13: whatever happens, the status of a job moves along the edges of its
    state machine, one row update at a time: QUEUED, RETRYING or PROCESSING to
    PROCESSING, from there to COMPLETED, RETRYING or DEAD_LETTERED, and from
    DEAD_LETTERED only to QUEUED; entering PROCESSING counts an attempt, and
    a replay starts again from zero attempts. *)
Theorem job_follows_state_machine closures s s' u j :
  reachable closures s -> rtc (step closures) s s' ->
  jobs (w_db (s_world s)) !! u = Some j ->
  exists j', jobs (w_db (s_world s')) !! u = Some j' /\ rtc legal_step j j'.
Proof.
  intros Hr Hs Hj. destruct (inv_steps _ _ _ Hs (reachable_inv _ _ Hr)) as [_ [Hd _]].
  by apply Hd.
Qed.

(** An outbox event is never deleted and never loses its publication
    mark; it stays the event of the same job. *)
Theorem outbox_event_kept closures s s' v e :
  reachable closures s -> rtc (step closures) s s' ->
  outbox (w_db (s_world s)) !! v = Some e ->
  exists e', outbox (w_db (s_world s')) !! v = Some e' /\ event_evolves e e'.
Proof.
  intros Hr Hs He. destruct (inv_steps _ _ _ Hs (reachable_inv _ _ Hr)) as [_ [_ Ho]].
  by apply Ho.
Qed.
End safety.

(** ** A job that no message reaches *)

(** The one event is published, no queue holds a message, none is unsettled. *)
Lemma nothing_in_flight (w : world Queues.t) e :
  outbox (w_db w) = {[ uuid_e := e ]} -> ev_published_at e <> None ->
  Queues.contents (w_broker w) = [] -> w_unacked w = ∅ -> ~ in_flight w uuid_a.
Proof.
  intros Ho Hp Hc Hu. unfold in_flight.
  intros [(v & e' & Hv & _ & Hun)|[(text & (m & _ & [[Hq _]|[Hq _]]) & _)|(t & m & Hm & _)]].
  - rewrite Ho in Hv. apply lookup_singleton_Some in Hv as [_ <-]. unfold unpublished in Hun.
    by destruct (ev_published_at e).
  - change ((QUEUE_NAME, m) ∈ Queues.contents (w_broker w)) in Hq. rewrite Hc in Hq.
    exact (not_elem_of_nil _ Hq).
  - change ((RETRY_QUEUE_NAME, m) ∈ Queues.contents (w_broker w)) in Hq. rewrite Hc in Hq.
    exact (not_elem_of_nil _ Hq).
  - rewrite Hu in Hm. by rewrite lookup_empty in Hm.
Qed.

Definition marked : OutboxEvent := mkEvent uuid_e uuid_a 1000000 (Some 2000000) (Some 2000000) 0 None.

Lemma second_not_in_flight : ~ in_flight second_delivery uuid_a.
Proof. apply (nothing_in_flight _ marked); [vm_compute; reflexivity|done|vm_compute; reflexivity..]. Qed.

(** C38: a job can be left in PROCESSING with no message about it anywhere: the
    completion could not be recorded, the delivery went back to the queue, and
    its second delivery came before the 60 seconds of the stale threshold, found
    the job claimed, and was acknowledged.  The channel is never lost in this
    run. *)
Theorem processing_job_stranded :
  exists (s : sys Queues.t) j,
    reachable false s /\ jobs (w_db (s_world s)) !! uuid_a = Some j
    /\ j_status j = PROCESSING /\ ~ in_flight (s_world s) uuid_a
    /\ w_unacked (s_world s) = ∅.
Proof.
  exists state_second. eexists. split; [apply reach_second|].
  split; [vm_compute; reflexivity|]. split; [reflexivity|].
  split; [apply second_not_in_flight|]. vm_compute. reflexivity.
Qed.

(** ** A dead letter that is lost *)

(** A job that fails for good; the worker is killed between the UPDATE that
    records this and the publication of the dead letter (after five effects),
    and the message is delivered again. *)
Definition hopeless_input : CreateJobInput :=
  mkInput "email" (JObj [("shouldFailPermanently", JBool true)]).

Definition killed_delivery : world Queues.t :=
  return_delivery 1 (run_for 5 (on_message 0 (Some (1%nat, created_text)))
    (fun _ => calm 3000000 uuid_b) (hand_over 1 (dispatched hopeless_input))).2.

Definition ignored_delivery : world Queues.t :=
  run_world (on_message 0 (Some (2%nat, created_text))) (fun _ => calm 7000000 uuid_b)
    (hand_over 2 killed_delivery).

Definition state_killed : sys Queues.t :=
  mkSys killed_delivery (s_procs (state_dispatched hopeless_input)).
Definition state_ignored : sys Queues.t :=
  mkSys ignored_delivery (<[2%nat := Handler created_text (Ret tt)]> (s_procs state_killed)).

Lemma steps_killed cl : rtc (step cl) (state_dispatched hopeless_input) state_killed.
Proof.
  eapply (steps_crashed_delivery cl 5 (state_dispatched hopeless_input) 1 created_msg _
    0 (fun _ => calm 3000000 uuid_b)); [done|done| | |].
  - exists [], []. split; [vm_compute; reflexivity|reflexivity].
  - intros n. by apply sane_calm.
  - apply surjective_pairing.
Qed.

Lemma reach_ignored cl : reachable cl state_ignored.
Proof.
  unfold reachable_in. etrans; [apply reach_created|]. etrans; [apply steps_dispatched|].
  etrans; [apply steps_killed|].
  eapply (steps_delivery cl state_killed 2 created_msg _ 0 (fun _ => calm 7000000 uuid_b) (Ok tt));
    [done|done| | |].
  - exists [], []. split; [vm_compute; reflexivity|reflexivity].
  - intros n. by apply sane_calm.
  - vm_compute. reflexivity.
Qed.

(** C39: a job can be DEAD_LETTERED without a message in the dead-letter queue:
    when the worker is killed after the row was changed and before the dead
    letter is published, the delivery goes back to the queue, and its second
    delivery finds the job dead-lettered and is acknowledged.  No message is left
    anywhere, every process is done, no effect failed and everything that was
    published was stored. *)
Theorem dead_letter_lost :
  exists (s : sys Queues.t) j,
    reachable false s /\ jobs (w_db (s_world s)) !! uuid_a = Some j
    /\ j_status j = DEAD_LETTERED /\ w_unacked (s_world s) = ∅
    /\ (forall q m, ~ in_queue (w_broker (s_world s)) q m)
    /\ map_Forall (fun _ p => match p with Handler _ p => p = Ret tt
                                          | Dispatcher p => exists r, p = Ret r end) (s_procs s)
    /\ Forall (fun e => e.2 = true) (w_log (s_world s)).
Proof.
  exists state_ignored. eexists. split; [apply reach_ignored|].
  split; [vm_compute; reflexivity|]. split; [reflexivity|]. split; [vm_compute; reflexivity|].
  split; [|split].
  - intros q m Hq. assert (Queues.contents (w_broker ignored_delivery) = []) as Hc
      by (vm_compute; reflexivity).
    change ((q, m) ∈ Queues.contents (w_broker ignored_delivery)) in Hq.
    rewrite Hc in Hq. exact (not_elem_of_nil _ Hq).
  - intros t p Hp. change (<[2%nat := Handler created_text (Ret tt)]>
        ({[ 0%nat := Dispatcher (Ret (mkDispatch 1 1 0)) ]} : gmap nat proc) !! t = Some p) in Hp.
    apply lookup_insert_Some in Hp as [[_ <-]|[_ Hp]]; [done|].
    apply lookup_singleton_Some in Hp as [_ <-]. eauto.
  - apply Forall_forall. intros e He. apply list_elem_of_In in He. vm_compute in He.
    repeat destruct He as [<-|He]; done.
Qed.

(** ** A message that was accepted and never stored *)

(** [channel.publish] returned [true], and the connection broke before its
    buffer was written. *)
Definition unwritten_choice : choice := mkChoice 2000000 uuid_b ∅ 0%nat 0 true false None.

Definition unwritten : world Queues.t :=
  run_world dispatchOutboxBatch (fun _ => unwritten_choice) (created sample_input).

Lemma unwritten_not_in_flight : ~ in_flight unwritten uuid_a.
Proof. apply (nothing_in_flight _ marked); [vm_compute; reflexivity|done|vm_compute; reflexivity..]. Qed.

(** What [reliable] assumes is needed: without it, and without any crash, outage
    or lost channel, a job is QUEUED and no longer in flight.  Its event is marked
    published, so that no dispatcher will take it again. *)
Theorem unwritten_message_forgets_job :
  exists (s : sys Queues.t) j,
    reachable_in false false s /\ jobs (w_db (s_world s)) !! uuid_a = Some j
    /\ j_status j = QUEUED /\ ~ in_flight (s_world s) uuid_a.
Proof.
  exists (mkSys unwritten {[ 0%nat := Dispatcher (Ret (mkDispatch 1 1 0)) ]}). eexists.
  split; [|split; [vm_compute; reflexivity|split; [reflexivity|apply unwritten_not_in_flight]]].
  unfold reachable_in. etrans; [apply (reach_created false sample_input)|].
  apply (steps_dispatch false (state_created sample_input) 0 (fun _ => unwritten_choice)
    (Ok (mkDispatch 1 1 0)) unwritten (fun _ => unwritten_choice)); [done| |].
  - intros n. by split.
  - vm_compute. reflexivity.
Qed.

(** ** The properties, on the trace *)

Definition created_row : Job := mkJob uuid_a "email" (JObj []) QUEUED 0 5 None 1000000 1000000 0 0 None None.

Lemma queued_job_in_flight_witness : in_flight (s_world (state_created sample_input)) uuid_a.
Proof.
  apply (queued_job_in_flight true (state_created sample_input) uuid_a created_row).
  - apply reach_created.
  - vm_compute. reflexivity.
  - reflexivity.
Defined.

Lemma reachable_wf_witness : wf_db (w_db (s_world state_second)).
Proof. apply (reachable_wf false). apply reach_second. Defined.

Lemma job_history_kept_witness :
  exists j', jobs (w_db (s_world state_second)) !! uuid_a = Some j' /\ job_history created_row j'.
Proof.
  apply (job_history_kept true (state_created sample_input) state_second uuid_a created_row).
  - apply reach_created.
  - apply steps_all.
  - vm_compute. reflexivity.
Defined.

Lemma job_follows_state_machine_witness :
  exists j', jobs (w_db (s_world state_second)) !! uuid_a = Some j' /\ rtc legal_step created_row j'.
Proof.
  apply (job_follows_state_machine true (state_created sample_input) state_second uuid_a created_row).
  - apply reach_created.
  - apply steps_all.
  - vm_compute. reflexivity.
Defined.

Lemma outbox_event_kept_witness :
  exists e', outbox (w_db (s_world state_second)) !! uuid_e = Some e'
    /\ event_evolves (mkEvent uuid_e uuid_a 1000000 None None 0 None) e'.
Proof.
  apply (outbox_event_kept true (state_created sample_input) state_second uuid_e).
  - apply reach_created.
  - apply steps_all.
  - vm_compute. reflexivity.
Defined.

(** A job that fails: its first delivery ends in RETRYING. *)
Definition failing_input : CreateJobInput := mkInput "email" (JObj [("shouldFail", JBool true)]).

Definition failing_delivery : world Queues.t :=
  run_world (on_message 0 (Some (1%nat, created_text))) (fun _ => calm 3000000 uuid_b)
    (hand_over 1 (dispatched failing_input)).

Definition state_retrying : sys Queues.t :=
  mkSys failing_delivery
    (<[1%nat := Handler created_text (Ret tt)]> (s_procs (state_dispatched failing_input))).

Lemma reach_retrying cl : reachable cl state_retrying.
Proof.
  unfold reachable_in. etrans; [apply reach_created|]. etrans; [apply steps_dispatched|].
  eapply (steps_delivery cl (state_dispatched failing_input) 1 created_msg _ 0
    (fun _ => calm 3000000 uuid_b) (Ok tt)); [done|done| | |].
  - exists [], []. split; [vm_compute; reflexivity|reflexivity].
  - intros n. by apply sane_calm.
  - vm_compute. reflexivity.
Qed.

Lemma retrying_job_in_flight_witness : in_flight (s_world state_retrying) uuid_a.
Proof.
  eapply (retrying_job_in_flight state_retrying uuid_a).
  - apply reach_retrying.
  - vm_compute. reflexivity.
  - reflexivity.
Defined.
