(* ===== verification/Handling.v ===== *)
(** * Properties of the message handler

    What the handler of apps/worker/src/consumer.ts does with a delivery:
    settled exactly once, the job processed as specified, duplicates ignored,
    retries until the limit; and the one message it cannot get rid of. *)
From S2P Require Import Prelude Json Postgres Amqp Programs Effects Retry Worker Api Lifecycle Settle Delivery Processing System RateLimiter Http Sample.
#[local] Open Scope stdpp_scope.

Section handling.
Context `{Pg} {B : Type} `{Broker B}.
Implicit Types w : world B.

(** C2: for any message but JSON's [null] (see [null_message_not_settled]), and as
    long as the channel stays open, whatever else fails (the database, the
    publications, at any point and with or without effect), the handler returns,
    and it has settled its delivery exactly once: one acknowledgement or one
    requeue, that reaches the channel, and no other. *)
Theorem message_settled_once sync tag text w cs :
  is_Some (w_unacked w !! tag) -> JSON_parse text <> Some JNull ->
  conforms channel_open (on_message sync (Some (tag, text))) cs w ->
  exists w' cs', run (on_message sync (Some (tag, text))) cs w = (Ok tt, w', cs')
    /\ settles_once tag w w'.
Proof.
  intros Htag Hn Hcs. pose proof (wp_conforms _ _ _ _ _ Hcs (wp_on_message sync tag text w Htag Hn)) as Hwp.
  destruct (run _ cs w) as [[r w'] cs']. destruct Hwp as [Hok Hset].
  destruct r as [[]|]; [|done]. by exists w', cs'.
Qed.

(** A message that is JSON's [null] makes the handler throw before any
    effect, outside every [try]: nothing is settled, so the broker will hand
    the message out again and again. *)
Theorem null_message_not_settled sync tag text w cs :
  JSON_parse text = Some JNull ->
  exists e, run (on_message sync (Some (tag, text))) cs w = (Err e, w, cs).
Proof. intros Hn. unfold on_message. rewrite Hn. by eexists. Qed.

(** C6: when nothing fails, a delivery about a job that can be claimed (it is
    QUEUED or RETRYING, or PROCESSING since more than 60 seconds) does what
    the specification says: the row becomes [job_after], the follow-up message
    (none, a retry with its delay, or a dead letter) is published, and the
    delivery is acknowledged. *)
Theorem delivery_meets_specification lo hi sync tag text content jobId u j w cs :
  JSON_parse text = Some content -> message_job_id content = Ok jobId ->
  pg_param jobId ≫= uuid_in = Some u ->
  jobs (w_db w) !! u = Some j -> claimable lo STALE_PROCESSING_THRESHOLD_SECONDS j = true ->
  j_attempt_count j + 1 <= INT4_MAX -> j_total_attempt_count j + 1 <= INT4_MAX ->
  is_Some (w_unacked w !! tag) -> within (healthy lo hi) cs ->
  exists w' cs', run (on_message sync (Some (tag, text))) cs w = (Ok tt, w', cs')
    /\ delivered lo hi tag jobId u j w w'.
Proof.
  intros ? ? ? ? ? ? ? ? Hcs.
  assert (wp (healthy lo hi) (on_message sync (Some (tag, text)))
    (fun r w' => r = Ok tt /\ delivered lo hi tag jobId u j w w') w) as Hwp
    by by eapply wp_healthy_on_message.
  apply (wp_run _ _ _ _ _ Hcs) in Hwp. destruct (run _ cs w) as [[r w'] cs'].
  destruct Hwp as [-> Hd]. by exists w', cs'.
Qed.

(** When nothing fails, a delivery whose job cannot be claimed (completed,
    dead-lettered, claimed within the last 60 seconds, unknown, or no uuid at
    all) is acknowledged and changes nothing. *)
Theorem unclaimable_delivery_ignored lo hi sync tag text content jobId w cs :
  JSON_parse text = Some content -> message_job_id content = Ok jobId ->
  not_claimable hi (pg_param jobId) (w_db w) -> is_Some (w_unacked w !! tag) ->
  within (healthy lo hi) cs ->
  exists w' cs', run (on_message sync (Some (tag, text))) cs w = (Ok tt, w', cs')
    /\ acknowledged tag w w'.
Proof.
  intros ? ? ? ? Hcs.
  assert (wp (healthy lo hi) (on_message sync (Some (tag, text)))
    (fun r w' => r = Ok tt /\ acknowledged tag w w') w) as Hwp
    by by eapply wp_healthy_ignored.
  apply (wp_run _ _ _ _ _ Hcs) in Hwp. destruct (run _ cs w) as [[r w'] cs'].
  destruct Hwp as [-> Hd]. by exists w', cs'.
Qed.

(** ** A job that fails every time *)

(** The same message, delivered [n] times, each time with tag [tag]. *)
Fixpoint deliver_times (sync : Z) (tag : nat) (m : message) (css : nat -> nat -> choice)
    (n : nat) w : world B :=
  match n with
  | O => w
  | S n =>
      let w1 := deliver_times sync tag m css n w in
      let '(_, w2, _) := run (on_message sync (Some (tag, m_content m))) (css n)
                           (with_unacked (<[tag := m]> (w_unacked w1)) w1) in
      w2
  end.

(** The outcome of the attempt number [i] of a job that always fails. *)
Definition failing_outcome (max : Z) (message : string) (i : nat) : outcome :=
  decide_outcome (Fails message) (Z.of_nat i) max.

(** The row after [n] attempts. *)
Definition failing_row (j0 j : Job) (n : nat) : Prop :=
  j_attempt_count j = Z.of_nat n
  /\ j_total_attempt_count j = j_total_attempt_count j0 + Z.of_nat n
  /\ same_identity j0 j
  /\ match n with
     | O => j = j0
     | S _ => j_status j = outcome_status (failing_outcome (j_max_attempts j0)
                ("Simulated failure for job type " +:+ quoted (j_type j0)) n)
     end.

Lemma failing_row_next lo hi m j0 j n t :
  job_verdict j0 = Fails m -> failing_row j0 j n -> lo <= t <= hi ->
  job_outcome j = failing_outcome (j_max_attempts j0) m (S n)
  /\ failing_row j0 (job_after (job_outcome j) t j) (S n).
Proof.
  intros Hv (Ha & Ht & (Hid & Hty & Hpl & Hmax & Hcr) & Hst) Hr.
  assert (job_verdict j = Fails m) as Hv' by (unfold job_verdict in *; by rewrite Hpl, Hty).
  assert (m = "Simulated failure for job type " +:+ quoted (j_type j0)) as Hm.
  { unfold job_verdict in Hv. by repeat case_match; simplify_eq. }
  assert (job_outcome j = failing_outcome (j_max_attempts j0) m (S n)) as Ho.
  { unfold job_outcome, failing_outcome. rewrite Hv', Ha, Hmax. f_equal. lia. }
  split; [done|]. rewrite Ho. split; [simpl; lia|]. split; [simpl; lia|].
  split; [done|]. by rewrite Hm.
Qed.

Lemma deliver_times_failing lo hi sync tag m content jobId u j0 msg css w n :
  JSON_parse (m_content m) = Some content -> message_job_id content = Ok jobId ->
  pg_param jobId ≫= uuid_in = Some u ->
  jobs (w_db w) !! u = Some j0 -> j_status j0 = QUEUED -> j_attempt_count j0 = 0 ->
  job_verdict j0 = Fails msg -> (forall k, within (healthy lo hi) (css k)) ->
  Z.of_nat n <= j_max_attempts j0 ->
  j_total_attempt_count j0 + Z.of_nat n <= INT4_MAX -> Z.of_nat n <= INT4_MAX ->
  let w' := deliver_times sync tag m css n w in
  (exists j, jobs (w_db w') !! u = Some j /\ failing_row j0 j n)
  /\ w_broker w' = foldl (fun b i => send (follow_up (failing_outcome (j_max_attempts j0) msg i) jobId) b)
                     (w_broker w) (seq 1 n).
Proof.
  intros Hp Hid Hu Hj Hq Hzero Hv Hcs. induction n as [|n IH]; intros Hmax Htot Hint.
  - simpl. split; [|done]. exists j0. split; [done|]. split; [simpl; lia|].
    split; [simpl; lia|]. by repeat split.
  - destruct IH as [(j & Hj' & Hrow) Hb]; [lia..|]. cbn [deliver_times].
    set (w1 := deliver_times sync tag m css n w) in *.
    assert (claimable lo STALE_PROCESSING_THRESHOLD_SECONDS j = true) as Hc.
    { destruct Hrow as (_ & _ & _ & Hst). unfold claimable, has_status. destruct n as [|n].
      - by rewrite Hst, Hq.
      - rewrite Hst. unfold failing_outcome. cbn [decide_outcome].
        destruct (j_max_attempts j0 <=? Z.of_nat (S n)) eqn:Hle; [|done].
        apply Z.leb_le in Hle. lia. }
    destruct Hrow as (Ha & Ht & Hrow).
    assert (wp (healthy lo hi) (on_message sync (Some (tag, m_content m)))
      (fun r w' => r = Ok tt /\ delivered lo hi tag jobId u j
         (with_unacked (<[tag := m]> (w_unacked w1)) w1) w')
      (with_unacked (<[tag := m]> (w_unacked w1)) w1)) as Hwp.
    { eapply wp_healthy_on_message; try done; [lia|lia|]. simpl. by rewrite lookup_insert_eq. }
    apply (wp_run _ _ _ _ _ (Hcs n)) in Hwp.
    destruct (run _ (css n) _) as [[r w2] cs']. destruct Hwp as [_ (t & Htr & Hd & Hb2 & _)].
    destruct (failing_row_next lo hi msg j0 j n t Hv) as [Ho Hrow']; [by split|done|].
    split.
    + exists (job_after (job_outcome j) t j). rewrite Hd. simpl. by rewrite lookup_insert_eq.
    + rewrite Hb2, Ho. cbn [w_broker with_unacked]. rewrite Hb, seq_S, foldl_app. done.
Qed.

(** A job whose processing fails every time is retried until its limit:
    after [n] deliveries, for [n] below [max_attempts], it is RETRYING with
    [n] attempts, and the retry messages went out with the delays of
    [calculateBackoffMs 1, 2, ..]; after [max_attempts] deliveries it is
    DEAD_LETTERED, and the last message is a dead letter. *)
Theorem failing_job_retried_then_dead_lettered lo hi sync tag m content jobId u j0 msg css w n :
  JSON_parse (m_content m) = Some content -> message_job_id content = Ok jobId ->
  pg_param jobId ≫= uuid_in = Some u ->
  jobs (w_db w) !! u = Some j0 -> j_status j0 = QUEUED -> j_attempt_count j0 = 0 ->
  job_verdict j0 = Fails msg -> (forall k, within (healthy lo hi) (css k)) ->
  (0 < n)%nat -> Z.of_nat n <= j_max_attempts j0 ->
  j_total_attempt_count j0 + Z.of_nat n <= INT4_MAX -> Z.of_nat n <= INT4_MAX ->
  exists j, jobs (w_db (deliver_times sync tag m css n w)) !! u = Some j
    /\ j_attempt_count j = Z.of_nat n
    /\ j_status j = (if Z.of_nat n <? j_max_attempts j0 then RETRYING else DEAD_LETTERED)
    /\ w_broker (deliver_times sync tag m css n w) =
       foldl (fun b i =>
           send (follow_up (if Z.of_nat i <? j_max_attempts j0
                            then RetryAfter (calculateBackoffMs (Z.of_nat i)) msg
                            else Dead msg) jobId) b)
         (w_broker w) (seq 1 n).
Proof.
  intros ? ? ? ? ? ? ? ? Hn ? ? ?.
  destruct (deliver_times_failing lo hi sync tag m content jobId u j0 msg css w n)
    as [(j & Hj & Ha & _ & _ & Hst) Hb]; [done..|].
  assert (forall i, failing_outcome (j_max_attempts j0) msg i
    = if Z.of_nat i <? j_max_attempts j0 then RetryAfter (calculateBackoffMs (Z.of_nat i)) msg
      else Dead msg) as Ho.
  { intros i. unfold failing_outcome. cbn [decide_outcome].
    by rewrite Z.leb_antisym; destruct (Z.of_nat i <? j_max_attempts j0). }
  exists j. split; [done|]. split; [done|]. split.
  - destruct n as [|n]; [lia|]. rewrite Hst. unfold failing_outcome. cbn [decide_outcome].
    rewrite Z.leb_antisym. by destruct (Z.of_nat (S n) <? j_max_attempts j0).
  - rewrite Hb. clear -Ho. generalize (w_broker w), (seq 1 n). intros b l. revert b.
    induction l as [|i l IH]; intros b; [done|]. simpl. by rewrite Ho, IH.
Qed.
End handling.

(** ** Messages and delays *)

(** The body of a retry or dead-letter message, parsed again by the
    handler, gives back the very job id it was made of. *)
Theorem job_message_round_trip jobId :
  (forall v, jobId = Some v -> wf_json v = true) ->
  exists content, JSON_parse (job_message jobId) = Some content /\ message_job_id content = Ok jobId.
Proof.
  intros Hwf. unfold job_message. rewrite JSON_parse_stringify.
  - eexists. split; [done|]. destruct jobId as [v|]; [|done]. simpl. by rewrite ?String.eqb_refl.
  - destruct jobId as [v|]; [|done]. simpl. by rewrite (Hwf v).
Qed.

(** The retry delay starts at 2000 ms, doubles with each attempt up to a
    ceiling of 20000 ms, which it reaches exactly from the fifth attempt on, and
    never leaves that range. *)
Theorem retry_delay_doubles n :
  BASE_DELAY_MS <= calculateBackoffMs n <= MAX_DELAY_MS
  /\ calculateBackoffMs 1 = BASE_DELAY_MS
  /\ (1 <= n -> calculateBackoffMs (n + 1) = Z.min (2 * calculateBackoffMs n) MAX_DELAY_MS)
  /\ (calculateBackoffMs n = MAX_DELAY_MS <-> 5 <= n).
Proof.
  split; [apply calculateBackoffMs_range|]. split; [done|].
  split; [apply calculateBackoffMs_succ|apply calculateBackoffMs_ceiling].
Qed.

(** Before a message is requeued the handler waits between 1 and 30
    seconds: twice as long with each consecutive error, up to the ceiling. *)
Theorem requeue_delay_bounded n :
  1 <= n ->
  (computeDbErrorBackoffMs n ==
    inject_Z (Z.min (DB_ERROR_BASE_DELAY_MS * 2 ^ (n - 1)) DB_ERROR_MAX_DELAY_MS))%Q
  /\ (inject_Z DB_ERROR_BASE_DELAY_MS <= computeDbErrorBackoffMs n
      <= inject_Z DB_ERROR_MAX_DELAY_MS)%Q.
Proof.
  intros Hn. split; [by apply computeDbErrorBackoffMs_Z|by apply computeDbErrorBackoffMs_range].
Qed.

(** ** The properties, on concrete deliveries *)

Definition text_a : string := job_created_message uuid_a.

(** PostgreSQL is away: the claim throws.  The settlement, the fourth effect,
    reaches the channel. *)
Definition database_down (n : nat) : choice :=
  mkChoice 3000000 uuid_b ∅ 0%nat 0 true true
    (if (n =? 3)%nat then None else Some (true, mk_pg_error "57P01" "terminating connection")).

Definition queued_a : Job := sample_job uuid_a (JObj []) QUEUED 0 1000000.
Definition failing_a : Job :=
  sample_job uuid_a (JObj [("shouldFail", JBool true)]) QUEUED 0 1000000.
Definition processing_a : Job := sample_job uuid_a (JObj []) PROCESSING 1 2000000.

Lemma message_settled_once_witness :
  exists w' cs', run (on_message 0 (Some (1%nat, text_a))) database_down (sample_world queued_a text_a)
                 = (Ok tt, w', cs')
    /\ settles_once 1 (sample_world queued_a text_a) w'.
Proof.
  apply message_settled_once.
  - by eexists.
  - vm_compute. discriminate.
  - repeat first [split; [done|]]. vm_compute. tauto.
Defined.

Lemma null_message_not_settled_witness :
  exists e, run (on_message 0 (Some (1%nat, "null"))) (fun _ => calm 0 uuid_b) (sample_world queued_a "null")
            = (Err e, sample_world queued_a "null", fun _ => calm 0 uuid_b).
Proof. apply null_message_not_settled. vm_compute. reflexivity. Defined.

Lemma delivery_meets_specification_witness :
  exists w' cs', run (on_message 0 (Some (1%nat, text_a))) (fun _ => calm 3000000 uuid_b)
                   (sample_world failing_a text_a) = (Ok tt, w', cs')
    /\ delivered 3000000 3000000 1 (Some (JStr uuid_a)) uuid_a failing_a
         (sample_world failing_a text_a) w'.
Proof.
  apply delivery_meets_specification with (content := JObj [("jobId", JStr uuid_a)]).
  - vm_compute. reflexivity.
  - reflexivity.
  - vm_compute. reflexivity.
  - vm_compute. reflexivity.
  - reflexivity.
  - vm_compute. discriminate.
  - vm_compute. discriminate.
  - by eexists.
  - apply healthy_calm.
Defined.

Lemma unclaimable_delivery_ignored_witness :
  exists w' cs', run (on_message 0 (Some (1%nat, text_a))) (fun _ => calm 3000000 uuid_b)
                   (sample_world processing_a text_a) = (Ok tt, w', cs')
    /\ acknowledged 1 (sample_world processing_a text_a) w'.
Proof.
  apply unclaimable_delivery_ignored with (lo := 3000000) (hi := 3000000)
    (content := JObj [("jobId", JStr uuid_a)]) (jobId := Some (JStr uuid_a)).
  - vm_compute. reflexivity.
  - reflexivity.
  - intros u j Hu Hj. vm_compute in Hu. injection Hu as <-. vm_compute in Hj.
    injection Hj as <-. reflexivity.
  - by eexists.
  - apply healthy_calm.
Defined.

Lemma failing_job_retried_then_dead_lettered_witness :
  exists j, jobs (w_db (deliver_times 0 1 (mkMessage text_a true None)
                          (fun _ _ => calm 3000000 uuid_b) 5 (sample_world failing_a text_a))) !! uuid_a
            = Some j /\ j_status j = DEAD_LETTERED.
Proof.
  destruct (failing_job_retried_then_dead_lettered 3000000 3000000 0 1
    (mkMessage text_a true None) (JObj [("jobId", JStr uuid_a)]) (Some (JStr uuid_a)) uuid_a failing_a
    (match job_verdict failing_a with Fails m => m | _ => "" end)
    (fun _ _ => calm 3000000 uuid_b) (sample_world failing_a text_a) 5) as (j & Hj & _ & Hs & _).
  - vm_compute. reflexivity.
  - reflexivity.
  - vm_compute. reflexivity.
  - vm_compute. reflexivity.
  - reflexivity.
  - reflexivity.
  - vm_compute. reflexivity.
  - intros _. apply healthy_calm.
  - lia.
  - vm_compute. discriminate.
  - vm_compute. discriminate.
  - vm_compute. discriminate.
  - exists j. split; [exact Hj|exact Hs].
Defined.

Lemma job_message_round_trip_witness :
  exists content, JSON_parse (job_message (Some (JStr uuid_a))) = Some content
    /\ message_job_id content = Ok (Some (JStr uuid_a)).
Proof. apply job_message_round_trip. intros v [= <-]. reflexivity. Defined.

Lemma requeue_delay_bounded_witness :
  (computeDbErrorBackoffMs 6 ==
    inject_Z (Z.min (DB_ERROR_BASE_DELAY_MS * 2 ^ (6 - 1)) DB_ERROR_MAX_DELAY_MS))%Q
  /\ (inject_Z DB_ERROR_BASE_DELAY_MS <= computeDbErrorBackoffMs 6
      <= inject_Z DB_ERROR_MAX_DELAY_MS)%Q.
Proof. apply requeue_delay_bounded. lia. Defined.
