(* ===== verification/Dispatch.v ===== *)
(** * What the dispatcher does with a batch

    [dispatchOutboxBatch] of apps/api/src/outbox/dispatcher.ts: each claimed
    event is published and marked, or released for another attempt. *)
From S2P Require Import Prelude Json Postgres Amqp Programs Effects Worker Api Lifecycle Transactions Delivery Processing System RateLimiter Http Sample.
#[local] Open Scope stdpp_scope.

(** The row once it is published, or released after a failure. *)
Definition event_published (t : Z) (e : OutboxEvent) : OutboxEvent :=
  mkEvent (ev_id e) (ev_job_id e) (ev_created_at e) (ev_claimed_at e) (Some t)
    (ev_attempts e) (ev_last_error e).

Definition event_released (message : string) (e : OutboxEvent) : OutboxEvent :=
  mkEvent (ev_id e) (ev_job_id e) (ev_created_at e) None (ev_published_at e)
    (ev_attempts e + 1) (Some message).

Section dispatch.
Context `{Pg} {B : Type} `{Broker B}.
Implicit Types w : world B.

Definition announce (e : OutboxEvent) (b : B) : B :=
  publish EXCHANGE_NAME ROUTING_KEY (created_message (ev_job_id e)) b.

(** The rows of [l] updated by [U], the others as they were. *)
Definition rows_updated (U : OutboxEvent -> OutboxEvent -> Prop) (l : list OutboxEvent)
    (d d' : db) : Prop :=
  jobs d' = jobs d
  /\ (forall v, v ∉ ev_id <$> l -> outbox d' !! v = outbox d !! v)
  /\ (forall e, e ∈ l -> exists e', outbox d' !! ev_id e = Some e' /\ U e e').

(** The broker after each event of [l] in turn. *)
Fixpoint each (S : OutboxEvent -> B -> B -> Prop) (l : list OutboxEvent) (b b' : B) : Prop :=
  match l with
  | [] => b' = b
  | e :: l => exists b1, S e b b1 /\ each S l b1 b'
  end.

Lemma each_function (S : OutboxEvent -> B -> B) l b b' :
  each (fun e b b' => b' = S e b) l b b' -> b' = foldl (fun b e => S e b) b l.
Proof. revert b. induction l as [|e l IH]; intros b; [done|]. intros (b1 & -> & Hl). by apply IH. Qed.

Lemma each_same (S : OutboxEvent -> B -> B -> Prop) l b b' :
  (forall e b b', S e b b' -> b' = b) -> each S l b b' -> b' = b.
Proof.
  intros HS. revert b. induction l as [|e l IH]; intros b; [done|].
  intros (b1 & ->%HS & Hl). by apply IH.
Qed.

Definition rest_same w w' : Prop := w_tx w' = w_tx w /\ w_unacked w' = w_unacked w.

(** ** One event after the other *)

Section batch.
Variables (G : op -> choice -> Prop) (ok : bool).
Variables (U : OutboxEvent -> OutboxEvent -> Prop) (S : OutboxEvent -> B -> B -> Prop).
Variable good : OutboxEvent -> Prop.

Definition event_done (e : OutboxEvent) w w' : Prop :=
  exists e', U e e'
    /\ w_db w' = set_outbox (w_db w) (<[ev_id e := e']> (outbox (w_db w)))
    /\ S e (w_broker w) (w_broker w') /\ rest_same w w'.

Hypothesis one : forall e w,
  outbox (w_db w) !! ev_id e = Some e -> canonical (ev_id e) -> good e ->
  wp G (dispatch_event e) (fun r w' => r = Ok ok /\ event_done e w w') w.

Lemma wp_dispatch_events l pub fai w :
  NoDup (ev_id <$> l) ->
  (forall e, e ∈ l -> outbox (w_db w) !! ev_id e = Some e /\ canonical (ev_id e) /\ good e) ->
  wp G (dispatch_events l pub fai) (fun r w' =>
    r = Ok (if ok then (pub + Z.of_nat (List.length l), fai)
            else (pub, fai + Z.of_nat (List.length l)))
    /\ rows_updated U l (w_db w) (w_db w')
    /\ each S l (w_broker w) (w_broker w')
    /\ rest_same w w') w.
Proof.
  revert pub fai w. induction l as [|e l IH]; intros pub fai w Hnd Hl.
  - simpl. split; [destruct ok; do 2 f_equal; lia|]. split; [|by split].
    split; [done|]. split; [done|]. intros e He. by apply not_elem_of_nil in He.
  - apply NoDup_cons in Hnd as [Hfresh Hnd]. cbn [dispatch_events].
    destruct (Hl e) as (He & Hcan & Hgood); [left|].
    apply wp_bind. eapply wp_mono; [|by apply one].
    intros r w1 [-> (e' & HU & Hd & Hb & Htx & Hun)].
    assert (forall x, x ∈ l -> ev_id x <> ev_id e) as Hne.
    { intros x Hx Heq. apply Hfresh. rewrite <- Heq. by apply (list_elem_of_fmap_2 ev_id). }
    assert (forall x, x ∈ l -> outbox (w_db w1) !! ev_id x = Some x /\ canonical (ev_id x) /\ good x)
      as Hl1.
    { intros x Hx. rewrite Hd. simpl. rewrite lookup_insert_ne by (symmetry; by apply Hne).
      apply Hl. by right. }
    assert (forall w', rows_updated U l (w_db w1) (w_db w') ->
      rows_updated U (e :: l) (w_db w) (w_db w')) as Hrows.
    { intros w' (Hj' & Ho' & Hu'). rewrite Hd in Hj', Ho'. simpl in Hj', Ho'.
      split; [done|]. split.
      - intros v Hv. cbn [fmap list_fmap] in Hv. apply not_elem_of_cons in Hv as [Hv Hvl].
        rewrite Ho' by done. by rewrite lookup_insert_ne.
      - intros x Hx. apply elem_of_cons in Hx as [->|Hx]; [|by apply Hu'].
        exists e'. split; [|done]. rewrite Ho' by done. by rewrite lookup_insert_eq. }
    destruct ok; (eapply wp_mono; [|by apply IH]);
      intros r w' (-> & Hr & Hb' & Htx' & Hun');
      (split; [do 2 f_equal; cbn [List.length]; lia|]); (split; [by apply Hrows|]);
      (split; [by exists (w_broker w1)|]); split; congruence.
Qed.
End batch.

(** ** Everything works *)

Lemma wp_event_published lo hi e w :
  outbox (w_db w) !! ev_id e = Some e -> canonical (ev_id e) -> True ->
  wp (healthy lo hi) (dispatch_event e) (fun r w' => r = Ok true /\
    event_done (fun e e' => exists t, lo <= t <= hi /\ e' = event_published t e)
      (fun e b b' => b' = announce e b) e w w') w.
Proof.
  intros He Hcan _. unfold dispatch_event. apply wp_try_catch, wp_bind.
  unfold publishJobCreated. apply wp_idle; [done|]. intros _ w1 (Hd1 & Ht1 & Hb1 & Hu1).
  apply wp_healthy_publish. intros w2 Hd2 Ht2 Hb2 Hu2. cbn [wp holds].
  unfold markOutboxPublished. apply wp_healthy_query. intros c (_ & _ & _ & Hc).
  do 2 eexists. split.
  { simpl. unfold update_outbox_published, update_event, id_param. rewrite text_param_String.
    rewrite Hcan, Hd2, Hd1, He. done. }
  intros w3 Hd3 Ht3 Hb3 Hu3. split; [done|]. exists (event_published (ch_now c) e).
  split; [by eexists|]. split; [by rewrite Hd3|]. split; [by rewrite Hb3, Hb2, Hb1|].
  split; congruence.
Qed.

(** ** No message is accepted *)

(** The channel cannot be had or is closed, and throws one of [thrown]; or, if
    [full], its write buffer is full and [publish] returns [false], although the
    message is sent.  The database works. *)
Definition refusing (thrown : js_err -> Prop) (full : bool) : op -> choice -> Prop := fun o c =>
  match o with
  | GetChannel => forall x e, ch_fault c = Some (x, e) -> thrown e
  | Publish _ _ _ =>
      (exists x e, ch_fault c = Some (x, e) /\ thrown e)
      \/ full = true /\ ch_fault c = None /\ ch_published c = false
  | _ => ch_fault c = None
  end.

Definition buffer_full : js_err :=
  mk_error "Failed to publish job message: channel buffer full or closed".

Definition attempts_left (e : OutboxEvent) : Prop := ev_attempts e + 1 <= INT4_MAX.

Section refused.
Variables (thrown : js_err -> Prop) (full : bool).

(** Released, with what the code makes of the error. *)
Definition refused (e e' : OutboxEvent) : Prop :=
  exists err, (thrown err \/ full = true /\ err = buffer_full)
    /\ e' = event_released (dispatch_error_message err) e.

(** What the broker gets all the same. *)
Definition buffered (e : OutboxEvent) (b b' : B) : Prop :=
  b' = b \/ full = true /\ b' = announce e b.

Lemma wp_failed_event err e w :
  outbox (w_db w) !! ev_id e = Some e -> canonical (ev_id e) -> attempts_left e ->
  (thrown err \/ full = true /\ err = buffer_full) ->
  wp (refusing thrown full)
    (markOutboxFailed (ev_id e) (dispatch_error_message err) ;;; Ret false)
    (fun r w' => r = Ok false /\
      event_done refused (fun _ b b' => b' = b) e w w') w.
Proof.
  intros He Hcan Hatt Herr. unfold markOutboxFailed. apply wp_op. intros c Hc.
  unfold handle, effect. cbn [refusing] in Hc. rewrite Hc. cbn [infallible exec].
  unfold update_outbox_failed, update_event, id_param. rewrite text_param_String, Hcan, He.
  rewrite (proj2 (int4_succ_Some (ev_attempts e) (ev_attempts e + 1))) by done.
  cbn [wp holds]. split; [done|]. eexists. split; [by exists err|by split].
Qed.

Lemma wp_event_refused e w :
  outbox (w_db w) !! ev_id e = Some e -> canonical (ev_id e) -> attempts_left e ->
  wp (refusing thrown full) (dispatch_event e)
    (fun r w' => r = Ok false /\ event_done refused buffered e w w') w.
Proof.
  intros He Hcan Hatt. unfold dispatch_event.
  assert (forall err w1, thrown err \/ full = true /\ err = buffer_full ->
    w_db w1 = w_db w -> rest_same w w1 -> buffered e (w_broker w) (w_broker w1) ->
    wp (refusing thrown full)
      (markOutboxFailed (ev_id e) (dispatch_error_message err) ;;; Ret false)
      (fun r w' => r = Ok false /\ event_done refused buffered e w w') w1) as Hfail.
  { intros err w1 Herr Hd [Ht Hu] Hb. eapply wp_mono; [|apply (wp_failed_event err); try done; by rewrite Hd].
    intros r w2 [-> (e' & HU & Hd2 & Hb2 & Ht2 & Hu2)]. split; [done|]. exists e'.
    rewrite Hd2, Hb2, Hd. split; [done|]. split; [done|]. split; [done|]. split; congruence. }
  apply wp_try_catch, wp_bind. unfold publishJobCreated. apply wp_op. intros c0 Hc0.
  unfold handle, effect. cbn [infallible]. destruct (ch_fault c0) as [[x err]|] eqn:Hf0.
  { cbn [carried_out may_execute_and_fail]. rewrite andb_false_r.
    apply Hfail; [left; by eapply Hc0|done|done|by left]. }
  apply wp_op. intros c1 [(x & err & Hf1 & Hth)|(Hfull & Hf1 & Hp1)]; unfold handle, effect;
    cbn [infallible]; rewrite Hf1.
  { cbn [carried_out may_execute_and_fail]. rewrite andb_false_r.
    apply Hfail; [by left|done|done|by left]. }
  rewrite Hp1. cbn [wp holds]. apply (Hfail buffer_full); [by right|by destruct (ch_stored c1)
    |by destruct (ch_stored c1)|].
  destruct (ch_stored c1); [by right|by left].
Qed.
End refused.

(** ** The batch *)

(** The events that a claim takes, as they are after it and in the order of the
    answer. *)
Definition batch_at (c : choice) (d : db) : list OutboxEvent :=
  (update_claim_events (ch_order c) (ch_now c) (ch_locked c) BATCH_SIZE
     STALE_CLAIM_THRESHOLD_SECONDS d).1.

Lemma batch_rows c d e :
  wf_db d -> e ∈ batch_at c d ->
  let d1 := (update_claim_events (ch_order c) (ch_now c) (ch_locked c) BATCH_SIZE
               STALE_CLAIM_THRESHOLD_SECONDS d).2 in
  outbox d1 !! ev_id e = Some e /\ canonical (ev_id e).
Proof.
  intros Hwf He. simpl. split; [by apply claimed_known|].
  apply elem_of_claimed in He as (e0 & -> & Hin). cbn [ev_id claim_event].
  pose proof (pending_row _ _ _ _ _ _ _ Hwf Hin) as Hrow.
  by destruct (wf_events _ Hwf _ _ Hrow).
Qed.

Lemma batch_NoDup c d : wf_db d -> NoDup (ev_id <$> batch_at c d).
Proof. apply claimed_NoDup. Qed.

(** The rows outside the batch are those from before the claim. *)
Lemma rows_updated_claim U c d d' :
  wf_db d ->
  rows_updated U (batch_at c d)
    (update_claim_events (ch_order c) (ch_now c) (ch_locked c) BATCH_SIZE
       STALE_CLAIM_THRESHOLD_SECONDS d).2 d' ->
  rows_updated U (batch_at c d) d d'.
Proof.
  intros Hwf (Hj & Ho & HU). split; [done|]. split; [|done]. intros v Hv. rewrite Ho by done.
  rewrite claim_events_lookup by done. destruct (outbox d !! v) as [e|] eqn:He; [|done]. simpl.
  rewrite decide_False; [done|]. intros Hin. apply Hv, elem_of_claimed_ids.
  exists e. split; [|done]. by rewrite (event_id _ _ _ (wf_events _ Hwf v e He)).
Qed.

Lemma run_dispatch_batch (G : op -> choice -> Prop) (ok : bool)
    (U : OutboxEvent -> OutboxEvent -> Prop) (S : OutboxEvent -> B -> B -> Prop)
    (good : OutboxEvent -> Prop) w cs :
  conforms G dispatchOutboxBatch cs w -> (forall q c, G (Query q) c -> ch_fault c = None) ->
  (forall e w, outbox (w_db w) !! ev_id e = Some e -> canonical (ev_id e) -> good e ->
     wp G (dispatch_event e) (fun r w' => r = Ok ok /\ event_done U S e w w') w) ->
  wf_db (w_db w) -> (forall v e, outbox (w_db w) !! v = Some e -> good e) ->
  (forall now e, good e -> good (claim_event now e)) ->
  let l := batch_at (cs 0%nat) (w_db w) in
  let n := Z.of_nat (List.length l) in
  let '(r, w', _) := run dispatchOutboxBatch cs w in
  r = Ok (if ok then mkDispatch n n 0 else mkDispatch n 0 n)
  /\ rows_updated U l (w_db w) (w_db w')
  /\ each S l (w_broker w) (w_broker w')
  /\ rest_same w w'.
Proof.
  intros Hcs Hnf Hone Hwf Hgood Hclaim l n.
  pose proof (Hnf _ _ (proj1 Hcs)) as Hf0.
  unfold dispatchOutboxBatch, claimPendingOutboxEvents in *.
  apply (run_conforms G); [exact Hcs|]. unfold handle, effect. rewrite Hf0.
  unfold exec. rewrite (surjective_pairing (update_claim_events _ _ _ _ _ _)).
  fold (batch_at (cs 0%nat) (w_db w)). fold l. set (w1 := log_op _ _ _). apply wp_bind.
  eapply wp_mono; [|apply (wp_dispatch_events G ok U S good Hone l 0 0 w1); [by apply batch_NoDup|]].
  - intros r w' (-> & Hr & Hb & Ht & Hu). unfold n.
    split; [by destruct ok|]. split; [by apply rows_updated_claim|]. by split.
  - intros e He. destruct (batch_rows _ _ _ Hwf He) as [Hrow Hcan].
    split; [done|]. split; [done|]. apply elem_of_claimed in He as (e0 & -> & He0).
    apply Hclaim. eapply Hgood. by eapply pending_row.
Qed.

(** C17: when nothing fails, a batch publishes every event that it claimed, in
    order, one [job.created] message for its job each, marks exactly those
    events published, and counts them. *)
Theorem dispatch_publishes_batch lo hi w cs :
  wf_db (w_db w) -> within (healthy lo hi) cs ->
  let l := batch_at (cs 0%nat) (w_db w) in
  let n := Z.of_nat (List.length l) in
  exists w' cs', run dispatchOutboxBatch cs w = (Ok (mkDispatch n n 0), w', cs')
    /\ rows_updated (fun e e' => exists t, lo <= t <= hi /\ e' = event_published t e) l
         (w_db w) (w_db w')
    /\ w_broker w' = foldl (fun b e => announce e b) (w_broker w) l.
Proof.
  intros Hwf Hcs l n.
  assert (forall q c, healthy lo hi (Query q) c -> ch_fault c = None) as Hnf by (by intros q c (Hc & _)).
  pose proof (run_dispatch_batch (healthy lo hi) true _ _ (fun _ => True) w cs
    (within_conforms _ _ _ _ Hcs) Hnf
    (wp_event_published lo hi) Hwf (fun _ _ _ => I) (fun _ _ _ => I)) as Hrun.
  destruct (run _ cs w) as [[r w'] cs']. destruct Hrun as (-> & Hrows & Hb%each_function & _).
  by exists w', cs'.
Qed.

(** C18: when no channel is to be had, or it is closed and throws, or its buffer is
    full, a batch marks nothing as published and releases every event that it
    claimed: no longer claimed, one attempt more, with what the code makes of
    the error as the reason, so that the next batch may take it at once.  The
    broker gets nothing, but the announcements that a full buffer still sends. *)
Theorem dispatch_releases_batch thrown full w cs :
  wf_db (w_db w) -> (forall v e, outbox (w_db w) !! v = Some e -> ev_attempts e + 1 <= INT4_MAX) ->
  conforms (refusing thrown full) dispatchOutboxBatch cs w ->
  let l := batch_at (cs 0%nat) (w_db w) in
  let n := Z.of_nat (List.length l) in
  exists w' cs', run dispatchOutboxBatch cs w = (Ok (mkDispatch n 0 n), w', cs')
    /\ rows_updated (refused thrown full) l (w_db w) (w_db w')
    /\ each (buffered full) l (w_broker w) (w_broker w')
    /\ (full = false -> w_broker w' = w_broker w).
Proof.
  intros Hwf Hatt Hcs l n.
  pose proof (run_dispatch_batch (refusing thrown full) false _ _ attempts_left w cs Hcs
    (fun _ _ Hc => Hc) (wp_event_refused thrown full) Hwf Hatt (fun _ _ He => He)) as Hrun.
  destruct (run _ cs w) as [[r w'] cs']. destruct Hrun as (-> & Hrows & Hb & _).
  exists w', cs'. split; [done|]. split; [done|]. split; [done|]. intros ->.
  eapply each_same; [|exact Hb]. by intros e b b' [?|[? _]].
Qed.

(** ** Whatever fails *)

Lemma wp_dispatch_counts l pub fai w :
  wp any_choice (dispatch_events l pub fai) (fun r _ =>
    match r with
    | Ok (p, f) => pub <= p /\ fai <= f /\ p + f = pub + fai + Z.of_nat (List.length l)
    | Err _ => True
    end) w.
Proof.
  revert pub fai w. induction l as [|e l IH]; intros pub fai w; cbn [dispatch_events].
  - simpl. lia.
  - apply wp_bind. eapply wp_mono with (Q := fun _ _ => True).
    + intros [[]|] w' _; [| |done]; (eapply wp_mono; [|apply IH]);
        (intros [[p f]|] _; [|done]); cbn [List.length]; lia.
    + generalize (dispatch_event e) as p. intros p. revert w.
      induction p as [r|x|o k IHk]; intros w; simpl; [done..|].
      intros c _. destruct (perform c o w). apply IHk.
Qed.

(** Whatever fails, a batch that returns has counted each event that it
    attempted once, as published or as failed, and attempted at most ten. *)
Theorem dispatch_accounts_for_each_event w cs :
  match run dispatchOutboxBatch cs w with
  | (Ok r, _, _) => d_attempted r = d_published r + d_failed r
      /\ 0 <= d_published r /\ 0 <= d_failed r /\ d_attempted r <= Z.of_nat BATCH_SIZE
  | (Err _, _, _) => True
  end.
Proof.
  assert (wp any_choice dispatchOutboxBatch (fun r _ => match r with
    | Ok r => d_attempted r = d_published r + d_failed r
      /\ 0 <= d_published r /\ 0 <= d_failed r /\ d_attempted r <= Z.of_nat BATCH_SIZE
    | Err _ => True end) w) as Hwp.
  { unfold dispatchOutboxBatch, claimPendingOutboxEvents. apply wp_op. intros c _.
    destruct (handle c _ w) as [[l|e] w1] eqn:Hh; [|done].
    assert (List.length (l : list OutboxEvent) <= BATCH_SIZE)%nat as Hlen.
    { unfold handle, effect, exec in Hh. cbn [infallible] in Hh.
      destruct (ch_fault c) as [[b x]|]; [discriminate Hh|].
      rewrite (surjective_pairing (update_claim_events _ _ _ _ _ _)) in Hh. injection Hh as <- _.
      etrans; [apply Nat.eq_le_incl, length_claimed|apply length_pending]. }
    apply wp_bind. eapply wp_mono; [|apply wp_dispatch_counts].
    intros [[p f]|] w2; [|done]. cbn [wp holds fst snd d_attempted d_published d_failed]. lia. }
  apply (wp_run any_choice _ _ _ cs) in Hwp; [|done].
  destruct (run _ cs w) as [[[r|e] w'] cs']; done.
Qed.
End dispatch.

(** ** The properties, on concrete tables *)

Definition two_events : world Queues.t :=
  mkWorld (mkDb {[ uuid_a := sample_job uuid_a (JObj []) QUEUED 0 1000000;
                   uuid_b := sample_job uuid_b (JObj []) QUEUED 0 1000000 ]}
                {[ uuid_e := sample_event uuid_e uuid_b 2000000;
                   uuid_f := sample_event uuid_f uuid_a 1000000 ]})
    None (Amqp.declared worker_topology) ∅ 0 [].

Lemma two_events_wf : wf_db (w_db two_events).
Proof.
  split.
  - apply map_Forall_insert_2; [|apply map_Forall_singleton];
      (apply sample_row_ok; [reflexivity|unfold INT4_MAX; lia|done]).
  - apply map_Forall_insert_2; [|apply map_Forall_singleton];
      (apply sample_event_ok; [reflexivity|vm_compute; by eexists]).
Qed.

Lemma dispatch_publishes_batch_witness :
  let l := batch_at (calm 9000000 uuid_b) (w_db two_events) in
  let n := Z.of_nat (List.length l) in
  exists w' cs', run dispatchOutboxBatch (fun _ => calm 9000000 uuid_b) two_events
      = (Ok (mkDispatch n n 0), w', cs')
    /\ rows_updated (fun e e' => exists t, 9000000 <= t <= 9000000 /\ e' = event_published t e) l
         (w_db two_events) (w_db w')
    /\ w_broker w' = foldl (fun b e => announce e b) (w_broker two_events) l.
Proof.
  apply (dispatch_publishes_batch 9000000 9000000 two_events (fun _ => calm 9000000 uuid_b)).
  - apply two_events_wf.
  - apply healthy_calm.
Defined.

(** The connection is lost: [amqp.connect] is refused for the first event, and
    then a channel that has just been closed throws. *)
Definition unreachable : js_err := JsErr CError "Error" "connect ECONNREFUSED" (Some "ECONNREFUSED") [].

Definition lost_connection (n : nat) : choice :=
  mkChoice 9000000 uuid_b ∅ 0%nat 0 true true
    match n with 1%nat => Some (false, unreachable) | 4%nat => Some (false, channel_closed) | _ => None end.

Lemma dispatch_releases_batch_witness :
  let thrown e := e = unreachable \/ e = channel_closed in
  let l := batch_at (lost_connection 0) (w_db two_events) in
  let n := Z.of_nat (List.length l) in
  exists w' cs', run dispatchOutboxBatch lost_connection two_events = (Ok (mkDispatch n 0 n), w', cs')
    /\ rows_updated (refused thrown false) l (w_db two_events) (w_db w')
    /\ w_broker w' = w_broker two_events.
Proof.
  destruct (dispatch_releases_batch (fun e => e = unreachable \/ e = channel_closed) false
    two_events lost_connection) as (w' & cs' & Hr & Hrows & _ & Hb).
  - apply two_events_wf.
  - intros v e He. cbn [two_events w_db outbox] in He.
    apply lookup_insert_Some in He as [[_ <-]|[_ He]]; [discriminate|].
    apply lookup_singleton_Some in He as [_ <-]. discriminate.
  - vm_compute. repeat split; try discriminate; try (intros ? ? [= <- <-]; tauto).
    left. do 2 eexists. split; [reflexivity|]. by right.
  - exists w', cs'. split; [exact Hr|]. split; [exact Hrows|]. by apply Hb.
Defined.
