(* ===== verification/Endpoints.v ===== *)
(** * Properties of the HTTP endpoints

    Who gets through to the two routes that change state, and what the tables
    hold after each answer. *)
From stdpp Require Import pretty.
From S2P Require Import Prelude Json Postgres Amqp Programs Effects Worker Api Lifecycle Transactions Processing RateLimiter Http Sample.
#[local] Open Scope stdpp_scope.

Section endpoints.
Context `{Pg} `{!Zod} {N : Type} `{Number N} {B : Type} `{Broker B}.
Implicit Types w : world B.
Variable env : Env.

(** ** Before the handlers *)

Lemma requireApiKey_refuses key req :
  API_KEY env = Some key -> key <> "" -> rq_header req API_KEY_HEADER <> Some key ->
  requireApiKey env req = Some unauthorized.
Proof.
  intros Hk Hne Hreq. unfold requireApiKey. rewrite Hk.
  destruct (String.eqb_spec key ""); [done|].
  destruct (rq_header req API_KEY_HEADER) as [p|]; [|done].
  destruct (String.eqb_spec p key); [by subst|]. by rewrite andb_false_r.
Qed.

(** A process that was allowed to start in production has an API key, and
    answers every POST that does not carry exactly this key with 401, before
    it touches the database, the broker or the caller's token bucket. *)
Theorem production_posts_need_key (l : limiter N) :
  NODE_ENV env = "production" -> missing_in_production env = [] ->
  exists key, API_KEY env = Some key /\ key <> "" /\
    forall req nowMs buckets, rq_header req API_KEY_HEADER <> Some key ->
      POST_jobs env l req nowMs buckets = (Ret unauthorized, buckets)
      /\ POST_replay env l req nowMs buckets = (Ret unauthorized, buckets)
      /\ status unauthorized = 401.
Proof.
  intros Hp Hm. unfold missing_in_production in Hm. rewrite Hp in Hm. simpl in Hm.
  destruct (API_KEY env) as [key|] eqn:Hk; [|done]. exists key. split; [done|].
  assert (key <> "") as Hne by (intros ->; done). split; [done|].
  intros req nowMs buckets Hreq. unfold POST_jobs, POST_replay, limited.
  by rewrite (requireApiKey_refuses key req).
Qed.

(** A request that the limiter does not admit is answered with 429 and a
    Retry-After header, on both POST routes, without any effect but on its own
    bucket. *)
Theorem limited_posts_have_no_effect (l : limiter N) req nowMs buckets r buckets' :
  requireApiKey env req = None ->
  rateLimiter l (defaultIdentify env req) nowMs buckets = (Some r, buckets') ->
  POST_jobs env l req nowMs buckets = (Ret (of_reply r), buckets')
  /\ POST_replay env l req nowMs buckets = (Ret (of_reply r), buckets')
  /\ status (of_reply r) = 429 /\ (exists s, headers (of_reply r) = [("Retry-After", s)])
  /\ (forall key, key <> defaultIdentify env req -> buckets' !! key = buckets !! key).
Proof.
  intros Hkey Hr. unfold POST_jobs, POST_replay, limited. rewrite Hkey, Hr.
  split; [done|]. split; [done|]. unfold rateLimiter, getOrRefillBucket in Hr.
  destruct (buckets !! defaultIdentify env req); cbn beta iota zeta in Hr;
    repeat case_match; simplify_eq; (split; [done|]); (split; [by eexists|]);
    intros key Hk; by rewrite lookup_insert_ne by done.
Qed.

(** ** The handlers *)

(** A program that only reads: the tables are as before, whatever fails. *)
Definition db_kept {R} w : res js_err R -> world B -> Prop := fun _ w' =>
  w_db w' = w_db w /\ w_tx w' = w_tx w /\ same_rest w w'.

Definition read_only (s : stmt) : bool :=
  match s with
  | SGetJobById _ | SListRecentJobs | SCountPending | SStats | SJobChangesSince _ | SNow | SSelectOne => true
  | _ => false
  end.

Lemma handle_read c s w :
  read_only s = true -> let '(x, w') := handle c (Query s) w in
  w_db w' = w_db w /\ w_tx w' = w_tx w /\ same_rest w w'
  /\ forall rows, x = Ok rows -> exec c s (w_db w) = Ok (rows, w_db w).
Proof.
  intros Hs. unfold handle, effect, same_rest. simpl.
  destruct s; try done; simpl;
    try (destruct (ch_fault c) as [[[] e]|]; simpl; repeat split; by intros ? [= <-]).
  destruct (select_job_by_id id (w_db w)) as [[r d]|e] eqn:He;
    [apply select_job_same in He as ->|]; destruct (ch_fault c) as [[[] e']|]; simpl;
    repeat split; by intros ? [= <-].
Qed.

Lemma wp_read {R} G s (f : stmt_rows s -> async R) Q w :
  read_only s = true ->
  (forall c rows w', exec c s (w_db w) = Ok (rows, w_db w) ->
     w_db w' = w_db w -> w_tx w' = w_tx w -> same_rest w w' -> wp G (f rows) Q w') ->
  (forall e w', w_db w' = w_db w -> w_tx w' = w_tx w -> same_rest w w' -> Q (Err e) w') ->
  wp G (bind (await (Query s)) f) Q w.
Proof.
  intros Hs Hok Herr. apply wp_op. intros c _. pose proof (handle_read c s w Hs) as Hh.
  destruct (handle c (Query s) w) as [[r|e] w']; destruct Hh as (Hd & Ht & Hr & Hx);
    [by eapply Hok; [apply Hx|..]|by apply Herr].
Qed.

(** What POST /api/jobs answers, and what the tables are then. *)
Definition job_posted (req : request) w (r : res js_err response) (w' : world B) : Prop :=
  exists resp, r = Ok resp /\ same_rest w w' /\ w_tx w' = None /\
    ((status resp = 201 /\ exists input job,
        in_type input <> "" /\ job_created input (w_db w) job (w_db w')
        /\ resp = json_response 201 [("jobId", JStr (j_id job)); ("status", JStr "QUEUED")])
     \/ (status resp = 500 /\ (w_db w' = w_db w
          \/ exists input job, in_type input <> "" /\ job_created input (w_db w) job (w_db w')))
     \/ (status resp ∈ [400; 401; 429; 503] /\ w_db w' = w_db w)).

Lemma valid_input data v :
  safeParse createJobSchema v = Ok data -> in_type (as_input data) <> "".
Proof.
  intros Hp. apply zod_object in Hp as (l & l' & -> & -> & Hm).
  - destruct (Hm "type" (ZStringMin 1 "type is required")) as (x & Hx & Hg); [left|].
    apply zod_nonempty in Hx as (s & _ & Hs & ->). unfold as_input. rewrite Hg. done.
  - repeat constructor; set_solver.
Qed.

(** The errors that are left to the error handler. *)
Lemma wp_with_error_handler G (p : async response) (Q : res js_err response -> world B -> Prop) w :
  wp G p (fun r w' => match r with
    | Ok a => Q (Ok a) w'
    | Err e => Q (Ok (internal_error env e)) w' end) w ->
  wp G (with_error_handler env p) Q w.
Proof. intros Hp. apply wp_try_catch. eapply wp_mono; [|exact Hp]. by intros [|] ?. Qed.

Lemma wp_post_job req w w1 :
  w_db w1 = w_db w -> w_tx w1 = None -> same_rest w w1 ->
  wp canonical_uuids (post_job req) (fun r w' => match r with
    | Ok a => job_posted req w (Ok a) w'
    | Err e => job_posted req w (Ok (internal_error env e)) w' end) w1.
Proof.
  intros Hd Ht Hr. unfold post_job.
  destruct (safeParse createJobSchema (rq_body req)) as [data|details] eqn:Hp.
  - pose proof (valid_input _ _ Hp) as Hin. apply wp_bind.
    eapply wp_mono; [|by apply wp_createJob]. intros r w2 (Ht2 & Hr2 & Hd2).
    rewrite Hd in Hd2. assert (same_rest w w2) as Hrest by by eapply same_rest_trans.
    destruct r as [job|e].
    + cbn [wp holds]. eexists. split; [done|]. split; [done|]. split; [done|]. left. split; [done|].
      exists (as_input data), job. split; [done|]. split; [done|].
      by destruct Hd2 as (u & v & t & t' & _ & _ & _ & _ & -> & _).
    + eexists. split; [done|]. split; [done|]. split; [done|]. right. left. split; [done|].
      unfold all_or_nothing in Hd2. rewrite Hd in Hd2.
      destruct Hd2 as [Hd2|[job Hd2]]; [by left|right; by exists (as_input data), job].
  - cbn [wp holds]. eexists. split; [done|]. split; [done|]. split; [done|]. right. right.
    split; [set_solver|done].
Qed.

(** C15: whatever fails, POST /api/jobs answers; after a 201 the job of the
    answer is in the table, QUEUED, with a non-empty type and a pending outbox
    event; after a 500 the tables hold such a pair or are as before; after any
    other answer (400, 401, 429, 503) they are as before. *)
Theorem post_jobs_answers l req nowMs buckets w cs :
  w_tx w = None -> within canonical_uuids cs ->
  exists r w' cs', run (POST_jobs (N := N) env l req nowMs buckets).1 cs w = (r, w', cs')
    /\ job_posted req w r w'.
Proof.
  intros Ht Hcs.
  assert (wp canonical_uuids (POST_jobs env l req nowMs buckets).1 (job_posted req w) w) as Hwp.
  { unfold POST_jobs, limited. unfold requireApiKey.
    assert (job_posted req w (Ok unauthorized) w) as H401.
    { eexists. split; [done|]. split; [apply same_rest_refl|]. split; [done|]. right. right.
      split; [set_solver|done]. }
    set (ok := rateLimiter l (defaultIdentify env req) nowMs buckets).
    assert (wp canonical_uuids (match ok with
      | (Some r, b) => (Ret (of_reply r), b)
      | (None, b) => (with_error_handler env (let! r := backpressure env in
           match r with Some r => Ret r | None => post_job req end), b) end).1
      (job_posted req w) w) as Hok.
    { destruct ok as [[r|] b] eqn:Hr; cbn [fst].
      - eexists. split; [done|]. split; [apply same_rest_refl|]. split; [done|]. right. right.
        split; [|done]. unfold ok, rateLimiter in Hr.
        destruct (getOrRefillBucket _ _ _ _), (num_leb _ _); simplify_eq. cbn. set_solver.
      - apply wp_with_error_handler, wp_bind. unfold backpressure, getStats. apply wp_bind.
        apply wp_read; [done| |].
        + intros _ rows w1 _ Hd1 Ht1 Hr1. rewrite Ht in Ht1. destruct (head rows) as [row|].
          * cbn [wp holds]. destruct (_ <? _).
            -- eexists. split; [done|]. split; [done|]. split; [done|]. right. right.
               split; [set_solver|done].
            -- by apply wp_post_job.
          * eexists. split; [done|]. split; [done|]. split; [done|]. right. left. by auto.
        + intros e w1 Hd1 Ht1 Hr1. rewrite Ht in Ht1. eexists.
          split; [done|]. split; [done|]. split; [done|]. right. left. by auto. }
    repeat case_match; simplify_eq; first [exact Hok | exact H401]. }
  apply (wp_run _ _ _ _ _ Hcs) in Hwp. destruct (run _ cs w) as [[r w'] cs']. by exists r, w', cs'.
Qed.

(** What POST /api/jobs/:id/replay answers, and what the tables are then. *)
Definition replay_posted (req : request) w (r : res js_err response) (w' : world B) : Prop :=
  exists resp, r = Ok resp /\ same_rest w w' /\ w_tx w' = None /\
    ((status resp = 200 /\ exists job,
        job_replayed (rq_id req) (w_db w) (Some job) (w_db w')
        /\ resp = json_response 200 [("jobId", JStr (j_id job)); ("status", JStr "QUEUED");
                                     ("replayCount", json_number (j_replay_count job))])
     \/ (status resp = 500 /\ (w_db w' = w_db w
          \/ exists job, job_replayed (rq_id req) (w_db w) (Some job) (w_db w')))
     \/ (w_db w' = w_db w /\
         match status resp with
         | 404 => forall u, uuid_in (rq_id req) = Some u -> jobs (w_db w) !! u = None
         | 409 => exists u j, uuid_in (rq_id req) = Some u /\ jobs (w_db w) !! u = Some j
                    /\ j_status j <> DEAD_LETTERED
         | 401 => requireApiKey env req = Some unauthorized
         | 400 | 429 => True
         | _ => False
         end)).

Lemma requireApiKey_unauthorized req r : requireApiKey env req = Some r -> r = unauthorized.
Proof. unfold requireApiKey. intros Hr. by repeat case_match; simplify_eq. Qed.

Lemma wp_replay_rejected req w w1 :
  w_db w1 = w_db w -> w_tx w1 = None -> same_rest w w1 ->
  (forall u j, uuid_in (rq_id req) = Some u -> jobs (w_db w) !! u = Some j ->
     j_status j <> DEAD_LETTERED) ->
  wp canonical_uuids
    (let! current := api_getJobById (rq_id req) in
     match current with
     | None => Ret job_not_found
     | Some current =>
         Ret (json_response 409 [("error", JStr "Job is not in a replayable state");
                                 ("currentStatus", JStr (status_text (j_status current)))])
     end)
    (fun r w' => match r with
      | Ok a => replay_posted req w (Ok a) w'
      | Err e => replay_posted req w (Ok (internal_error env e)) w' end) w1.
Proof.
  intros Hd Ht Hr Hno. apply wp_bind. unfold api_getJobById. apply wp_read; [done| |].
  - intros c rows w2 Hx Hd2 Ht2 Hr2. rewrite Ht in Ht2. rewrite Hd in Hd2, Hx.
    assert (same_rest w w2) as Hr2' by by eapply same_rest_trans.
    cbn [exec] in Hx. unfold select_job_by_id, id_param in Hx. rewrite text_param_String in Hx.
    destruct (uuid_in (rq_id req)) as [u|] eqn:Hu; [|done]. injection Hx as Hx.
    destruct (jobs (w_db w) !! u) as [j|] eqn:Hj; subst rows; cbn [head wp holds].
    + eexists. split; [done|]. split; [done|]. split; [done|]. right. right.
      split; [done|]. simpl. exists u, j. rewrite Hu. split; [done|]. split; [done|]. by eapply Hno.
    + eexists. split; [done|]. split; [done|]. split; [done|]. right. right.
      split; [done|]. simpl. intros u' Hu'. rewrite Hu in Hu'. by injection Hu' as <-.
  - intros e w2 Hd2 Ht2 Hr2. eexists. split; [done|].
    split; [by eapply same_rest_trans|]. split; [congruence|]. right. left.
    split; [done|]. left. congruence.
Qed.

Lemma wp_post_replay req w :
  w_tx w = None -> wf_db (w_db w) ->
  wp canonical_uuids (post_replay env req) (fun r w' => match r with
    | Ok a => replay_posted req w (Ok a) w'
    | Err e => replay_posted req w (Ok (internal_error env e)) w' end) w.
Proof.
  intros Ht Hwf. unfold post_replay.
  destruct (safeParse jobIdParamSchema (Some (JStr (rq_id req)))) as [data|details] eqn:Hp.
  2: { cbn [wp holds]. eexists. split; [done|]. split; [done|]. split; [done|]. right. right. by split. }
  apply zod_uuid in Hp as (s & [= <-] & -> & _). cbn [as_id]. apply wp_bind.
  eapply wp_mono with (Q := fun r w1 => is_ok r = true /\ w_db w1 = w_db w /\ w_tx w1 = None
    /\ same_rest w w1).
  2: { destruct (0 <? REPLAY_TEST_DELAY_MS env); [|by cbn].
       apply wp_op_last. intros c _. unfold handle, effect. cbn.
       by destruct (ch_fault c) as [[[] e]|]. }
  intros [[]|e] w1 (Hok & Hd1 & Ht1 & Hr1); [|done]. rewrite <- Hd1 in Hwf. apply wp_bind.
  eapply wp_mono; [|by apply wp_claimReplay]. intros r w2 (Ht2 & Hr2 & Hd2).
  assert (same_rest w w2) as Hr2' by by eapply same_rest_trans.
  destruct r as [[job|]|e].
  - rewrite Hd1 in Hd2. cbn [wp holds]. eexists. split; [done|]. split; [done|]. split; [done|]. left. split; [done|].
    exists job. split; [done|]. by destruct Hd2 as (u & v & j & t & t' & _ & _ & _ & _ & _ & _ & -> & _).
  - rewrite Hd1 in Hd2. destruct Hd2 as [Hd2 Hno]. by apply wp_replay_rejected.
  - eexists. split; [done|]. split; [done|]. split; [done|]. right. left. split; [done|].
    unfold all_or_nothing in Hd2. rewrite Hd1 in Hd2.
    destruct Hd2 as [Hd2|[[job|] Hd2]]; [by left|right; by exists job|left; by destruct Hd2].
Qed.

Lemma wp_POST_replay l req nowMs buckets w :
  w_tx w = None -> wf_db (w_db w) ->
  wp canonical_uuids (POST_replay (N := N) env l req nowMs buckets).1 (replay_posted req w) w.
Proof.
  intros Ht Hwf. unfold POST_replay, limited. destruct (requireApiKey env req) as [r|] eqn:Hk.
  - apply requireApiKey_unauthorized in Hk as Hr. subst r. eexists.
    split; [done|]. split; [apply same_rest_refl|]. split; [done|]. right. right. by split.
  - destruct (rateLimiter l (defaultIdentify env req) nowMs buckets) as [[r|] b] eqn:Hr; cbn [fst];
      [|by apply wp_with_error_handler, wp_post_replay].
    eexists. split; [done|]. split; [apply same_rest_refl|]. split; [done|]. right. right.
    split; [done|]. unfold rateLimiter in Hr.
    destruct (getOrRefillBucket _ _ _ _), (num_leb _ _); simplify_eq. done.
Qed.

(** C16: whatever fails, POST /api/jobs/:id/replay answers; after a 200 the
    dead-lettered job of that id is QUEUED again with a pending outbox event;
    after a 500 that is so or the tables are as before; after any other answer
    they are as before, a 404 means that there is no job of that id, a 409 that
    its job is not dead-lettered, and a 401 that the key was refused. *)
Theorem post_replay_answers l req nowMs buckets w cs :
  w_tx w = None -> wf_db (w_db w) -> within canonical_uuids cs ->
  exists r w' cs', run (POST_replay (N := N) env l req nowMs buckets).1 cs w = (r, w', cs')
    /\ replay_posted req w r w'.
Proof.
  intros Ht Hwf Hcs. pose proof (wp_POST_replay l req nowMs buckets w Ht Hwf) as Hwp.
  apply (wp_run _ _ _ _ _ Hcs) in Hwp. destruct (run _ cs w) as [[r w'] cs']. by exists r, w', cs'.
Qed.

(** Backpressure lets a job creation through exactly when the pending
    outbox events are at most the threshold; above it the answer is 503 with
    Retry-After, and nothing has changed. *)
Theorem backpressure_by_pending_events lo hi w cs :
  within (healthy lo hi) cs ->
  exists r w' cs', run (backpressure env) cs w = (Ok r, w', cs') /\ w_db w' = w_db w
    /\ (r = None <-> count_pending (w_db w) <= BACKPRESSURE_THRESHOLD env)
    /\ (forall resp, r = Some resp -> status resp = 503 /\ headers resp = [("Retry-After", "5")]).
Proof.
  intros Hcs.
  assert (wp (healthy lo hi) (backpressure env) (fun r w' => exists x, r = Ok x
    /\ w_db w' = w_db w
    /\ (x = None <-> count_pending (w_db w) <= BACKPRESSURE_THRESHOLD env)
    /\ (forall resp, x = Some resp -> status resp = 503 /\ headers resp = [("Retry-After", "5")])) w)
    as Hwp.
  { unfold backpressure, getStats. apply wp_bind, wp_healthy_query. intros c _. do 2 eexists.
    split; [done|]. intros w' Hd _ _ _. cbn [head wp holds pendingOutboxEvents].
    change (pending_outbox_events (select_stats (w_db w))) with (count_pending (w_db w)).
    destruct (BACKPRESSURE_THRESHOLD env <? count_pending (w_db w)) eqn:Hlt; cbn [wp holds].
    - apply Z.ltb_lt in Hlt. eexists. split; [done|]. split; [done|].
      split; [split; [done|lia]|]. by intros resp [= <-].
    - apply Z.ltb_ge in Hlt. eexists. split; [done|]. split; [done|]. by split. }
  apply (wp_run _ _ _ _ _ Hcs) in Hwp. destruct (run _ cs w) as [[r w'] cs'].
  destruct Hwp as (x & -> & Hwp). by exists x, w', cs'.
Qed.
End endpoints.

(** ** The CORS allowlist *)

(** An origin as it may stand in the list: no comma, no white space, not empty. *)
Fixpoint plain_origin (s : string) : bool :=
  match s with
  | String a s' => negb (Ascii.eqb a (Ascii.ascii_of_nat 44)) && negb (is_space a) && plain_origin s'
  | EmptyString => true
  end.

Definition comma : string := String (Ascii.ascii_of_nat 44) EmptyString.

(** The configured value, from the list of origins. *)
Fixpoint origins_text (l : list string) : string :=
  match l with
  | [] => ""
  | [x] => x
  | x :: r => x +:+ comma +:+ origins_text r
  end.

Lemma split_plain x : plain_origin x = true -> split_commas x = [x].
Proof.
  induction x as [|a x IH]; [done|]. simpl. intros Hp.
  apply andb_true_iff in Hp as [Ha Hp]. apply andb_true_iff in Ha as [Ha _].
  apply negb_true_iff in Ha. rewrite Ha, IH by done. done.
Qed.

Lemma split_plain_comma x rest :
  plain_origin x = true -> split_commas (x +:+ comma +:+ rest) = x :: split_commas rest.
Proof.
  induction x as [|a x IH]; intros Hp; [done|]. cbn [plain_origin] in Hp.
  apply andb_true_iff in Hp as [Ha Hp]. apply andb_true_iff in Ha as [Ha _].
  apply negb_true_iff in Ha. change (String a x +:+ comma +:+ rest) with
    (String a (x +:+ comma +:+ rest)). cbn [split_commas]. by rewrite Ha, IH.
Qed.

Lemma split_origins l :
  l <> [] -> Forall (fun x => plain_origin x = true) l -> split_commas (origins_text l) = l.
Proof.
  intros Hne Hl. induction Hl as [|x l Hx Hl IH]; [done|].
  destruct l as [|y l]; [by apply split_plain|].
  change (origins_text (x :: y :: l)) with (x +:+ comma +:+ origins_text (y :: l)).
  rewrite split_plain_comma by done. by rewrite IH.
Qed.

Lemma trim_plain x : plain_origin x = true -> trim x = x.
Proof.
  assert (forall y, plain_origin y = true -> trim_right y = y) as Hr.
  { induction y as [|a y IH]; [done|]. cbn [plain_origin trim_right]. intros Hp.
    apply andb_true_iff in Hp as [Ha Hp]. apply andb_true_iff in Ha as [_ Ha].
    apply negb_true_iff in Ha. rewrite IH by done. destruct y; [by rewrite Ha|done]. }
  intros Hp. unfold trim. destruct x as [|a x]; [done|]. pose proof (Hr _ Hp) as Ht.
  cbn [plain_origin] in Hp. apply andb_true_iff in Hp as [Ha _].
  apply andb_true_iff in Ha as [_ Ha]. apply negb_true_iff in Ha. cbn [trim_left]. by rewrite Ha.
Qed.

(** With a configured list of origins, a cross-origin request is allowed
      exactly when its origin is one of the list; with none configured, no
      cross-origin request is. *)
Theorem cors_allows_listed_origins env l o :
  (CORS_ALLOWED_ORIGINS env = None /\ l = []
   \/ CORS_ALLOWED_ORIGINS env = Some (origins_text l) /\ l <> []) ->
  Forall (fun x => plain_origin x = true /\ x <> "") l -> o <> "" ->
  cors_origin env (Some o) = true <-> o ∈ l.
Proof.
  intros Henv Hl Ho. unfold cors_origin. destruct (String.eqb_spec o ""); [done|].
  assert (allowedOrigins env = l) as ->.
  { unfold allowedOrigins. destruct Henv as [[-> ->]|[-> Hne]]; [done|].
    assert (origins_text l <> "") as Htext.
    { destruct l as [|x [|y l]]; [done| |].
      - by apply Forall_cons in Hl as [[_ Hx] _].
      - apply Forall_cons in Hl as [[_ Hx] _]. by destruct x. }
    destruct (String.eqb_spec (origins_text l) ""); [done|].
    rewrite split_origins; [|done|by eapply Forall_impl; [exact Hl|intros x []]].
    clear -Hl. induction Hl as [|x l [Hx Hne] Hl IH]; [done|]. cbn [fmap list_fmap List.filter].
    rewrite trim_plain by done. destruct (String.eqb_spec x ""); [done|]. cbn [negb]. by rewrite IH. }
  rewrite existsb_exists. split.
  - intros (x & Hx & He). apply String.eqb_eq in He as ->. by apply list_elem_of_In.
  - intros Hx. exists o. split; [by apply list_elem_of_In|apply String.eqb_refl].
Qed.

(** ** The properties, on concrete requests *)

Definition sample_env : Env :=
  mkEnv "production" 0 100 60 50 (Some "operator-key")
    (Some (origins_text ["https://a.example"; "https://b.example"])).

Definition open_limiter : limiter Q := mkLimiter 2%Q (1 # 30)%Q.

Definition with_key (key : string) (body : option json) (id : string) : request :=
  mkRequest (fun h => if String.eqb h "x-api-key" then Some key else None) (Some "10.0.0.1") body id.

Definition good_body : option json :=
  Some (JObj [("type", JStr "email"); ("payload", JObj [])]).

Definition posting : request := with_key "operator-key" good_body uuid_a.

Lemma production_posts_need_key_witness :
  exists key, API_KEY sample_env = Some key /\ key <> "" /\
    forall req nowMs buckets, rq_header req API_KEY_HEADER <> Some key ->
      POST_jobs sample_env open_limiter req nowMs buckets = (Ret unauthorized, buckets)
      /\ POST_replay sample_env open_limiter req nowMs buckets = (Ret unauthorized, buckets)
      /\ status unauthorized = 401.
Proof. apply (production_posts_need_key sample_env open_limiter); reflexivity. Defined.

Definition drained : gmap string (Bucket Q) := {[ "10.0.0.1" := mkBucket (1 # 2)%Q 0%Q ]}.

Lemma limited_posts_have_no_effect_witness :
  exists r buckets',
    POST_jobs sample_env open_limiter posting 0%Q drained = (Ret (of_reply r), buckets')
    /\ status (of_reply r) = 429.
Proof.
  eexists _, _. edestruct (limited_posts_have_no_effect sample_env open_limiter posting 0%Q drained)
    as (Hp & _ & Hs & _); [reflexivity|reflexivity|]. split; [exact Hp|exact Hs].
Defined.

Definition request_choices (n : nat) : choice :=
  calm 3000000 (if (n <=? 3)%nat then uuid_b else uuid_e).

Lemma request_choices_canonical : within canonical_uuids request_choices.
Proof. intros n o. unfold canonical_uuids, request_choices. by destruct (n <=? 3)%nat. Qed.

Lemma post_jobs_answers_witness :
  exists r w' cs', run (POST_jobs sample_env open_limiter posting 0%Q ∅).1 request_choices (one_job_world dead_a)
                   = (r, w', cs') /\ job_posted posting (one_job_world dead_a) r w'.
Proof. apply post_jobs_answers; [reflexivity|apply request_choices_canonical]. Defined.

Lemma post_replay_answers_witness :
  exists r w' cs', run (POST_replay sample_env open_limiter posting 0%Q ∅).1 request_choices (one_job_world dead_a)
                   = (r, w', cs') /\ replay_posted sample_env posting (one_job_world dead_a) r w'.
Proof.
  apply post_replay_answers; [reflexivity|apply dead_a_wf|apply request_choices_canonical].
Defined.

Lemma backpressure_by_pending_events_witness :
  exists r w' cs', run (backpressure sample_env) (fun _ => calm 3000000 uuid_b) (one_job_world dead_a)
                   = (Ok r, w', cs') /\ w_db w' = w_db (one_job_world dead_a)
    /\ (r = None <-> count_pending (w_db (one_job_world dead_a)) <= BACKPRESSURE_THRESHOLD sample_env)
    /\ (forall resp, r = Some resp -> status resp = 503 /\ headers resp = [("Retry-After", "5")]).
Proof.
  apply (backpressure_by_pending_events sample_env 3000000 3000000). apply healthy_calm.
Defined.

Lemma cors_allows_listed_origins_witness :
  cors_origin sample_env (Some "https://b.example") = true
  <-> "https://b.example" ∈ ["https://a.example"; "https://b.example"].
Proof.
  apply cors_allows_listed_origins.
  - right. split; [reflexivity|discriminate].
  - repeat constructor; discriminate.
  - discriminate.
Defined.
