(* ===== verification/Limits.v ===== *)
(** * Properties of the rate limiter

    Bounds on what a client can get through, with exact numbers; and what the
    rounding of doubles does to them. *)
From Stdlib Require Import SpecFloat.
From S2P Require Import Prelude Json RateLimiter.
#[local] Open Scope stdpp_scope.

Section exact.
Local Open Scope Q_scope.
Variable l : limiter Q.

Lemma rateLimiter_last key t m r m' b :
  rateLimiter l key t m = (r, m') -> m' !! key = Some b ->
  t <= lastRefillMs b /\
  (lastRefillMs b = t \/ exists b0, m !! key = Some b0 /\ lastRefillMs b = lastRefillMs b0).
Proof.
  intros Hr Hb. unfold rateLimiter, getOrRefillBucket in Hr.
  destruct (m !! key) as [b0|].
  - destruct (num_ltb (num_of_Z 0) (num_sub t (lastRefillMs b0))) eqn:Hlt;
      destruct (num_leb (num_of_Z 1) (tokens _)); injection Hr as <- <-;
      rewrite lookup_insert_eq in Hb; injection Hb as <-; cbn [lastRefillMs].
    1-2: split; [lra|by left].
    all: apply exact_ltb_false in Hlt; cbn [num_of_Z num_sub RateLimiter.exact] in Hlt;
      change (inject_Z 0) with 0 in Hlt; split; [lra|right; by exists b0].
  - destruct (num_leb (num_of_Z 1) (tokens _)); injection Hr as <- <-;
      rewrite lookup_insert_eq in Hb; injection Hb as <-; cbn [lastRefillMs]; split; [lra|by left|lra|by left].
Qed.

(** With exact numbers, of any number of requests of one client between
    the instants [t0] and [t1], in any order of the clock, no more pass than
    the capacity plus what [t1 - t0] refills. *)
Theorem burst_bounded key t0 t1 rs m passed m' :
  0 < refillTokensPerMs l -> 1 <= lim_capacity l -> buckets_ok l m -> t0 <= t1 ->
  (forall b, m !! key = Some b -> lastRefillMs b <= t1) ->
  Forall (fun r => r.1 = key /\ t0 <= r.2 /\ r.2 <= t1) rs ->
  requests l rs m = (passed, m') ->
  inject_Z (passed_count passed) <= lim_capacity l + (t1 - t0) * refillTokensPerMs l.
Proof.
  intros Hrate Hcap Hm Ht Hlast Hrs Hr. assert (0 < lim_capacity l) as Hpos by lra.
  assert (0 <= (t1 - t0) * refillTokensPerMs l) as H0 by (apply Qmult_le_0_compat; lra).
  destruct rs as [|[k t] rs]; simpl in Hr.
  { injection Hr as <- _. change (inject_Z (passed_count [])) with 0. lra. }
  apply Forall_cons in Hrs as [(Hk & Ht0 & Ht1) Hrs]. simpl in Hk, Ht0, Ht1. subst k.
  destruct (rateLimiter l key t m) as [r m1] eqn:Hr1.
  destruct (requests l rs m1) as [p m2] eqn:Hr2. injection Hr as <- <-.
  pose proof (rateLimiter_ok l Hpos Hrate _ _ _ _ _ Hcap Hm Hr1) as Hm1.
  assert (exists b1, m1 !! key = Some b1 /\ tokens b1 + spent r <= lim_capacity l) as (b1 & Hb1 & Hcap1).
  { unfold rateLimiter in Hr1. destruct (getOrRefillBucket l key t m) as [b m3] eqn:Hg.
    destruct (refill_spec l Hpos Hrate _ _ _ _ _ Hm Hg) as (-> & [_ Hb] & _).
    destruct (num_leb (num_of_Z 1) (tokens b)); injection Hr1 as <- <-;
      rewrite lookup_insert_eq; eexists; (split; [done|]); unfold spent; cbn;
      change (inject_Z 1) with 1; lra. }
  destruct (rateLimiter_last _ _ _ _ _ _ Hr1 Hb1) as [Hge Hor].
  assert (lastRefillMs b1 <= t1) as Hb1t.
  { destruct Hor as [->|(b0 & Hb0 & ->)]; [done|by apply Hlast]. }
  assert (Forall (fun r => r.1 = key /\ r.2 <= t1) rs) as Hrs'.
  { eapply Forall_impl; [exact Hrs|]. by intros x (? & _ & ?). }
  pose proof (requests_spend l Hpos Hrate key t1 rs m1 p m2 b1 Hcap Hm1 Hb1 Hb1t Hrs' Hr2) as Hp.
  assert ((t1 - lastRefillMs b1) * refillTokensPerMs l <= (t1 - t0) * refillTokensPerMs l) as Hmono
    by (apply Qmult_le_compat_r; lra).
  assert (inject_Z (passed_count ((match r with None => true | Some _ => false end) :: p))
          == inject_Z (passed_count p) + spent r) as ->.
  { unfold passed_count, spent. destruct r; simpl; [ring|].
    rewrite ?Zpos_P_of_succ_nat, ?Nat2Z.inj_succ. unfold Z.succ. rewrite inject_Z_plus.
    change (inject_Z 1) with 1. ring. }
  lra.
Qed.

(** With exact numbers, a client that is refused and then waits the
    seconds of Retry-After, without another request, is admitted. *)
Theorem retry_after_sufficient key t m r m' bucket seconds :
  0 < refillTokensPerMs l -> 1 <= lim_capacity l -> buckets_ok l m ->
  rateLimiter l key t m = (Some r, m') -> m' !! key = Some bucket ->
  lastRefillMs bucket <= t -> seconds == retryAfterSeconds l bucket ->
  (rateLimiter l key (t + 1000 * seconds) m').1 = None.
Proof. intros ? ? ? ? ? ? ?. eapply retry_after_enough; eauto. lra. Qed.

(** With exact numbers every request keeps all buckets between empty and
    full, and leaves those of other clients alone. *)
Theorem buckets_bounded_and_separate key key' t m r m' :
  0 < refillTokensPerMs l -> 1 <= lim_capacity l -> buckets_ok l m ->
  rateLimiter l key t m = (r, m') ->
  buckets_ok l m' /\ (key' <> key -> m' !! key' = m !! key').
Proof.
  intros Hrate Hcap Hm Hr. split; [|intros Hne; by eapply rateLimiter_others].
  eapply rateLimiter_ok; eauto. lra.
Qed.

(** ** The reference: the generic cell rate algorithm *)

(** Per client the theoretical arrival time, at which its bucket is full again,
    and the latest time seen: a request passes unless the former is too far
    ahead.  One token is worth [/ refillTokensPerMs] milliseconds. *)
Definition gcra (t : Q) (state : option (Q * Q)) : bool * (Q * Q) :=
  let '(tat, clock) :=
    match state with
    | None => (t, t)
    | Some (tat, clock) => (tat, if num_ltb clock t then t else clock)
    end in
  let T := / refillTokensPerMs l in
  let tat := Qmax tat clock in
  if Qle_bool (tat + T) (clock + lim_capacity l * T) then (true, (tat + T, clock))
  else (false, (tat, clock)).

Fixpoint gcra_requests (rs : list (string * Q)) (states : gmap string (Q * Q)) : list bool :=
  match rs with
  | [] => []
  | (key, t) :: rs =>
      let '(pass, state) := gcra t (states !! key) in
      pass :: gcra_requests rs (<[key := state]> states)
  end.

(** A bucket and the state of the reference. *)
Definition same_client (b : Bucket Q) (state : Q * Q) : Prop :=
  lastRefillMs b = state.2 /\ state.2 <= state.1
  /\ tokens b == lim_capacity l - (state.1 - state.2) * refillTokensPerMs l.

Lemma token_in_time d :
  0 < refillTokensPerMs l ->
  1 <= lim_capacity l - d * refillTokensPerMs l
  <-> d + / refillTokensPerMs l <= lim_capacity l * / refillTokensPerMs l.
Proof.
  intros Hr. rewrite <- (Qmult_le_r (d + _) _ _ Hr).
  assert ((d + / refillTokensPerMs l) * refillTokensPerMs l == d * refillTokensPerMs l + 1) as ->
    by (field; lra).
  assert (lim_capacity l * / refillTokensPerMs l * refillTokensPerMs l == lim_capacity l) as ->
    by (field; lra).
  split; intros; lra.
Qed.

(** The refilled bucket, and the reference's view of it. *)
Lemma refill_same key t m b m' state :
  0 < refillTokensPerMs l ->
  match m !! key, state with
  | None, None => True
  | Some b0, Some st => same_client b0 st
  | _, _ => False
  end ->
  getOrRefillBucket l key t m = (b, m') ->
  m' = <[key := b]> m /\
  let '(tat, clock) :=
    match state with
    | None => (t, t)
    | Some (tat, clock) => (tat, if num_ltb clock t then t else clock)
    end in
  same_client b (Qmax tat clock, clock).
Proof.
  intros Hr Hst. unfold getOrRefillBucket.
  destruct (m !! key) as [b0|], state as [[tat clock]|]; try done.
  - destruct Hst as (Hl & Hle & Htok). cbn [fst snd] in *. rewrite Hl.
    assert (num_ltb (num_of_Z 0) (num_sub t clock) = num_ltb clock t) as ->.
    { apply eq_true_iff_eq. rewrite !exact_ltb. cbn. change (inject_Z 0) with 0. split; lra. }
    destruct (num_ltb clock t) eqn:Hlt; intros [= <- <-]; (split; [done|]);
      unfold same_client; cbn [fst snd tokens lastRefillMs].
    + apply exact_ltb in Hlt. split; [done|].
      assert ((t - clock) * refillTokensPerMs l - (tat - clock) * refillTokensPerMs l
              == (t - tat) * refillTokensPerMs l) as Hd by ring.
      cbn [num_min num_add num_mul num_sub RateLimiter.exact].
      destruct (Qlt_le_dec t tat) as [Ht|Ht].
      * assert (0 <= (tat - t) * refillTokensPerMs l) by (apply Qmult_le_0_compat; lra).
        assert (Qmax tat t == tat) as Hm by (apply Q.max_l; lra).
        split; [rewrite Hm; lra|]. rewrite Hm, Q.min_r; lra.
      * assert (0 <= (t - tat) * refillTokensPerMs l) by (apply Qmult_le_0_compat; lra).
        assert (Qmax tat t == t) as Hm by (apply Q.max_r; lra).
        split; [rewrite Hm; lra|]. rewrite Hm, Q.min_l; lra.
    + assert (Qmax tat clock == tat) as Hm by (apply Q.max_l; lra).
      split; [done|]. rewrite Hm. by split.
  - intros [= <- <-]. split; [done|]. unfold same_client. cbn [fst snd tokens lastRefillMs].
    assert (Qmax t t == t) as Hm by (apply Q.max_l; lra). split; [done|]. rewrite Hm. split; lra.
Qed.

Definition same_clients (m : gmap string (Bucket Q)) (states : gmap string (Q * Q)) : Prop :=
  forall key, match m !! key, states !! key with
         | None, None => True
         | Some b, Some st => same_client b st
         | _, _ => False
         end.

Lemma same_clients_insert key b st m states :
  same_client b st -> same_clients m states -> same_clients (<[key := b]> m) (<[key := st]> states).
Proof.
  intros Hb Hm key'. destruct (decide (key' = key)) as [->|];
    [rewrite !lookup_insert_eq; exact Hb|rewrite !lookup_insert_ne by done; apply Hm].
Qed.

Lemma rateLimiter_gcra key t m r m' states pass state :
  0 < refillTokensPerMs l -> same_clients m states ->
  rateLimiter l key t m = (r, m') -> gcra t (states !! key) = (pass, state) ->
  pass = match r with None => true | Some _ => false end
  /\ same_clients m' (<[key := state]> states).
Proof.
  intros Hr Hm. unfold rateLimiter, gcra.
  destruct (getOrRefillBucket l key t m) as [b m1] eqn:Hg.
  destruct (refill_same _ _ _ _ _ _ Hr (Hm key) Hg) as [-> Hsame].
  destruct (match states !! key with
            | Some (tat, clock) => (tat, if num_ltb clock t then t else clock)
            | None => (t, t) end) as [tat clock].
  destruct Hsame as (Hl & Hle & Htok). cbn [fst snd] in *.
  pose proof (token_in_time (Qmax tat clock - clock) Hr) as Hadmit. rewrite <- Htok in Hadmit.
  assert (num_leb (num_of_Z 1) (tokens b)
          = Qle_bool (Qmax tat clock + / refillTokensPerMs l)
              (clock + lim_capacity l * / refillTokensPerMs l)) as ->.
  { apply eq_true_iff_eq. rewrite exact_leb, Qle_bool_iff. cbn. change (inject_Z 1) with 1.
    rewrite Hadmit. split; lra. }
  destruct (Qle_bool _ _); intros [= <- <-] [= <- <-]; (split; [done|]).
  - rewrite insert_insert_eq. apply same_clients_insert; [|done].
    split; [done|]. cbn [fst snd tokens num_sub num_of_Z RateLimiter.exact].
    change (inject_Z 1) with 1. pose proof (Qinv_lt_0_compat _ Hr). split; [lra|].
    assert (/ refillTokensPerMs l * refillTokensPerMs l == 1) as Hone by (field; lra).
    rewrite Htok. lra.
  - by apply same_clients_insert.
Qed.

Lemma requests_gcra rs m states :
  0 < refillTokensPerMs l -> same_clients m states -> (requests l rs m).1 = gcra_requests rs states.
Proof.
  intros Hr. revert m states. induction rs as [|[key t] rs IH]; intros m states Hm; [done|]. simpl.
  destruct (rateLimiter l key t m) as [r m1] eqn:Hl, (gcra t (states !! key)) as [pass st] eqn:Hg.
  destruct (rateLimiter_gcra _ _ _ _ _ _ _ _ Hr Hm Hl Hg) as [-> Hm1].
  specialize (IH m1 _ Hm1). destruct (requests l rs m1). simpl in *. by rewrite IH.
Qed.

(** C37: with exact numbers the token buckets admit exactly the requests that
    the generic cell rate algorithm admits, which keeps no tokens and refills
    nothing, for any sequence of requests of any clients and any order of the
    clock. *)
Theorem buckets_are_gcra rs :
  0 < refillTokensPerMs l -> (requests l rs ∅).1 = gcra_requests rs ∅.
Proof. intros Hr. apply requests_gcra; [done|]. intros key. by rewrite !lookup_empty. Qed.
End exact.

(** ** Doubles *)

#[local] Existing Instance Double.doubles.

Definition double_limiter (capacity window : Z) : res js_err (limiter spec_float) :=
  createRateLimiter (mkOptions (Double.of_Z capacity) (Double.of_Z window)).

(** With the default limits and doubles, a client may send 100 requests at
    once; the next one, at the same time, is refused for one second. *)
Theorem default_burst :
  exists l, double_limiter 100 60 = Ok l /\
    let t := Double.of_Z 1700000000000 in
    let '(passed, buckets) := requests l (replicate 100 ("client", t)) ∅ in
    passed = replicate 100 true
    /\ exists r, (rateLimiter l "client" t buckets).1 = Some r
        /\ r_status r = 429 /\ r_headers r = [("Retry-After", "1")].
Proof.
  eexists. split; [vm_compute; reflexivity|]. vm_compute. split; [reflexivity|].
  eexists. split; [reflexivity|]. split; reflexivity.
Qed.

(** With doubles Retry-After may be too short: for one request per 11
    seconds, a client that is refused is told 11 seconds, waits 11 seconds, and
    is refused again, because 11000 times the rounded rate is below 1. *)
Theorem retry_after_rounding :
  exists l, double_limiter 1 11 = Ok l /\
    let '(r1, m1) := rateLimiter l "client" (Double.of_Z 0) ∅ in
    let '(r2, m2) := rateLimiter l "client" (Double.of_Z 0) m1 in
    let '(r3, m3) := rateLimiter l "client" (Double.of_Z 11000) m2 in
    r1 = None
    /\ (exists r, r2 = Some r /\ r_headers r = [("Retry-After", "11")])
    /\ (exists r, r3 = Some r /\ r_status r = 429).
Proof.
  eexists. split; [vm_compute; reflexivity|]. vm_compute. split; [reflexivity|].
  split; eexists; (split; [reflexivity|reflexivity]).
Qed.

(** ** The properties, on a limiter of 2 requests per minute *)

Definition two_per_minute : limiter Q := mkLimiter 2%Q (1 # 30000)%Q.

Definition client_requests : list (string * Q) :=
  [("client", 0%Q); ("client", 10%Q); ("client", 20%Q); ("client", 5%Q)].

Lemma no_buckets_ok l : buckets_ok l ∅.
Proof. apply map_Forall_empty. Qed.

Lemma burst_bounded_witness :
  exists passed m', requests two_per_minute client_requests ∅ = (passed, m')
    /\ (inject_Z (passed_count passed) <= 2 + (60000 - 0) * (1 # 30000))%Q.
Proof.
  destruct (requests two_per_minute client_requests ∅) as [passed m'] eqn:Hr.
  exists passed, m'. split; [reflexivity|].
  apply (burst_bounded two_per_minute "client" 0 60000 client_requests ∅ passed m').
  - reflexivity.
  - discriminate.
  - apply no_buckets_ok.
  - discriminate.
  - intros b Hb. discriminate Hb.
  - repeat constructor; discriminate.
  - exact Hr.
Defined.

Lemma buckets_are_gcra_witness :
  gcra_requests two_per_minute client_requests ∅ = [true; true; false; false]
  /\ (requests two_per_minute client_requests ∅).1 = gcra_requests two_per_minute client_requests ∅.
Proof.
  split; [vm_compute; reflexivity|]. apply (buckets_are_gcra two_per_minute client_requests). reflexivity.
Defined.

Definition one_per_minute : limiter Q := mkLimiter 1%Q (1 # 60000)%Q.
Definition spent_bucket : Bucket Q := mkBucket 0%Q 0%Q.

Lemma retry_after_sufficient_witness :
  (rateLimiter one_per_minute "client" (0 + 1000 * retryAfterSeconds one_per_minute spent_bucket)%Q
     {[ "client" := spent_bucket ]}).1 = None.
Proof.
  eapply (retry_after_sufficient one_per_minute "client" 0%Q {[ "client" := spent_bucket ]}
    _ {[ "client" := spent_bucket ]} spent_bucket (retryAfterSeconds one_per_minute spent_bucket)).
  - reflexivity.
  - discriminate.
  - apply map_Forall_singleton. unfold bucket_ok. simpl. lra.
  - vm_compute. reflexivity.
  - reflexivity.
  - discriminate.
  - reflexivity.
Defined.

Lemma buckets_bounded_and_separate_witness :
  exists r m', rateLimiter one_per_minute "client" 0%Q {[ "client" := spent_bucket ]} = (r, m')
    /\ buckets_ok one_per_minute m'.
Proof.
  eexists _, _. split; [reflexivity|].
  eapply (buckets_bounded_and_separate one_per_minute "client" "other" 0%Q {[ "client" := spent_bucket ]}).
  - reflexivity.
  - discriminate.
  - apply map_Forall_singleton. unfold bucket_ok. simpl. lra.
  - reflexivity.
Defined.
