(* ===== verification/Notifications.v ===== *)
(** * Properties of the change poller *)
From S2P Require Import Prelude Json Postgres Amqp Programs Effects Worker Api Lifecycle Processing RateLimiter Http Poller Sample.
#[local] Open Scope stdpp_scope.

Section notifications.
Context `{Pg} {B : Type} `{Broker B}.
Implicit Types w : world B.

Lemma wp_poll lo hi clients cursor w :
  wp (healthy lo hi) (poll_tick clients cursor) (fun r w' => w_db w' = w_db w /\
    exists order, let l := changed_rows order cursor (w_db w) in
    r = Ok (match last l with
            | Some change => date_of (j_updated_at change)
            | None => cursor
            end,
            l ≫= (fun j => broadcast clients (change_event (change_columns j))))) w.
Proof.
  unfold poll_tick, getJobChangesSince. apply wp_try_catch, wp_healthy_query.
  intros c _. do 2 eexists. split; [done|]. intros w' Hd _ _ _. split; [done|]. exists (ch_order c).
  cbn zeta. unfold select_job_changes. rewrite fmap_last, list_fmap_bind.
  by destruct (last (changed_rows _ _ _)).
Qed.

(** What a tick over the table [d] reports, and the cursor it leaves. *)
Record reported (clients : list ws_client) (cursor : Z) (d : db) (cursor' : Z)
    (sent : list (nat * JobUpdatedEvent)) : Prop := {
  all_sent u j c : jobs d !! u = Some j -> cursor * 1000 < j_updated_at j ->
    c ∈ clients -> c_open c = true -> (c_name c, change_event (change_columns j)) ∈ sent;
  only_changes name ev : (name, ev) ∈ sent ->
    exists u j c, jobs d !! u = Some j /\ cursor * 1000 < j_updated_at j
      /\ c ∈ clients /\ c_open c = true /\ name = c_name c /\ ev = change_event (change_columns j);
  cursor_forward : cursor <= cursor';
  cursor_latest u j : jobs d !! u = Some j -> date_of (j_updated_at j) <= cursor';
  cursor_of_change : cursor' = cursor \/
    exists u j, jobs d !! u = Some j /\ cursor' = date_of (j_updated_at j) }.

Lemma elem_of_sent clients l name ev :
  (name, ev) ∈ (l ≫= fun j => broadcast clients (change_event (change_columns j))) <->
  exists j c, j ∈ l /\ c ∈ clients /\ c_open c = true /\ name = c_name c /\ ev = change_event (change_columns j).
Proof.
  rewrite list_elem_of_bind. unfold broadcast. setoid_rewrite list_elem_of_fmap.
  setoid_rewrite list_elem_of_In. setoid_rewrite filter_In. split.
  - intros (j & (c & [= -> ->] & Hc & Ho) & Hj). by exists j, c.
  - intros (j & c & Hj & Hc & Ho & -> & ->). exists j. split; [|done]. by exists c.
Qed.

Lemma run_poll lo hi clients cursor w cs :
  within (healthy lo hi) cs ->
  exists cursor' sent w' cs', run (poll_tick clients cursor) cs w = (Ok (cursor', sent), w', cs')
    /\ reported clients cursor (w_db w) cursor' sent.
Proof.
  intros Hcs. pose proof (wp_run _ _ _ _ _ Hcs (wp_poll lo hi clients cursor w)) as Hwp.
  destruct (run _ cs w) as [[r w'] cs']. destruct Hwp as [_ (order & ->)].
  do 4 eexists. split; [done|]. pose proof (elem_of_changes order cursor (w_db w)) as Hin.
  pose proof (last_change order cursor (w_db w)) as Hlast.
  set (l := changed_rows order cursor (w_db w)) in *. split.
  - intros u j c Hj Hc Hcl Ho. apply elem_of_sent. exists j, c. rewrite Hin. eauto 10.
  - intros name ev (j & c & [(u & Hj) Hc]%Hin & Hr)%elem_of_sent. by exists u, j, c.
  - destruct (last l) as [x|]; [|lia]. destruct (Hlast x eq_refl) as [[_ Hx]%Hin _].
    apply Z.div_le_lower_bound; lia.
  - intros u j Hj. unfold date_of. destruct (Z.lt_ge_cases (cursor * 1000) (j_updated_at j)) as [Hc|Hc].
    + assert (j ∈ l) as Hjl by (apply Hin; eauto). destruct (last l) as [x|] eqn:Hx.
      * apply Z.div_le_mono; [lia|]. by apply (Hlast x eq_refl).
      * apply last_None in Hx. rewrite Hx in Hjl. by apply not_elem_of_nil in Hjl.
    + etrans; [apply (Z.div_le_upper_bound _ _ cursor); lia|].
      destruct (last l) as [x|]; [|done]. destruct (Hlast x eq_refl) as [[_ Hx]%Hin _].
      apply Z.div_le_lower_bound; lia.
  - destruct (last l) as [x|]; [|by left]. right.
    destruct (Hlast x eq_refl) as [[(u & Hu) _]%Hin _]. by exists u, x.
Qed.

(** A tick that reaches the database tells every connected client of every
    job that changed after the cursor, and nothing else, and moves the cursor to
    the millisecond of the last change: no change in the table is later. *)
Theorem tick_reports_all_changes lo hi clients cursor w cs :
  within (healthy lo hi) cs ->
  exists cursor' sent w' cs', run (poll_tick clients cursor) cs w = (Ok (cursor', sent), w', cs')
    /\ reported clients cursor (w_db w) cursor' sent.
Proof. apply run_poll. Qed.

(** The last change of a tick is reported again by the next tick, and the
    cursor does not move past it, when nothing else changed in between: the
    cursor has lost the microseconds of the row, unless they are zero. *)
Theorem last_change_reported_again lo hi clients cursor w cs w2 cs2 u j :
  within (healthy lo hi) cs -> within (healthy lo hi) cs2 -> w_db w2 = w_db w ->
  jobs (w_db w) !! u = Some j -> cursor * 1000 < j_updated_at j ->
  (forall v k, jobs (w_db w) !! v = Some k -> j_updated_at k <= j_updated_at j) ->
  (j_updated_at j) mod 1000 <> 0 ->
  exists cursor' sent w' cs' sent2 w2' cs2',
    run (poll_tick clients cursor) cs w = (Ok (cursor', sent), w', cs')
    /\ run (poll_tick clients cursor') cs2 w2 = (Ok (cursor', sent2), w2', cs2')
    /\ forall c, c ∈ clients -> c_open c = true ->
         (c_name c, change_event (change_columns j)) ∈ sent /\ (c_name c, change_event (change_columns j)) ∈ sent2.
Proof.
  intros Hcs Hcs2 Hdb Hj Hc Hmax Hm.
  destruct (run_poll lo hi clients cursor w cs Hcs) as (c1 & sent & w' & cs' & Hrun & Hr).
  destruct (run_poll lo hi clients c1 w2 cs2 Hcs2) as (c2 & sent2 & w2' & cs2' & Hrun2 & Hr2).
  rewrite Hdb in Hr2. pose proof (Z.div_mod (j_updated_at j) 1000 ltac:(lia)) as Hdm.
  pose proof (Z.mod_pos_bound (j_updated_at j) 1000 ltac:(lia)) as Hb.
  assert (forall v k, jobs (w_db w) !! v = Some k -> date_of (j_updated_at k) <= date_of (j_updated_at j))
    as Hdate by (intros v k Hk; apply Z.div_le_mono; [lia|by eapply Hmax]).
  assert (c1 = date_of (j_updated_at j)) as Hc1.
  { pose proof (cursor_latest _ _ _ _ _ Hr u j Hj). destruct (cursor_of_change _ _ _ _ _ Hr)
      as [->|(v & k & Hk & ->)]; [|specialize (Hdate v k Hk); lia].
    assert (cursor <= date_of (j_updated_at j)) by (apply Z.div_le_lower_bound; lia). lia. }
  assert (c2 = c1) as ->.
  { pose proof (cursor_forward _ _ _ _ _ Hr2). destruct (cursor_of_change _ _ _ _ _ Hr2)
      as [->|(v & k & Hk & ->)]; [done|specialize (Hdate v k Hk); lia]. }
  exists c1, sent, w', cs', sent2, w2', cs2'. split; [done|]. split; [done|]. intros c Hcl Ho.
  split; [by eapply (all_sent _ _ _ _ _ Hr)|]. eapply (all_sent _ _ _ _ _ Hr2); [done| |done..].
  unfold date_of in Hc1. lia.
Qed.
End notifications.

(** ** The properties, on one job *)

Definition changed_job : Job := sample_job uuid_a (JObj []) QUEUED 0 1000500.
Definition changed_world : world Queues.t := one_job_world changed_job.

Lemma tick_reports_all_changes_witness :
  exists cursor' sent w' cs',
    run (poll_tick [mkClient 1 true] 0) (fun _ => calm 2000000 uuid_b) changed_world
      = (Ok (cursor', sent), w', cs')
    /\ reported [mkClient 1 true] 0 (w_db changed_world) cursor' sent.
Proof. apply (tick_reports_all_changes 2000000 2000000). apply healthy_calm. Defined.

Lemma last_change_reported_again_witness :
  exists cursor' sent w' cs' sent2 w2' cs2',
    run (poll_tick [mkClient 1 true] 0) (fun _ => calm 2000000 uuid_b) changed_world
      = (Ok (cursor', sent), w', cs')
    /\ run (poll_tick [mkClient 1 true] cursor') (fun _ => calm 2000000 uuid_b) changed_world
      = (Ok (cursor', sent2), w2', cs2')
    /\ forall c, c ∈ [mkClient 1 true] -> c_open c = true ->
         (c_name c, change_event (change_columns changed_job)) ∈ sent
         /\ (c_name c, change_event (change_columns changed_job)) ∈ sent2.
Proof.
  apply (last_change_reported_again 2000000 2000000 [mkClient 1 true] 0 changed_world _ _ _ uuid_a).
  - apply healthy_calm.
  - apply healthy_calm.
  - reflexivity.
  - reflexivity.
  - reflexivity.
  - intros v k Hk. change (({[ uuid_a := changed_job ]} : gmap string Job) !! v = Some k) in Hk.
    apply lookup_singleton_Some in Hk as [_ <-]. reflexivity.
  - discriminate.
Defined.
