(* ===== verification/Polling.v ===== *)
(** * The change poller as a process

    [startChangePoller] of apps/api/src/ws/changePoller.ts with its interval: a
    tick is a query whose answer comes later, so ticks may overlap, fail, and go
    on after [stop()]; the cursor that a tick asks with is the one of its start.
    Meanwhile other processes commit changes. *)
From S2P Require Import Prelude Json Postgres Amqp Programs Effects Worker Api Lifecycle RateLimiter Http Poller Sample.
#[local] Open Scope stdpp_scope.

(** A tick that waits: the query has not been executed, or it was, on the table
    [snapshot], and its rows are on their way. *)
Inductive tick :=
| Asked (since : Z)
| Answered (order : nat) (since : Z) (snapshot : db).

Record poller := mkPoller {
  p_db : db;
  p_cursor : Z;
  p_active : bool;                       (* the interval is not cleared *)
  p_ticks : gmap nat tick;
  p_told : list (list ws_client * JobChange)   (* the changes broadcast, and to whom *)
}.

Definition set_ticks (m : gmap nat tick) (s : poller) : poller :=
  mkPoller (p_db s) (p_cursor s) (p_active s) m (p_told s).

(** The interval's callback up to the query. *)
Definition tick_start (t : nat) (s : poller) : poller :=
  set_ticks (<[t := Asked (p_cursor s)]> (p_ticks s)) s.

Definition tick_query (t order : nat) (since : Z) (s : poller) : poller :=
  set_ticks (<[t := Answered order since (p_db s)]> (p_ticks s)) s.

(** What follows the query: the broadcasts, and the cursor. *)
Definition tick_end `{Pg} (t : nat) (changes : list JobChange) (clients : list ws_client) (s : poller)
  : poller :=
  mkPoller (p_db s)
    (match last changes with
     | Some change => date_of (jc_updated_at change)
     | None => p_cursor s
     end)
    (p_active s) (delete t (p_ticks s))
    (p_told s ++ ((fun change => (clients, change)) <$> changes)).

Definition tick_failed (t : nat) (s : poller) : poller := set_ticks (delete t (p_ticks s)) s.

(** [stop()] *)
Definition stop (s : poller) : poller :=
  mkPoller (p_db s) (p_cursor s) false (p_ticks s) (p_told s).

Definition committed_db (d : db) (s : poller) : poller :=
  mkPoller d (p_cursor s) (p_active s) (p_ticks s) (p_told s).

(** The cursor of [getStartupCursor] when the database's clock says [now]. *)
Definition poller_started (now : Z) (d : db) : poller := mkPoller d (date_of now) true ∅ [].

Section polling.
Context `{Pg}.
Variables (now : Z) (d0 : db).

(** A commit after the start: rows are inserted or changed, never deleted; a
    changed row has a new time.  [prompt]: the time of a row that becomes
    visible is later than the start of the poller and every time visible so far,
    as when no transaction stays open. *)
Definition commits (prompt : bool) (d d' : db) : Prop :=
  (forall u j, jobs d !! u = Some j -> exists j', jobs d' !! u = Some j' /\ j_updated_at j <= j_updated_at j')
  /\ (prompt = true -> forall u j', jobs d' !! u = Some j' -> jobs d !! u = Some j'
      \/ now < j_updated_at j' /\ forall v k, jobs d !! v = Some k -> j_updated_at k < j_updated_at j').

Inductive poll_step (prompt : bool) (s : poller) : poller -> Prop :=
| poll_interval t : p_active s = true -> p_ticks s !! t = None -> poll_step prompt s (tick_start t s)
| poll_query t order since :
    p_ticks s !! t = Some (Asked since) -> poll_step prompt s (tick_query t order since s)
| poll_answer t order since d clients :
    p_ticks s !! t = Some (Answered order since d) ->
    poll_step prompt s (tick_end t (select_job_changes order since d) clients s)
| poll_failure t k : p_ticks s !! t = Some k -> poll_step prompt s (tick_failed t s)
| poll_stop : poll_step prompt s (stop s)
| poll_commit d : commits prompt (p_db s) d -> poll_step prompt s (committed_db d s).

Definition poll_reachable (prompt : bool) : poller -> Prop :=
  rtc (poll_step prompt) (poller_started now d0).

(** ** No change is missed *)

Definition told (s : poller) (j : Job) : Prop := exists clients, (clients, change_columns j) ∈ p_told s.

(** The row is from before the start, was broadcast, or a query with this cursor
    selects it. *)
Definition covered (s : poller) (since : Z) (u : string) (j : Job) : Prop :=
  jobs d0 !! u = Some j \/ told s j \/ since * 1000 < j_updated_at j.

(** No later change has a time that this cursor excludes. *)
Definition behind (s : poller) (since : Z) : Prop :=
  since * 1000 <= now \/ exists u j, jobs (p_db s) !! u = Some j /\ since * 1000 <= j_updated_at j.

Definition tick_ok (s : poller) (k : tick) : Prop :=
  match k with
  | Asked since =>
      behind s since /\ forall u j, jobs (p_db s) !! u = Some j -> covered s since u j
  | Answered _ since d =>
      (forall u j, jobs d !! u = Some j -> covered s since u j)
      /\ (forall u j, jobs d !! u = Some j ->
            exists j', jobs (p_db s) !! u = Some j' /\ j_updated_at j <= j_updated_at j')
      /\ (forall u j, jobs (p_db s) !! u = Some j -> jobs d !! u = Some j
            \/ forall v k, jobs d !! v = Some k -> j_updated_at k < j_updated_at j)
  end.

Record nothing_missed (s : poller) : Prop := {
  all_covered u j : jobs (p_db s) !! u = Some j -> covered s (p_cursor s) u j;
  cursor_behind : behind s (p_cursor s);
  ticks_ok t k : p_ticks s !! t = Some k -> tick_ok s k }.

Lemma started_nothing_missed : nothing_missed (poller_started now d0).
Proof.
  split; simpl.
  - by left.
  - left. simpl. unfold date_of. pose proof (Z.mul_div_le now 1000). lia.
  - intros t k Hk. by rewrite lookup_empty in Hk.
Qed.

(** The parts that a step keeps. *)
Lemma tick_ok_same s s' k :
  p_db s' = p_db s -> (forall j, told s j -> told s' j) -> tick_ok s k -> tick_ok s' k.
Proof.
  intros Hd Ht. destruct k; unfold tick_ok, behind, covered; rewrite Hd; naive_solver.
Qed.

Lemma covered_same s s' since u j :
  (forall j, told s j -> told s' j) -> covered s since u j -> covered s' since u j.
Proof. unfold covered. naive_solver. Qed.

Lemma nothing_missed_ticks s m :
  nothing_missed s -> (forall t k, m !! t = Some k -> p_ticks s !! t = Some k \/ tick_ok s k) ->
  nothing_missed (set_ticks m s).
Proof.
  intros [H1 H2 H3] Hm. split; [exact H1|exact H2|]. intros t k Hk.
  apply (tick_ok_same s); [done|done|]. destruct (Hm t k Hk); [by eapply H3|done].
Qed.

Lemma nothing_missed_end t order since d clients s :
  nothing_missed s -> p_ticks s !! t = Some (Answered order since d) ->
  nothing_missed (tick_end t (select_job_changes order since d) clients s).
Proof.
  intros Hs Ht. pose proof (ticks_ok _ Hs t _ Ht) as (Hcov & Hkept & Hnew).
  set (l := changed_rows order since d).
  set (s' := tick_end t (select_job_changes order since d) clients s).
  assert (forall j, told s j -> told s' j) as Hmore.
  { intros j [c Hc]. exists c. simpl. apply elem_of_app. by left. }
  assert (forall j, j ∈ l -> told s' j) as Hl.
  { intros j Hj. exists clients. simpl. apply elem_of_app. right.
    by apply list_elem_of_fmap_2, in_changes. }
  split.
  - intros u j Hj. simpl in Hj. simpl. rewrite last_changes. fold l.
    destruct (last l) as [x|] eqn:Hx; simpl.
    2: { eapply covered_same; [done|]. by apply all_covered. }
    destruct (Z.lt_ge_cases (date_of (j_updated_at x) * 1000) (j_updated_at j)) as [?|Hle];
      [by right; right|].
    pose proof (last_change order since d x Hx) as [[(v & Hv) _]%elem_of_changes _].
    assert (date_of (j_updated_at x) * 1000 <= j_updated_at x) as Hd.
    { unfold date_of. pose proof (Z.mul_div_le (j_updated_at x) 1000). lia. }
    destruct (Hnew u j Hj) as [Hu|Hlate]; [|specialize (Hlate v x Hv); lia].
    destruct (Hcov u j Hu) as [?|[?|Hc]]; [by left|right; left; by apply Hmore|].
    right. left. apply Hl, elem_of_changes. eauto.
  - simpl. rewrite last_changes. fold l. destruct (last l) as [x|] eqn:Hx; simpl; [|apply Hs].
    pose proof (last_change order since d x Hx) as [[(v & Hv) _]%elem_of_changes _].
    destruct (Hkept v x Hv) as (j' & Hj' & Hle). right. exists v, j'. split; [done|].
    unfold date_of. pose proof (Z.mul_div_le (j_updated_at x) 1000). lia.
  - simpl. intros t' k [_ Hk]%lookup_delete_Some.
    apply (tick_ok_same s); [done|done|by apply (ticks_ok _ Hs t')].
Qed.

Lemma behind_commit s d since :
  commits true (p_db s) d -> behind s since -> behind (committed_db d s) since.
Proof.
  intros [Hk _] [?|(u & j & Hj & Hle)]; [by left|]. destruct (Hk u j Hj) as (j' & Hj' & ?).
  right. exists u, j'. split; [done|]. lia.
Qed.

(** A row that becomes visible is later than every cursor so far. *)
Lemma covered_commit s d since u j :
  commits true (p_db s) d -> behind s since ->
  (forall u j, jobs (p_db s) !! u = Some j -> covered s since u j) ->
  jobs d !! u = Some j -> covered (committed_db d s) since u j.
Proof.
  intros [_ Hp] Hb Hc Hj. destruct (Hp eq_refl u j Hj) as [Hu|[Hnow Hlate]]; [by apply Hc|].
  right. right.
  destruct Hb as [?|(v & k & Hk & ?)]; [lia|]. specialize (Hlate v k Hk). lia.
Qed.

Lemma nothing_missed_commit s d :
  nothing_missed s -> commits true (p_db s) d -> nothing_missed (committed_db d s).
Proof.
  intros Hs Hd. split.
  - intros u j Hj. eapply covered_commit; [done|apply Hs|apply Hs|done].
  - apply behind_commit; [done|apply Hs].
  - intros t [since|order since d'] Ht; pose proof (ticks_ok _ Hs t _ Ht) as Hk; simpl in Hk.
    + destruct Hk as [Hb Hc]. split; [by apply behind_commit|].
      intros u j Hj. by eapply covered_commit.
    + destruct Hk as (Hc & Hkept & Hnew). split; [exact Hc|]. split.
      * intros u j Hj. destruct (Hkept u j Hj) as (j1 & Hj1 & ?).
        destruct (proj1 Hd u j1 Hj1) as (j2 & Hj2 & ?). exists j2. split; [done|]. lia.
      * intros u j Hj. simpl in Hj. destruct (proj2 Hd eq_refl u j Hj) as [Hu|[_ Hlate]];
          [by apply Hnew|]. right. intros v k Hk.
        destruct (Hkept v k Hk) as (k' & Hk' & ?). specialize (Hlate v k' Hk'). lia.
Qed.

Lemma nothing_missed_step s s' : nothing_missed s -> poll_step true s s' -> nothing_missed s'.
Proof.
  intros Hs Ha. destruct Ha as [t Hact Ht|t order since Ht|t order since d clients Ht|t k Ht| |d Hd].
  - apply nothing_missed_ticks; [done|]. intros t' k [[_ <-]|[_ ?]]%lookup_insert_Some; [|by left].
    right. split; [apply Hs|apply Hs].
  - apply nothing_missed_ticks; [done|]. intros t' k [[_ <-]|[_ ?]]%lookup_insert_Some; [|by left].
    right. pose proof (ticks_ok _ Hs t _ Ht) as [_ Hc]. split; [exact Hc|]. split; [|by auto].
    intros u j Hj. by exists j.
  - by apply nothing_missed_end.
  - apply nothing_missed_ticks; [done|]. intros t' k' [_ ?]%lookup_delete_Some. by left.
  - destruct Hs as [H1 H2 H3]. by split.
  - by apply nothing_missed_commit.
Qed.

Lemma reachable_nothing_missed s : poll_reachable true s -> nothing_missed s.
Proof.
  revert s. apply rtc_ind_r; [apply started_nothing_missed|].
  intros s1 s2 _ Ha IH. by eapply nothing_missed_step.
Qed.
(** C33: when no transaction stays open (a row that becomes visible has a later
    time than all visible before), the poller misses no change, however its ticks
    overlap or fail: a row that was inserted or changed since the start was
    broadcast, or has a time that the cursor has not passed; and as long as the
    interval runs, one more tick broadcasts all those that were not. *)
Theorem no_change_missed s :
  poll_reachable true s ->
  (forall u j, jobs (p_db s) !! u = Some j ->
     jobs d0 !! u = Some j \/ told s j \/ p_cursor s * 1000 < j_updated_at j)
  /\ (p_active s = true -> forall clients, exists s',
       rtc (poll_step true) s s' /\ p_db s' = p_db s /\
       forall u j, jobs (p_db s) !! u = Some j ->
         jobs d0 !! u = Some j \/ told s j \/ (clients, change_columns j) ∈ p_told s').
Proof.
  intros Hs%reachable_nothing_missed. split; [apply Hs|]. intros Ha clients.
  set (t := fresh (dom (p_ticks s))).
  assert (p_ticks s !! t = None) as Ht by apply not_elem_of_dom, is_fresh.
  eexists. split; [|split].
  - eapply rtc_l; [by apply (poll_interval true s t)|].
    eapply rtc_l; [apply (poll_query true _ t 0 (p_cursor s)), lookup_insert_eq|].
    apply rtc_once. eapply (poll_answer true _ t _ _ _ clients). apply lookup_insert_eq.
  - done.
  - intros u j Hj. destruct (all_covered _ Hs u j Hj) as [?|[?|Hc]]; [by left|by right; left|].
    right. right. simpl. apply elem_of_app. right.
    apply (list_elem_of_fmap_2 (fun change => (clients, change))), in_changes, elem_of_changes. eauto.
Qed.
End polling.

(** ** A transaction that stays open *)

(** A job before the poller starts, the same when a worker has claimed it, and
    the table after the commit of a job creation that began in between. *)
Definition old_db : db := one_job (sample_job uuid_a (JObj []) QUEUED 0 500000).
Definition claimed_db : db := one_job (sample_job uuid_a (JObj []) PROCESSING 1 5000000).

Definition creation : res js_err Job * world Queues.t :=
  (run (createJob (mkInput "email" (JObj []))) (fun _ => calm 2000000 uuid_b)
     (mkWorld claimed_db None (Amqp.declared worker_topology) ∅ 0 [])).1.

Definition one_change : poller := committed_db claimed_db (poller_started 1000000 old_db).
Definition one_asked : poller := tick_query 0 0 1000 (tick_start 0 one_change).
Definition one_told : poller :=
  tick_end 0 (select_job_changes 0 1000 claimed_db) [mkClient 1 true] one_asked.
Definition after_creation : poller := committed_db (w_db creation.2) one_told.

Lemma one_job_lookup j u j' : jobs (one_job j) !! u = Some j' -> u = uuid_a /\ j' = j.
Proof.
  intros Hj. change (({[ uuid_a := j ]} : gmap string Job) !! u = Some j') in Hj.
  by apply lookup_singleton_Some in Hj as [-> ->].
Qed.

Lemma claimed_commits : commits 1000000 false old_db claimed_db.
Proof.
  split; [|done]. intros u j [-> ->]%one_job_lookup. eexists. split; [reflexivity|]. simpl. lia.
Qed.

Lemma creation_commits : commits 1000000 false claimed_db (w_db creation.2).
Proof.
  split; [|done]. intros u j [-> ->]%one_job_lookup. eexists.
  split; [vm_compute; reflexivity|]. simpl. lia.
Qed.

(** C34: the poller misses changes otherwise: a job whose creation began before
    and is committed after a tick that sees a later change is not broadcast by
    this tick nor by any later one, until it changes again. *)
Theorem late_commit_missed :
  exists s job, poll_reachable 1000000 old_db false s
    /\ creation.1 = Ok job /\ p_db s = w_db creation.2
    /\ jobs (p_db s) !! j_id job = Some job /\ jobs old_db !! j_id job = None
    /\ p_ticks s = ∅ /\ ~ told s job
    /\ forall order, change_columns job ∉ select_job_changes order (p_cursor s) (p_db s).
Proof.
  exists after_creation. eexists. split.
  { apply rtc_r with one_told; [|apply poll_commit, creation_commits].
    apply rtc_r with one_asked; [|by apply (poll_answer _ _ one_asked 0 0 1000 claimed_db)].
    apply rtc_r with (tick_start 0 one_change); [|by apply (poll_query _ _ (tick_start 0 one_change))].
    apply rtc_r with one_change; [|by apply poll_interval].
    apply rtc_once, poll_commit, claimed_commits. }
  split; [vm_compute; reflexivity|]. split; [reflexivity|].
  split; [vm_compute; reflexivity|]. split; [vm_compute; reflexivity|]. split; [vm_compute; reflexivity|].
  split.
  - intros [clients Hc]. vm_compute in Hc. by apply list_elem_of_singleton in Hc.
  - intros order (j & Hcols & [_ Hc]%elem_of_changes)%list_elem_of_fmap.
    apply (f_equal jc_updated_at) in Hcols. simpl in Hcols. rewrite <- Hcols in Hc.
    vm_compute in Hc. done.
Qed.

Lemma prompt_commits : commits 1000000 true old_db claimed_db.
Proof.
  split; [apply claimed_commits|]. intros _ u j [-> ->]%one_job_lookup. right.
  split; [simpl; lia|]. intros v k [-> ->]%one_job_lookup. simpl. lia.
Qed.

Lemma no_change_missed_witness :
  jobs (p_db one_change) !! uuid_a = Some (sample_job uuid_a (JObj []) PROCESSING 1 5000000)
  /\ (forall u j, jobs (p_db one_change) !! u = Some j ->
        jobs old_db !! u = Some j \/ told one_change j \/ p_cursor one_change * 1000 < j_updated_at j)
  /\ (p_active one_change = true -> forall clients, exists s',
        rtc (poll_step 1000000 true) one_change s' /\ p_db s' = p_db one_change /\
        forall u j, jobs (p_db one_change) !! u = Some j ->
          jobs old_db !! u = Some j \/ told one_change j \/ (clients, change_columns j) ∈ p_told s').
Proof.
  split; [reflexivity|]. apply (no_change_missed 1000000 old_db one_change).
  apply rtc_once, poll_commit, prompt_commits.
Defined.
