(* ===== verification/Migrate.v ===== *)
(** * The migration runner

    apps/api/src/scripts/migrate.ts: the SQL files of a directory are applied in
    the order of their names, each in a transaction of its own together with its
    row in the ledger, under an advisory lock.

    What a file's SQL does to a schema is PostgreSQL's: the class
    [Schema].  A file holds no transaction control of its own.  While the
    runner waits for the lock another one may have been at work: the database
    that it finds is a choice of the environment. *)
From S2P Require Import Prelude Programs Http.
#[local] Open Scope stdpp_scope.

(** The effect of an SQL text on a schema. *)
Class Schema (S : Type) := exec_sql : string -> S -> res js_err S.

Section migrate.
Context {S : Type} `{!Schema S}.

(** ** The state and the effects *)

(** The schema with its data, and the rows of [schema_migrations], [None] when
    that table does not exist. *)
Record database := mkDatabase { schema_of : S; ledger : option (list string) }.

Record runner := mkRunner {
  m_dir : list string;              (* the names in the migrations directory *)
  m_files : string -> string;       (* the contents of its files *)
  m_db : database;
  m_tx : option database;           (* an open transaction: the state at BEGIN *)
  m_exit : option Z                 (* process.exitCode *)
}.

Inductive mop :=
| ReadDir                                (* readdirSync(migrationsDir) *)
| ReadFile (filename : string)           (* readFileSync *)
| Connect                                (* client.connect() *)
| AdvisoryLock | AdvisoryUnlock
| CreateLedger                           (* CREATE TABLE IF NOT EXISTS schema_migrations *)
| SelectLedger                           (* SELECT filename FROM schema_migrations *)
| Begin | Commit | Rollback
| ExecFile (sql : string)                (* client.query(sql) *)
| InsertLedger (filename : string)
| EndSession                             (* client.end() *)
| ExitOne.                               (* process.exit(1), process.exitCode = 1 *)

Definition manswer (o : mop) : Type :=
  match o with
  | ReadDir | SelectLedger => list string
  | ReadFile _ => string
  | _ => unit
  end.

Record mchoice := mkMChoice {
  mc_fault : option (bool * js_err);     (* a failure, after the effect if [true] *)
  mc_granted : option database           (* the database when the lock is granted *)
}.

Definition with_database (d : database) (w : runner) : runner :=
  mkRunner (m_dir w) (m_files w) d (m_tx w) (m_exit w).
Definition with_mtx (t : option database) (w : runner) : runner :=
  mkRunner (m_dir w) (m_files w) (m_db w) t (m_exit w).
Definition with_exit (w : runner) : runner :=
  mkRunner (m_dir w) (m_files w) (m_db w) (m_tx w) (Some 1).

(** What other sessions see. *)
Definition committed (w : runner) : database := default (m_db w) (m_tx w).

(** The end of a transaction without COMMIT. *)
Definition undo (w : runner) : runner := with_mtx None (with_database (committed w) w).

Definition meffect (c : mchoice) (o : mop) (w : runner) : res js_err (manswer o * runner) :=
  match o with
  | ReadDir => Ok (m_dir w, w)
  | ReadFile name => Ok (m_files w name, w)
  | Connect | AdvisoryUnlock => Ok (tt, w)
  | AdvisoryLock => Ok (tt, with_database (default (m_db w) (mc_granted c)) w)
  | CreateLedger =>
      Ok (tt, with_database (mkDatabase (schema_of (m_db w))
                (Some (default [] (ledger (m_db w))))) w)
  | SelectLedger =>
      match ledger (m_db w) with
      | Some l => Ok (l, w)
      | None => Err (mk_error "relation schema_migrations does not exist")
      end
  | Begin => Ok (tt, with_mtx (Some (m_db w)) w)
  | Commit => Ok (tt, with_mtx None w)
  | Rollback | EndSession => Ok (tt, undo w)
  | ExecFile sql =>
      match exec_sql sql (schema_of (m_db w)) with
      | Ok s => Ok (tt, with_database (mkDatabase s (ledger (m_db w))) w)
      | Err e => Err e
      end
  | InsertLedger name =>
      match ledger (m_db w) with
      | Some l =>
          if bool_decide (name ∈ l)
          then Err (mk_error "duplicate key value violates unique constraint")
          else Ok (tt, with_database (mkDatabase (schema_of (m_db w)) (Some (l ++ [name]))) w)
      | None => Err (mk_error "relation schema_migrations does not exist")
      end
  | ExitOne => Ok (tt, with_exit w)
  end.

(** A failure of [client.end()] ends the session all the same. *)
Definition mhandle (c : mchoice) (o : mop) (w : runner) : res js_err (manswer o) * runner :=
  let done := match meffect c o w with Ok (a, w') => (Ok a, w') | Err e => (Err e, w) end in
  match mc_fault c, o with
  | None, _ | _, ExitOne => done
  | Some (_, e), EndSession => (Err e, done.2)
  | Some (executed, e), _ => (Err e, if executed then done.2 else w)
  end.

#[global] Instance runner_semantics : Semantics manswer mchoice runner := mhandle.

Abbreviation mig := (prog manswer).

Definition maction (o : mop) : mig (manswer o) := call o.

(** ** The program *)

(** [name.endsWith(".sql")] *)
Definition is_sql (name : string) : bool :=
  String.eqb (String.substring (String.length name - 4) 4 name) ".sql"
  && (4 <=? String.length name)%nat.

(** [readdirSync(..).filter(..).sort()] *)
Definition migration_names (dir : list string) : list string :=
  merge_sort String.le (List.filter is_sql dir).

Definition pending_names (alreadyApplied filenames : list string) : list string :=
  List.filter (fun name => negb (bool_decide (name ∈ alreadyApplied))) filenames.

(** One turn of the loop: [false] when the run stops. *)
Definition migrate_file (filename : string) : mig bool :=
  let! sql := maction (ReadFile filename) in
  try_catch
    (maction Begin ;;;
     maction (ExecFile sql) ;;;
     maction (InsertLedger filename) ;;;
     maction Commit ;;;
     Ret true)
    (fun err =>
       maction Rollback ;;;
       maction ExitOne ;;;
       Ret false).

Fixpoint migrate_files (pending : list string) : mig unit :=
  match pending with
  | [] => Ret tt
  | filename :: pending =>
      let! ok := migrate_file filename in
      if ok then migrate_files pending else Ret tt
  end.

Definition main (DATABASE_URL : option string) : mig unit :=
  if negb (truthy DATABASE_URL) then maction ExitOne
  else
    let! filenames :=
      try_catch (let! names := maction ReadDir in Ret (Some (migration_names names)))
                (fun err => maction ExitOne ;;; Ret None) in
    match filenames with
    | None | Some [] => Ret tt
    | Some filenames =>
        maction Connect ;;;
        try_finally
          (maction AdvisoryLock ;;;
           maction CreateLedger ;;;
           let! alreadyApplied := maction SelectLedger in
           migrate_files (pending_names alreadyApplied filenames))
          (try_catch (maction AdvisoryUnlock) (fun _ => Ret tt) ;;;
           maction EndSession)
    end.

(** [main().catch(..)] *)
Definition migrate (DATABASE_URL : option string) : mig unit :=
  try_catch (main DATABASE_URL) (fun err => maction ExitOne).

(** ** What a run leaves *)

(** The files of these names, applied in order. *)
Fixpoint apply_all (files : string -> string) (names : list string) (s : S) : res js_err S :=
  match names with
  | [] => Ok s
  | name :: names =>
      match exec_sql (files name) s with
      | Ok s' => apply_all files names s'
      | Err e => Err e
      end
  end.

Definition applied (d : database) : list string := default [] (ledger d).

(** [d] is [d0] after the files of these names. *)
Record migrated (files : string -> string) (d0 : database) (names : list string)
    (d : database) : Prop := {
  migrated_ledger : applied d = applied d0 ++ names;
  migrated_schema : apply_all files names (schema_of d0) = Ok (schema_of d) }.

Lemma apply_all_app files l1 l2 s :
  apply_all files (l1 ++ l2) s =
  match apply_all files l1 s with Ok s' => apply_all files l2 s' | Err e => Err e end.
Proof. revert s. induction l1 as [|x l1 IH]; intros s; simpl; [done|]. by case_match. Qed.

Lemma migrated_refl files d : migrated files d [] d.
Proof. split; [by rewrite app_nil_r|done]. Qed.

Lemma migrated_step files d0 names d name s l :
  migrated files d0 names d -> exec_sql (files name) (schema_of d) = Ok s ->
  ledger d = Some l -> migrated files d0 (names ++ [name]) (mkDatabase s (Some (l ++ [name]))).
Proof.
  intros [Hl Hs] He Hd. unfold applied in Hl. rewrite Hd in Hl. simpl in Hl. split.
  - unfold applied. simpl. by rewrite Hl, app_assoc.
  - rewrite apply_all_app, Hs. simpl. by rewrite He.
Qed.

(** [P] holds of the database that another runner leaves. *)
Definition others (P : database -> Prop) : mop -> mchoice -> Prop := fun _ c =>
  forall d, mc_granted c = Some d -> P d.

(** Nothing but the database, the transaction and the exit code changes. *)
Definition same_files (w w' : runner) : Prop := m_dir w' = m_dir w /\ m_files w' = m_files w.

(** The exit code is left alone or becomes 1. *)
Definition exits (w w' : runner) : Prop := m_exit w' = m_exit w \/ m_exit w' = Some 1.
(** An effect that may fail, before or after being carried out. *)
Lemma wp_maction {R} G o (f : manswer o -> mig R) Q w :
  (forall e, Q (Err e) w) ->
  (forall c a w', G o c -> meffect c o w = Ok (a, w') ->
     (forall e, Q (Err e) w') /\ wp G (f a) Q w') ->
  wp G (bind (maction o) f) Q w.
Proof.
  intros He Hok. apply wp_call. intros c Hc. unfold perform, runner_semantics, mhandle.
  specialize (Hok c). destruct (meffect c o w) as [[a w']|e] eqn:Heff.
  - destruct (Hok a w' Hc eq_refl) as [He' Hw']. destruct (mc_fault c) as [[[] e]|]; [| |done];
      destruct o; simpl; auto.
  - destruct (mc_fault c) as [[[] e']|]; [| |by apply He]; destruct o; simpl; apply He.
Qed.

Section file.
Variables (d0 : database) (names : list string) (name : string) (w0 : runner).

(** Between the turns of the loop: the files so far are applied. *)
Definition turn (l : list string) (w : runner) : Prop :=
  same_files w0 w /\ m_tx w = None /\ m_exit w = m_exit w0
  /\ migrated (m_files w0) d0 l (m_db w) /\ is_Some (ledger (m_db w)).

(** Within a turn: what is committed has the file, or not. *)
Definition within_turn (w : runner) : Prop :=
  same_files w0 w /\ m_exit w = m_exit w0
  /\ (migrated (m_files w0) d0 names (committed w)
      \/ migrated (m_files w0) d0 (names ++ [name]) (committed w)).

(** After a failure. *)
Definition stopped (w : runner) : Prop :=
  same_files w0 w /\ exits w0 w
  /\ (migrated (m_files w0) d0 names (committed w)
      \/ migrated (m_files w0) d0 (names ++ [name]) (committed w)).

Definition file_done (r : res js_err bool) (w : runner) : Prop :=
  match r with
  | Ok true => turn (names ++ [name]) w
  | Ok false => stopped w /\ m_exit w = Some 1
  | Err _ => stopped w
  end.

Lemma committed_undo (w : runner) : committed (undo w) = committed w.
Proof. reflexivity. Qed.

Lemma wp_file_failed G w :
  within_turn w ->
  wp G (maction Rollback ;;; maction ExitOne ;;; Ret false) file_done w.
Proof.
  intros (Hf & He & Hm).
  assert (forall e, file_done (Err e) w) as Hfail by (intros e; split; [done|]; split; [by left|done]).
  apply wp_maction; [done|]. intros c a w1 _ [= <- <-].
  assert (within_turn (undo w)) as (Hf1 & He1 & Hm1).
  { split; [done|]. split; [done|]. by rewrite committed_undo. }
  split; [intros e; split; [done|]; split; [by left|done]|].
  apply wp_maction; [intros e; split; [done|]; split; [by left|done]|].
  intros c' a' w2 _ [= <- <-].
  assert (stopped (with_exit (undo w))) as Hs by (split; [done|]; split; [by right|done]).
  split; [done|]. by split.
Qed.

Lemma wp_migrate_file G w :
  turn names w -> wp G (migrate_file name) file_done w.
Proof.
  intros (Hf & Ht & He & Hm & [l Hl]). unfold migrate_file.
  assert (committed w = m_db w) as Hc by (unfold committed; by rewrite Ht).
  assert (within_turn w) as Hw by (split; [done|]; split; [done|]; left; by rewrite Hc).
  assert (forall e, file_done (Err e) w) as Hfail.
  { intros e. destruct Hw as (? & ? & ?). split; [done|]. split; [by left|done]. }
  apply wp_maction; [done|]. intros c sql w' _ [= <- <-]. split; [done|].
  apply wp_try_catch. apply wp_maction; [intros _; by apply wp_file_failed|].
  intros c1 a1 w1 _ [= _ <-].
  assert (within_turn (with_mtx (Some (m_db w)) w)) as Hw1 by (split; [done|]; split; [done|]; by left).
  split; [intros _; by apply wp_file_failed|].
  apply wp_maction; [intros _; by apply wp_file_failed|]. intros c2 a2 w2 _ Heff. simpl in Heff.
  destruct (exec_sql (m_files w name) (schema_of (m_db w))) as [s|] eqn:Hsql; [|done].
  injection Heff as _ <-. set (w2 := with_database _ _).
  assert (within_turn w2) as Hw2 by (split; [done|]; split; [done|]; by left).
  split; [intros _; by apply wp_file_failed|].
  apply wp_maction; [intros _; by apply wp_file_failed|]. intros c3 a3 w3 _ Heff. simpl in Heff.
  rewrite Hl in Heff. case_bool_decide; [done|]. injection Heff as _ <-. set (w3 := with_database _ _).
  assert (within_turn w3) as Hw3 by (split; [done|]; split; [done|]; by left).
  split; [intros _; by apply wp_file_failed|].
  apply wp_maction; [intros _; by apply wp_file_failed|]. intros c4 a4 w4 _ [= _ <-].
  assert (migrated (m_files w0) d0 (names ++ [name]) (mkDatabase s (Some (l ++ [name])))) as Hm'.
  { apply migrated_step with (d := m_db w); [done| |done]. by rewrite <- (proj2 Hf). }
  split.
  - intros _. apply wp_file_failed. split; [done|]. split; [done|]. by right.
  - split; [done|]. split; [done|]. split; [done|]. split; [exact Hm'|by eexists].
Qed.
End file.

(** The outcome of a run over [todo], from the database [d0]. *)
Definition run_done (d0 : database) (todo : list string) (w0 : runner)
    (complete : bool) (w : runner) : Prop :=
  same_files w0 w /\ exits w0 w
  /\ exists k, migrated (m_files w0) d0 (take k todo) (committed w)
       /\ (complete = true -> m_exit w = m_exit w0 -> k = List.length todo).

Lemma wp_migrate_files G d0 w0 pending don w :
  m_exit w0 = None -> turn d0 w0 don w ->
  wp G (migrate_files pending)
    (fun r w' => run_done d0 (don ++ pending) w0 (is_ok r) w') w.
Proof.
  intros Hx. revert don w. induction pending as [|name pending IH]; intros don w Hw.
  - destruct Hw as (Hf & Ht & He & Hm & _). split; [done|]. split; [by left|].
    exists (List.length (don ++ [])). rewrite firstn_all, app_nil_r. split; [|done].
    unfold committed. by rewrite Ht.
  - apply wp_bind. eapply wp_mono; [|by eapply wp_migrate_file].
    assert (forall w', stopped d0 don name w0 w' -> forall c, (c = true -> m_exit w' = Some 1) ->
      run_done d0 (don ++ name :: pending) w0 c w') as Hstop.
    { intros w' (Hf & He & Hm) c Hc. split; [done|]. split; [done|].
      destruct Hm as [Hm|Hm];
        [exists (List.length don) | exists (List.length (don ++ [name]))];
        (split; [|intros ->; rewrite (Hc eq_refl), Hx; done]).
      - by rewrite take_app_length.
      - replace (don ++ name :: pending) with ((don ++ [name]) ++ pending) by by rewrite <- app_assoc.
        by rewrite take_app_length. }
    intros [[]|e] w' Hr; simpl in Hr.
    + replace (don ++ name :: pending) with ((don ++ [name]) ++ pending) by by rewrite <- app_assoc.
      by apply IH.
    + destruct Hr as [Hr He]. by apply Hstop.
    + by apply Hstop.
Qed.
(** The end of a session: nothing but what was committed stays. *)
Lemma wp_session_end G d0 todo w0 complete w :
  run_done d0 todo w0 complete w ->
  wp G (try_catch (maction AdvisoryUnlock) (fun _ => Ret tt) ;;; maction EndSession)
    (fun r w' => run_done d0 todo w0 complete w' /\ m_tx w' = None) w.
Proof.
  intros Hw. apply wp_bind, wp_try_catch. intros c _.
  assert (perform c AdvisoryUnlock w = (Ok tt, w) \/ exists e, perform c AdvisoryUnlock w = (Err e, w))
    as [-> | (e & ->)].
  { unfold perform, runner_semantics, mhandle. destruct (mc_fault c) as [[[] e]|]; simpl; eauto. }
  all: simpl; intros c' _; unfold perform, runner_semantics, mhandle;
    destruct (mc_fault c') as [[b e']|]; (split; [|done]); exact Hw.
Qed.

(** The files that a run over the database [d] has to apply. *)
Definition todo (dir : list string) (d : database) : list string :=
  pending_names (applied d) (migration_names dir).

Definition main_done (P : database -> Prop) (w : runner) (r : res js_err unit) (w' : runner) : Prop :=
  m_tx w' = None /\ exists d0, P d0 /\ run_done d0 (todo (m_dir w) d0) w (is_ok r) w'.

Section main.
Variables (P : database -> Prop) (w : runner).
Hypothesis Hdb : P (m_db w).
Hypothesis Htx : m_tx w = None.
Hypothesis Hexit : m_exit w = None.

(** Nothing was applied, and the program says so. *)
Lemma main_nothing r w' :
  m_db w' = m_db w -> m_tx w' = None -> same_files w w' -> exits w w' ->
  (is_ok r = true -> m_exit w' = None -> todo (m_dir w) (m_db w) = []) -> main_done P w r w'.
Proof.
  intros Hd Ht Hf He Hr. split; [done|]. exists (m_db w). split; [done|]. split; [done|].
  split; [done|]. exists 0%nat. split.
  - unfold committed. rewrite Ht, <- Hd. apply migrated_refl.
  - intros Hok Hx. rewrite (Hr Hok); [done|]. by rewrite Hx.
Qed.

(** From the lock to the end of the loop. *)
Lemma wp_locked filenames :
  filenames = migration_names (m_dir w) ->
  wp (others P)
    (maction AdvisoryLock ;;;
     maction CreateLedger ;;;
     let! alreadyApplied := maction SelectLedger in
     migrate_files (pending_names alreadyApplied filenames))
    (fun r w' => exists d0, P d0 /\ run_done d0 (todo (m_dir w) d0) w (is_ok r) w') w.
Proof.
  intros ->.
  assert (forall d d', P d -> applied d' = applied d -> schema_of d' = schema_of d ->
    forall e, exists d0, P d0 /\
      run_done d0 (todo (m_dir w) d0) w (is_ok (Err e : res js_err unit)) (with_database d' w)) as Hbad.
  { intros d d' HP Ha Hs e. exists d. split; [done|]. split; [done|]. split; [by left|].
    exists 0%nat. split; [|done]. unfold committed. simpl. rewrite Htx. simpl.
    split; [by rewrite Ha, app_nil_r|by rewrite Hs]. }
  assert (with_database (m_db w) w = w) as Hsame by by destruct w.
  apply wp_maction; [intros e; rewrite <- Hsame; by apply (Hbad (m_db w))|].
  intros c [] w1 Hc [= <-]. set (d := default (m_db w) (mc_granted c)).
  assert (P d) as HP by (unfold d; destruct (mc_granted c) eqn:Hg; [by apply Hc|done]).
  split; [by apply (Hbad d)|].
  apply wp_maction; [by apply (Hbad d)|]. intros c2 [] w2 _ [= <-]. simpl.
  set (d2 := mkDatabase _ _).
  change (with_database d2 (with_database d w)) with (with_database d2 w).
  split; [by apply (Hbad d d2)|].
  apply wp_maction; [by apply (Hbad d d2)|]. intros c3 l w3 _ Heff.
  injection Heff as Hl <-. split; [by apply (Hbad d d2)|]. subst l.
  eapply wp_mono; [|apply (wp_migrate_files _ d w _ []); [done|]].
  - intros r w' Hr. exists d. by split.
  - split; [done|]. split; [done|]. split; [done|]. split; [|by eexists].
    split; [by rewrite app_nil_r|done].
Qed.

Lemma wp_main url : wp (others P) (main url) (main_done P w) w.
Proof.
  unfold main. destruct (negb (truthy url)).
  { intros c _. unfold perform, runner_semantics, mhandle. destruct (mc_fault c) as [[]|]; simpl;
      (apply main_nothing; [done|done|done|by right|done]). }
  apply wp_bind, wp_try_catch, wp_maction.
  { intros e c _. unfold perform, runner_semantics, mhandle. destruct (mc_fault c) as [[]|]; simpl;
      (apply main_nothing; [done|done|done|by right|done]). }
  intros c names w1 _ [= <- <-]. split.
  { intros e c1 _. unfold perform, runner_semantics, mhandle. destruct (mc_fault c1) as [[]|]; simpl;
      (apply main_nothing; [done|done|done|by right|done]). }
  cbn [bind wp holds].
  destruct (migration_names (m_dir w)) as [|x l] eqn:Hnames.
  { apply main_nothing; [done|done|done|by left|]. intros _ _. unfold todo. by rewrite Hnames. }
  apply wp_maction.
  { intros e. apply main_nothing; [done|done|done|by left|done]. }
  intros c1 [] w1 _ [= <-]. split.
  { intros e. apply main_nothing; [done|done|done|by left|done]. }
  apply wp_try_finally. eapply wp_mono; [|by apply wp_locked].
  intros r w1 (d0 & HP & Hr). eapply wp_mono; [|by apply wp_session_end].
  intros [[]|e] w2 [(Hf & He & k & Hm & Hk) Ht]; (split; [done|]); exists d0; (split; [done|]);
    (split; [done|]); (split; [done|]); by exists k.
Qed.
End main.

(** ** A run alone, without failures *)

Definition alone : mop -> mchoice -> Prop := fun _ c => mc_fault c = None /\ mc_granted c = None.

Lemma wp_alone {R} o (f : manswer o -> mig R) Q w a w' :
  (forall c, alone o c -> meffect c o w = Ok (a, w')) ->
  wp alone (f a) Q w' -> wp alone (bind (maction o) f) Q w.
Proof.
  intros He Hf. apply wp_call. intros c Hc. unfold perform, runner_semantics, mhandle.
  rewrite (He c Hc). destruct Hc as [-> _]. exact Hf.
Qed.

Definition all_applied (w : runner) (names : list string) (s : S) (w' : runner) : Prop :=
  m_db w' = mkDatabase s (Some (applied (m_db w) ++ names))
  /\ m_tx w' = None /\ m_exit w' = m_exit w /\ same_files w w'.

Lemma wp_files_alone pending s w :
  m_tx w = None -> is_Some (ledger (m_db w)) -> NoDup (applied (m_db w) ++ pending) ->
  apply_all (m_files w) pending (schema_of (m_db w)) = Ok s ->
  wp alone (migrate_files pending) (fun r w' => r = Ok tt /\ all_applied w pending s w') w.
Proof.
  revert w. induction pending as [|name pending IH]; intros w Ht [l Hl] Hnd Hs.
  - simpl in Hs. injection Hs as <-. split; [done|]. split; [|by repeat split].
    unfold applied. rewrite Hl, app_nil_r. simpl. rewrite <- Hl. by destruct (m_db w).
  - simpl in Hs. destruct (exec_sql (m_files w name) (schema_of (m_db w))) as [s1|] eqn:Hx; [|done].
    apply wp_bind. unfold migrate_file. eapply wp_alone; [done|]. apply wp_try_catch.
    eapply wp_alone; [done|]. eapply wp_alone; [intros c _; simpl; by rewrite Hx|].
    unfold applied in Hnd. rewrite Hl in Hnd. simpl in Hnd.
    eapply wp_alone; [intros c _; simpl; rewrite Hl, bool_decide_false; [done|]|].
    { apply NoDup_app in Hnd as (_ & Hnd & _). intros Hin. by apply (Hnd name Hin); left. }
    eapply wp_alone; [done|]. cbn [bind wp holds].
    set (w1 := with_mtx None _). eapply wp_mono; [|apply (IH w1)].
    + intros r w' (-> & Hd & Ht' & He & Hf). split; [done|]. split; [|done].
      rewrite Hd. unfold applied. rewrite Hl. simpl. by rewrite <- app_assoc.
    + done.
    + by eexists.
    + unfold applied. simpl. by rewrite <- app_assoc.
    + exact Hs.
Qed.

(** What is left to do once everything is applied. *)
Lemma todo_done dir d s :
  todo dir (mkDatabase s (Some (applied d ++ todo dir d))) = [].
Proof.
  unfold todo at 1, pending_names, applied at 1. simpl.
  assert (forall l, (forall x, x ∈ l -> x ∈ migration_names dir) ->
    List.filter (fun name => negb (bool_decide (name ∈ applied d ++ todo dir d))) l = []) as Hl.
  { induction l as [|x l IH]; intros Hin; simpl; [done|].
    rewrite bool_decide_true, IH; [done|set_solver|].
    rewrite elem_of_app. destruct (decide (x ∈ applied d)) as [|Hx]; [by left|right].
    unfold todo, pending_names. apply list_elem_of_In, filter_In.
    split; [apply list_elem_of_In, Hin; left|]. by rewrite bool_decide_false. }
  by apply Hl.
Qed.

Lemma todo_NoDup dir d : NoDup dir -> NoDup (applied d) -> NoDup (applied d ++ todo dir d).
Proof.
  intros Hdir Ha. apply NoDup_app. split; [done|]. split.
  - intros x Hx Hin. unfold todo, pending_names in Hin.
    apply list_elem_of_In, filter_In in Hin as [_ Hn]. by rewrite bool_decide_true in Hn.
  - apply NoDup_ListNoDup, List.NoDup_filter, NoDup_ListNoDup. unfold migration_names.
    rewrite merge_sort_Permutation. by apply NoDup_ListNoDup, List.NoDup_filter, NoDup_ListNoDup.
Qed.

(** C29: without failures, and when the SQL of every pending file succeeds, a run
    applies them all, records them all, does not touch the exit code, and leaves
    nothing to do for the next run. *)
Theorem migrate_completes url w cs s :
  truthy url = true -> m_tx w = None -> NoDup (m_dir w) -> NoDup (applied (m_db w)) ->
  migration_names (m_dir w) <> [] ->
  apply_all (m_files w) (todo (m_dir w) (m_db w)) (schema_of (m_db w)) = Ok s ->
  within alone cs ->
  exists w' cs', run (migrate url) cs w = (Ok tt, w', cs')
    /\ all_applied w (todo (m_dir w) (m_db w)) s w'
    /\ todo (m_dir w') (m_db w') = [].
Proof.
  intros Hurl Htx Hdir Hnd Hne Hs Hcs.
  assert (wp alone (migrate url) (fun r w' => r = Ok tt /\
    all_applied w (todo (m_dir w) (m_db w)) s w') w) as Hwp.
  { apply wp_try_catch. unfold main. rewrite Hurl. cbn [negb].
    apply wp_bind, wp_try_catch. eapply wp_alone; [done|]. cbn [bind wp holds].
    destruct (migration_names (m_dir w)) as [|x l] eqn:Hnames; [done|]. rewrite <- Hnames.
    eapply wp_alone; [done|]. apply wp_try_finally.
    eapply wp_alone; [intros c [_ Hg]; simpl; by rewrite Hg|].
    change (default (m_db w) None) with (m_db w).
    assert (with_database (m_db w) w = w) as -> by by destruct w.
    eapply wp_alone; [done|]. eapply wp_alone; [done|]. set (w2 := with_database _ _).
    eapply wp_mono; [|apply (wp_files_alone _ s w2); [done|by eexists|by apply todo_NoDup|done]].
    intros r w3 (-> & Hd & Ht3 & He & Hf). apply wp_bind, wp_try_catch.
    intros c [Hc _]. unfold perform, runner_semantics, mhandle. rewrite Hc. simpl.
    intros c' [Hc' _]. unfold perform, runner_semantics, mhandle. rewrite Hc'. simpl.
    split; [done|]. assert (undo w3 = w3) as -> by (destruct w3; simpl in *; by subst).
    split; [|done]. exact Hd. }
  apply (wp_run _ _ _ _ _ Hcs) in Hwp. destruct (run _ cs w) as [[r w'] cs'].
  destruct Hwp as (-> & Hall). exists w', cs'. split; [done|]. split; [done|].
  destruct Hall as (-> & _ & _ & [-> _]). apply todo_done.
Qed.

(** C20: whatever fails, and whatever another runner did before the lock was
    granted, a run applies an initial part of the pending files, in the order of
    their names, each together with its row in the ledger, and leaves no
    transaction open; and unless that part is all of them, its exit code is 1. *)
Theorem migrate_applies_in_order P url w cs :
  P (m_db w) -> m_tx w = None -> m_exit w = None -> within (others P) cs ->
  exists w' cs', run (migrate url) cs w = (Ok tt, w', cs') /\ m_tx w' = None
    /\ exists d0 k, P d0 /\ migrated (m_files w) d0 (take k (todo (m_dir w) d0)) (m_db w')
         /\ (m_exit w' = None /\ k = List.length (todo (m_dir w) d0) \/ m_exit w' = Some 1).
Proof.
  intros Hdb Htx Hexit Hcs.
  assert (wp (others P) (migrate url) (fun r w' => r = Ok tt /\ m_tx w' = None
    /\ exists d0 k, P d0 /\ migrated (m_files w) d0 (take k (todo (m_dir w) d0)) (m_db w')
         /\ (m_exit w' = None /\ k = List.length (todo (m_dir w) d0) \/ m_exit w' = Some 1)) w) as Hwp.
  { apply wp_try_catch. eapply wp_mono; [|by apply wp_main].
    intros [[]|e] w' (Ht & d0 & HP & Hf & He & k & Hm & Hk); unfold committed in Hm; rewrite Ht in Hm.
    - split; [done|]. split; [done|]. exists d0, k. split; [done|]. split; [done|].
      destruct He as [He|He]; [|by right]. left. rewrite He. split; [done|]. by apply Hk.
    - intros c _. unfold perform, runner_semantics, mhandle. destruct (mc_fault c) as [[]|]; simpl;
        (split; [done|]; split; [done|]; exists d0, k; split; [done|]; split; [done|]; by right). }
  apply (wp_run _ _ _ _ _ Hcs) in Hwp. destruct (run _ cs w) as [[r w'] cs'].
  destruct Hwp as (-> & Hwp). by exists w', cs'.
Qed.
End migrate.
Arguments runner : clear implicits.
Arguments mchoice : clear implicits.

(** ** The properties, on a small directory *)

(** A schema is the list of the texts that made it; one text is refused. *)
#[local] Instance sample_exec : Schema (list string) := fun sql s =>
  if String.eqb sql "syntax error" then Err (mk_error sql) else Ok (s ++ [sql]).

Definition sample_files (name : string) : string := "contents of " +:+ name.

Definition sample_runner : runner (list string) :=
  mkRunner ["002_b.sql"; "README.md"; "001_a.sql"; "003_c.sql"] sample_files
    (mkDatabase [] None) None None.

Definition undisturbed (n : nat) : mchoice (list string) := mkMChoice None None.

(** COMMIT of the second file is carried out, but its answer is lost. *)
Definition lost_commit (n : nat) : mchoice (list string) :=
  mkMChoice (if (n =? 14)%nat then Some (true, mk_error "Connection terminated") else None) None.

Example lost_commit_stops :
  let '(r, w', _) := run (migrate (Some "postgres://")) lost_commit sample_runner in
  (r, applied (m_db w'), m_exit w') = (Ok tt, ["001_a.sql"; "002_b.sql"], Some 1).
Proof. vm_compute. reflexivity. Qed.

Lemma migrate_applies_in_order_witness :
  exists w' cs', run (migrate (Some "postgres://")) lost_commit sample_runner
      = (Ok tt, w', cs') /\ m_tx w' = None
    /\ exists d0 k, schema_of d0 = []
         /\ migrated sample_files d0
              (take k (todo (m_dir sample_runner) d0)) (m_db w')
         /\ (m_exit w' = None /\ k = List.length (todo (m_dir sample_runner) d0)
             \/ m_exit w' = Some 1).
Proof.
  apply (migrate_applies_in_order (fun d => schema_of d = []) (Some "postgres://")
    sample_runner lost_commit).
  - reflexivity.
  - reflexivity.
  - reflexivity.
  - intros n o d Hd. discriminate Hd.
Defined.

Lemma migrate_completes_witness :
  exists w' cs', run (migrate (Some "postgres://")) undisturbed sample_runner
      = (Ok tt, w', cs')
    /\ all_applied sample_runner ["001_a.sql"; "002_b.sql"; "003_c.sql"]
         (sample_files <$> ["001_a.sql"; "002_b.sql"; "003_c.sql"]) w'
    /\ todo (m_dir w') (m_db w') = [].
Proof.
  apply (migrate_completes (Some "postgres://") sample_runner undisturbed).
  - reflexivity.
  - reflexivity.
  - apply (bool_decide_unpack _). vm_compute. exact I.
  - constructor.
  - vm_compute. discriminate.
  - vm_compute. reflexivity.
  - intros n o. split; reflexivity.
Defined.
