(* ===== verification/Connection.v ===== *)
(** * The cached channel and the consumer's resubscription

    [getChannel], its [invalidate] listener and [closeConnection] of
    apps/worker/src/queue/connection.ts (and of the API, which differs in the
    number of declarations), with [subscribe], [resubscribeWithBackoff] and
    [startConsumer] of apps/worker/src/consumer.ts.

    The module variables are a record; a call of an [async] function in progress
    is a position, the [await] at which it stands.  The code between two [await]s
    runs at once; between them the broker's answers, failures and close events
    come in any order.  A channel is named by the number of its connection. *)
From S2P Require Import Prelude Amqp.
#[local] Open Scope stdpp_scope.

(** ** The state *)

(** Who called [getChannel], for what comes after it. *)
Inductive caller :=
| Starter                                (* subscribe() of startConsumer *)
| Resubscriber (delayMs : Z)             (* subscribe() of resubscribeWithBackoff *)
| Publisher                              (* publishRetry, publishDeadLetter *)
| Closer.                                (* closeConnection() *)

Inductive position :=
| Connecting                             (* await amqp.connect(..) *)
| Opening (i : nat)                      (* await newConnection.createChannel() *)
| Declaring (i : nat) (k : nat)          (* await the k-th declaration *)
| Prefetching (i : nat)                  (* await channel.prefetch(1) *)
| Consuming (i : nat)                    (* await channel.consume(..) *)
| Consumed (i : nat)                     (* its answer is there, subscribe() returns *)
| Sleeping                               (* await sleep(delayMs) *)
| Closing.                               (* await channel?.close(), connection?.close() *)

Record conn := mkConn {
  connection : option nat;
  channel : option nat;
  closingIntentionally : bool;
  reconnecting : bool;
  open : gset nat;                       (* channels that are open *)
  consumers : gset nat;                  (* channels that have our consumer *)
  calls : gmap nat (caller * position);  (* async calls in progress *)
  next_id : nat;                         (* connections so far *)
  exited : bool                          (* process.exit *)
}.

Definition set_cached (i : option nat) (s : conn) : conn :=
  mkConn i i (closingIntentionally s) (reconnecting s) (open s) (consumers s) (calls s) (next_id s)
    (exited s).
Definition set_closing (b : bool) (s : conn) : conn :=
  mkConn (connection s) (channel s) b (reconnecting s) (open s) (consumers s) (calls s) (next_id s)
    (exited s).
Definition set_reconnecting (b : bool) (s : conn) : conn :=
  mkConn (connection s) (channel s) (closingIntentionally s) b (open s) (consumers s) (calls s)
    (next_id s) (exited s).
Definition set_open (o : gset nat) (n : nat) (s : conn) : conn :=
  mkConn (connection s) (channel s) (closingIntentionally s) (reconnecting s) o (consumers s)
    (calls s) n (exited s).
Definition set_consumers (c : gset nat) (s : conn) : conn :=
  mkConn (connection s) (channel s) (closingIntentionally s) (reconnecting s) (open s) c (calls s)
    (next_id s) (exited s).
Definition set_calls (m : gmap nat (caller * position)) (s : conn) : conn :=
  mkConn (connection s) (channel s) (closingIntentionally s) (reconnecting s) (open s) (consumers s)
    m (next_id s) (exited s).

Definition set_exited (s : conn) : conn :=
  mkConn (connection s) (channel s) (closingIntentionally s) (reconnecting s) (open s) (consumers s)
    (calls s) (next_id s) true.

Definition at_position (t : nat) (who : caller) (p : position) (s : conn) : conn :=
  set_calls (<[t := (who, p)]> (calls s)) s.
Definition call_done (t : nat) (s : conn) : conn := set_calls (delete t (calls s)) s.

(** ** The operations, from one [await] to the next *)

Definition RECONNECT_BASE_DELAY_MS : Z := 1000.
Definition RECONNECT_MAX_DELAY_MS : Z := 30000.

(** What the caller does with the channel that [getChannel] returned. *)
Definition got_channel (t : nat) (who : caller) (i : nat) (s : conn) : conn :=
  match who with
  | Starter | Resubscriber _ => at_position t who (Prefetching i) s
  | Publisher | Closer => call_done t s
  end.

(** [getChannel()] up to its first [await]. *)
Definition getChannel (t : nat) (who : caller) (s : conn) : conn :=
  match channel s with
  | Some i => got_channel t who i s
  | None => at_position t who Connecting (set_closing false s)
  end.

(** [resubscribeWithBackoff()], the listener of "invalidated", up to its first
    [await]; [t] names the call. *)
Definition resubscribeWithBackoff (t : nat) (s : conn) : conn :=
  if reconnecting s then s
  else getChannel t (Resubscriber RECONNECT_BASE_DELAY_MS) (set_reconnecting true s).

(** [invalidate], of the connection and channel [i]. *)
Definition invalidate (t : nat) (i : nat) (s : conn) : conn :=
  let mine (x : option nat) := bool_decide (x = Some i) in
  if negb (mine (connection s)) && negb (mine (channel s)) then s
  else if closingIntentionally s then s
  else
    resubscribeWithBackoff t
      (mkConn (if mine (connection s) then None else connection s)
              (if mine (channel s) then None else channel s)
              (closingIntentionally s) (reconnecting s) (open s) (consumers s) (calls s)
              (next_id s) (exited s)).

(** Connection and channel are assigned, and [getChannel] returns. *)
Definition getChannel_end (t : nat) (who : caller) (i : nat) (s : conn) : conn :=
  got_channel t who i (set_cached (Some i) s).

(** [subscribe()] returned. *)
Definition subscribed (t : nat) (who : caller) (s : conn) : conn :=
  match who with
  | Resubscriber _ => call_done t (set_reconnecting false s)
  | _ => call_done t s
  end.

(** Something that was awaited threw: the loop sleeps; [startConsumer] and
    [closeConnection] make the process exit; a publication throws. *)
Definition call_failed (t : nat) (who : caller) (s : conn) : conn :=
  match who with
  | Resubscriber _ => at_position t who Sleeping s
  | Publisher => call_done t s
  | Starter | Closer => set_exited (call_done t s)
  end.

(** [delayMs = Math.min(delayMs * 2, RECONNECT_MAX_DELAY_MS)], and again. *)
Definition wake_up (t : nat) (delayMs : Z) (s : conn) : conn :=
  getChannel t (Resubscriber (Z.min (delayMs * 2) RECONNECT_MAX_DELAY_MS)) s.

(** [closeConnection()], and its end, after which the process exits. *)
Definition closeConnection (t : nat) (s : conn) : conn :=
  at_position t Closer Closing (set_closing true s).
Definition closeConnection_end (t : nat) (s : conn) : conn :=
  set_exited (call_done t (set_cached None s)).

(** ** Steps *)

Section steps.
(** The number of declarations: those of the worker's or the API's topology. *)
Variable n_declarations : nat.

(** The answer to the last [await] is there, what follows it has not run. *)
Definition in_gap (i : nat) (p : position) : bool :=
  match p with
  | Declaring j k => (j =? i)%nat && (k =? n_declarations)%nat
  | Consumed j => (j =? i)%nat
  | _ => false
  end.

(** Positions whose [await] may fail. *)
Definition may_fail (p : position) : bool :=
  match p with
  | Connecting | Opening _ | Prefetching _ | Consuming _ | Closing => true
  | Declaring _ k => (k <? n_declarations)%nat
  | Consumed _ | Sleeping => false
  end.

(** [gaps]: a channel may close between an answer and what follows it;
    [overlap]: a publisher may find no channel and connect by itself; [cancels]:
    the broker may cancel a consumer whose channel stays open, of which the
    handler is told by a message [null], and [if (!msg) return]. *)
Inductive act (gaps overlap cancels : bool) (s : conn) : conn -> Prop :=
| act_publish t :
    calls s !! t = None -> (overlap = true \/ channel s <> None) ->
    act gaps overlap cancels s (getChannel t Publisher s)
| act_connected t who :
    calls s !! t = Some (who, Connecting) ->
    act gaps overlap cancels s
      (at_position t who (Opening (next_id s)) (set_open ({[ next_id s ]} ∪ open s) (S (next_id s)) s))
| act_channel t who i :
    calls s !! t = Some (who, Opening i) -> i ∈ open s ->
    act gaps overlap cancels s (at_position t who (Declaring i 0) s)
| act_declared t who i k :
    calls s !! t = Some (who, Declaring i k) -> (k < n_declarations)%nat -> i ∈ open s ->
    act gaps overlap cancels s (at_position t who (Declaring i (S k)) s)
| act_got t who i :
    calls s !! t = Some (who, Declaring i n_declarations) ->
    act gaps overlap cancels s (getChannel_end t who i s)
| act_prefetched t who i :
    calls s !! t = Some (who, Prefetching i) -> i ∈ open s ->
    act gaps overlap cancels s (at_position t who (Consuming i) s)
| act_consumed t who i :
    calls s !! t = Some (who, Consuming i) -> i ∈ open s ->
    act gaps overlap cancels s (at_position t who (Consumed i) (set_consumers ({[ i ]} ∪ consumers s) s))
| act_subscribed t who i :
    calls s !! t = Some (who, Consumed i) -> act gaps overlap cancels s (subscribed t who s)
| act_failed t who p :
    calls s !! t = Some (who, p) -> may_fail p = true ->
    act gaps overlap cancels s (call_failed t who s)
| act_wake t d :
    calls s !! t = Some (Resubscriber d, Sleeping) -> act gaps overlap cancels s (wake_up t d s)
| act_close t i :
    calls s !! t = None -> i ∈ open s ->
    (gaps = true \/ forall t' who p, calls s !! t' = Some (who, p) -> in_gap i p = false) ->
    act gaps overlap cancels s (invalidate t i (set_open (open s ∖ {[ i ]}) (next_id s) s))
| act_cancel i :
    cancels = true -> i ∈ consumers s ->
    act gaps overlap cancels s (set_consumers (consumers s ∖ {[ i ]}) s)
| act_shutdown t :
    calls s !! t = None -> act gaps overlap cancels s (closeConnection t s)
| act_closed t :
    calls s !! t = Some (Closer, Closing) -> (forall i, channel s = Some i -> i ∉ open s) ->
    act gaps overlap cancels s (closeConnection_end t s).

Definition step (gaps overlap cancels : bool) (s s' : conn) : Prop :=
  exited s = false /\ act gaps overlap cancels s s'.

(** The process starts with [startConsumer()]. *)
Definition started : conn :=
  getChannel 0 Starter (mkConn None None false false ∅ ∅ ∅ 0 false).

Definition reachable (gaps overlap cancels : bool) : conn -> Prop := rtc (step gaps overlap cancels) started.

(** ** What holds whatever happens *)

Definition loop_at (s : conn) (t : nat) (d : Z) : Prop :=
  exists p, calls s !! t = Some (Resubscriber d, p).

Record sound (s : conn) : Prop := {
  same_pair : connection s = channel s;
  one_loop t t' d d' : loop_at s t d -> loop_at s t' d' -> t = t';
  flag_of_loop t d : loop_at s t d -> reconnecting s = true;
  loop_of_flag : reconnecting s = true -> exists t d, loop_at s t d;
  delay_bounds t d : loop_at s t d -> RECONNECT_BASE_DELAY_MS <= d <= RECONNECT_MAX_DELAY_MS }.

Lemma loop_at_position t who p s t' d :
  loop_at (at_position t who p s) t' d <->
  (t' = t /\ who = Resubscriber d) \/ (t' <> t /\ loop_at s t' d).
Proof.
  unfold loop_at, at_position. simpl. setoid_rewrite lookup_insert_Some. naive_solver.
Qed.

Lemma loop_at_done t s t' d : loop_at (call_done t s) t' d <-> t' <> t /\ loop_at s t' d.
Proof. unfold loop_at, call_done. simpl. setoid_rewrite lookup_delete_Some. naive_solver. Qed.

(** The variables that [sound] does not mention. *)
Lemma sound_same s s' :
  connection s' = channel s' -> reconnecting s' = reconnecting s -> calls s' = calls s ->
  sound s -> sound s'.
Proof.
  intros Hp Hr Hc Hs. unfold loop_at in *.
  split; [done|..]; unfold loop_at; rewrite ?Hr, ?Hc; apply Hs.
Qed.

(** A call may go on as [who]. *)
Definition goes_on (t : nat) (who : caller) (s : conn) : Prop :=
  match who with
  | Resubscriber d =>
      (exists d', loop_at s t d') /\ RECONNECT_BASE_DELAY_MS <= d <= RECONNECT_MAX_DELAY_MS
  | _ => forall d, ~ loop_at s t d
  end.

Lemma goes_on_call t who p s :
  sound s -> calls s !! t = Some (who, p) -> goes_on t who s.
Proof.
  intros Hs Hc. destruct who; simpl; try (intros d [p' Hp']; by rewrite Hc in Hp').
  assert (loop_at s t delayMs) as Hl by by exists p. split; [by eexists|].
  by apply (delay_bounds _ Hs t).
Qed.

Lemma goes_on_fresh t who s :
  calls s !! t = None -> match who with Resubscriber _ => False | _ => True end -> goes_on t who s.
Proof. intros Hc. destruct who; simpl; try done; intros _ d [p Hp]; by rewrite Hc in Hp. Qed.

Lemma sound_at t who p s : sound s -> goes_on t who s -> sound (at_position t who p s).
Proof.
  unfold goes_on.
  intros [H1 H2 H3 H4 H5] Hw. split; [done|..]; repeat setoid_rewrite loop_at_position.
  - intros t1 t2 d1 d2 [[-> ->]|[? ?]] [[-> Hx]|[? ?]]; [done| | |by eapply H2];
      destruct Hw as [[d' ?] _] || (subst who; destruct Hw as [[d' ?] _]); exfalso; eauto.
  - intros t1 d1 [[-> ->]|[? ?]]; [destruct Hw as [[d' ?] _]|]; by eapply H3.
  - intros Hr. destruct (H4 Hr) as (t1 & d1 & Hl). destruct (decide (t1 = t)) as [->|]; [|eauto 10].
    destruct who; try by destruct (Hw d1). eauto 10.
  - intros t1 d1 [[-> ->]|[? ?]]; [by destruct Hw|by eapply H5].
Qed.

Lemma sound_done t s : sound s -> (forall d, ~ loop_at s t d) -> sound (call_done t s).
Proof.
  intros [H1 H2 H3 H4 H5] Hw. split; [done|..]; repeat setoid_rewrite loop_at_done.
  - intros t1 t2 d1 d2 [_ ?] [_ ?]. by eapply H2.
  - intros t1 d1 [_ ?]. by eapply H3.
  - intros Hr. destruct (H4 Hr) as (t1 & d1 & Hl). exists t1, d1. split; [|done].
    intros ->. by destruct (Hw d1).
  - intros t1 d1 [_ ?]. by eapply H5.
Qed.

Lemma sound_loop_end t d s :
  sound s -> loop_at s t d -> sound (call_done t (set_reconnecting false s)).
Proof.
  intros [H1 H2 H3 H4 H5] Hl. split; [done|..]; repeat setoid_rewrite loop_at_done;
    [|intros t1 d1 [Hne ?]; destruct Hne; by eapply H2|done|intros t1 d1 [_ ?]; by eapply H5].
  intros t1 t2 d1 d2 [_ ?] [_ ?]. by eapply H2.
Qed.

Lemma sound_loop_start t p s :
  sound s -> reconnecting s = false ->
  sound (at_position t (Resubscriber RECONNECT_BASE_DELAY_MS) p (set_reconnecting true s)).
Proof.
  intros [H1 H2 H3 H4 H5] Hr.
  assert (forall t' d, ~ loop_at s t' d) as Hno by (intros t' d Hl; by rewrite (H3 t' d Hl) in Hr).
  split; [done|..]; repeat setoid_rewrite loop_at_position.
  - intros t1 t2 d1 d2 [[-> _]|[_ Hl]] [[-> _]|[_ Hl2]]; [done|..];
      first [by destruct (Hno _ _ Hl) | by destruct (Hno _ _ Hl2)].
  - done.
  - intros _. exists t. eauto.
  - intros t1 d1 [[-> [= <-]]|[_ Hl]]; [|by destruct (Hno _ _ Hl)].
    unfold RECONNECT_BASE_DELAY_MS, RECONNECT_MAX_DELAY_MS. lia.
Qed.

Lemma sound_got t who i s : sound s -> goes_on t who s -> sound (got_channel t who i s).
Proof.
  intros Hs Hg. destruct who; simpl; [by apply sound_at|by apply sound_at|by apply sound_done..].
Qed.

Lemma sound_getChannel t who s : sound s -> goes_on t who s -> sound (getChannel t who s).
Proof.
  intros Hs Hg. unfold getChannel. destruct (channel s); [by apply sound_got|].
  apply sound_at; [|done]. eapply sound_same; [| | |exact Hs]; [apply Hs|done..].
Qed.

Lemma sound_invalidate t i s : sound s -> sound (invalidate t i s).
Proof.
  intros Hs. unfold invalidate. destruct (negb _ && negb _); [done|].
  destruct (closingIntentionally s); [done|]. set (s1 := mkConn _ _ _ _ _ _ _ _ _).
  assert (sound s1) as Hs1.
  { eapply sound_same; [| | |exact Hs]; [|done..]. simpl. by rewrite (same_pair _ Hs). }
  unfold resubscribeWithBackoff. destruct (reconnecting s1) eqn:Hr; [done|].
  unfold getChannel. destruct (channel (set_reconnecting true s1)).
  - by apply sound_loop_start.
  - change (set_closing false (set_reconnecting true s1)) with
      (set_reconnecting true (set_closing false s1)).
    apply sound_loop_start; [|done]. eapply sound_same; [| | |exact Hs1]; [apply Hs1|done..].
Qed.

(** A step keeps [sound], whatever is allowed. *)
Lemma sound_act gaps overlap cancels s s' : sound s -> act gaps overlap cancels s s' -> sound s'.
Proof.
  assert (forall s s', connection s' = connection s -> channel s' = channel s ->
    reconnecting s' = reconnecting s -> calls s' = calls s -> sound s -> sound s') as Hsame.
  { intros s1 s2 Hn Hc Hr Hk H1. eapply sound_same; [|done..|exact H1]. rewrite Hn, Hc. apply H1. }
  intros Hs Ha. destruct Ha as [t Ht Hc|t who Ht|t who i Ht Hi|t who i k Ht Hk Hi|t who i Ht|t who i Ht Hi
    |t who i Ht Hi|t who i Ht|t who p Ht Hf|t d Ht|t i Ht Hi Hgap|i Hcan Hi|t Ht|t Ht Hc].
  - apply sound_getChannel; [done|]. by apply goes_on_fresh.
  - apply sound_at; [by apply (Hsame s)|]. by apply (goes_on_call t who Connecting s).
  - eapply sound_at, goes_on_call; done.
  - eapply sound_at, goes_on_call; done.
  - apply sound_got; [by apply (sound_same s)|]. by apply (goes_on_call t who (Declaring i n_declarations) s).
  - eapply sound_at, goes_on_call; done.
  - apply sound_at; [by apply (Hsame s)|]. by apply (goes_on_call t who (Consuming i) s).
  - pose proof (goes_on_call _ _ _ _ Hs Ht) as Hg. destruct who; simpl in *;
      [by apply sound_done| |by apply sound_done..].
    eapply sound_loop_end; [done|by eexists].
  - pose proof (goes_on_call _ _ _ _ Hs Ht) as Hg. destruct who; simpl;
      [|by apply sound_at|by apply sound_done|];
      (apply (Hsame (call_done t s)); try done; by apply sound_done).
  - apply sound_getChannel; [done|]. pose proof (goes_on_call _ _ _ _ Hs Ht) as [Hl Hb].
    split; [done|]. unfold RECONNECT_BASE_DELAY_MS, RECONNECT_MAX_DELAY_MS in *. lia.
  - apply sound_invalidate. by apply (Hsame s).
  - by apply (Hsame s).
  - apply sound_at; [by apply (Hsame s)|]. by apply (goes_on_fresh t Closer s).
  - eapply sound_same; [| | |apply (sound_done t s Hs)]; try done.
    apply (goes_on_call _ _ _ _ Hs Ht).
Qed.

Lemma started_sound : sound started.
Proof.
  unfold started, getChannel. simpl. apply sound_at; [|].
  - split; simpl; try done; [|intros t d [p Hp]; done|intros t d [p Hp]; done].
    intros t t' d d' [p Hp]. done.
  - intros d [p Hp]. done.
Qed.

Lemma reachable_sound gaps overlap cancels s : reachable gaps overlap cancels s -> sound s.
Proof.
  revert s. apply rtc_ind_r; [apply started_sound|]. intros s1 s2 _ [_ Ha] IH. by eapply sound_act.
Qed.
End steps.
