(* ===== verification/Listening.v ===== *)
(** * Does the worker listen?

    The worker's queue connection ([Connection]): that the resubscription loop is
    single whatever happens; that the queue stays attended as long as no publisher
    connects by itself, no channel closes at the wrong moment and no consumer is
    cancelled; and that it may be left alone otherwise. *)
From S2P Require Import Prelude Amqp Connection.
#[local] Open Scope stdpp_scope.

Section calm.
Variable n_declarations : nat.
#[local] Abbreviation act := (act n_declarations).
#[local] Abbreviation step := (step n_declarations).
#[local] Abbreviation reachable := (reachable n_declarations).
#[local] Abbreviation in_gap := (in_gap n_declarations).
#[local] Abbreviation may_fail := (may_fail n_declarations).

(** ** Neither gaps nor overlapping connections *)

Definition subscriber (who : caller) : Prop :=
  match who with Starter | Resubscriber _ => True | Publisher | Closer => False end.

(** On the way to a connection: no channel is cached. *)
Definition connecting (p : position) : bool :=
  match p with Connecting | Opening _ | Declaring _ _ => true | _ => false end.

Definition call_ok (s : conn) (c : caller * position) : Prop :=
  let '(who, p) := c in
  match p with
  | Connecting => channel s = None /\ subscriber who
  | Opening i => channel s = None /\ subscriber who /\ (i < next_id s)%nat
  | Declaring i k =>
      channel s = None /\ subscriber who /\ (i < next_id s)%nat
      /\ (k <= n_declarations)%nat /\ (k = n_declarations -> i ∈ open s)
  | Prefetching i | Consuming i =>
      (i ∈ open s -> channel s = Some i) /\ subscriber who /\ (i < next_id s)%nat
  | Consumed i =>
      channel s = Some i /\ subscriber who /\ i ∈ open s /\ i ∈ consumers s
  | Sleeping => exists d, who = Resubscriber d
  | Closing => who = Closer
  end.

Definition shutting_down (s : conn) : Prop := exists t, calls s !! t = Some (Closer, Closing).

(** Messages are consumed, or something is under way that will see to it. *)
Definition attended (s : conn) : Prop :=
  (exists i, channel s = Some i /\ i ∈ open s /\ i ∈ consumers s)
  \/ (exists t who p, calls s !! t = Some (who, p) /\ subscriber who)
  \/ shutting_down s.

Record calm (s : conn) : Prop := {
  calm_calls : map_Forall (fun _ => call_ok s) (calls s);
  calm_one t t' who who' p p' :
    calls s !! t = Some (who, p) -> calls s !! t' = Some (who', p') ->
    connecting p = true -> connecting p' = true -> t = t';
  calm_starter t p :
    calls s !! t = Some (Starter, p) -> connecting p = true -> reconnecting s = false;
  calm_channel i : channel s = Some i -> (i < next_id s)%nat /\ (i ∈ open s \/ shutting_down s);
  calm_open i : i ∈ open s -> (i < next_id s)%nat;
  calm_closing : closingIntentionally s = true -> shutting_down s;
  calm_attended : attended s }.

(** A call moves on, nothing else changes but what [s'] says. *)
Lemma calm_at t who p s s' :
  calm s ->
  calls s' = <[t := (who, p)]> (calls s) ->
  (forall t' c, t' <> t -> calls s !! t' = Some c -> call_ok s c -> call_ok s' c) ->
  call_ok s' (who, p) -> subscriber who ->
  (forall who', calls s !! t <> Some (who', Closing)) ->
  (connecting p = true -> forall t' who' p',
     t' <> t -> calls s !! t' = Some (who', p') -> connecting p' = false) ->
  (forall t' p', calls s' !! t' = Some (Starter, p') -> connecting p' = true ->
     reconnecting s' = false) ->
  (forall i, channel s' = Some i ->
     (i < next_id s')%nat /\ (i ∈ open s' \/ (shutting_down s /\ channel s = Some i))) ->
  (forall i, i ∈ open s' -> (i < next_id s')%nat) ->
  (closingIntentionally s' = true -> closingIntentionally s = true) ->
  calm s'.
Proof.
  intros [H1 H2 _ H3 H4 H5 H6] Hc Hall Hok Hsub Hnc Hone Hst Hch Hop Hcl.
  assert (shutting_down s -> shutting_down s') as Hsd.
  { intros [t' Ht']. exists t'. rewrite Hc, lookup_insert_ne; [done|]. intros ->. by eapply Hnc. }
  split.
  - rewrite Hc. intros t' c [[<- <-]|[Hne Ht']]%lookup_insert_Some; [done|].
    apply (Hall t'); [done|done|by apply (H1 t')].
  - rewrite Hc. intros t1 t2 w1 w2 p1 p2 [[-> [= -> ->]]|[Hn1 Ht1]]%lookup_insert_Some
      [[-> [= -> ->]]|[Hn2 Ht2]]%lookup_insert_Some Hp1 Hp2; [done|..|by eapply H2].
    + by rewrite (Hone Hp1 t2 w2 p2) in Hp2.
    + by rewrite (Hone Hp2 t1 w1 p1) in Hp1.
  - exact Hst.
  - intros i Hi. destruct (Hch i Hi) as [? [?|[? ?]]]; auto.
  - done.
  - auto.
  - right. left. exists t, who, p. by rewrite Hc, lookup_insert_eq.
Qed.

Lemma calm_done t s who p :
  calm s -> calls s !! t = Some (who, p) -> p <> Closing -> attended (call_done t s) ->
  calm (call_done t s).
Proof.
  intros [H1 H2 H3 H4 H5 H6 _] Ht Hp Ha.
  assert (shutting_down s -> shutting_down (call_done t s)) as Hsd.
  { intros [t' Ht']. exists t'. simpl. rewrite lookup_delete_ne; [done|]. congruence. }
  split; simpl.
  - by apply map_Forall_delete.
  - intros t1 t2 w1 w2 p1 p2 [_ Ht1]%lookup_delete_Some [_ Ht2]%lookup_delete_Some. by eapply H2.
  - intros t1 p1 [_ Ht1]%lookup_delete_Some. by eapply H3.
  - intros i Hi. destruct (H4 i Hi) as [? [?|?]]; auto.
  - done.
  - auto.
  - done.
Qed.

(** The calls after a close event outside the gaps; [c'] is the cached channel
    after it. *)
Lemma calls_after_close i c' s s' :
  calm s -> (forall t who p, calls s !! t = Some (who, p) -> in_gap i p = false) ->
  calls s' = calls s -> open s' = open s ∖ {[ i ]} -> consumers s' = consumers s ->
  next_id s' = next_id s -> channel s' = c' -> (c' = channel s \/ c' = None /\ channel s = Some i) ->
  map_Forall (fun _ => call_ok s') (calls s').
Proof.
  intros Hs Hgap Hc Ho Hk Hn Hch Hcase. rewrite Hc. intros t [who p] Ht.
  pose proof (calm_calls _ Hs t _ Ht) as Hok. specialize (Hgap t who p Ht).
  destruct p as [|j|j k|j|j|j| |]; simpl in *; rewrite ?Ho, ?Hk, ?Hn, ?Hch.
  - destruct Hok. split; [|done]. destruct Hcase as [->|[-> ?]]; [done|congruence].
  - destruct Hok. split; [|done]. destruct Hcase as [->|[-> ?]]; [done|congruence].
  - destruct Hok as (Hnone & Hsub & Hlt & Hle & Hop). split; [|split; [done|split; [done|split; [done|]]]].
    + destruct Hcase as [->|[-> ?]]; [done|congruence].
    + intros ->. apply elem_of_difference. split; [by apply Hop|]. rewrite not_elem_of_singleton.
      intros ->. by rewrite !Nat.eqb_refl in Hgap.
  - destruct Hok as (Hop & Hsub & Hlt). split; [|done]. intros [Hin Hne]%elem_of_difference.
    rewrite not_elem_of_singleton in Hne. destruct Hcase as [->|[-> ?]]; [by apply Hop|].
    specialize (Hop Hin). congruence.
  - destruct Hok as (Hop & Hsub & Hlt). split; [|done]. intros [Hin Hne]%elem_of_difference.
    rewrite not_elem_of_singleton in Hne. destruct Hcase as [->|[-> ?]]; [by apply Hop|].
    specialize (Hop Hin). congruence.
  - destruct Hok as (Hcj & Hsub & Hop & Hco). apply Nat.eqb_neq in Hgap.
    split; [|split; [done|split; [|done]]].
    + destruct Hcase as [->|[-> ?]]; [done|congruence].
    + set_solver.
  - done.
  - done.
Qed.

Lemma calm_close t i s :
  sound s -> calm s -> calls s !! t = None -> i ∈ open s ->
  (forall t who p, calls s !! t = Some (who, p) -> in_gap i p = false) ->
  calm (invalidate t i (set_open (open s ∖ {[ i ]}) (next_id s) s)).
Proof.
  intros Hs Hm Ht Hi Hgap. pose proof Hm as [H1 H2 H3 H4 H5 H6 H7].
  assert (forall c' s', calls s' = calls s -> open s' = open s ∖ {[ i ]} ->
    consumers s' = consumers s -> next_id s' = next_id s -> channel s' = c' ->
    (c' = channel s \/ c' = None /\ channel s = Some i) -> reconnecting s' = reconnecting s ->
    closingIntentionally s' = closingIntentionally s ->
    (channel s' = Some i -> shutting_down s) -> attended s' -> calm s') as Hclosed.
  { intros c' s' Hc Ho Hk Hn Hch Hcase Hr Hcl Hx Ha.
    assert (shutting_down s -> shutting_down s') as Hsd by (unfold shutting_down; by rewrite Hc).
    split; [by eapply calls_after_close|..]; rewrite ?Hc, ?Ho, ?Hn, ?Hr, ?Hcl; try done.
    - intros j Hj. assert (channel s = Some j) as Hsj.
      { destruct Hcase as [->|[-> ?]]; [by rewrite <- Hj|]. congruence. }
      destruct (H4 j Hsj) as [? Hor]. split; [done|]. destruct (decide (j = i)) as [->|Hne].
      + right. by apply Hsd, Hx.
      + destruct Hor as [?|?]; [left; set_solver|right; by apply Hsd].
    - intros j [Hj _]%elem_of_difference. by apply H5.
    - intros. by apply Hsd, H6. }
  unfold invalidate. simpl. rewrite (same_pair _ Hs). case_bool_decide as Hch; simpl.
  - destruct (closingIntentionally s) eqn:Hcl.
    + apply (Hclosed (channel s)); try done; [by left|by intros _; apply H6|].
      right. right. by apply H6.
    + unfold resubscribeWithBackoff. simpl. destruct (reconnecting s) eqn:Hr.
      * apply (Hclosed None); try done; [by right|]. right. left.
        destruct (loop_of_flag _ Hs Hr) as (t' & d & p & Hl). by exists t', (Resubscriber d), p.
      * unfold getChannel. simpl.
        assert (forall t' who p, calls s !! t' = Some (who, p) -> connecting p = false) as Hnc.
        { intros t' who p Ht'. pose proof (H1 t' _ Ht') as Hok.
          destruct p; simpl in *; try done; destruct Hok; congruence. }
        set (s1 := mkConn None None false true (open s ∖ {[ i ]}) (consumers s)
                     (<[t := (Resubscriber RECONNECT_BASE_DELAY_MS, Connecting)]> (calls s))
                     (next_id s) (exited s)).
        assert (shutting_down s -> shutting_down s1) as Hsd.
        { intros [t' Ht']. exists t'. simpl. rewrite lookup_insert_ne; congruence. }
        split; simpl.
        -- apply map_Forall_insert_2; [done|].
           by apply (calls_after_close i None s (set_calls (calls s) s1)); try done; right.
        -- intros t1 t2 w1 w2 p1 p2 [[<- _]|[_ Ht1]]%lookup_insert_Some
             [[<- _]|[_ Ht2]]%lookup_insert_Some Hp1 Hp2; [done|..];
             first [by rewrite (Hnc _ _ _ Ht1) in Hp1 | by rewrite (Hnc _ _ _ Ht2) in Hp2].
        -- intros t1 p1 [[_ ?]|[_ Ht1]]%lookup_insert_Some Hp1; [done|].
           by rewrite (Hnc _ _ _ Ht1) in Hp1.
        -- done.
        -- intros j [Hj _]%elem_of_difference. by apply H5.
        -- done.
        -- right. left. exists t. simpl. rewrite lookup_insert_eq.
           by exists (Resubscriber RECONNECT_BASE_DELAY_MS), Connecting.
  - apply (Hclosed (channel s)); try done; [by left|].
    destruct H7 as [(j & Hj & Ho & Hk)|[?|?]]; [left|right; by left|right; by right].
    exists j. split; [done|]. split; [|done]. simpl. set_solver.
Qed.

(** Only the call moves. *)
Lemma calm_move t who p p0 s :
  calm s -> calls s !! t = Some (who, p0) -> p0 <> Closing -> call_ok s (who, p) -> subscriber who ->
  (connecting p = true -> connecting p0 = true) -> calm (at_position t who p s).
Proof.
  intros Hm Ht Hp0 Hok Hsub Hcon. pose proof Hm as [H1 H2 H3 H4 H5 H6 H7].
  eapply (calm_at t who p s); try done.
  - intros who' Ht'. congruence.
  - intros Hp t' who' p' Hne Ht'. destruct (connecting p') eqn:Hp'; [|done].
    destruct Hne. eapply H2; [exact Ht'|exact Ht|done|by apply Hcon].
  - intros t' p'. simpl. intros [[-> [= -> ->]]|[_ Ht']]%lookup_insert_Some Hp; [|by eapply H3].
    eapply H3; [exact Ht|by apply Hcon].
  - intros i Hi. destruct (H4 i Hi). tauto.
Qed.

(** While a call is on its way to a connection, it is the only one. *)
Lemma calm_only t who p s :
  calm s -> calls s !! t = Some (who, p) -> connecting p = true ->
  forall t' who' p', t' <> t -> calls s !! t' = Some (who', p') -> connecting p' = false.
Proof.
  intros Hm Ht Hp t' who' p' Hne Ht'. destruct (connecting p') eqn:Hp'; [|done].
  destruct Hne. by eapply (calm_one _ Hm).
Qed.

Lemma calm_connected t who s :
  calm s -> calls s !! t = Some (who, Connecting) ->
  calm (at_position t who (Opening (next_id s)) (set_open ({[ next_id s ]} ∪ open s) (S (next_id s)) s)).
Proof.
  intros Hm Ht. pose proof Hm as [H1 H2 H3 H4 H5 H6 H7].
  destruct (H1 _ _ Ht) as [Hnone Hsub].
  eapply (calm_at t who _ s); try done; simpl.
  - intros t' [who' p'] Hne Ht' Hok. destruct p' as [|j|j k|j|j|j| |]; simpl in *; try done.
    + destruct Hok as (? & ? & ?). split; [done|]. split; [done|]. lia.
    + destruct Hok as (? & ? & ? & ? & Hop). split; [done|]. split; [done|]. split; [lia|].
      split; [done|]. intros Hk. apply elem_of_union_r. by apply Hop.
    + destruct Hok as (Hop & ? & ?). split; [|split; [done|lia]]. intros [Hj|Hj]%elem_of_union; [|by apply Hop].
      apply elem_of_singleton in Hj. lia.
    + destruct Hok as (Hop & ? & ?). split; [|split; [done|lia]]. intros [Hj|Hj]%elem_of_union; [|by apply Hop].
      apply elem_of_singleton in Hj. lia.
    + destruct Hok as (? & ? & ? & ?). split; [done|]. split; [done|]. split; [|done].
      by apply elem_of_union_r.
  - split; [done|]. split; [done|]. lia.
  - intros who' Ht'. congruence.
  - intros _. by eapply calm_only.
  - intros t' p' [[_ [= -> <-]]|[_ Ht']]%lookup_insert_Some Hp; [|by eapply H3]. by eapply (H3 _ _ Ht).
  - intros i Hi. congruence.
  - intros i [->%elem_of_singleton|Hi]%elem_of_union; [lia|]. specialize (H5 i Hi). lia.
Qed.

Lemma calm_got t who i s :
  calm s -> calls s !! t = Some (who, Declaring i n_declarations) ->
  calm (getChannel_end t who i s).
Proof.
  intros Hm Ht. pose proof Hm as [H1 H2 H3 H4 H5 H6 H7].
  destruct (H1 _ _ Ht) as (Hnone & Hsub & Hlt & _ & Hop). specialize (Hop eq_refl).
  assert (getChannel_end t who i s = at_position t who (Prefetching i) (set_cached (Some i) s)) as ->
    by (by destruct who).
  eapply (calm_at t who _ s); try done; simpl.
  - intros t' [who' p'] Hne Ht' Hok.
    assert (connecting p' = false) as Hp' by by eapply (calm_only t who _ s).
    destruct p' as [|j|j k|j|j|j| |]; simpl in *; try done.
    + destruct Hok as (Hj & ?). split; [|done]. intros Hin. specialize (Hj Hin). congruence.
    + destruct Hok as (Hj & ?). split; [|done]. intros Hin. specialize (Hj Hin). congruence.
    + destruct Hok as (Hj & ?). congruence.
  - intros who' Ht'. congruence.
  - intros t' p' [[-> [= -> <-]]|[Hne Ht']]%lookup_insert_Some Hp; [done|].
    by rewrite (calm_only t who _ s Hm Ht eq_refl t' _ _ (not_eq_sym Hne) Ht') in Hp.
  - intros j [= <-]. split; [done|by left].
Qed.

Lemma calm_consumed t who i s :
  calm s -> calls s !! t = Some (who, Consuming i) -> i ∈ open s ->
  calm (at_position t who (Consumed i) (set_consumers ({[ i ]} ∪ consumers s) s)).
Proof.
  intros Hm Ht Hi. pose proof Hm as [H1 H2 H3 H4 H5 H6 H7].
  destruct (H1 _ _ Ht) as (Hch & Hsub & Hlt). specialize (Hch Hi).
  eapply (calm_at t who _ s); try done; simpl.
  - intros t' [who' p'] Hne Ht' Hok. destruct p' as [|j|j k|j|j|j| |]; simpl in *; try done.
    destruct Hok as (? & ? & ? & ?). split; [done|]. split; [done|]. split; [done|].
    by apply elem_of_union_r.
  - split; [done|]. split; [done|]. split; [done|]. apply elem_of_union_l. by apply elem_of_singleton.
  - intros who' Ht'. congruence.
  - intros t' p' [[-> [= -> <-]]|[_ Ht']]%lookup_insert_Some Hp; [done|by eapply H3].
  - intros j Hj. destruct (H4 j Hj). tauto.
Qed.

(** A loop that wakes up finds the cached channel, or connects. *)
Lemma calm_wake t d s :
  sound s -> calm s -> calls s !! t = Some (Resubscriber d, Sleeping) -> calm (wake_up t d s).
Proof.
  intros Hs Hm Ht. pose proof Hm as [H1 H2 H3 H4 H5 H6 H7].
  set (d' := Z.min (d * 2) RECONNECT_MAX_DELAY_MS).
  assert (loop_at s t d) as Hl by by eexists.
  assert (reconnecting s = true) as Hr by by apply (flag_of_loop _ Hs t d).
  assert (forall t' who p, calls s !! t' = Some (who, p) -> connecting p = false) as Hnc.
  { intros t' who p Ht'. destruct (connecting p) eqn:Hp; [|done].
    pose proof (H1 _ _ Ht') as Hok. assert (subscriber who) as Hsub
      by (destruct p; simpl in Hok; try done; tauto).
    destruct who; try done; [by rewrite (H3 _ _ Ht' Hp) in Hr|].
    assert (t' = t) as -> by (eapply (one_loop _ Hs); [by eexists|exact Hl]).
    rewrite Ht in Ht'. injection Ht' as _ <-. done. }
  assert (forall p' s', calls s' = <[t := (Resubscriber d', p')]> (calls s) ->
    channel s' = channel s -> open s' = open s -> consumers s' = consumers s ->
    next_id s' = next_id s -> (closingIntentionally s' = true -> closingIntentionally s = true) ->
    call_ok s' (Resubscriber d', p') -> calm s') as Hgo.
  { intros p' s' Hc Hch Ho Hk Hn Hcl Hok. eapply (calm_at t (Resubscriber d') p' s); try done.
    - intros t' [who p] Hne Ht' Hok'. destruct p; simpl in *; by rewrite ?Hch, ?Ho, ?Hk, ?Hn.
    - intros who Ht'. congruence.
    - intros _ t' who p _ Ht'. by eapply Hnc.
    - rewrite Hc. intros t' p [[_ ?]|[_ Ht']]%lookup_insert_Some Hp; [done|].
      by rewrite (Hnc _ _ _ Ht') in Hp.
    - intros i. rewrite Hch, Hn, Ho. intros Hi. destruct (H4 i Hi). tauto.
    - by rewrite Ho, Hn. }
  unfold wake_up. fold d'. unfold getChannel. destruct (channel s) as [i|] eqn:Hch.
  - eapply (Hgo (Prefetching i)); try done. simpl. split; [done|]. split; [done|]. by apply H4.
  - by eapply (Hgo Connecting).
Qed.

(** Without gaps and without overlap a step keeps [calm], until the process
    exits. *)
Lemma calm_act s s' :
  sound s -> calm s -> act false false false s s' -> exited s' = true \/ calm s'.
Proof.
  intros Hs Hm Ha. pose proof Hm as [H1 H2 H3 H4 H5 H6 H7].
  destruct Ha as [t Ht Hc|t who Ht|t who i Ht Hi|t who i k Ht Hk Hi|t who i Ht|t who i Ht Hi
    |t who i Ht Hi|t who i Ht|t who p Ht Hf|t d Ht|t i Ht Hi Hgap|i Hcan Hi|t Ht|t Ht Hc];
    try (pose proof (H1 _ _ Ht) as Hok; simpl in Hok).
  - right. destruct Hc as [|Hc]; [done|]. unfold getChannel.
    destruct (channel s) as [i|] eqn:Hch; [|done]. simpl. unfold call_done.
    rewrite delete_id by done. by destruct s.
  - right. by apply calm_connected.
  - right. destruct Hok as (? & ? & ?). eapply calm_move; try done. repeat split; first [done|lia].
  - right. destruct Hok as (? & ? & ? & ?). eapply calm_move; try done.
  - right. by apply calm_got.
  - right. destruct Hok as (? & ? & ?). by eapply calm_move.
  - right. by apply calm_consumed.
  - right. destruct Hok as (Hch & Hsub & Ho & Hk).
    assert (calm (call_done t s)) as Hd.
    { eapply calm_done; [done|done|done|]. left. by exists i. }
    destruct who; try done. destruct Hd as [D1 D2 D3 D4 D5 D6 D7]. split; try done.
  - destruct who as [|d| |]; simpl; [by left| | |by left].
    + right. destruct p; try done; (eapply calm_move; try done); simpl; try done; by eexists.
    + exfalso. destruct p; simpl in *; try done; tauto.
  - right. by apply calm_wake.
  - right. destruct Hgap as [|Hgap]; [done|]. by apply calm_close.
  - done.
  - right. simpl.
    assert (shutting_down (closeConnection t s)) as Hsd
      by (exists t; simpl; by rewrite lookup_insert_eq).
    split; try done; simpl.
    + apply map_Forall_insert_2; [done|]. exact H1.
    + intros t1 t2 w1 w2 p1 p2 [[_ [= <- <-]]|[_ Ht1]]%lookup_insert_Some
        [[_ [= <- <-]]|[_ Ht2]]%lookup_insert_Some; try done. by eapply H2.
    + intros t1 p1 [[_ ?]|[_ Ht1]]%lookup_insert_Some; [done|by eapply H3].
    + intros i Hi. destruct (H4 i Hi). split; [done|]. by right.
    + right. by right.
  - by left.
Qed.

Lemma started_calm : calm started.
Proof.
  unfold started, getChannel. simpl. split; simpl.
  - apply map_Forall_insert_2; [done|apply map_Forall_empty].
  - intros t t' w w' p p' [<- _]%lookup_singleton_Some [<- _]%lookup_singleton_Some. done.
  - done.
  - done.
  - intros i Hi. set_solver.
  - done.
  - right. left. by exists 0%nat, Starter, Connecting.
Qed.

Lemma reachable_calm s : reachable false false false s -> exited s = true \/ calm s.
Proof.
  revert s. apply rtc_ind_r; [right; apply started_calm|]. intros s1 s2 Hr [He Ha] IH.
  destruct IH as [IH|IH]; [congruence|]. eapply calm_act; [by eapply reachable_sound|done|done].
Qed.

(** ** The way back to a consumer *)

Definition listening (s : conn) : Prop :=
  exists i, channel s = Some i /\ i ∈ open s /\ i ∈ consumers s.

Definition recovers (s : conn) : Prop := exists s', rtc (step false false false) s s' /\ listening s'.

Lemma recovers_step s s' :
  exited s = false -> act false false false s s' -> recovers s' -> recovers s.
Proof. intros He Ha (s2 & Hr & Hl). exists s2. split; [|done]. by eapply rtc_l; [split|]. Qed.

Lemma recovers_consuming t who i s :
  exited s = false -> calls s !! t = Some (who, Consuming i) -> i ∈ open s -> channel s = Some i ->
  recovers s.
Proof.
  intros He Ht Hi Hc. eapply recovers_step; [done|by eapply act_consumed|].
  eexists. split; [done|]. exists i. split; [done|]. split; [done|]. simpl.
  apply elem_of_union_l. by apply elem_of_singleton.
Qed.

Lemma recovers_prefetching t who i s :
  exited s = false -> calls s !! t = Some (who, Prefetching i) -> i ∈ open s -> channel s = Some i ->
  recovers s.
Proof.
  intros He Ht Hi Hc. eapply recovers_step; [done|by eapply act_prefetched|].
  eapply (recovers_consuming t who i); try done. apply lookup_insert_eq.
Qed.

Lemma recovers_declaring t who i k s :
  exited s = false -> calls s !! t = Some (who, Declaring i k) -> subscriber who ->
  (k <= n_declarations)%nat -> i ∈ open s -> recovers s.
Proof.
  intros He Ht Hw Hk Hi. remember (n_declarations - k)%nat as m eqn:Hm.
  revert k s He Ht Hk Hi Hm. induction m as [|m IH]; intros k s He Ht Hk Hi Hm.
  - assert (k = n_declarations) as -> by lia.
    eapply recovers_step; [done|by eapply act_got|].
    assert (getChannel_end t who i s = at_position t who (Prefetching i) (set_cached (Some i) s)) as ->
      by (by destruct who).
    eapply (recovers_prefetching t who i); try done. apply lookup_insert_eq.
  - eapply recovers_step; [done|eapply act_declared; [done|lia|done]|].
    eapply (IH (S k)); try done; [apply lookup_insert_eq|lia|lia].
Qed.

Lemma recovers_connecting t who s :
  exited s = false -> calls s !! t = Some (who, Connecting) -> subscriber who -> recovers s.
Proof.
  intros He Ht Hw. eapply recovers_step; [done|by eapply act_connected|].
  set (i := next_id s). set (s1 := at_position _ _ _ _).
  assert (i ∈ open s1) as Hi by (apply elem_of_union_l; by apply elem_of_singleton).
  eapply (recovers_step s1); [done|apply (act_channel _ _ _ _ _ t who i); [apply lookup_insert_eq|done]|].
  eapply (recovers_declaring t who i 0); try done; [apply lookup_insert_eq|lia].
Qed.

Lemma recovers_sleeping t d s :
  sound s -> calm s -> exited s = false -> ~ shutting_down s ->
  calls s !! t = Some (Resubscriber d, Sleeping) -> recovers s.
Proof.
  intros Hs Hm He Hsd Ht. eapply recovers_step; [done|by eapply act_wake|].
  unfold wake_up, getChannel. destruct (channel s) as [i|] eqn:Hc; simpl.
  - destruct (calm_channel _ Hm i Hc) as [_ [Hi|?]]; [|done].
    eapply (recovers_prefetching t _ i); try done. apply lookup_insert_eq.
  - eapply (recovers_connecting t); [done|apply lookup_insert_eq|done].
Qed.

(** A loop whose last attempt failed sleeps, and then tries again. *)
Lemma recovers_failed t d p s :
  sound s -> calm s -> exited s = false -> ~ shutting_down s ->
  calls s !! t = Some (Resubscriber d, p) -> may_fail p = true -> recovers s.
Proof.
  intros Hs Hm He Hsd Ht Hf.
  assert (act false false false s (at_position t (Resubscriber d) Sleeping s)) as Ha
    by exact (act_failed _ false false false s t (Resubscriber d) p Ht Hf).
  assert (p <> Closing) as Hp by (intros ->; by pose proof (calm_calls _ Hm _ _ Ht)).
  eapply recovers_step; [done|exact Ha|]. eapply (recovers_sleeping t d).
  - by eapply sound_act.
  - eapply calm_move; try done. by eexists.
  - done.
  - intros [t' Ht']. simpl in Ht'. apply lookup_insert_Some in Ht' as [[_ ?]|[_ Ht']]; [done|].
    apply Hsd. by exists t'.
  - apply lookup_insert_eq.
Qed.

Lemma loop_recovers t d s :
  sound s -> calm s -> exited s = false -> ~ shutting_down s -> loop_at s t d -> recovers s.
Proof.
  intros Hs Hm He Hsd [p Ht]. pose proof (calm_calls _ Hm _ _ Ht) as Hok.
  destruct p as [|i|i k|i|i|i| |]; simpl in Hok.
  - by eapply recovers_connecting.
  - by eapply recovers_failed.
  - destruct Hok as (_ & Hw & _ & Hle & Hi). destruct (decide (k = n_declarations)) as [->|Hne].
    + eapply recovers_declaring; try done. by apply Hi.
    + eapply recovers_failed; try done. apply Nat.ltb_lt. lia.
  - by eapply recovers_failed.
  - by eapply recovers_failed.
  - destruct Hok as (Hc & _ & Ho & Hk). exists s. split; [done|]. by exists i.
  - by eapply recovers_sleeping.
  - done.
Qed.

(** ** The properties *)

(** Whatever happens to the channels, connection and channel are cached
    together, [reconnecting] is set exactly while the one resubscription loop
    runs, there is never a second loop, and its delay stays between 1 and 30
    seconds. *)
Theorem single_resubscription gaps overlap cancels s : reachable gaps overlap cancels s -> sound s.
Proof. apply reachable_sound. Qed.

(** C10: as long as publications are made only while a channel is cached (so that
    none opens a connection of its own), no channel closes between an answer and what
    follows it, and the broker cancels no consumer, the queue is attended in every state
    of a running worker (a consumer on the cached open channel, or a
    subscription under way, or a shutdown), [getChannel] never returns a closed
    channel but during a shutdown, and a resubscription loop can always still
    reach a consumer. *)
Theorem queue_attended s :
  reachable false false false s -> exited s = false ->
  attended s
  /\ (forall i, channel s = Some i -> i ∈ open s \/ shutting_down s)
  /\ (forall t d, loop_at s t d -> ~ shutting_down s -> recovers s).
Proof.
  intros Hr He. destruct (reachable_calm s Hr) as [|Hm]; [congruence|].
  pose proof (reachable_sound _ _ _ _ _ Hr) as Hs.
  split; [apply Hm|]. split; [by intros i Hi; apply (calm_channel _ Hm)|].
  intros t d Hl Hsd. by eapply loop_recovers.
Qed.

(** No delivery can come. *)
Definition unheard (s : conn) : Prop := exited s = false /\ forall i, i ∈ consumers s -> i ∉ open s.

(** Nothing consumes, and nothing is under way that would: at most publications
    connect. *)
Record deaf (s : conn) : Prop := {
  deaf_unheard : unheard s;
  deaf_flag : reconnecting s = false;
  deaf_calls t who p : calls s !! t = Some (who, p) -> who = Publisher /\ connecting p = true;
  deaf_known i : i ∈ consumers s -> (i < next_id s)%nat }.

(** A step of a process that goes on, with its cached channel: whatever
    publications, failures and other channels do. *)
Definition goes_on_with (s s' : conn) : Prop :=
  step true true true s s' /\ exited s' = false /\ ~ shutting_down s'
  /\ forall i, channel s = Some i -> i ∈ open s -> i ∈ open s'.

(** Nothing new that could hear: calls only move on, or end. *)
Lemma deaf_same s s' :
  deaf s -> exited s' = exited s -> reconnecting s' = reconnecting s ->
  consumers s' ⊆ consumers s -> open s' ⊆ {[ next_id s ]} ∪ open s -> (next_id s <= next_id s')%nat ->
  (forall t c, calls s' !! t = Some c ->
     calls s !! t = Some c \/ c.1 = Publisher /\ connecting c.2 = true) ->
  deaf s'.
Proof.
  intros [[He Hu] Hf Hc Hk] He' Hf' Hsub Hop Hn Hcalls. split.
  - split; [congruence|]. intros i Hi Ho. assert (i ∈ consumers s) as Hi' by set_solver.
    apply Hop, elem_of_union in Ho as [->%elem_of_singleton|Ho]; [|by eapply Hu].
    specialize (Hk _ Hi'). lia.
  - congruence.
  - intros t who p [Ht|[? ?]]%Hcalls; [by eapply Hc|done].
  - intros i Hi. apply Hsub, Hk in Hi. lia.
Qed.

(** The close of a channel that is not the cached one. *)
Lemma deaf_close t i s :
  sound s -> deaf s -> i ∈ open s ->
  let s' := invalidate t i (set_open (open s ∖ {[ i ]}) (next_id s) s) in
  (forall j, channel s = Some j -> j ∈ open s -> j ∈ open s') -> deaf s'.
Proof.
  intros Hs Hd Hi s' Hkeep. destruct (decide (channel s = Some i)) as [Hch|Hch].
  - specialize (Hkeep i Hch Hi). exfalso. revert Hkeep.
    unfold s', invalidate, resubscribeWithBackoff, getChannel. simpl.
    rewrite (same_pair _ Hs), Hch, (deaf_flag _ Hd). rewrite bool_decide_eq_true_2 by done. simpl.
    destruct (closingIntentionally s); simpl; set_solver.
  - unfold s', invalidate. simpl. rewrite (same_pair _ Hs), bool_decide_eq_false_2 by done. simpl.
    eapply (deaf_same s); [done|..]; simpl; try set_solver; auto.
Qed.

Lemma deaf_goes_on s s' : sound s -> deaf s -> goes_on_with s s' -> deaf s'.
Proof.
  intros Hs Hd ([_ Ha] & Hex & Hsd & Hkeep). pose proof (deaf_calls _ Hd) as Hc.
  assert (forall s1, exited s1 = exited s -> reconnecting s1 = reconnecting s ->
    consumers s1 = consumers s -> open s1 ⊆ {[ next_id s ]} ∪ open s ->
    (next_id s <= next_id s1)%nat ->
    (exists t p, calls s1 = <[t := (Publisher, p)]> (calls s) /\ connecting p = true)
      \/ (exists t, calls s1 = delete t (calls s)) -> deaf s1) as Hmove.
  { intros s1 He Hr Hk Ho Hn Hcalls. apply (deaf_same s); try done; [by rewrite Hk|].
    intros t c Ht. destruct Hcalls as [(t' & p & Heq & Hp)|(t' & Heq)]; rewrite Heq in Ht.
    - apply lookup_insert_Some in Ht as [[_ <-]|[_ ?]]; [by right|by left].
    - apply lookup_delete_Some in Ht as [_ ?]. by left. }
  destruct Ha as [t Ht Ho|t who Ht|t who i Ht Hi|t who i k Ht Hk Hi|t who i Ht|t who i Ht Hi
    |t who i Ht Hi|t who i Ht|t who p Ht Hf|t d Ht|t i Ht Hi Hgap|i Hcan Hi|t Ht|t Ht Ho];
    try (destruct (Hc _ _ _ Ht) as [Hw Hp]; try done; subst who).
  - unfold getChannel. destruct (channel s); apply Hmove; simpl; try done; try set_solver; eauto.
  - apply Hmove; simpl; try done; try lia; eauto.
  - apply Hmove; simpl; try done; try set_solver; eauto.
  - apply Hmove; simpl; try done; try set_solver; eauto.
  - apply Hmove; simpl; try done; try set_solver; eauto.
  - apply Hmove; simpl; try done; try set_solver; eauto.
  - by apply deaf_close.
  - apply (deaf_same s); simpl; try done; try set_solver; auto.
  - destruct Hsd. exists t. simpl. by rewrite lookup_insert_eq.
Qed.

(** A deaf worker stays so, as long as its process goes on with its channel. *)
Lemma deaf_stays s s' : sound s -> deaf s -> rtc goes_on_with s s' -> unheard s'.
Proof.
  intros Hs Hd Hr. induction Hr as [s|s1 s2 s3 Hg _ IH]; [apply Hd|].
  apply IH; [|by eapply deaf_goes_on]. destruct Hg as [[_ Ha] _]. by eapply sound_act.
Qed.
End calm.

(** ** Runs, by labels *)

Definition worker_declarations : nat := List.length worker_topology.
Definition api_declarations : nat := List.length api_topology.

(** What happens next: the call that goes on, or the channel that closes. *)
Inductive label :=
| LPublish (t : nat)
| LAnswer (t : nat)                      (* the awaited answer of call [t] *)
| LGoOn (t : nat)                        (* what follows an answer that is there *)
| LClose (t i : nat)                     (* channel [i] closes; [t] names a new loop *)
| LCancel (i : nat).                     (* the broker cancels the consumer of [i] *)

Section fire.
Variables (n : nat) (gaps overlap cancels : bool).

Definition fire (l : label) (s : conn) : option conn :=
  match l with
  | LPublish t =>
      if bool_decide (calls s !! t = None) && (overlap || bool_decide (channel s <> None))
      then Some (getChannel t Publisher s) else None
  | LAnswer t =>
      match calls s !! t with
      | Some (who, Connecting) =>
          Some (at_position t who (Opening (next_id s))
                  (set_open ({[ next_id s ]} ∪ open s) (S (next_id s)) s))
      | Some (who, Opening i) =>
          if bool_decide (i ∈ open s) then Some (at_position t who (Declaring i 0) s) else None
      | Some (who, Declaring i k) =>
          if (k <? n)%nat && bool_decide (i ∈ open s)
          then Some (at_position t who (Declaring i (S k)) s) else None
      | Some (who, Prefetching i) =>
          if bool_decide (i ∈ open s) then Some (at_position t who (Consuming i) s) else None
      | Some (who, Consuming i) =>
          if bool_decide (i ∈ open s)
          then Some (at_position t who (Consumed i) (set_consumers ({[ i ]} ∪ consumers s) s))
          else None
      | _ => None
      end
  | LGoOn t =>
      match calls s !! t with
      | Some (who, Declaring i k) => if (k =? n)%nat then Some (getChannel_end t who i s) else None
      | Some (who, Consumed i) => Some (subscribed t who s)
      | _ => None
      end
  | LClose t i =>
      if bool_decide (calls s !! t = None) && bool_decide (i ∈ open s)
         && (gaps || bool_decide (map_Forall (fun _ c => in_gap n i c.2 = false) (calls s)))
      then Some (invalidate t i (set_open (open s ∖ {[ i ]}) (next_id s) s)) else None
  | LCancel i =>
      if cancels && bool_decide (i ∈ consumers s)
      then Some (set_consumers (consumers s ∖ {[ i ]}) s) else None
  end.

Lemma fire_act l s s' : fire l s = Some s' -> act n gaps overlap cancels s s'.
Proof.
  destruct l as [t|t|t|t i|i]; simpl; intros Hf.
  - destruct (bool_decide_reflect (calls s !! t = None)) as [Ht|]; [|done]. simpl in Hf.
    destruct (overlap || _) eqn:Ho; [|done]. injection Hf as <-. apply act_publish; [done|].
    apply orb_true_iff in Ho as [Ho|Ho%bool_decide_eq_true]; auto.
  - destruct (calls s !! t) as [[who p]|] eqn:Ht; [|done].
    destruct p as [|i|i k|i|i|i| |]; simpl in Hf; try done.
    + injection Hf as <-. by apply act_connected.
    + case_bool_decide; [|done]. injection Hf as <-. by apply act_channel.
    + destruct (Nat.ltb_spec k n); [|done]. simpl in Hf. case_bool_decide; [|done].
      injection Hf as <-. by apply act_declared.
    + case_bool_decide; [|done]. injection Hf as <-. by apply act_prefetched.
    + case_bool_decide; [|done]. injection Hf as <-. by apply act_consumed.
  - destruct (calls s !! t) as [[who p]|] eqn:Ht; [|done].
    destruct p as [|i|i k|i|i|i| |]; simpl in Hf; try done.
    + destruct (Nat.eqb_spec k n) as [->|]; [|done]. injection Hf as <-. by apply act_got.
    + injection Hf as <-. by eapply act_subscribed.
  - destruct (bool_decide_reflect (calls s !! t = None)); [|done].
    destruct (bool_decide_reflect (i ∈ open s)); [|done]. simpl in Hf.
    destruct (gaps || _) eqn:Hg; [|done]. injection Hf as <-. apply act_close; [done|done|].
    apply orb_true_iff in Hg as [Hg|Hg%bool_decide_eq_true]; [by left|right].
    intros t' who p Ht'. exact (Hg t' _ Ht').
  - destruct (bool_decide_reflect (i ∈ consumers s)); [|by rewrite andb_false_r in Hf].
    destruct cancels eqn:Hc; [|done]. injection Hf as <-. by apply act_cancel.
Qed.

Fixpoint fire_all (ls : list label) (s : conn) : option conn :=
  match ls with
  | [] => Some s
  | l :: ls => if exited s then None else fire l s ≫= fire_all ls
  end.

Lemma fire_all_steps ls s s' : fire_all ls s = Some s' -> rtc (step n gaps overlap cancels) s s'.
Proof.
  revert s. induction ls as [|l ls IH]; intros s Hf; simpl in Hf; [by injection Hf as <-|].
  destruct (exited s) eqn:He; [done|]. apply bind_Some in Hf as (s1 & H1 & H2).
  eapply rtc_l; [split; [done|by eapply fire_act]|by apply IH].
Qed.
End fire.

(** ** A worker that listens no more *)

Definition connect_labels (t : nat) : list label :=
  replicate (2 + worker_declarations) (LAnswer t) ++ [LGoOn t].
Definition subscribe_labels (t : nat) : list label :=
  connect_labels t ++ [LAnswer t; LAnswer t].

(** The channel is lost; the loop and a publisher connect at the same time; the
    loop subscribes on its channel, the publisher's is cached last; then the
    loop's channel is lost. *)
Definition overlap_labels : list label :=
  subscribe_labels 0 ++ [LGoOn 0; LClose 1 0; LPublish 2]
  ++ subscribe_labels 1 ++ [LGoOn 1] ++ connect_labels 2 ++ [LClose 3 1].

(** The channel that the loop subscribed on is lost after the answer of
    [channel.consume] and before the loop ends. *)
Definition gap_labels : list label :=
  subscribe_labels 0 ++ [LGoOn 0; LClose 1 0] ++ subscribe_labels 1 ++ [LClose 2 1; LGoOn 1].

(** The broker cancels the consumer. *)
Definition cancel_labels : list label := subscribe_labels 0 ++ [LGoOn 0; LCancel 0].

Definition is_deaf (s : conn) : bool :=
  negb (exited s) && bool_decide (calls s = ∅) && negb (reconnecting s)
  && bool_decide (set_Forall (fun i => i ∉ open s /\ (i < next_id s)%nat) (consumers s)).

Lemma is_deaf_spec s : is_deaf s = true -> deaf s.
Proof.
  unfold is_deaf. intros [[[He%negb_true_iff Hc%bool_decide_eq_true]%andb_true_iff
    Hf%negb_true_iff]%andb_true_iff Hs%bool_decide_eq_true]%andb_true_iff.
  split; [split; [done|]; intros i Hi; by apply Hs|done| |intros i Hi; by apply Hs].
  intros t who p Ht. rewrite Hc in Ht. by rewrite lookup_empty in Ht.
Qed.

(** The worker runs, no delivery can come, and that stays so, whatever happens,
    until its cached channel closes or the process ends. *)
Definition stays_deaf (s : conn) : Prop :=
  forall s', rtc (goes_on_with worker_declarations) s s' -> unheard s'.

Lemma fired_deaf gaps overlap cancels ls :
  (match fire_all worker_declarations gaps overlap cancels ls started with
   | Some s => is_deaf s
   | None => false
   end = true) ->
  exists s, reachable worker_declarations gaps overlap cancels s /\ stays_deaf s.
Proof.
  destruct (fire_all _ _ _ _ _ _) as [s|] eqn:Hf; [|done]. intros Hd%is_deaf_spec.
  apply fire_all_steps in Hf. exists s. split; [exact Hf|]. intros s'. apply deaf_stays; [|done].
  by eapply reachable_sound.
Qed.

(** C40: a worker can stop listening, and start again only when the channel that
    it has cached closes: until then no consumer is on an open channel, whatever
    publications and other channels do.  It happens when a publication reconnects
    while the loop does (the later of the two is cached, and the close of the
    other, which has the consumer, is ignored), when the channel closes between
    the answer of [channel.consume] and the end of the loop (the event is dropped
    because [reconnecting] is still set), and when the broker cancels the consumer
    (the handler ignores the message [null] that tells it). *)
Theorem worker_can_go_deaf :
  (exists s, reachable worker_declarations false true false s /\ stays_deaf s)
  /\ (exists s, reachable worker_declarations true false false s /\ stays_deaf s)
  /\ (exists s, reachable worker_declarations false false true s /\ stays_deaf s).
Proof.
  split; [|split].
  - apply (fired_deaf _ _ _ overlap_labels). vm_compute. reflexivity.
  - apply (fired_deaf _ _ _ gap_labels). vm_compute. reflexivity.
  - apply (fired_deaf _ _ _ cancel_labels). vm_compute. reflexivity.
Qed.

(** A worker that lost its channel and is waiting to connect again. *)
Definition lost_labels : list label := subscribe_labels 0 ++ [LGoOn 0; LClose 1 0].

Definition lost : conn :=
  default started (fire_all worker_declarations false false false lost_labels started).

Lemma lost_reachable : reachable worker_declarations false false false lost.
Proof. apply (fire_all_steps _ _ _ _ lost_labels). vm_compute. reflexivity. Qed.

Lemma single_resubscription_witness :
  reachable worker_declarations false false false lost /\ sound lost.
Proof.
  split; [exact lost_reachable|].
  apply (single_resubscription worker_declarations false false false lost). exact lost_reachable.
Defined.

Lemma queue_attended_witness :
  exited lost = false
  /\ attended lost
  /\ (forall i, channel lost = Some i -> i ∈ open lost \/ shutting_down lost)
  /\ (forall t d, loop_at lost t d -> ~ shutting_down lost -> recovers worker_declarations lost).
Proof.
  split; [reflexivity|].
  apply (queue_attended worker_declarations lost); [exact lost_reachable|reflexivity].
Defined.
