(* ===== verification/ApiConnection.v ===== *)
(** * The API's cached channel

    apps/api/src/queue/connection.ts: [getChannel], its [invalidate],
    [checkRabbitMQHealth] and [closeConnection], over the state and the
    positions of [Connection].
    Nothing of the API listens for "invalidated": the next [getChannel()]
    connects again.  Any number of publications and health checks may call
    [getChannel] at the same time, each on a connection of its own. *)
From S2P Require Import Prelude Amqp Connection Listening.
#[local] Open Scope stdpp_scope.

(** [invalidate], of the connection and channel [i]. *)
Definition api_invalidate (i : nat) (s : conn) : conn :=
  let mine (x : option nat) := bool_decide (x = Some i) in
  if negb (mine (connection s)) && negb (mine (channel s)) then s
  else if closingIntentionally s then s
  else
    mkConn (if mine (connection s) then None else connection s)
           (if mine (channel s) then None else channel s)
           (closingIntentionally s) (reconnecting s) (open s) (consumers s) (calls s)
           (next_id s) (exited s).

(** [publishJobCreated] and [checkRabbitMQHealth] up to their first [await]. *)
Definition api_getChannel (t : nat) (s : conn) : conn := getChannel t Publisher s.

Definition api_started : conn := mkConn None None false false ∅ ∅ ∅ 0 false.

(** [await x?.close()]: amqplib throws for what is closed already; otherwise
    it closes, and its close event calls [invalidate]. *)
Definition close_cached (x : option nat) (s : conn) : res js_err unit * conn :=
  match x with
  | None => (Ok tt, s)
  | Some i =>
      if bool_decide (i ∈ open s)
      then (Ok tt, api_invalidate i (set_open (open s ∖ {[ i ]}) (next_id s) s))
      else (Err (JsErr CError "IllegalOperationError" "Channel closed" None []), s)
  end.

(** [closeConnection()], which the tests call when nothing else runs.  [i] names
    both the connection and its channel: with the connection closes what is left
    of it. *)
Definition api_closeConnection (s : conn) : res js_err unit * conn :=
  match close_cached (channel s) (set_closing true s) with
  | (Err e, s) => (Err e, s)
  | (Ok _, s) => (Ok tt, set_cached None s)
  end.

(** [gaps]: a channel may close between the answer to the last declaration and
    the assignment of the variables. *)
Inductive api_act (gaps : bool) (s : conn) : conn -> Prop :=
| api_call t : calls s !! t = None -> api_act gaps s (api_getChannel t s)
| api_connected t :
    calls s !! t = Some (Publisher, Connecting) ->
    api_act gaps s
      (at_position t Publisher (Opening (next_id s))
         (set_open ({[ next_id s ]} ∪ open s) (S (next_id s)) s))
| api_channel t i :
    calls s !! t = Some (Publisher, Opening i) -> i ∈ open s ->
    api_act gaps s (at_position t Publisher (Declaring i 0) s)
| api_declared t i k :
    calls s !! t = Some (Publisher, Declaring i k) -> (k < api_declarations)%nat -> i ∈ open s ->
    api_act gaps s (at_position t Publisher (Declaring i (S k)) s)
| api_got t i :
    calls s !! t = Some (Publisher, Declaring i api_declarations) ->
    api_act gaps s (getChannel_end t Publisher i s)
| api_failed t p :
    calls s !! t = Some (Publisher, p) -> may_fail api_declarations p = true ->
    api_act gaps s (call_failed t Publisher s)
| api_close i :
    i ∈ open s ->
    (gaps = true \/ forall t who p, calls s !! t = Some (who, p) -> in_gap api_declarations i p = false) ->
    api_act gaps s (api_invalidate i (set_open (open s ∖ {[ i ]}) (next_id s) s)).

Definition api_reachable (gaps : bool) : conn -> Prop := rtc (api_act gaps) api_started.

(** ** What a caller gets *)

(** The call is at a position of [getChannel], its channel one that was made. *)
Definition api_call_ok (s : conn) (c : caller * position) : Prop :=
  let '(who, p) := c in
  who = Publisher /\
  match p with
  | Connecting => True
  | Opening i => (i < next_id s)%nat
  | Declaring i k =>
      (i < next_id s)%nat /\ (k <= api_declarations)%nat /\ (k = api_declarations -> i ∈ open s)
  | _ => False
  end.

Record api_calm (s : conn) : Prop := {
  api_pair : connection s = channel s;
  api_fresh i : i ∈ open s -> (i < next_id s)%nat;
  api_open i : channel s = Some i -> i ∈ open s;
  api_not_closing : closingIntentionally s = false;
  api_calls : map_Forall (fun _ => api_call_ok s) (calls s) }.

(** A call moves on. *)
Lemma api_calm_at t p s :
  api_calm s -> api_call_ok s (Publisher, p) -> api_calm (at_position t Publisher p s).
Proof.
  intros [H1 H2 H3 H4 H5] Hp. split; try done. simpl.
  apply map_Forall_insert_2; [done|]. eapply map_Forall_impl; [exact H5|]. by intros t' [who p'].
Qed.

Lemma api_calm_done t s : api_calm s -> api_calm (call_done t s).
Proof. intros [H1 H2 H3 H4 H5]. split; try done. simpl. by apply map_Forall_delete. Qed.

Lemma api_calm_act s s' : api_calm s -> api_act false s s' -> api_calm s'.
Proof.
  intros Hs Ha. pose proof Hs as [H1 H2 H3 H4 H5].
  destruct Ha as [t Ht|t Ht|t i Ht Hi|t i k Ht Hk Hi|t i Ht|t p Ht Hp|i Hi Hgap].
  - assert (api_calm (set_closing false s)) as Hf by by split.
    unfold api_getChannel, getChannel. destruct (channel s) eqn:Hc; [by apply api_calm_done|].
    by apply api_calm_at.
  - set (n := next_id s). apply (api_calm_at t _ (set_open ({[ n ]} ∪ open s) (S n) s)); [|by split; [|simpl; lia]].
    split; simpl; try done.
    + intros i [->%elem_of_singleton|Hi%H2]%elem_of_union; unfold n in *; lia.
    + intros i Hi%H3. by apply elem_of_union_r.
    + eapply map_Forall_impl; [exact H5|]. intros t' [who p] [-> Hp]. split; [done|].
      destruct p; simpl in *; try done; unfold n; [lia|].
      destruct Hp as (? & ? & Hp). split; [lia|]. split; [done|].
      intros Hk. by apply elem_of_union_r, Hp.
  - apply api_calm_at; [done|]. pose proof (H5 t _ Ht) as [_ Hlt]. split; [done|].
    split; [done|]. split; [lia|]. by intros _.
  - apply api_calm_at; [done|]. pose proof (H5 t _ Ht) as [_ (Hlt & _)]. split; [done|].
    split; [done|]. split; [lia|]. by intros _.
  - pose proof (H5 t _ Ht) as [_ (Hlt & _ & Hop)]. unfold getChannel_end. simpl.
    apply api_calm_done. split; try done. simpl. intros j [= <-]. by apply Hop.
  - by apply api_calm_done.
  - destruct Hgap as [?|Hgap]; [done|].
    assert (map_Forall (fun _ => api_call_ok (set_open (open s ∖ {[ i ]}) (next_id s) s)) (calls s)) as Hcalls.
    { intros t [who p] Ht. pose proof (H5 t _ Ht) as [-> Hp]. specialize (Hgap t _ p Ht).
      split; [done|]. destruct p; simpl in *; try done. destruct Hp as (? & ? & Hp).
      split; [done|]. split; [done|]. intros ->. apply elem_of_difference. split; [by apply Hp|].
      rewrite not_elem_of_singleton. intros ->. by rewrite !Nat.eqb_refl in Hgap. }
    unfold api_invalidate. simpl. rewrite H1, H4.
    destruct (bool_decide_reflect (channel s = Some i)) as [Hc|Hc]; simpl.
    + split; simpl; try done.
      intros j [Hj _]%elem_of_difference. by apply H2.
    + split; simpl; try done.
      * intros j [Hj _]%elem_of_difference. by apply H2.
      * intros j Hj. apply elem_of_difference. split; [by apply H3|].
        rewrite not_elem_of_singleton. congruence.
Qed.

Lemma api_reachable_calm s : api_reachable false s -> api_calm s.
Proof.
  revert s. apply rtc_ind_r.
  - by split.
  - intros s1 s2 _ Ha IH. by eapply api_calm_act.
Qed.

(** The channel that [getChannel] hands to a publication or to the health
    check is open, connection and channel are cached together, and a lost
    channel is not kept, however many calls connect at the same time, as long as
    no channel closes between the last answer of [getChannel] and its
    assignment. *)
Theorem api_channel_open s : api_reachable false s -> api_calm s.
Proof. apply api_reachable_calm. Qed.

(** ** An intentional close *)

(** In a close that was asked for, close events change nothing. *)
Lemma api_invalidate_closing i s : closingIntentionally s = true -> api_invalidate i s = s.
Proof. intros Hc. unfold api_invalidate. rewrite Hc. by destruct (_ && _). Qed.

(** [closeConnection()] returns, nothing stays cached, the channel that was is
    closed, and the next [getChannel()] connects again, for failures as well. *)
Theorem api_close_intentional s t :
  api_reachable false s ->
  exists s', api_closeConnection s = (Ok tt, s')
    /\ connection s' = None /\ channel s' = None
    /\ (forall i, channel s = Some i -> i ∉ open s')
    /\ calls (api_getChannel t s') !! t = Some (Publisher, Connecting)
    /\ closingIntentionally (api_getChannel t s') = false.
Proof.
  intros [_ _ Hopen _ _]%api_reachable_calm. unfold api_closeConnection, close_cached.
  destruct (channel s) as [i|] eqn:Hc.
  - rewrite bool_decide_eq_true_2 by (by apply Hopen). rewrite api_invalidate_closing by done.
    eexists. split; [done|]. split; [done|]. split; [done|]. split; [|by simpl; rewrite lookup_insert_eq].
    intros j [= <-]. simpl. set_solver.
  - eexists. split; [done|]. split; [done|]. split; [done|]. split; [done|].
    simpl. by rewrite lookup_insert_eq.
Qed.

(** After a channel that stayed cached though it was closed, it throws, and the
    flag stays set. *)
Lemma api_close_of_closed s i :
  channel s = Some i -> i ∉ open s ->
  exists e, api_closeConnection s = (Err e, set_closing true s).
Proof.
  intros Hc Ho. unfold api_closeConnection, close_cached. rewrite Hc.
  rewrite bool_decide_eq_false_2 by done. by eexists.
Qed.

(** ** A channel that stays closed *)

Definition stuck (i : nat) (s : conn) : Prop :=
  channel s = Some i /\ connection s = Some i /\ (i ∉ open s) /\ calls s = ∅.

Lemma stuck_act i s s' : stuck i s -> api_act true s s' -> stuck i s'.
Proof.
  intros (Hc & Hn & Ho & He) Ha. unfold stuck.
  assert (forall t c, calls s !! t <> Some c) as Hno by (intros t c; by rewrite He, lookup_empty).
  destruct Ha as [t Ht|t Ht|t j Ht Hj|t j k Ht Hk Hj|t j Ht|t p Ht Hp|j Hj _];
    try by apply Hno in Ht.
  - unfold api_getChannel, getChannel. rewrite Hc. simpl.
    split; [done|]. split; [done|]. split; [done|]. rewrite He. apply delete_empty.
  - assert (j <> i) as Hne by set_solver. unfold api_invalidate. simpl. rewrite Hc, Hn.
    rewrite bool_decide_eq_false_2 by congruence. simpl.
    split; [done|]. split; [done|]. split; [set_solver|done].
Qed.

(** The first call, up to the last answer; then the channel closes. *)
Definition asked (k : nat) : conn :=
  at_position 0 Publisher (Declaring 0 k)
    (set_open {[ 0%nat ]} 1 (api_getChannel 0 api_started)).
Definition closed_in_gap : conn := api_invalidate 0 (set_open ∅ 1 (asked api_declarations)).
Definition stuck_state : conn := getChannel_end 0 Publisher 0 closed_in_gap.

Lemma asked_first gaps : api_reachable gaps (asked 0).
Proof.
  eapply rtc_l; [by apply (api_call _ _ 0)|]. eapply rtc_l; [by apply (api_connected _ _ 0)|].
  apply rtc_once.
  assert (asked 0 = at_position 0 Publisher (Declaring 0 0)
    (at_position 0 Publisher (Opening 0)
       (set_open ({[ 0%nat ]} ∪ ∅) 1 (api_getChannel 0 api_started)))) as -> by reflexivity.
  apply (api_channel _ _ 0 0); reflexivity.
Qed.

Lemma asked_reachable k : (k <= api_declarations)%nat -> api_reachable true (asked k).
Proof.
  unfold api_reachable. induction k as [|k IH]; intros Hk; [apply asked_first|].
  eapply rtc_r; [apply IH; lia|].
  assert (asked (S k) = at_position 0 Publisher (Declaring 0 (S k)) (asked k)) as -> by reflexivity.
  apply (api_declared _ (asked k) 0 0 k); [done|lia|]. set_solver.
Qed.

Lemma stuck_reachable : api_reachable true stuck_state.
Proof.
  apply rtc_r with closed_in_gap; [|by apply (api_got _ closed_in_gap 0 0)].
  apply rtc_r with (asked api_declarations); [by apply asked_reachable|].
  apply (api_close _ (asked api_declarations) 0); [vm_compute; reflexivity|by left].
Qed.

(** A channel that closes in that gap is cached for good: its close event
    was ignored because it was not the cached channel yet, and every later
    publication and health check gets the closed channel, until the process is
    started again. *)
Theorem api_can_get_stuck :
  exists s i, api_reachable true s /\ stuck i s
    /\ forall s', rtc (api_act true) s s' ->
         stuck i s' /\ forall t, calls s' !! t = None ->
           channel (api_getChannel t s') = Some i /\ i ∉ open (api_getChannel t s').
Proof.
  exists stuck_state, 0%nat. split; [apply stuck_reachable|].
  assert (stuck 0 stuck_state) as Hs by (repeat split; set_solver). split; [done|].
  intros s' Hr. assert (stuck 0 s') as Hs'.
  { clear - Hr Hs. induction Hr; [done|]. apply IHHr. by eapply stuck_act. }
  split; [done|]. intros t _. destruct Hs' as (Hc & _ & Ho & _).
  unfold api_getChannel, getChannel. by rewrite Hc.
Qed.

(** A call that has connected. *)
Lemma api_channel_open_witness :
  calls (asked 0) !! 0%nat = Some (Publisher, Declaring 0 0) /\ api_calm (asked 0).
Proof. split; [reflexivity|]. apply (api_channel_open (asked 0)). apply asked_first. Defined.

(** A cached channel, closed on purpose. *)
Lemma api_close_intentional_witness :
  exists s', api_closeConnection api_started = (Ok tt, s') /\ channel s' = None.
Proof.
  destruct (api_close_intentional api_started 0) as (s' & Hs & _ & Hc & _); [apply rtc_refl|].
  by exists s'.
Defined.
