(* ===== verification/Client.v ===== *)
(** * The dashboard's client of the API

    apps/dashboard/src/api/apiKey.ts (the operator's key in sessionStorage),
    api/client.ts (requests and their errors), and [handleReplay] of
    components/JobDetail.tsx.  What [fetch] and [sessionStorage] do is given:
    [fetch] resolves to a status and a body or rejects, and every access to the
    storage may throw. *)
From stdpp Require Import pretty.
From S2P Require Import Prelude Json Postgres Amqp Programs Effects Worker Api RateLimiter Http.
#[local] Open Scope stdpp_scope.

(** ** api/apiKey.ts *)

Abbreviation storage := (gmap string string).

Definition STORAGE_KEY : string := "deadletter.operatorApiKey".

(** [throws]: the access to [sessionStorage] throws. *)
Definition getStoredApiKey (throws : bool) (session : storage) : option string :=
  if throws then None else session !! STORAGE_KEY.

Definition setStoredApiKey (throws : bool) (key : string) (session : storage) : storage :=
  if throws then session else <[STORAGE_KEY := key]> session.

Definition clearStoredApiKey (throws : bool) (session : storage) : storage :=
  if throws then session else delete STORAGE_KEY session.

(** ** api/client.ts *)

Record http_request := mkHttp {
  h_url : string;
  h_method : string;
  h_headers : list (string * string) }.

(** A resolved [fetch]: [res.status], and what [res.json()] gives. *)
Record fetched := mkFetched { f_status : Z; f_json : res js_err json }.

(** [res.ok] *)
Definition f_ok (r : fetched) : bool := (200 <=? f_status r) && (f_status r <=? 299).

(** What a request may throw: an [ApiError], or anything else. *)
Inductive failure :=
| ApiError (code : Z) (details : json)
| OtherError (err : js_err).

(** [request]: [answer] is what [fetch] resolved to or rejected with. *)
Definition request (answer : res js_err fetched) : res failure json :=
  match answer with
  | Err err => Err (OtherError err)
  | Ok r =>
      if f_ok r then
        match f_json r with Ok v => Ok v | Err err => Err (OtherError err) end
      else Err (ApiError (f_status r) (match f_json r with Ok v => v | Err _ => JNull end))
  end.

Definition get (url : string) : http_request := mkHttp url "GET" [].

Definition getStats_request : http_request := get "/api/stats".
Definition getRecentJobs_request : http_request := get "/api/jobs".
Definition getJob_request (id : string) : http_request := get ("/api/jobs/" +:+ id).

Definition replayJob (throws : bool) (session : storage) (id : string) : http_request :=
  let apiKey := getStoredApiKey throws session in
  mkHttp ("/api/jobs/" +:+ id +:+ "/replay") "POST"
    (if truthy apiKey then [("x-api-key", default "" apiKey)] else []).

(** ** handleReplay of components/JobDetail.tsx *)

(** The state of a [JobDetail] component. *)
Record panel := mkPanel {
  replaying : bool;
  replayMessage : option string;
  replayError : option string }.

Definition new_panel : panel := mkPanel false None None.

(** Which accesses to the storage throw, in the order of the code. *)
Record faults := mkFaults { at_get : bool; at_set : bool; at_send : bool; at_clear : bool }.

(** Up to the [await]: the request that is sent, if any. *)
Definition handleReplay (f : faults) (entered : option string) (job_id : string)
    (session : storage) (p : panel) : option http_request * storage * panel :=
  let send session :=
    (Some (replayJob (at_send f) session job_id), session, mkPanel true None None) in
  if truthy (getStoredApiKey (at_get f) session) then send session
  else match entered with
       | Some key =>
           if String.eqb key "" then (None, session, p)
           else send (setStoredApiKey (at_set f) key session)
       | None => (None, session, p)
       end.

(** [String(v)], of a number as the API writes it. *)
Fixpoint js_String (v : json) : string :=
  match v with
  | JNull => "null"
  | JBool b => if b then "true" else "false"
  | JNum t => t
  | JStr s => s
  | JArr l => String.concat "," ((fun x => match x with JNull => "" | _ => js_String x end) <$> l)
  | JObj _ => "[object Object]"
  end.

(** [`${v}`] *)
Definition template (v : option json) : string :=
  match v with Some v => js_String v | None => "undefined" end.

Definition replay_failed (err : failure) : string :=
  match err with
  | ApiError code _ =>
      if code =? 401 then
        "Unauthorized -- incorrect operator key. Try Replay again to re-enter it."
      else if code =? 409 then "Job is no longer in a replayable state."
      else if code =? 404 then "Job not found."
      else "Replay failed."
  | OtherError _ => "Replay failed (network error)."
  end.

(** After the [await]; the last component: [onReplayed()] is called.  A body
    [null] has no [replayCount]: the access throws. *)
Definition handleReplay_end (f : faults) (result : res failure json) (session : storage) (p : panel)
  : storage * panel * bool :=
  let failed err :=
    (match err with
     | ApiError code _ => if code =? 401 then clearStoredApiKey (at_clear f) session else session
     | OtherError _ => session
     end, mkPanel false (replayMessage p) (Some (replay_failed err)), false) in
  match result with
  | Ok JNull => failed (OtherError (JsErr CError "TypeError" "Cannot read properties of null" None []))
  | Ok v =>
      (session,
       mkPanel false
         (Some ("Replay queued (replay #" +:+ template (get_prop "replayCount" v) +:+ ")."))
         (replayError p), true)
  | Err err => failed err
  end.
