(* ===== verification/Page.v ===== *)
(** * The pages of the dashboard

    What the components of apps/dashboard/src/components render: StatusBadge,
    Overview, JobList, JobDetail.  An element is what JSX makes: a tag, its
    attributes, what a click on it does, and its children. *)
From stdpp Require Import pretty.
From S2P Require Import Prelude Json Postgres Amqp Programs Effects Worker Api RateLimiter Http Client.
#[local] Open Scope stdpp_scope.

(** ** Elements *)

(** The handlers that the page attaches to clicks. *)
Inductive action :=
| SelectJob (id : string)                (* onSelect(job.id) *)
| GoBack                                 (* onBack *)
| ReplayJob.                             (* handleReplay *)

#[export] Instance action_eq_dec : EqDecision action.
Proof. solve_decision. Defined.

Inductive elem :=
| Text (s : string)
| El (tag : string) (attrs : list (string * string)) (onClick : option action)
     (children : list elem).

(** What can be clicked: a disabled button cannot. *)
Fixpoint clickable (e : elem) : list action :=
  match e with
  | Text _ => []
  | El _ attrs onClick children =>
      (if bool_decide (("disabled", "true") ∈ attrs) then [] else option_list onClick)
      ++ flat_map clickable children
  end.

(** The text on the page. *)
Fixpoint texts (e : elem) : list string :=
  match e with
  | Text s => [s]
  | El _ _ _ children => flat_map texts children
  end.

Definition class (name : string) : list (string * string) := [("className", name)].
Definition plain (tag : string) (children : list elem) : elem := El tag [] None children.
Definition show (n : Z) : elem := Text (pretty n).

(** [condition && element] *)
Definition when (condition : bool) (e : elem) : list elem := if condition then [e] else [].

(** ** The data of the API, api/client.ts *)

Record Stats := mkStats {
  s_totalJobs : Z;
  s_byStatus : gmap string Z;
  s_totalReplays : Z;
  s_totalAttempts : Z;
  s_pendingOutboxEvents : Z }.

Record RecentJob := mkRecent {
  rj_id : string; rj_type : string; rj_status : string;
  rj_attempt_count : Z; rj_max_attempts : Z;
  rj_created_at : string; rj_updated_at : string }.

Record JobDetail := mkDetail {
  d_id : string; d_type : string; d_payload : json; d_status : string;
  d_attempt_count : Z; d_max_attempts : Z;
  d_last_error : option string;
  d_created_at : string; d_updated_at : string;
  d_total_attempt_count : Z; d_replay_count : Z;
  d_last_dead_lettered_at : option string;
  d_last_dead_letter_reason : option string }.

(** ** components/StatusBadge.tsx *)

Definition STATUS_COLORS : gmap string string :=
  list_to_map [("QUEUED", "#6b7280"); ("PROCESSING", "#2563eb"); ("RETRYING", "#d97706");
               ("COMPLETED", "#16a34a"); ("DEAD_LETTERED", "#dc2626"); ("FAILED", "#991b1b")].

Definition StatusBadge (status : string) : elem :=
  let color := default "#6b7280" (STATUS_COLORS !! status) in
  El "span" (class "status-badge" ++ [("style.backgroundColor", color)]) None [Text status].

(** ** components/Overview.tsx *)

Definition STATUS_ORDER : list string :=
  ["QUEUED"; "PROCESSING"; "RETRYING"; "COMPLETED"; "DEAD_LETTERED"; "FAILED"].

(** [Math.max(1, ...Object.values(stats.byStatus))] *)
Definition maxCount (byStatus : gmap string Z) : Z :=
  foldr Z.max 1 (map_to_list byStatus).*2.

(** [stats.byStatus[status] ?? 0] *)
Definition status_count (byStatus : gmap string Z) (status : string) : Z :=
  default 0 (byStatus !! status).

(** [(count / maxCount) * 100], of the exact quotient. *)
Definition widthPct (byStatus : gmap string Z) (status : string) : Q :=
  ((inject_Z (status_count byStatus status) / inject_Z (maxCount byStatus)) * 100)%Q.

Definition stat_card (value : Z) (label : string) : elem :=
  El "div" (class "stat-card") None
    [El "div" (class "stat-value") None [show value];
     El "div" (class "stat-label") None [Text label]].

Section components.
(** [`${widthPct}%`], and [new Date(s).toLocaleString()], of the locale. *)
Variables (percent : Q -> string) (toLocaleString : string -> string).

Definition status_row (byStatus : gmap string Z) (status : string) : elem :=
  El "div" (class "status-row") None
    [El "span" (class "status-row-label") None [Text status];
     El "div" (class "status-bar-track") None
       [El "div" (class "status-bar-fill" ++ [("style.width", percent (widthPct byStatus status))])
          None []];
     El "span" (class "status-row-count") None [show (status_count byStatus status)]].

Definition Overview (stats : Stats) : elem :=
  El "section" (class "overview") None
    [El "div" (class "stat-cards") None
       [stat_card (s_totalJobs stats) "Total Jobs";
        stat_card (s_totalReplays stats) "Total Replays";
        stat_card (s_totalAttempts stats) "Total Attempts";
        stat_card (s_pendingOutboxEvents stats) "Pending Outbox Events"];
     El "div" (class "status-distribution") None
       (status_row (s_byStatus stats) <$> STATUS_ORDER)].

(** ** components/JobList.tsx *)

Definition job_row (job : RecentJob) : elem :=
  El "tr" (("key", rj_id job) :: class "job-row") (Some (SelectJob (rj_id job)))
    [El "td" (class "job-id") None [Text (String.substring 0 8 (rj_id job)); Text "..."];
     plain "td" [Text (rj_type job)];
     plain "td" [StatusBadge (rj_status job)];
     plain "td" [show (rj_attempt_count job); Text "/"; show (rj_max_attempts job)];
     plain "td" [Text (toLocaleString (rj_created_at job))];
     plain "td" [Text (toLocaleString (rj_updated_at job))]].

Definition JobList (jobs : list RecentJob) : elem :=
  match jobs with
  | [] => El "p" (class "empty-state") None [Text "No jobs yet."]
  | _ =>
      El "table" (class "job-table") None
        [plain "thead"
           [plain "tr" ((fun s => plain "th" [Text s])
                          <$> ["ID"; "Type"; "Status"; "Attempts"; "Created"; "Updated"])];
         plain "tbody" (job_row <$> jobs)]
  end.

(** ** components/JobDetail.tsx *)

Definition isDeadLettered (job : JobDetail) : bool := String.eqb (d_status job) "DEAD_LETTERED".

Definition field (name : string) (value : list elem) : list elem :=
  [plain "dt" [Text name]; plain "dd" value].

Definition lifetime_fields (job : JobDetail) : elem :=
  El "div" (class "lifetime-fields") None
    [plain "h3" [Text "Lifetime Aggregate Activity"];
     El "p" (class "hint") None
       [Text "Aggregate lifetime counters only -- this project does not maintain a per-attempt history table, so individual past attempts are not separately recorded."];
     El "dl" (class "job-fields") None
       (field "Total Attempts (all replay cycles)" [show (d_total_attempt_count job)]
        ++ field "Replay Count" [show (d_replay_count job)])].

Definition dead_letter_info (job : JobDetail) : elem :=
  El "div" (class "dead-letter-info") None
    [plain "h3" [Text "Dead-Letter Information"];
     El "dl" (class "job-fields") None
       (field "Last Dead-Lettered At"
          [Text (if truthy (d_last_dead_lettered_at job)
                 then toLocaleString (default "" (d_last_dead_lettered_at job)) else "N/A")]
        ++ field "Last Dead-Letter Reason" [Text (default "N/A" (d_last_dead_letter_reason job))]
        ++ field "Last Error" [Text (default "N/A" (d_last_error job))])].

Definition replay_action (p : panel) : elem :=
  El "div" (class "replay-action") None
    (El "button" [("disabled", if replaying p then "true" else "false")] (Some ReplayJob)
       [Text (if replaying p then "Replaying..." else "Replay Job")]
     :: when (truthy (replayMessage p))
          (El "p" (class "replay-success") None [Text (default "" (replayMessage p))])
     ++ when (truthy (replayError p))
          (El "p" (class "replay-error") None [Text (default "" (replayError p))])).

Definition JobDetail_page (job : JobDetail) (p : panel) : elem :=
  El "section" (class "job-detail") None
    ([El "button" (class "back-button") (Some GoBack) [Text "← Back to list"];
      plain "h2" [Text "Job "; Text (d_id job); Text " "; StatusBadge (d_status job)];
      El "dl" (class "job-fields") None
        (field "Type" [Text (d_type job)]
         ++ field "Attempt Count (current cycle)"
              [show (d_attempt_count job); Text " / "; show (d_max_attempts job)]
         ++ field "Created" [Text (toLocaleString (d_created_at job))]
         ++ field "Updated" [Text (toLocaleString (d_updated_at job))]);
      lifetime_fields job]
     ++ when (truthy (d_last_dead_lettered_at job) || isDeadLettered job) (dead_letter_info job)
     ++ when (isDeadLettered job) (replay_action p)).
End components.

(** ** What can be clicked *)

Lemma clickable_job_row loc job : clickable (job_row loc job) = [SelectJob (rj_id job)].
Proof. reflexivity. Qed.

Lemma clickable_JobList loc jobs a :
  a ∈ clickable (JobList loc jobs) <-> exists job, job ∈ jobs /\ a = SelectJob (rj_id job).
Proof.
  assert (a ∈ flat_map clickable (job_row loc <$> jobs) <->
          exists job, job ∈ jobs /\ a = SelectJob (rj_id job)) as Hrows.
  { rewrite list_elem_of_In, in_flat_map. setoid_rewrite <- list_elem_of_In.
    setoid_rewrite list_elem_of_fmap. split.
    - intros (e & (job & -> & Hj) & Ha). rewrite clickable_job_row in Ha. set_solver.
    - intros (job & Hj & ->). exists (job_row loc job). rewrite clickable_job_row. set_solver. }
  destruct jobs as [|j jobs]; [set_solver|]. rewrite <- Hrows. unfold JobList.
  simpl. by rewrite app_nil_r.
Qed.

(** No bar is wider than its track, and the longest is as wide. *)
Lemma maxCount_spec byStatus s :
  1 <= maxCount byStatus /\ status_count byStatus s <= maxCount byStatus.
Proof.
  unfold maxCount, status_count. split.
  - induction (map_to_list byStatus).*2; simpl; lia.
  - destruct (byStatus !! s) as [n|] eqn:Hs; simpl;
      [|induction (map_to_list byStatus).*2; simpl; lia].
    apply elem_of_map_to_list, (list_elem_of_fmap_2 snd) in Hs. simpl in Hs.
    induction (map_to_list byStatus).*2 as [|m l IH]; [by apply not_elem_of_nil in Hs|].
    simpl. apply elem_of_cons in Hs as [->|Hs]; [lia|]. specialize (IH Hs). lia.
Qed.

Lemma clickable_JobDetail loc job p :
  clickable (JobDetail_page loc job p)
  = GoBack :: (if isDeadLettered job && negb (replaying p) then [ReplayJob] else []).
Proof.
  unfold JobDetail_page, when, replay_action.
  destruct (isDeadLettered job), (truthy (d_last_dead_lettered_at job)), (replaying p),
    (truthy (replayMessage p)), (truthy (replayError p)); reflexivity.
Qed.
