(* ===== verification/Wire.v ===== *)
(** * What travels from the API to its clients

    [res.json(..)] of the routes (apps/api/src/routes): the JSON text of each kind
    of answer, with the columns of a row as node-postgres gives them, and what
    [fetch] and the dashboard's types (apps/dashboard/src/api/client.ts) make of
    it. *)
From stdpp Require Import pretty.
From S2P Require Import Prelude Json Postgres Amqp Programs Effects Worker Api RateLimiter Http Poller Client Page.
#[local] Open Scope stdpp_scope.

(** ** The objects *)

(** A TIMESTAMPTZ is a [Date], which has milliseconds, and its ISO text. *)
Definition timestamp_text (micros : Z) : string := toISOString (date_of micros).

Definition nullable {A} (f : A -> json) (x : option A) : json :=
  match x with Some a => f a | None => JNull end.

(** [SELECT * FROM jobs], the columns in the order of the migrations. *)
Definition job_json (j : Job) : json :=
  JObj [("id", JStr (j_id j)); ("type", JStr (j_type j)); ("payload", j_payload j);
        ("status", JStr (status_text (j_status j)));
        ("attempt_count", json_number (j_attempt_count j));
        ("max_attempts", json_number (j_max_attempts j));
        ("last_error", nullable JStr (j_last_error j));
        ("created_at", JStr (timestamp_text (j_created_at j)));
        ("updated_at", JStr (timestamp_text (j_updated_at j)));
        ("total_attempt_count", json_number (j_total_attempt_count j));
        ("replay_count", json_number (j_replay_count j));
        ("last_dead_lettered_at", nullable (fun t => JStr (timestamp_text t)) (j_last_dead_lettered_at j));
        ("last_dead_letter_reason", nullable JStr (j_last_dead_letter_reason j))].

Definition recent_json (r : Postgres.RecentJob) : json :=
  JObj [("id", JStr (rec_id r)); ("type", JStr (rec_type r));
        ("status", JStr (status_text (rec_status r)));
        ("attempt_count", json_number (rec_attempt_count r));
        ("max_attempts", json_number (rec_max_attempts r));
        ("created_at", JStr (timestamp_text (rec_created_at r)));
        ("updated_at", JStr (timestamp_text (rec_updated_at r)))].

Definition stats_json (s : JobStats) : json :=
  JObj [("totalJobs", json_number (totalJobs s));
        ("byStatus", JObj ((fun x => (x.1, json_number x.2)) <$> byStatus s));
        ("totalReplays", json_number (totalReplays s));
        ("totalAttempts", json_number (totalAttempts s));
        ("pendingOutboxEvents", json_number (pendingOutboxEvents s))].

Definition body_json (b : body) : json :=
  match b with
  | BJson v => v
  | BJob j => job_json j
  | BJobs l => JObj [("jobs", JArr (recent_json <$> l))]
  | BStats s => stats_json s
  end.

(** The text of the answer, and what [fetch] gives for it. *)
Definition sent_text (r : response) : string := stringify (body_json (content r)).

Definition answer_of (r : response) : fetched :=
  mkFetched (status r)
    match JSON_parse (sent_text r) with
    | Some v => Ok v
    | None => Err (JsErr CError "SyntaxError" "Unexpected token" None [])
    end.

(** ** Round trip *)

(** The JSON that clients sent is JSON. *)
Definition wf_body (b : body) : Prop :=
  match b with
  | BJson v => wf_json v = true
  | BJob j => wf_json (j_payload j) = true
  | BJobs _ | BStats _ => True
  end.

Lemma wf_nullable {A} (f : A -> json) x : (forall a, wf_json (f a) = true) -> wf_json (nullable f x) = true.
Proof. destruct x; simpl; auto. Qed.

Lemma num_text_pretty (n : Z) : num_text (pretty n) = true.
Proof. exact (wf_json_number n). Qed.

Lemma wf_recent_json r : wf_json (recent_json r) = true.
Proof. simpl. by rewrite !num_text_pretty. Qed.

Lemma wf_byStatus (l : list (string * Z)) :
  wf_json (JObj ((fun x => (x.1, json_number x.2)) <$> l)) = true.
Proof. induction l as [|x l IH]; [done|]. simpl in *. by rewrite num_text_pretty. Qed.

Lemma wf_body_json b : wf_body b -> wf_json (body_json b) = true.
Proof.
  destruct b as [v|j|l|s]; [done|intros Hp|intros _|intros _].
  - simpl in *. by rewrite Hp, !num_text_pretty, !wf_nullable.
  - cbn [body_json wf_json forallb snd]. rewrite andb_true_r.
    induction l as [|r l IH]; [done|]. cbn [fmap list_fmap forallb]. by rewrite wf_recent_json.
  - cbn [body_json stats_json wf_json forallb snd]. rewrite !wf_json_number.
    pose proof (wf_byStatus (byStatus s)) as Hw. cbn [wf_json] in Hw. by rewrite Hw.
Qed.

Lemma answer_of_body r : wf_body (content r) -> answer_of r = mkFetched (status r) (Ok (body_json (content r))).
Proof. intros Hwf. unfold answer_of, sent_text. by rewrite JSON_parse_stringify by by apply wf_body_json. Qed.

(** ** The dashboard's types *)

(** The object has the members that [interface JobDetail] says, with these
    values: [res.json()] is only declared to be one. *)
Record is_detail (v : json) (d : JobDetail) : Prop := {
  has_id : get_prop "id" v = Some (JStr (d_id d));
  has_type : get_prop "type" v = Some (JStr (d_type d));
  has_payload : get_prop "payload" v = Some (d_payload d);
  has_status_ : get_prop "status" v = Some (JStr (d_status d));
  has_attempt_count : get_prop "attempt_count" v = Some (json_number (d_attempt_count d));
  has_max_attempts : get_prop "max_attempts" v = Some (json_number (d_max_attempts d));
  has_last_error : get_prop "last_error" v = Some (nullable JStr (d_last_error d));
  has_created_at : get_prop "created_at" v = Some (JStr (d_created_at d));
  has_updated_at : get_prop "updated_at" v = Some (JStr (d_updated_at d));
  has_total : get_prop "total_attempt_count" v = Some (json_number (d_total_attempt_count d));
  has_replay_count : get_prop "replay_count" v = Some (json_number (d_replay_count d));
  has_dead_at : get_prop "last_dead_lettered_at" v = Some (nullable JStr (d_last_dead_lettered_at d));
  has_dead_reason :
    get_prop "last_dead_letter_reason" v = Some (nullable JStr (d_last_dead_letter_reason d)) }.

(** What the dashboard has of a row. *)
Definition detail_of (j : Job) : JobDetail :=
  mkDetail (j_id j) (j_type j) (j_payload j) (status_text (j_status j))
    (j_attempt_count j) (j_max_attempts j) (j_last_error j)
    (timestamp_text (j_created_at j)) (timestamp_text (j_updated_at j))
    (j_total_attempt_count j) (j_replay_count j)
    (timestamp_text <$> j_last_dead_lettered_at j) (j_last_dead_letter_reason j).

Lemma is_detail_job j : is_detail (job_json j) (detail_of j).
Proof. split; try done. simpl. by destruct (j_last_dead_lettered_at j). Qed.

#[local] Instance json_number_inj : Inj (=) (=) json_number.
Proof. intros m n [= Hp]. by apply (inj pretty) in Hp. Qed.

#[local] Instance nullable_inj : Inj (=) (=) (nullable JStr).
Proof. intros [x|] [y|]; simpl; congruence. Qed.

Lemma is_detail_unique v d d' : is_detail v d -> is_detail v d' -> d = d'.
Proof.
  intros [H1 H2 H3 H4 H5 H6 H7 H8 H9 H10 H11 H12 H13] [].
  assert (forall {A} (f : A -> json) `{!Inj (=) (=) f} x y k,
    get_prop k v = Some (f x) -> get_prop k v = Some (f y) -> x = y) as Hsame.
  { intros A f ? x y k Hx Hy. apply (inj f). congruence. }
  assert (Inj (=) (=) JStr) by by intros ? ? [=].
  destruct d, d'; simpl in *. f_equal; try congruence; eapply Hsame; eauto with typeclass_instances.
Qed.

(** What the API answers about a job, as JSON text, is read by the dashboard as
    the row: every member of the details is there, with the value of its column,
    and no other reading of the text is possible. *)
Theorem job_answer_read_back j :
  wf_json (j_payload j) = true ->
  exists v, JSON_parse (sent_text (mkResponse 200 [] (BJob j))) = Some v
    /\ Client.request (Ok (answer_of (mkResponse 200 [] (BJob j)))) = Ok v
    /\ forall d, is_detail v d <-> d = detail_of j.
Proof.
  intros Hp. exists (job_json j).
  split; [apply JSON_parse_stringify; by apply (wf_body_json (BJob j))|].
  split; [by rewrite answer_of_body|]. intros d. split; [|intros ->; apply is_detail_job].
  intros Hd. eapply is_detail_unique; [exact Hd|apply is_detail_job].
Qed.

(** The list of recent jobs shows no payload and no error. *)
Theorem recent_jobs_are_summaries r :
  get_prop "payload" (recent_json r) = None /\ get_prop "last_error" (recent_json r) = None
  /\ get_prop "last_dead_letter_reason" (recent_json r) = None.
Proof. done. Qed.
