(* ===== verification/Dashboard.v ===== *)
(** * The dashboard's application component

    apps/dashboard/src/App.tsx with the state of the [JobDetail] it shows.  The
    hooks' state is a record; an [async] call that is waiting for its answer is
    in [pending].  A transition is what one event runs at once: the state
    setters, then (React batches them) one new rendering with its effects.
    A message of the feed only sets [lastEvent] and has its rendering scheduled:
    React 18 may render several messages at once, and then only the last is seen.
    Answers come in any order. *)
From stdpp Require Import pretty.
From S2P Require Import Prelude Json Postgres Amqp Programs Effects Worker Api RateLimiter Http Client Page.
#[local] Open Scope stdpp_scope.

Definition REFRESH_INTERVAL_MS : Z := 15000.

(** ** The state *)

Inductive ConnectionState := Connecting | Open | Closed.

#[export] Instance ConnectionState_eq_dec : EqDecision ConnectionState.
Proof. solve_decision. Defined.

(** Calls that wait: [refreshOverview()], [refreshSelectedJob(id)], and
    [handleReplay()] of the [instance]-th [JobDetail] about a job, whose
    [onReplayed] refreshes the job that was selected. *)
Inductive query :=
| OverviewQuery
| JobQuery (id : string)
| ReplayQuery (instance : nat) (job_id selected : string) (f : faults).

Record app := mkApp {
  stats : option Stats;
  jobs : list RecentJob;
  selectedJob : option JobDetail;
  selectedJobId : option string;
  error : option string;
  loading : bool;
  lastEvent : option json;               (* as it is rendered *)
  scheduled : option json;               (* set, and not rendered yet *)
  connectionState : ConnectionState;
  detail : panel;                        (* the state of the mounted JobDetail *)
  instance : nat;                        (* how many were mounted *)
  session : storage;                     (* sessionStorage of the tab *)
  pending : gmap nat query;
  next_call : nat
}.

Definition set_overview (st : option Stats) (l : list RecentJob) (e : option string) (s : app) : app :=
  mkApp st l (selectedJob s) (selectedJobId s) e false (lastEvent s) (scheduled s) (connectionState s)
    (detail s) (instance s) (session s) (pending s) (next_call s).
Definition setSelectedJob (j : option JobDetail) (s : app) : app :=
  mkApp (stats s) (jobs s) j (selectedJobId s) (error s) (loading s) (lastEvent s)
    (scheduled s) (connectionState s) (detail s) (instance s) (session s) (pending s) (next_call s).
Definition setSelectedJobId (i : option string) (s : app) : app :=
  mkApp (stats s) (jobs s) (selectedJob s) i (error s) (loading s) (lastEvent s)
    (scheduled s) (connectionState s) (detail s) (instance s) (session s) (pending s) (next_call s).
Definition setLastEvent (v : json) (s : app) : app :=
  mkApp (stats s) (jobs s) (selectedJob s) (selectedJobId s) (error s) (loading s) (lastEvent s)
    (Some v) (connectionState s) (detail s) (instance s) (session s) (pending s) (next_call s).
(** The rendering that shows the event that was set last. *)
Definition flush (s : app) : app :=
  match scheduled s with
  | Some v => mkApp (stats s) (jobs s) (selectedJob s) (selectedJobId s) (error s) (loading s) (Some v)
      None (connectionState s) (detail s) (instance s) (session s) (pending s) (next_call s)
  | None => s
  end.
Definition setConnectionState (c : ConnectionState) (s : app) : app :=
  mkApp (stats s) (jobs s) (selectedJob s) (selectedJobId s) (error s) (loading s) (lastEvent s)
    (scheduled s) c
    (detail s) (instance s) (session s) (pending s) (next_call s).
Definition set_detail (p : panel) (n : nat) (s : app) : app :=
  mkApp (stats s) (jobs s) (selectedJob s) (selectedJobId s) (error s) (loading s) (lastEvent s)
    (scheduled s) (connectionState s) p n (session s) (pending s) (next_call s).
Definition set_session (st : storage) (s : app) : app :=
  mkApp (stats s) (jobs s) (selectedJob s) (selectedJobId s) (error s) (loading s) (lastEvent s)
    (scheduled s) (connectionState s) (detail s) (instance s) st (pending s) (next_call s).
Definition set_pending (m : gmap nat query) (n : nat) (s : app) : app :=
  mkApp (stats s) (jobs s) (selectedJob s) (selectedJobId s) (error s) (loading s) (lastEvent s)
    (scheduled s) (connectionState s) (detail s) (instance s) (session s) m n.

Definition send (q : query) (s : app) : app :=
  set_pending (<[next_call s := q]> (pending s)) (S (next_call s)) s.
Definition answered (t : nat) (s : app) : app := set_pending (delete t (pending s)) (next_call s) s.

Definition initial (st : storage) : app :=
  mkApp None [] None None None true None None Connecting new_panel 0 st ∅ 0.

(** ** Calls, up to their [await] *)

Definition refreshOverview (s : app) : app := send OverviewQuery s.
Definition refreshSelectedJob (id : string) (s : app) : app := send (JobQuery id) s.

(** ** The rendering and its effects *)

(** [selectedJobId && selectedJob]: a [JobDetail] is mounted. *)
Definition detail_shown (s : app) : bool :=
  truthy (selectedJobId s) && bool_decide (is_Some (selectedJob s)).

(** A [JobDetail] keeps its state while it is mounted. *)
Definition mount (old s : app) : app :=
  if detail_shown s && negb (detail_shown old) then set_detail new_panel (S (instance s)) s else s.

(** [useEffect(.., [selectedJobId, ..])] *)
Definition selection_effect (s : app) : app :=
  match selectedJobId s with
  | Some id => if String.eqb id "" then s else refreshSelectedJob id s
  | None => s
  end.

(** [lastEvent.jobId === selectedJobId] *)
Definition event_about (event : json) (id : string) : bool :=
  match get_prop "jobId" event with Some (JStr jobId) => String.eqb jobId id | _ => false end.

(** [useEffect(.., [lastEvent, .., selectedJobId])] *)
Definition event_effect (s : app) : app :=
  match lastEvent s with
  | None => s
  | Some event =>
      let s := refreshOverview s in
      match selectedJobId s with
      | Some id =>
          if negb (String.eqb id "") && event_about event id then refreshSelectedJob id s else s
      | None => s
      end
  end.

(** What follows the setters.  [batched]: a message that waits for its rendering
    is rendered too. *)
Definition render (batched : bool) (old s : app) : app :=
  let event := batched && bool_decide (is_Some (scheduled s)) in
  let s := mount old (if batched then flush s else s) in
  let selection := bool_decide (selectedJobId old <> selectedJobId s) in
  let s := if selection then selection_effect s else s in
  if selection || event then event_effect s else s.

(** ** Events *)

(** The first rendering: its effects, and the interval starts. *)
Definition mounted (st : storage) : app := refreshOverview (initial st).

(** The answers to [refreshOverview]. *)
Definition overview_answer (t : nat) (result : res failure (Stats * list RecentJob)) (s : app) : app :=
  let s := answered t s in
  match result with
  | Ok (statsResult, jobsResult) => set_overview (Some statsResult) jobsResult None s
  | Err _ => set_overview (stats s) (jobs s) (Some "Unable to load dashboard data. Retrying...") s
  end.

(** The answer to [refreshSelectedJob]; a message before it may share its
    rendering. *)
Definition job_answer (batched : bool) (t : nat) (result : res failure JobDetail) (s : app) : app :=
  let s := answered t s in
  match result with
  | Ok job => render batched s (setSelectedJob (Some job) s)
  | Err (ApiError 404 _) => render batched s (setSelectedJobId None (setSelectedJob None s))
  | Err _ => s
  end.

Definition handleSelect (id : string) (s : app) : app :=
  render false s (setSelectedJobId (Some id) s).
Definition handleBack (s : app) : app :=
  render false s (setSelectedJob None (setSelectedJobId None s)).

(** A click on Replay, [entered] being what [window.prompt] returns. *)
Definition click_replay (f : faults) (entered : option string) (s : app) : app :=
  match selectedJob s with
  | None => s
  | Some job =>
      let '(sent, st, p) := handleReplay f entered (d_id job) (session s) (detail s) in
      let s := set_session st (set_detail p (instance s) s) in
      match sent with
      | Some _ => send (ReplayQuery (instance s) (d_id job) (default "" (selectedJobId s)) f) s
      | None => s
      end
  end.

(** The answer to it; the setters of an unmounted [JobDetail] do nothing. *)
Definition replay_answer (t n : nat) (selected : string) (f : faults) (result : res failure json)
    (s : app) : app :=
  let '(st, p, refreshed) := handleReplay_end f result (session s) (detail s) in
  let s := set_session st (answered t s) in
  let s := if (instance s =? n)%nat && detail_shown s then set_detail p (instance s) s else s in
  if refreshed then refreshSelectedJob selected s else s.

(** A click on what the page shows. *)
Definition click (a : action) (f : faults) (entered : option string) (s : app) : app :=
  match a with
  | SelectJob id => handleSelect id s
  | GoBack => handleBack s
  | ReplayJob => click_replay f entered s
  end.

(** A message of the feed, and the rendering that it schedules. *)
Definition new_event (v : json) (s : app) : app := setLastEvent v s.
Definition rendered (s : app) : app := render true s s.

(** ** The page *)

Definition indicator (c : ConnectionState) : elem :=
  El "span" (class ("connection-indicator connection-" +:+
      match c with Connecting => "connecting" | Open => "open" | Closed => "closed" end)) None
    [Text match c with
          | Open => "Live" | Connecting => "Connecting..."
          | Closed => "Offline (REST fallback active)" end].

Section page.
Variables (percent : Q -> string) (toLocaleString : string -> string).

Definition App (s : app) : elem :=
  let selected := truthy (selectedJobId s) in
  El "div" (class "app") None
    ([El "header" (class "app-header") None
        [plain "h1" [Text "DeadLetter Operational Dashboard"]; indicator (connectionState s)]]
     ++ when (truthy (error s)) (El "p" (class "global-error") None [Text (default "" (error s))])
     ++ when (loading s) (El "p" (class "loading-state") None [Text "Loading..."])
     ++ match stats s with
        | Some st =>
            if negb (loading s) && negb selected then
              [Overview percent st; plain "h2" [Text "Recent Jobs"];
               JobList toLocaleString (jobs s)]
            else []
        | None => []
        end
     ++ match selectedJob s with
        | Some job => when selected (JobDetail_page toLocaleString job (detail s))
        | None => []
        end
     ++ when (selected && bool_decide (selectedJob s = None))
          (El "p" (class "loading-state") None [Text "Loading job..."])).

(** ** Steps *)

(** Jobs that the API does not know; those that it knows stay (it never deletes
    a job). *)
Variable gone : string -> Prop.

(** What the API may answer about a job. *)
Definition consistent (id : string) (result : res failure JobDetail) : Prop :=
  match result with
  | Ok job => d_id job = id /\ ~ gone id
  | Err (ApiError 404 _) => gone id
  | Err _ => True
  end.

(** [patient]: the selection changes only while no answer about a job is due. *)
Definition about_job (q : query) : bool :=
  match q with OverviewQuery => false | _ => true end.

Definition no_job_due (s : app) : Prop := map_Forall (fun _ q => about_job q = false) (pending s).

Inductive app_act (patient : bool) (s : app) : app -> Prop :=
| app_interval : app_act patient s (refreshOverview s)
| app_overview t result :
    pending s !! t = Some OverviewQuery -> app_act patient s (overview_answer t result s)
| app_job batched t id result :
    pending s !! t = Some (JobQuery id) ->
    consistent id result ->
    app_act patient s (job_answer batched t result s)
| app_replay t n job_id selected f result :
    pending s !! t = Some (ReplayQuery n job_id selected f) ->
    app_act patient s (replay_answer t n selected f result s)
| app_click a f entered :
    a ∈ clickable (App s) -> (patient = true -> a <> ReplayJob -> no_job_due s) ->
    app_act patient s (click a f entered s)
| app_event v : app_act patient s (new_event v s)
| app_rendered : app_act patient s (rendered s)
| app_connection c : app_act patient s (setConnectionState c s).

Definition app_reachable (patient : bool) (st : storage) : app -> Prop :=
  rtc (app_act patient) (mounted st).
End page.
