(* ===== verification/LiveFeed.v ===== *)
(** * The dashboard's event feed

    apps/dashboard/src/ws/useJobEvents.ts: the hook that keeps a WebSocket to the
    API and reconnects with a back-off.  The effect's variables and the browser's
    sockets and timers are a record; an event of a socket or a timer runs its
    listener at once. *)
From S2P Require Import Prelude Json Postgres Amqp Programs Effects Worker Api RateLimiter Http Client Page Dashboard.
#[local] Open Scope stdpp_scope.

(** A socket of the browser, until its close event. *)
Inductive socket := SConnecting | SOpen | SClosing.

#[export] Instance socket_eq_dec : EqDecision socket.
Proof. solve_decision. Defined.

Record feed := mkFeed {
  ws : option nat;
  reconnectTimer : option nat;
  cancelled : bool;
  reconnectAttempt : Z;
  f_lastEvent : option json;
  f_state : ConnectionState;
  sockets : gmap nat socket;             (* of the browser *)
  timers : gmap nat Z;                   (* pending, with their delays *)
  f_next : nat                           (* sockets and timers so far *)
}.

Definition set_socket (m : gmap nat socket) (s : feed) : feed :=
  mkFeed (ws s) (reconnectTimer s) (cancelled s) (reconnectAttempt s) (f_lastEvent s) (f_state s) m
    (timers s) (f_next s).
Definition set_timers (m : gmap nat Z) (s : feed) : feed :=
  mkFeed (ws s) (reconnectTimer s) (cancelled s) (reconnectAttempt s) (f_lastEvent s) (f_state s)
    (sockets s) m (f_next s).
Definition set_state (c : ConnectionState) (s : feed) : feed :=
  mkFeed (ws s) (reconnectTimer s) (cancelled s) (reconnectAttempt s) (f_lastEvent s) c (sockets s)
    (timers s) (f_next s).

(** [socket.close()]: its close event is still to come. *)
Definition close_socket (i : nat) (s : feed) : feed :=
  match sockets s !! i with
  | Some _ => set_socket (<[i := SClosing]> (sockets s)) s
  | None => s
  end.

(** [ws?.close()] *)
Definition close_ws (s : feed) : feed :=
  match ws s with Some i => close_socket i s | None => s end.

(** [connect()] *)
Definition connect (s : feed) : feed :=
  if cancelled s then s
  else mkFeed (Some (f_next s)) (reconnectTimer s) (cancelled s) (reconnectAttempt s)
         (f_lastEvent s) Connecting (<[f_next s := SConnecting]> (sockets s)) (timers s)
         (S (f_next s)).

(** [ws.onopen] of socket [i] *)
Definition onopen (i : nat) (s : feed) : feed :=
  mkFeed (ws s) (reconnectTimer s) (cancelled s) 0 (f_lastEvent s) Open
    (<[i := SOpen]> (sockets s)) (timers s) (f_next s).

(** [parsed && parsed.type === "job.updated"] *)
Definition job_updated (parsed : json) : bool :=
  match get_prop "type" parsed with Some (JStr t) => String.eqb t "job.updated" | _ => false end.

(** [ws.onmessage]: the event that it sets, if any. *)
Definition received (text : string) : option json :=
  match JSON_parse text with
  | Some parsed => if job_updated parsed then Some parsed else None
  | None => None
  end.

Definition onmessage (text : string) (s : feed) : feed :=
  match received text with
  | Some parsed =>
      mkFeed (ws s) (reconnectTimer s) (cancelled s) (reconnectAttempt s) (Some parsed) (f_state s)
        (sockets s) (timers s) (f_next s)
  | None => s
  end.

(** [Math.min(1000 * 2 ** reconnectAttempt.current, 15000)] *)
Definition reconnect_delay (attempt : Z) : Z := Z.min (1000 * 2 ^ attempt) 15000.

(** [ws.onclose] of socket [i] *)
Definition onclose (i : nat) (s : feed) : feed :=
  let s := set_state Closed (set_socket (delete i (sockets s)) s) in
  if cancelled s then s
  else mkFeed (ws s) (Some (f_next s)) (cancelled s) (reconnectAttempt s + 1) (f_lastEvent s)
         (f_state s) (sockets s)
         (<[f_next s := reconnect_delay (reconnectAttempt s)]> (timers s)) (S (f_next s)).

(** [ws.onerror] *)
Definition onerror (s : feed) : feed := close_ws s.

(** The timer [i] fires. *)
Definition timer_fires (i : nat) (s : feed) : feed :=
  connect (set_timers (delete i (timers s)) s).

(** The cleanup of the effect. *)
Definition unmount (s : feed) : feed :=
  close_ws
    (mkFeed (ws s) (reconnectTimer s) true (reconnectAttempt s) (f_lastEvent s) (f_state s)
       (sockets s)
       (match reconnectTimer s with Some i => delete i (timers s) | None => timers s end)
       (f_next s)).

(** The component is mounted. *)
Definition feed_started : feed :=
  connect (mkFeed None None false 0 None Connecting ∅ ∅ 0).

Inductive feed_act (s : feed) : feed -> Prop :=
| feed_open i : sockets s !! i = Some SConnecting -> feed_act s (onopen i s)
| feed_message i text : sockets s !! i = Some SOpen -> feed_act s (onmessage text s)
| feed_error i k : sockets s !! i = Some k -> feed_act s (onerror s)
| feed_close i k : sockets s !! i = Some k -> feed_act s (onclose i s)
| feed_timer i d : timers s !! i = Some d -> feed_act s (timer_fires i s)
| feed_unmount : cancelled s = false -> feed_act s (unmount s).

Definition feed_reachable : feed -> Prop := rtc feed_act feed_started.

(** ** One socket or one timer *)

(** The state that the indicator shows, for the state of the socket; a closing
    socket keeps the state that it had. *)
Definition state_agrees (k : socket) (c : ConnectionState) : Prop :=
  match k with SConnecting => c = Connecting | SOpen => c = Open | SClosing => c <> Closed end.

Definition linked (s : feed) : Prop :=
  exists i k, ws s = Some i /\ sockets s = {[ i := k ]} /\ timers s = ∅
    /\ state_agrees k (f_state s) /\ (k = SOpen -> reconnectAttempt s = 0).

Definition waiting (s : feed) : Prop :=
  exists i, reconnectTimer s = Some i /\ sockets s = ∅ /\ f_state s = Closed
    /\ timers s = {[ i := reconnect_delay (reconnectAttempt s - 1) ]} /\ 0 < reconnectAttempt s.

(** After the unmounting: nothing but the close event of the last socket. *)
Definition ended (s : feed) : Prop :=
  timers s = ∅ /\ (sockets s = ∅ \/ exists i, ws s = Some i /\ sockets s = {[ i := SClosing ]}).

Definition feed_ok (s : feed) : Prop :=
  0 <= reconnectAttempt s /\ if cancelled s then ended s else linked s \/ waiting s.

Lemma feed_act_ok s s' : feed_ok s -> feed_act s s' -> feed_ok s'.
Proof.
  unfold feed_ok, linked, waiting, ended. intros [Hr Hs] Ha. destruct (cancelled s) eqn:Hc.
  - destruct Hs as [Ht Hs].
    destruct Ha as [i Hi|i text Hi|i k Hi|i k Hi|i d Hi|Hn]; [| | | | |congruence].
    + destruct Hs as [Hs|(j & _ & Hs)]; rewrite Hs in Hi; [done|].
      by apply lookup_singleton_Some in Hi as [_ ?].
    + destruct Hs as [Hs|(j & _ & Hs)]; rewrite Hs in Hi; [done|].
      by apply lookup_singleton_Some in Hi as [_ ?].
    + destruct Hs as [Hs|(j & Hw & Hs)]; rewrite Hs in Hi; [done|].
      unfold onerror, close_ws, close_socket. rewrite Hw, Hs, lookup_singleton_eq. simpl. rewrite Hc.
      split; [done|]. split; [done|]. right. exists j. by rewrite insert_singleton_eq.
    + destruct Hs as [Hs|(j & Hw & Hs)]; rewrite Hs in Hi; [done|].
      apply lookup_singleton_Some in Hi as [-> _]. unfold onclose. simpl. rewrite ?Hc. simpl. rewrite ?Hc.
      split; [done|]. split; [done|]. left. by rewrite Hs, delete_singleton_eq.
    + by rewrite Ht in Hi.
  - destruct Ha as [i Hi|i text Hi|i k Hi|i k Hi|i d Hi|_].
    + destruct Hs as [(j & k & Hw & Hs & Ht & Hst & Hk)|(j & _ & Hs & _)]; rewrite Hs in Hi; [|done].
      apply lookup_singleton_Some in Hi as [-> ->]. simpl. rewrite Hc. split; [done|]. left.
      exists i, SOpen. by rewrite Hs, insert_singleton_eq.
    + unfold onmessage. destruct (received text); [|rewrite Hc; by split]. simpl. rewrite Hc. by split.
    + destruct Hs as [(j & k' & Hw & Hs & Ht & Hst & Hk)|(j & _ & Hs & _)]; rewrite Hs in Hi; [|done].
      unfold onerror, close_ws, close_socket. rewrite Hw, Hs, lookup_singleton_eq. simpl. rewrite Hc.
      split; [done|]. left. exists j, SClosing. rewrite insert_singleton_eq.
      repeat split; try done. simpl in *. by destruct k'; simpl in Hst; rewrite ?Hst.
    + destruct Hs as [(j & k' & Hw & Hs & Ht & Hst & Hk)|(j & _ & Hs & _)]; rewrite Hs in Hi; [|done].
      apply lookup_singleton_Some in Hi as [-> ->]. unfold onclose. simpl. rewrite ?Hc. simpl. rewrite ?Hc.
      split; [lia|]. right. exists (f_next s). rewrite Hs, Ht, delete_singleton_eq.
      repeat split; try done; [|lia]. by replace (reconnectAttempt s + 1 - 1) with (reconnectAttempt s) by lia.
    + destruct Hs as [(j & k' & Hw & Hs & Ht & Hst & Hk)|(j & _ & Hs & _ & Ht & Hp)]; rewrite Ht in Hi; [done|].
      apply lookup_singleton_Some in Hi as [-> _]. unfold timer_fires, connect. simpl. rewrite ?Hc. simpl. rewrite ?Hc.
      split; [done|]. left. exists (f_next s), SConnecting. by rewrite Hs, Ht, delete_singleton_eq.
    + unfold unmount, close_ws, close_socket. simpl.
      destruct Hs as [(j & k & Hw & Hs & Ht & _)|(j & Hj & Hs & _ & Ht & _)]; rewrite Hs, Ht.
      * rewrite Hw, lookup_singleton_eq. simpl. split; [done|]. rewrite insert_singleton_eq.
        split; [by destruct (reconnectTimer s); rewrite ?delete_empty|by eauto].
      * rewrite Hj, delete_singleton_eq. destruct (ws s); simpl; rewrite ?lookup_empty; simpl; auto 10.
Qed.

Lemma feed_reachable_ok s : feed_reachable s -> feed_ok s.
Proof.
  revert s. apply rtc_ind_r.
  - split; [done|]. left. exists 0%nat, SConnecting. by repeat split.
  - intros s1 s2 _ Ha IH. by eapply feed_act_ok.
Qed.

Lemma reconnect_delay_bounds attempt : 0 <= attempt -> 1000 <= reconnect_delay attempt <= 15000.
Proof. unfold reconnect_delay. intros Ha. pose proof (Z.pow_pos_nonneg 2 attempt). lia. Qed.

Definition opens (s : feed) : Prop := exists s', rtc feed_act s s' /\ f_state s' = Open /\ linked s'.

Lemma opens_step s s' : feed_act s s' -> opens s' -> opens s.
Proof. intros Ha (s2 & Hs & H2). exists s2. split; [by eapply rtc_l|done]. Qed.

Lemma opens_connecting s i :
  ws s = Some i -> sockets s = {[ i := SConnecting ]} -> timers s = ∅ -> opens s.
Proof.
  intros Hw Hs Ht. eexists. split; [apply rtc_once, (feed_open s i)|].
  - by rewrite Hs, lookup_singleton_eq.
  - split; [done|]. exists i, SOpen. simpl. by rewrite Hs, insert_singleton_eq.
Qed.

Lemma opens_waiting s : cancelled s = false -> waiting s -> opens s.
Proof.
  intros Hc (i & _ & Hs & _ & Ht & _).
  eapply opens_step; [eapply (feed_timer s i); rewrite Ht; by apply lookup_singleton_eq|].
  unfold timer_fires, connect. simpl. rewrite Hc. eapply opens_connecting; simpl; [done|..].
  - by rewrite Hs.
  - by rewrite Ht, delete_singleton_eq.
Qed.

(** C30: the dashboard's feed never gives up and never doubles: while mounted it
    has one socket and no timer, or no socket and one timer of 1 to 15 seconds
    (twice as long after each failure), the indicator agrees with the socket,
    and the feed can always still become live; once unmounted it starts nothing
    any more. *)
Theorem feed_keeps_trying s :
  feed_reachable s ->
  if cancelled s then ended s
  else (linked s \/ waiting s)
       /\ (forall i d, timers s !! i = Some d -> 1000 <= d <= 15000)
       /\ opens s.
Proof.
  intros [Hr Hs]%feed_reachable_ok. destruct (cancelled s) eqn:Hc; [done|].
  split; [done|]. split.
  - intros i d Hi. destruct Hs as [(j & k & _ & _ & Ht & _)|(j & _ & _ & _ & Ht & Hp)];
      rewrite Ht in Hi; [done|].
    apply lookup_singleton_Some in Hi as [_ <-]. apply reconnect_delay_bounds. lia.
  - destruct Hs as [Hl|Hw]; [|by apply opens_waiting].
    pose proof Hl as (i & k & Hw & Hs & Ht & Hst & _). destruct k.
    + by eapply opens_connecting.
    + exists s. split; [done|]. by split.
    + assert (sockets s !! i = Some SClosing) as Hi by by rewrite Hs, lookup_singleton_eq.
      eapply opens_step; [by eapply feed_close|]. apply opens_waiting.
      * unfold onclose. simpl. by rewrite Hc.
      * pose proof (feed_act_ok s (onclose i s)) as Hok. unfold feed_ok in Hok. rewrite Hc in Hok.
        destruct Hok as [_ Hok]; [by split; [|left]|by eapply feed_close|].
        unfold onclose in *. simpl in *. rewrite Hc in *. simpl in *.
        destruct Hok as [(j & k & _ & Hj & _)|Hok]; [|done].
        rewrite Hs, delete_singleton_eq in Hj. simpl in Hj.
        by apply (f_equal (lookup j)) in Hj; rewrite lookup_singleton_eq in Hj.
Qed.

(** A feed that lost its second connection attempt. *)
Definition feed_lost : feed := onclose 2 (timer_fires 1 (onclose 0 feed_started)).

Lemma feed_lost_reachable : feed_reachable feed_lost.
Proof.
  unfold feed_lost. eapply rtc_r; [eapply rtc_r; [eapply rtc_once|]|].
  - by apply (feed_close _ 0 SConnecting).
  - by apply (feed_timer _ 1 1000).
  - by apply (feed_close _ 2 SConnecting).
Qed.

Lemma feed_keeps_trying_witness :
  timers feed_lost !! 3%nat = Some 2000
  /\ if cancelled feed_lost then ended feed_lost
     else (linked feed_lost \/ waiting feed_lost)
          /\ (forall i d, timers feed_lost !! i = Some d -> 1000 <= d <= 15000)
          /\ opens feed_lost.
Proof.
  split; [vm_compute; reflexivity|]. apply (feed_keeps_trying feed_lost). exact feed_lost_reachable.
Defined.
