(* ===== verification/Showing.v ===== *)
(** * What the dashboard shows

    Properties of the application component (Dashboard) over all its runs, and
    the way of a change from the poller of the API to the dashboard's requests. *)
From stdpp Require Import pretty.
From S2P Require Import Prelude Json Postgres Amqp Programs Effects Worker Api Lifecycle RateLimiter Http Poller Sample Notifications Client Page Dashboard LiveFeed.
#[local] Open Scope stdpp_scope.

(** ** What the steps keep *)

Lemma mount_fields old s :
  stats (mount old s) = stats s /\ error (mount old s) = error s /\ loading (mount old s) = loading s
  /\ selectedJob (mount old s) = selectedJob s /\ selectedJobId (mount old s) = selectedJobId s
  /\ pending (mount old s) = pending s /\ next_call (mount old s) = next_call s
  /\ lastEvent (mount old s) = lastEvent s.
Proof. unfold mount. by destruct (detail_shown s && _). Qed.

(** The effects of a rendering send requests, and change nothing else. *)
Record sent_more (s s' : app) : Prop := {
  same_stats : stats s' = stats s;
  same_jobs : jobs s' = jobs s;
  same_error : error s' = error s;
  same_loading : loading s' = loading s;
  same_selectedJob : selectedJob s' = selectedJob s;
  same_selectedJobId : selectedJobId s' = selectedJobId s;
  more_pending t q : pending s' !! t = Some q ->
    pending s !! t = Some q \/ q = OverviewQuery
    \/ exists id, q = JobQuery id /\ selectedJobId s = Some id /\ id <> "" }.

Lemma sent_more_refl s : sent_more s s.
Proof. split; eauto. Qed.

Lemma sent_more_trans s1 s2 s3 : sent_more s1 s2 -> sent_more s2 s3 -> sent_more s1 s3.
Proof.
  intros [? ? ? ? ? Hi Hp] [? ? ? ? ? ? Hp']. split; try congruence.
  intros t q Hq. destruct (Hp' t q Hq) as [?|[?|(id & ? & Hs & ?)]]; [by eapply Hp|by auto|].
  rewrite Hi in Hs. eauto 10.
Qed.

Lemma sent_more_mount old s : sent_more s (mount old s).
Proof. unfold mount. destruct (detail_shown s && _); split; simpl; auto. Qed.

Lemma sent_more_flush s : sent_more s (flush s).
Proof. unfold flush. destruct (scheduled s); split; simpl; auto. Qed.

Lemma sent_more_overview s : sent_more s (refreshOverview s).
Proof.
  split; try done. simpl. intros t q [[_ <-]|[_ ?]]%lookup_insert_Some; auto.
Qed.

Lemma sent_more_selected id s :
  selectedJobId s = Some id -> id <> "" -> sent_more s (refreshSelectedJob id s).
Proof.
  intros Hs Hid. split; try done. simpl. intros t q [[_ <-]|[_ ?]]%lookup_insert_Some; [|by auto].
  right. right. by exists id.
Qed.

Lemma sent_more_selection s : sent_more s (selection_effect s).
Proof.
  unfold selection_effect. destruct (selectedJobId s) as [id|] eqn:Hs; [|apply sent_more_refl].
  destruct (String.eqb_spec id ""); [apply sent_more_refl|by apply sent_more_selected].
Qed.

Lemma sent_more_event s : sent_more s (event_effect s).
Proof.
  unfold event_effect. destruct (lastEvent s) as [v|]; [|apply sent_more_refl].
  eapply sent_more_trans; [apply sent_more_overview|].
  destruct (selectedJobId (refreshOverview s)) as [id|] eqn:Hs; [|apply sent_more_refl].
  destruct (String.eqb_spec id ""); simpl; [apply sent_more_refl|].
  destruct (event_about v id); [by apply sent_more_selected|apply sent_more_refl].
Qed.

Lemma sent_more_render batched old s : sent_more s (render batched old s).
Proof.
  unfold render. set (event := batched && _). set (s1 := if batched then flush s else s).
  set (sel := bool_decide (_ <> _)).
  eapply (sent_more_trans _ s1); [unfold s1; destruct batched; [apply sent_more_flush|apply sent_more_refl]|].
  eapply sent_more_trans; [apply (sent_more_mount old)|].
  eapply (sent_more_trans _ (if sel then selection_effect (mount old s1) else mount old s1)).
  - destruct sel; [apply sent_more_selection|apply sent_more_refl].
  - destruct (sel || event); [apply sent_more_event|apply sent_more_refl].
Qed.

(** ** The page is never empty *)

Definition informed (s : app) : Prop :=
  loading s = true \/ stats s <> None \/ truthy (error s) = true.

Lemma informed_sent s s' : sent_more s s' -> informed s -> informed s'.
Proof. unfold informed. intros []. congruence. Qed.

Section showing.
Variables (percent : Q -> string) (toLocaleString : string -> string).
Variable gone : string -> Prop.
#[local] Abbreviation App := (App percent toLocaleString).
#[local] Abbreviation app_act := (app_act percent toLocaleString gone).
#[local] Abbreviation app_reachable := (app_reachable percent toLocaleString gone).

Lemma informed_act patient s s' : app_act patient s s' -> informed s -> informed s'.
Proof.
  intros Ha Hi. destruct Ha as [|t r Ht|b t id r Ht Hr|t n j sel f r Ht|a f entered Ha Hp|v| |c].
  - exact Hi.
  - destruct r as [[st l]|e]; unfold informed; simpl; auto.
  - unfold job_answer. destruct r as [job|[code body|e]]; [|repeat case_match|]; try exact Hi;
      (eapply informed_sent; [apply sent_more_render|exact Hi]).
  - unfold replay_answer. destruct (handleReplay_end _ _ _ _) as [[st p] refreshed].
    destruct refreshed, (_ && _); exact Hi.
  - destruct a; simpl; try (eapply informed_sent; [apply sent_more_render|exact Hi]).
    unfold click_replay. destruct (selectedJob s); [|exact Hi].
    destruct (handleReplay _ _ _ _ _) as [[[q|] st] p]; exact Hi.
  - exact Hi.
  - eapply informed_sent; [apply sent_more_render|exact Hi].
  - exact Hi.
Qed.

(** ** The details shown are those of the selected job *)

Definition about (s : app) (id : string) : Prop :=
  id <> "" /\ (selectedJobId s = Some id \/ selectedJobId s = None /\ gone id).

(** Every answer due is about the selected job, or about one that is gone. *)
Definition about_selected (s : app) (q : query) : Prop :=
  match q with
  | OverviewQuery => True
  | JobQuery id => about s id
  | ReplayQuery _ job_id selected _ => about s selected /\ job_id = selected
  end.

Record focused (s : app) : Prop := {
  shows_selected job : selectedJob s = Some job -> selectedJobId s = Some (d_id job) /\ d_id job <> "";
  due_about t q : pending s !! t = Some q -> about_selected s q }.

Lemma focused_sent s s' : sent_more s s' -> focused s -> focused s'.
Proof.
  intros [_ _ _ _ Hj Hi Hp] [H1 H2]. split; rewrite ?Hj, ?Hi; [done|].
  intros t q Hq. assert (forall q, about_selected s q -> about_selected s' q) as Hsame.
  { intros q' Hq'. destruct q'; simpl in *; unfold about in *; by rewrite ?Hi. }
  destruct (Hp t q Hq) as [?|[->|(id & -> & Hs & Hid)]]; [by eapply Hsame, H2|done|].
  apply Hsame. split; auto.
Qed.

(** Fewer calls wait. *)
Lemma focused_fewer s s' :
  selectedJob s' = selectedJob s -> selectedJobId s' = selectedJobId s -> pending s' ⊆ pending s ->
  focused s -> focused s'.
Proof.
  intros Hj Hi Hp [H1 H2]. split; rewrite ?Hj, ?Hi; [done|].
  intros t q Hq. eapply lookup_weaken, H2 in Hq; [|done].
  destruct q; simpl in *; unfold about in *; by rewrite ?Hi.
Qed.

(** A selection, while no answer about a job is due. *)
Lemma focused_select i s s' :
  selectedJob s' = None -> selectedJobId s' = i -> pending s' = pending s -> no_job_due s ->
  focused s'.
Proof.
  intros Hj _ Hp Hno. split; [by rewrite Hj|]. rewrite Hp. intros t q Hq.
  specialize (Hno t q Hq). by destruct q.
Qed.

(** What can be clicked on the page. *)
Lemma clickable_App s a :
  a ∈ clickable (App s) ->
  match a with
  | SelectJob id =>
      truthy (selectedJobId s) = false /\ exists job, job ∈ jobs s /\ rj_id job = id
  | GoBack => truthy (selectedJobId s) = true
  | ReplayJob =>
      truthy (selectedJobId s) = true /\ replaying (detail s) = false
      /\ exists job, selectedJob s = Some job /\ isDeadLettered job = true
  end.
Proof.
  unfold App, Dashboard.App, when. cbn [clickable]. rewrite !flat_map_app, !elem_of_app.
  intros [Ha|[Ha|[Ha|[Ha|[Ha|[Ha|Ha]]]]]].
  - by apply not_elem_of_nil in Ha.
  - by apply not_elem_of_nil in Ha.
  - destruct (truthy (error s)); by apply not_elem_of_nil in Ha.
  - destruct (loading s); by apply not_elem_of_nil in Ha.
  - destruct (stats s), (negb (loading s) && negb (truthy (selectedJobId s))) eqn:Hc;
      try by apply not_elem_of_nil in Ha.
    apply andb_true_iff in Hc as [_ Hc%negb_true_iff].
    cbn [flat_map clickable] in Ha. rewrite app_nil_r in Ha.
    apply elem_of_app in Ha as [Ha|Ha]; [by apply not_elem_of_nil in Ha|].
    apply clickable_JobList in Ha as (job & Hj & ->). eauto.
  - destruct (selectedJob s) as [job|], (truthy (selectedJobId s)); try by apply not_elem_of_nil in Ha.
    cbn [flat_map] in Ha. rewrite app_nil_r in Ha. revert Ha.
    rewrite clickable_JobDetail. intros [->|Ha]%elem_of_cons; [done|].
    destruct (isDeadLettered job) eqn:Hd, (replaying (detail s)); try by apply not_elem_of_nil in Ha.
    apply list_elem_of_singleton in Ha as ->. eauto 10.
  - destruct (truthy _ && _); by apply not_elem_of_nil in Ha.
Qed.

Lemma focused_job_answer batched t id result s :
  focused s -> pending s !! t = Some (JobQuery id) -> consistent gone id result ->
  focused (job_answer batched t result s).
Proof.
  intros Hs Ht Hr. pose proof (due_about _ Hs t _ Ht) as [Hne Hid].
  assert (focused (answered t s)) as Ha.
  { eapply focused_fewer; [..|exact Hs]; [done|done|apply delete_subseteq]. }
  unfold job_answer. destruct result as [job|[code b|e]]; [| |done].
  - destruct Hr as [<- Hg]. destruct Hid as [Hid|[_ ?]]; [|done].
    eapply focused_sent; [apply sent_more_render|]. split; simpl; [|apply Ha]. by intros ? [= <-].
  - destruct (decide (code = 404)) as [->|]; [|by repeat case_match].
    simpl in Hr. eapply focused_sent; [apply sent_more_render|]. split; simpl; [done|].
    intros t' q Hq. pose proof (due_about _ Ha t' q Hq) as Hq'.
    assert (forall id', about (answered t s) id' -> gone id') as Hgone.
    { intros id' [_ [Hi|[Hi Hg]]]; [|done]. simpl in Hi. destruct Hid as [Hid|[Hid _]]; congruence. }
    destruct q as [|id'|n j id' f]; simpl in *; unfold about in *; simpl; naive_solver.
Qed.

Lemma focused_replay_answer t n job_id selected f result s :
  focused s -> pending s !! t = Some (ReplayQuery n job_id selected f) ->
  focused (replay_answer t n selected f result s).
Proof.
  intros Hs Ht. pose proof (due_about _ Hs t _ Ht) as [Hab _].
  unfold replay_answer. destruct (handleReplay_end _ _ _ _) as [[st p] refreshed].
  cbv zeta. set (s1 := if (_ =? n)%nat && _ then _ else _).
  assert (selectedJob s1 = selectedJob s /\ selectedJobId s1 = selectedJobId s
          /\ pending s1 = delete t (pending s)) as (Hj & Hi & Hp).
  { unfold s1. by destruct (_ && _). }
  assert (focused s1) as H1.
  { eapply focused_fewer; [..|exact Hs]; [done|done|rewrite Hp; apply delete_subseteq]. }
  destruct refreshed; [|done]. split; [apply H1|]. simpl.
  intros t' q [[_ <-]|[_ Hq]]%lookup_insert_Some; [|by apply (due_about _ H1 t' q)].
  unfold about_selected, about in *. simpl. by rewrite Hi.
Qed.

Lemma focused_click a f entered s :
  focused s -> a ∈ clickable (App s) -> (a <> ReplayJob -> no_job_due s) ->
  focused (click a f entered s).
Proof.
  intros Hs Ha%clickable_App Hp. destruct a as [id| |]; simpl.
  - destruct Ha as [Hsel _]. eapply focused_sent; [apply sent_more_render|].
    eapply (focused_select (Some id) s); try done; [|by apply Hp].
    simpl. destruct (selectedJob s) as [job|] eqn:Hj; [|done].
    apply (shows_selected _ Hs) in Hj as [Hi Hne]. rewrite Hi in Hsel. simpl in Hsel.
    by apply negb_false_iff, String.eqb_eq in Hsel.
  - eapply focused_sent; [apply sent_more_render|]. eapply (focused_select None s); try done.
    by apply Hp.
  - destruct Ha as (_ & _ & job & Hj & _). unfold click_replay. rewrite Hj.
    pose proof (shows_selected _ Hs job Hj) as [Hi Hne].
    destruct (handleReplay _ _ _ _ _) as [[[q|] st] p];
      [|by apply (focused_fewer s)].
    split; [apply Hs|]. simpl. rewrite Hi. simpl.
    intros t' q' [[_ <-]|[_ Hq]]%lookup_insert_Some; [|by apply (due_about _ Hs t' q')].
    unfold about_selected, about. simpl. auto.
Qed.

Lemma focused_act s s' : focused s -> app_act true s s' -> focused s'.
Proof.
  intros Hs Ha. destruct Ha as [|t r Ht|b t id r Ht Hr|t n j sel f r Ht|a f entered Ha Hp|v| |c].
  - eapply focused_sent; [apply sent_more_overview|done].
  - destruct r as [[st l]|e]; (eapply focused_fewer; [..|exact Hs]); simpl;
      try done; apply delete_subseteq.
  - by eapply focused_job_answer.
  - by eapply focused_replay_answer.
  - apply focused_click; auto.
  - by apply (focused_fewer s).
  - by eapply focused_sent; [apply sent_more_render|].
  - by apply (focused_fewer s).
Qed.

Lemma mounted_focused st : focused (mounted st).
Proof.
  eapply focused_sent; [apply sent_more_overview|]. split; [done|]. simpl. intros t q Hq.
  by rewrite lookup_empty in Hq.
Qed.

Lemma reachable_focused st s : app_reachable true st s -> focused s.
Proof.
  revert s. apply rtc_ind_r; [apply mounted_focused|]. intros s1 s2 _ Ha IH. by eapply focused_act.
Qed.

Lemma reachable_informed patient st s : app_reachable patient st s -> informed s.
Proof.
  revert s. apply rtc_ind_r; [by left|]. intros s1 s2 _ Ha IH. by eapply informed_act.
Qed.
End showing.

(** ** The claims *)

Section claims.
Variables (percent : Q -> string) (toLocaleString : string -> string).
Variable gone : string -> Prop.

(** C35: as long as the operator changes the selection only while no answer about
    a job is due, the details that the dashboard shows are those of the selected
    job, every answer that is due is about that job (or one that does not exist),
    and a replay request that the page sends is about the job it shows. *)
Theorem shown_job_is_selected st s :
  app_reachable percent toLocaleString gone true st s -> focused gone s.
Proof. apply reachable_focused. Qed.

(** Whatever is clicked and whatever the API answers or fails to, the
    dashboard never shows an empty page: below the header there is a loading
    notice, an error, the overview with the list of jobs, or the details of a
    job; and Replay can be clicked only on the details of a dead-lettered job
    whose replay is not under way. *)
Theorem page_informs patient st s :
  app_reachable percent toLocaleString gone patient st s ->
  (exists header e rest, App percent toLocaleString s = El "div" (class "app") None (header :: e :: rest))
  /\ (ReplayJob ∈ clickable (App percent toLocaleString s) ->
      exists job, selectedJob s = Some job /\ d_status job = "DEAD_LETTERED"
        /\ replaying (detail s) = false).
Proof.
  intros Hs. split.
  - apply reachable_informed in Hs. unfold App, when.
    destruct (truthy (error s)) eqn:He; simpl; [by eauto|].
    destruct (loading s) eqn:Hl; simpl; [by eauto|].
    destruct Hs as [?|[Hst|?]]; [congruence| |congruence].
    destruct (stats s), (truthy (selectedJobId s)), (selectedJob s); simpl; try done; eauto.
  - intros (_ & Hr & job & Hj & Hd)%clickable_App. exists job. split; [done|]. split; [|done].
    by apply String.eqb_eq.
Qed.

(** A job is shown when an event about it arrives; before the answer to the
    refresh, the operator goes back and selects another job. *)
Definition listed (id : string) : RecentJob := mkRecent id "email" "DEAD_LETTERED" 3 3 "" "".
Definition details (id : string) : JobDetail :=
  mkDetail id "email" (JObj []) "DEAD_LETTERED" 3 3 None "" "" 3 0 None None.
Definition overview : res failure (Stats * list RecentJob) :=
  Ok (mkStats 2 {[ "DEAD_LETTERED" := 2 ]} 0 6 0, [listed "a"; listed "b"]).
Definition event_of_a : json := JObj [("type", JStr "job.updated"); ("jobId", JStr "a")].

Definition looking_at_a : app :=
  job_answer false 1 (Ok (details "a")) (handleSelect "a" (overview_answer 0 overview (mounted ∅))).
Definition refreshing_a : app := rendered (new_event event_of_a looking_at_a).
Definition looking_at_b : app :=
  job_answer false 5 (Ok (details "b")) (handleSelect "b" (handleBack refreshing_a)).
Definition late_answer : app :=
  overview_answer 6 overview (overview_answer 4 overview (overview_answer 2 overview
    (job_answer false 3 (Ok (details "a")) looking_at_b))).

#[local] Abbreviation reaches patient := (app_reachable percent toLocaleString gone patient ∅).

Lemma reaches_overview patient t s :
  pending s !! t = Some OverviewQuery -> reaches patient s -> reaches patient (overview_answer t overview s).
Proof. intros Ht Hs. eapply rtc_r; [exact Hs|by apply app_overview]. Qed.

Lemma reaches_job patient t id s :
  pending s !! t = Some (JobQuery id) -> ~ gone id -> reaches patient s ->
  reaches patient (job_answer false t (Ok (details id)) s).
Proof. intros Ht Hg Hs. eapply rtc_r; [exact Hs|by apply (app_job _ _ _ _ _ false t id)]. Qed.

Lemma reaches_click patient a s :
  a ∈ clickable (App percent toLocaleString s) -> (patient = true -> a <> ReplayJob -> no_job_due s) ->
  reaches patient s -> reaches patient (click a (mkFaults false false false false) None s).
Proof. intros Ha Hp Hs. eapply rtc_r; [exact Hs|by apply app_click]. Qed.

Lemma looking_at_a_reachable patient : ~ gone "a" -> reaches patient looking_at_a.
Proof.
  intros Hg. apply (reaches_job patient 1 "a"); [reflexivity|done|].
  apply (reaches_click patient (SelectJob "a")).
  - apply list_elem_of_In. vm_compute. tauto.
  - intros _ _ t q Hq. change ((∅ : gmap nat query) !! t = Some q) in Hq.
    by rewrite lookup_empty in Hq.
  - apply reaches_overview; [reflexivity|apply rtc_refl].
Qed.

Lemma late_answer_reachable : ~ gone "a" -> ~ gone "b" -> reaches false late_answer.
Proof.
  intros Ha Hb. unfold late_answer, looking_at_b.
  do 3 (apply reaches_overview; [reflexivity|]).
  apply (reaches_job false 3 "a"); [reflexivity|done|].
  apply (reaches_job false 5 "b"); [reflexivity|done|].
  apply (reaches_click false (SelectJob "b")); [apply list_elem_of_In; vm_compute; tauto|done|].
  apply (reaches_click false GoBack); [apply list_elem_of_In; vm_compute; tauto|done|].
  eapply rtc_r; [eapply rtc_r; [by apply looking_at_a_reachable|apply app_event]|apply app_rendered].
Qed.
End claims.

(** A late answer replaces the details of the job that is selected now: the
    dashboard can come to rest, with no answer due, showing the job that was
    left as if it were the selected one, with a Replay button for it. *)
Theorem late_answer_shows_other_job percent toLocaleString :
  exists s job, app_reachable percent toLocaleString (fun _ => False) false ∅ s
    /\ pending s = ∅ /\ selectedJobId s = Some "b"
    /\ selectedJob s = Some job /\ d_id job = "a"
    /\ "a" ∈ texts (App percent toLocaleString s)
    /\ ReplayJob ∈ clickable (App percent toLocaleString s).
Proof.
  exists late_answer, (details "a").
  split; [apply late_answer_reachable; tauto|].
  split; [vm_compute; reflexivity|]. split; [reflexivity|]. split; [reflexivity|]. split; [reflexivity|].
  split; apply list_elem_of_In; vm_compute; tauto.
Qed.

Lemma shown_job_is_selected_witness :
  selectedJob looking_at_a = Some (details "a") /\ focused (fun _ => False) looking_at_a.
Proof.
  split; [reflexivity|].
  apply (shown_job_is_selected (fun _ => "") (fun t => t) (fun _ => False) ∅ looking_at_a).
  apply looking_at_a_reachable. tauto.
Defined.

Lemma page_informs_witness :
  exists job, selectedJob looking_at_a = Some job /\ d_status job = "DEAD_LETTERED"
    /\ replaying (detail looking_at_a) = false.
Proof.
  apply (page_informs (fun _ => "") (fun t => t) (fun _ => False) true ∅ looking_at_a).
  - apply looking_at_a_reachable. tauto.
  - apply list_elem_of_In. vm_compute. tauto.
Defined.

(** ** From the poller to the dashboard *)

(** What the rendering after a message makes the dashboard ask for. *)
Definition refetches (id : string) (s s' : app) : Prop :=
  pending s' !! next_call s = Some OverviewQuery
  /\ (selectedJobId s = Some id -> id <> "" ->
      pending s' !! S (next_call s) = Some (JobQuery id))
  /\ (forall t, (t < next_call s)%nat -> pending s' !! t = pending s !! t).

Lemma received_payload ev : received (payload ev) = Some (event_json ev).
Proof. unfold received, payload. by rewrite JSON_parse_stringify. Qed.

(** Messages that React renders at once. *)
Definition rendered_together (vs : list json) (s : app) : app :=
  rendered (foldl (fun s v => new_event v s) s vs).

(** Only the last of them is seen. *)
Lemma rendered_last vs v s :
  rendered_together (vs ++ [v]) s = event_effect (mount s (flush (new_event v s))).
Proof.
  unfold rendered_together. rewrite foldl_app. simpl.
  assert (new_event v (foldl (fun s v => new_event v s) s vs) = new_event v s) as ->.
  { revert s. induction vs as [|v' vs IH]; intros s; [done|]. simpl. by rewrite IH. }
  unfold rendered, render. cbn [andb]. rewrite (bool_decide_eq_true_2 (is_Some _)) by by eexists.
  rewrite orb_true_r. rewrite bool_decide_eq_false_2; [done|].
  pose proof (mount_fields (new_event v s) (flush (new_event v s))) as (_ & _ & _ & _ & Hi & _).
  rewrite Hi. simpl. by intros [].
Qed.

Lemma event_requests v s :
  let s' := event_effect (mount s (flush (new_event v s))) in
  pending s' =
    (let asked := <[next_call s := OverviewQuery]> (pending s) in
     match selectedJobId s with
     | Some id =>
         if negb (String.eqb id "") && event_about v id
         then <[S (next_call s) := JobQuery id]> asked else asked
     | None => asked
     end).
Proof.
  set (s1 := mount _ _).
  pose proof (mount_fields s (flush (new_event v s))) as (_ & _ & _ & _ & Hi & Hp & Hn & Hl).
  fold s1 in Hi, Hp, Hn, Hl. simpl in Hi, Hp, Hn, Hl. unfold event_effect. rewrite Hl. simpl.
  rewrite Hi. destruct (selectedJobId s) as [id|]; [destruct (negb _ && _)|]; simpl; by rewrite Hp, Hn.
Qed.

Lemma event_about_change ev id : event_about (event_json ev) id = String.eqb (u_jobId ev) id.
Proof. done. Qed.

Lemma refetches_event vs ev s :
  refetches (u_jobId ev) s (rendered_together (vs ++ [event_json ev]) s).
Proof.
  rewrite rendered_last. unfold refetches. rewrite event_requests. cbv zeta.
  destruct (selectedJobId s) as [id|].
  - rewrite event_about_change. destruct (String.eqb_spec id ""), (String.eqb_spec (u_jobId ev) id); simpl;
      (split; [|split; [intros [= Hid] Hne|intros t Ht]]); try congruence;
      repeat first [rewrite lookup_insert_eq | rewrite lookup_insert_ne by lia]; congruence.
  - split; [by rewrite lookup_insert_eq|]. split; [done|]. intros t Ht.
    by rewrite lookup_insert_ne by lia.
Qed.

Lemma overview_of_batch vs s :
  vs <> [] -> pending (rendered_together vs s) !! next_call s = Some OverviewQuery.
Proof.
  destruct vs as [|v vs _] using rev_ind; [done|]. intros _. rewrite rendered_last, event_requests.
  cbv zeta. destruct (selectedJobId s); [destruct (negb _ && _)|];
    by rewrite ?lookup_insert_ne by lia; rewrite lookup_insert_eq.
Qed.

(** C32: a tick of the poller tells every connected client of every job that
    changed after the cursor, and of nothing else, and leaves the cursor at the
    last change.  The text of each such change is understood by the dashboard
    that gets it: however its rendering is put together with those of other
    messages, the dashboard asks again for the overview; and if the change is the
    last one of those rendered together (the only one, for instance) and its job
    is selected, for the details of that job. *)
Theorem change_reaches_dashboard `{Pg} {B : Type} `{Broker B} lo hi clients cursor (w : world B) cs :
  within (healthy lo hi) cs ->
  exists cursor' sent w' cs', run (poll_tick clients cursor) cs w = (Ok (cursor', sent), w', cs')
    /\ reported clients cursor (w_db w) cursor' sent
    /\ forall u j c s, Postgres.jobs (w_db w) !! u = Some j -> cursor * 1000 < j_updated_at j ->
         c ∈ clients -> c_open c = true ->
         exists ev v, (c_name c, ev) ∈ sent /\ received (payload ev) = Some v
           /\ (forall before, refetches (j_id j) s (rendered_together (before ++ [v]) s))
           /\ forall together, v ∈ together ->
                pending (rendered_together together s) !! next_call s = Some OverviewQuery.
Proof.
  intros Hcs. destruct (run_poll lo hi clients cursor w cs Hcs) as (c' & sent & w' & cs' & Hr & Hrep).
  exists c', sent, w', cs'. split; [done|]. split; [done|]. intros u j c s Hj Hc Hcl Ho.
  exists (change_event (change_columns j)), (event_json (change_event (change_columns j))).
  split; [by eapply (all_sent _ _ _ _ _ Hrep)|]. split; [apply received_payload|]. split.
  - intros before. apply (refetches_event before (change_event (change_columns j))).
  - intros together Hin. apply overview_of_batch. intros ->. by apply not_elem_of_nil in Hin.
Qed.

Lemma change_reaches_dashboard_witness :
  exists cursor' sent w' cs',
    run (poll_tick [mkClient 1 true] 0) (fun _ => calm 2000000 uuid_b) changed_world
      = (Ok (cursor', sent), w', cs')
    /\ reported [mkClient 1 true] 0 (w_db changed_world) cursor' sent
    /\ forall u j c s, Postgres.jobs (w_db changed_world) !! u = Some j -> 0 * 1000 < j_updated_at j ->
         c ∈ [mkClient 1 true] -> c_open c = true ->
         exists ev v, (c_name c, ev) ∈ sent /\ received (payload ev) = Some v
           /\ (forall before, refetches (j_id j) s (rendered_together (before ++ [v]) s))
           /\ forall together, v ∈ together ->
                pending (rendered_together together s) !! next_call s = Some OverviewQuery.
Proof. apply (change_reaches_dashboard 2000000 2000000). apply healthy_calm. Defined.

(** A change of the selected job that is rendered together with a later change of
    another is overtaken: the details are not asked for again, and the interval
    asks for the overview only. *)
Theorem overtaken_change_not_shown ev ev' s id :
  selectedJobId s = Some id -> u_jobId ev = id -> u_jobId ev' <> id ->
  pending (rendered_together [event_json ev; event_json ev'] s)
    = <[next_call s := OverviewQuery]> (pending s).
Proof.
  intros Hs _ Hne. rewrite (rendered_last [event_json ev] (event_json ev')), event_requests, Hs.
  cbv zeta. rewrite event_about_change. apply String.eqb_neq in Hne. rewrite Hne. by rewrite andb_false_r.
Qed.

Lemma overtaken_change_not_shown_witness :
  pending (rendered_together [event_json (mkUpdate "a" COMPLETED 0); event_json (mkUpdate "b" QUEUED 0)]
      looking_at_a)
    = <[next_call looking_at_a := OverviewQuery]> (pending looking_at_a).
Proof.
  apply (overtaken_change_not_shown (mkUpdate "a" COMPLETED 0) (mkUpdate "b" QUEUED 0) looking_at_a "a");
    [reflexivity|reflexivity|discriminate].
Defined.
