(* ===== verification/Operator.v ===== *)
(** * An operator replays a job

    A click on Replay in the dashboard (Client), the request that it sends, the
    route of the API that answers it (Http), and what the operator is told. *)
From stdpp Require Import pretty.
From S2P Require Import Prelude Json Postgres Amqp Programs Effects Worker Api Lifecycle Transactions Processing RateLimiter Http Poller Sample Endpoints Client Page Wire.
#[local] Open Scope stdpp_scope.

(** ** The network between the dashboard and the API *)

(** Express' view of a request of the dashboard: the header's value, and the
    parameter of the route. *)
Definition arrives (sent : http_request) (ip : option string) (id : string) : Http.request :=
  mkRequest (fun name => snd <$> List.find (fun h => String.eqb h.1 name) (h_headers sent)) ip None id.

(** A request is lost on its way, its answer is lost, or both arrive. *)
Inductive network := RequestLost | AnswerLost | BothArrive.

Definition network_error : js_err := JsErr CError "TypeError" "Failed to fetch" None [].

Section operator.
Context `{Pg} `{!Zod} {N : Type} `{Number N} {B : Type} `{Broker B}.
Implicit Types w : world B.
Variable env : Env.

(** The answer that [fetch] gives, and what the request left at the API. *)
Definition exchange (l : limiter N) (nowMs : N) buckets (net : network) (req : Http.request)
    (cs : nat -> choice) w : res js_err fetched * world B :=
  match net with
  | RequestLost => (Err network_error, w)
  | AnswerLost => (Err network_error, (run (POST_replay env l req nowMs buckets).1 cs w).1.2)
  | BothArrive =>
      let '(r, w', _) := run (POST_replay env l req nowMs buckets).1 cs w in
      (match r with Ok resp => Ok (answer_of resp) | Err _ => Err network_error end, w')
  end.

(** What the panel says after a replay of [id] that left the tables [d']. *)
Definition told (id : string) (sent : http_request) (f : faults) (st : storage) (d d' : db)
    (st' : storage) (p : panel) (refreshed : bool) : Prop :=
  replaying p = false /\
  match replayMessage p, replayError p with
  | Some m, None =>
      refreshed = true /\ st' = st /\ exists job, job_replayed id d (Some job) d'
        /\ m = "Replay queued (replay #" +:+ pretty (j_replay_count job) +:+ ")."
  | None, Some e =>
      refreshed = false /\
      if String.eqb e (replay_failed (ApiError 401 JNull)) then
        d' = d /\ h_headers sent <> [("x-api-key", default "" (API_KEY env))]
        /\ st' = clearStoredApiKey (at_clear f) st
      else st' = st /\
        if String.eqb e (replay_failed (ApiError 409 JNull)) then
          d' = d /\ exists u j, uuid_in id = Some u /\ jobs d !! u = Some j /\ j_status j <> DEAD_LETTERED
        else if String.eqb e (replay_failed (ApiError 404 JNull)) then
          d' = d /\ forall u, uuid_in id = Some u -> jobs d !! u = None
        else d' = d \/ exists job, job_replayed id d (Some job) d'
  | _, _ => False
  end.

Lemma status_cases z (A B' C : Prop) :
  match z with 404 => A | 409 => B' | 401 => C | 400 | 429 => True | _ => False end ->
  (z = 404 /\ A) \/ (z = 409 /\ B') \/ (z = 401 /\ C) \/ z = 400 \/ z = 429.
Proof. destruct z as [|p|p]; try done. repeat (destruct p as [p|p|]; try done); tauto. Qed.

(** Whatever was answered, the tables are as before or the job was replayed. *)
Lemma posted_all_or_nothing req w r w' :
  replay_posted env req w r w' ->
  w_db w' = w_db w \/ exists job, job_replayed (rq_id req) (w_db w) (Some job) (w_db w').
Proof. intros (resp & _ & _ & _ & [(_ & job & Hj & _)|[(_ & [?|?])|[? _]]]); eauto. Qed.

Lemma answer_of_json code fields :
  wf_json (JObj fields) = true ->
  answer_of (json_response code fields) = mkFetched code (Ok (JObj fields)).
Proof. intros Hwf. by rewrite answer_of_body. Qed.

Lemma answer_of_error resp :
  (200 <=? status resp) && (status resp <=? 299) = false ->
  exists details, request (Ok (answer_of resp)) = Err (ApiError (status resp) details).
Proof. intros Hs. unfold request, f_ok. simpl. rewrite Hs. by eexists. Qed.

Lemma told_answer id ip sent f st p w r w' :
  replayMessage p = None -> replayError p = None ->
  (requireApiKey env (arrives sent ip id) = Some unauthorized ->
   h_headers sent <> [("x-api-key", default "" (API_KEY env))]) ->
  replay_posted env (arrives sent ip id) w r w' ->
  let '(st', p', refreshed) :=
    handleReplay_end f
      (request (match r with Ok resp => Ok (answer_of resp) | Err _ => Err network_error end)) st p in
  told id sent f st (w_db w) (w_db w') st' p' refreshed.
Proof.
  intros Hm He Hkey (resp & -> & _ & _ & Hcases).
  destruct Hcases as [(Hs & job & Hj & ->)|[(Hs & Hdb)|[Hdb Hs%status_cases]]].
  - rewrite answer_of_json by (cbn [wf_json forallb snd]; by rewrite wf_json_number).
    unfold told. simpl. rewrite He. split; [done|]. split; [done|]. split; [done|].
    exists job. split; [done|]. done.
  - destruct (answer_of_error resp) as [details ->]; [by rewrite Hs|]. rewrite Hs. simpl.
    unfold told. simpl. rewrite Hm. split; [done|]. split; [done|]. by split.
  - destruct Hs as [[Hs H404]|[[Hs H409]|[[Hs H401]|[Hs|Hs]]]];
      (destruct (answer_of_error resp) as [details ->]; [by rewrite Hs|]); rewrite Hs; simpl;
      unfold told; simpl; rewrite Hm; (split; [done|]; split; [done|]).
    + by split.
    + by split.
    + by split; [|split; [apply Hkey|]].
    + split; [done|]. by left.
    + split; [done|]. by left.
Qed.

Lemma refused_key id ip sent :
  requireApiKey env (arrives sent ip id) = Some unauthorized ->
  h_headers sent <> [("x-api-key", default "" (API_KEY env))].
Proof.
  unfold requireApiKey, arrives. simpl. intros Hr Hh. rewrite Hh in Hr.
  destruct (API_KEY env) as [key|]; [|done]. simpl in Hr.
  destruct (String.eqb_spec key ""); [done|]. by rewrite String.eqb_refl in Hr.
Qed.

(** C23: what a click on Replay tells the operator is true, whatever happens to
    the request, the API and its database: success only when the job was
    dead-lettered and is QUEUED again with a pending event, and with its number
    of replays; a refusal (key, state, unknown job) only for that reason and
    with nothing changed; any other failure leaves the replay done or not at
    all.  The button is free again, and a refused key is forgotten. *)
Theorem replay_click_truthful l nowMs buckets net ip f entered id st p w cs :
  w_tx w = None -> wf_db (w_db w) -> within canonical_uuids cs ->
  match handleReplay f entered id st p with
  | (None, st1, p1) =>
      st1 = st /\ p1 = p /\ truthy (getStoredApiKey (at_get f) st) = false /\ truthy entered = false
  | (Some sent, st1, p1) =>
      h_method sent = "POST" /\ h_url sent = "/api/jobs/" +:+ id +:+ "/replay" /\ replaying p1 = true
      /\ let '(answer, w') := exchange l nowMs buckets net (arrives sent ip id) cs w in
         let '(st2, p2, refreshed) := handleReplay_end f (request answer) st1 p1 in
         told id sent f st1 (w_db w) (w_db w') st2 p2 refreshed
  end.
Proof.
  intros Ht Hwf Hcs.
  assert (forall session,
    let sent := replayJob (at_send f) session id in
    let '(answer, w') := exchange l nowMs buckets net (arrives sent ip id) cs w in
    let '(st2, p2, refreshed) := handleReplay_end f (request answer) session (mkPanel true None None) in
    told id sent f session (w_db w) (w_db w') st2 p2 refreshed) as Hsent.
  { intros session sent.
    pose proof (wp_run _ _ _ _ _ Hcs (wp_POST_replay env l (arrives sent ip id) nowMs buckets w Ht Hwf))
      as Hrun.
    destruct net; unfold exchange.
    - unfold told. simpl. auto 10.
    - destruct (run _ cs w) as [[r w'] cs']. apply posted_all_or_nothing in Hrun.
      unfold told. simpl. auto 10.
    - destruct (run _ cs w) as [[r w'] cs'].
      eapply told_answer; [done|done|apply refused_key|exact Hrun]. }
  unfold handleReplay. destruct (truthy (getStoredApiKey (at_get f) st)) eqn:Hst.
  - do 3 (split; [done|]). apply Hsent.
  - destruct entered as [key|]; [|by repeat split].
    destruct (String.eqb key "") eqn:Hk.
    + do 3 (split; [done|]). simpl. by rewrite Hk.
    + do 3 (split; [done|]). apply Hsent.
Qed.

(** In a browser whose sessionStorage throws on every access, an operator
    cannot replay a job of an API that has a key: the key that the prompt asked
    for is not sent, whatever was entered, the right one included, and the
    answer is that it is incorrect. *)
Theorem locked_browser_cannot_replay l nowMs buckets ip clear entered id st p w cs key :
  API_KEY env = Some key -> key <> "" -> entered <> "" ->
  exists sent st1 p1,
    handleReplay (mkFaults true true true clear) (Some entered) id st p = (Some sent, st1, p1)
    /\ h_headers sent = []
    /\ let '(answer, w') := exchange l nowMs buckets BothArrive (arrives sent ip id) cs w in
       w' = w
       /\ let '(_, p2, refreshed) :=
            handleReplay_end (mkFaults true true true clear) (request answer) st1 p1 in
          replayError p2 = Some (replay_failed (ApiError 401 JNull)) /\ refreshed = false.
Proof.
  intros Hkey Hne Hen. eexists _, _, _. split.
  { unfold handleReplay. simpl. destruct (String.eqb_spec entered ""); [done|]. reflexivity. }
  split; [done|]. unfold exchange, POST_replay, limited.
  rewrite (requireApiKey_refuses env key) by done. simpl. by split.
Qed.
End operator.

Definition dead_world : world Queues.t := one_job_world dead_a.
Definition stored_key : storage := {[ STORAGE_KEY := "operator-key" ]}.
Definition no_faults : faults := mkFaults false false false false.

(** The request that a click sends with this key. *)
Definition replay_request : http_request := replayJob false stored_key uuid_a.

Lemma replay_click_truthful_witness :
  h_headers replay_request = [("x-api-key", "operator-key")]
  /\ h_method replay_request = "POST" /\ h_url replay_request = "/api/jobs/" +:+ uuid_a +:+ "/replay"
  /\ true = true
  /\ let '(answer, w') := exchange sample_env open_limiter 0%Q ∅ BothArrive
                            (arrives replay_request None uuid_a) request_choices dead_world in
     let '(st2, p2, refreshed) :=
       handleReplay_end no_faults (request answer) stored_key (mkPanel true None None) in
     told sample_env uuid_a replay_request no_faults stored_key (w_db dead_world) (w_db w') st2 p2
       refreshed.
Proof.
  split; [reflexivity|].
  apply (replay_click_truthful sample_env open_limiter 0%Q ∅ BothArrive None no_faults None uuid_a
    stored_key new_panel dead_world request_choices).
  - reflexivity.
  - apply dead_a_wf.
  - apply request_choices_canonical.
Defined.

Lemma locked_browser_cannot_replay_witness :
  exists sent st1 p1,
    handleReplay (mkFaults true true true false) (Some "operator-key") uuid_a ∅ new_panel
      = (Some sent, st1, p1)
    /\ h_headers sent = []
    /\ let '(answer, w') := exchange sample_env open_limiter 0%Q ∅ BothArrive (arrives sent None uuid_a)
                              request_choices dead_world in
       w' = dead_world
       /\ let '(_, p2, refreshed) :=
            handleReplay_end (mkFaults true true true false) (request answer) st1 p1 in
          replayError p2 = Some (replay_failed (ApiError 401 JNull)) /\ refreshed = false.
Proof.
  apply (locked_browser_cannot_replay sample_env open_limiter 0%Q ∅ None false "operator-key" uuid_a
    ∅ new_panel dead_world request_choices "operator-key"); [reflexivity|discriminate|discriminate].
Defined.
