(* ===== verification/Pipeline.v ===== *)
(** * From a request to a processed job

    The ticks of [startOutboxDispatcher] of apps/api/src/outbox/dispatcher.ts
    drain the outbox, and a job that the API has created or replayed goes from
    the answer of its transaction through the outbox and the broker to the
    worker's handler: the composition of [createJob] and [claimReplay],
    [dispatchOutboxBatch] and [on_message], when nothing fails after the first. *)
From S2P Require Import Prelude Json Postgres Amqp Programs Effects Retry Worker Api Lifecycle Transactions Delivery Processing System RateLimiter Http Sample Dispatch.
#[local] Open Scope stdpp_scope.

Section pipeline.
Context `{Pg} {B : Type} `{Broker B}.
Implicit Types w : world B.

(** ** Ticks of the dispatcher *)

(** A batch that nothing else disturbs, between [lo] and [hi]: no failure, and
    no row that another transaction has locked. *)
Definition undisturbed (lo hi : Z) : op -> choice -> Prop := fun o c =>
  healthy lo hi o c /\ ch_locked c = ∅.

(** One batch, run to its end, at each tick of the timer. *)
Definition dispatch_tick w (cs : nat -> choice) : world B := (run dispatchOutboxBatch cs w).1.2.

Definition dispatch_ticks (ticks : list (nat -> choice)) w : world B :=
  foldl dispatch_tick w ticks.

(** The events that are not published yet. *)
Definition backlog (d : db) : gset string :=
  dom (filter (fun x => unpublished x.2 = true) (outbox d)).

Lemma elem_of_backlog d v :
  v ∈ backlog d <-> exists e, outbox d !! v = Some e /\ unpublished e = true.
Proof.
  unfold backlog. rewrite elem_of_dom. split.
  - intros [e He]. apply map_lookup_filter_Some in He as [He Hu]. by exists e.
  - intros (e & He & Hu). exists e. by apply map_lookup_filter_Some.
Qed.

Lemma event_pending_mono now now' stale e :
  now <= now' -> event_pending now stale e = true -> event_pending now' stale e = true.
Proof.
  intros Hle. unfold event_pending, seconds_before. destruct (unpublished e); [|done]. simpl.
  destruct (ev_claimed_at e) as [t|]; [|done]. intros Hc%Z.ltb_lt. apply Z.ltb_lt. lia.
Qed.

(** A claim takes the event, or as many others as it may. *)
Lemma batch_takes c d e :
  wf_db d -> ch_locked c = ∅ -> outbox d !! ev_id e = Some e ->
  event_pending (ch_now c) STALE_CLAIM_THRESHOLD_SECONDS e = true ->
  ev_id e ∈ ev_id <$> batch_at c d \/ List.length (batch_at c d) = BATCH_SIZE.
Proof.
  intros Hwf Hlock He Hp. unfold batch_at.
  destruct (decide (e ∈ pending_events (ch_order c) (ch_now c) (ch_locked c) BATCH_SIZE
                          STALE_CLAIM_THRESHOLD_SECONDS d)) as [Hin|Hnot].
  - left. apply elem_of_claimed_ids. by exists e.
  - right. rewrite length_claimed. apply (limit_full created_before _ _ e); [|exact Hnot].
    apply list_elem_of_filter. rewrite row_order_perm, elem_of_events, Hlock.
    split; [split; [done|set_solver]|]. by exists (ev_id e).
Qed.

Definition published_between (lo hi : Z) (e e' : OutboxEvent) : Prop :=
  exists t, lo <= t <= hi /\ e' = event_published t e.

Section batch.
Variables (lo hi : Z) (c : choice) (d d' : db).
Let l := batch_at c d.
Hypothesis Hwf : wf_db d.
Hypothesis Hrows : rows_updated (published_between lo hi) l d d'.

Lemma batch_was_row e :
  e ∈ l -> exists e0, e = claim_event (ch_now c) e0 /\ outbox d !! ev_id e = Some e0
                 /\ unpublished e0 = true.
Proof.
  intros (e0 & -> & Hin)%elem_of_claimed. exists e0. split; [done|].
  split; [by apply (pending_row _ _ _ _ _ _ e0 Hwf Hin)|].
  apply elem_of_pending in Hin as (_ & Hp & _).
  unfold event_pending in Hp. by destruct (unpublished e0).
Qed.

Lemma batch_wf : wf_db d'.
Proof.
  destruct Hrows as (Hj & Hout & Hin). split; [rewrite Hj; apply Hwf|]. intros v e' He'.
  assert (forall e, event_row_ok d v e -> event_row_ok d' v e) as Hsame.
  { intros e []. split; try done. by rewrite Hj. }
  destruct (decide (v ∈ ev_id <$> l)) as [Hv|Hv].
  - apply list_elem_of_fmap in Hv as (e & -> & He).
    destruct (Hin e He) as (e1 & He1 & t & _ & ->).
    destruct (batch_was_row e He) as (e0 & -> & He0 & _). rewrite He1 in He'. injection He' as <-.
    destruct (Hsame e0 (wf_events _ Hwf _ _ He0)). by split.
  - rewrite Hout in He' by done. by apply Hsame, Hwf.
Qed.

Lemma batch_backlog :
  backlog d' = backlog d ∖ list_to_set (ev_id <$> l).
Proof.
  destruct Hrows as (_ & Hout & Hin). apply set_eq. intros v.
  rewrite elem_of_difference, elem_of_list_to_set, !elem_of_backlog. split.
  - intros (e' & He' & Hu). destruct (decide (v ∈ ev_id <$> l)) as [Hv|Hv].
    + apply list_elem_of_fmap in Hv as (e & -> & He).
      destruct (Hin e He) as (e1 & He1 & t & _ & ->). rewrite He1 in He'. by injection He' as <-.
    + rewrite Hout in He' by done. split; [by exists e'|done].
  - intros [(e & He & Hu) Hv]. exists e. by rewrite Hout.
Qed.

Lemma batch_backlog_size :
  size (backlog d) = (size (backlog d') + List.length l)%nat.
Proof.
  rewrite batch_backlog. assert (list_to_set (ev_id <$> l) ⊆ backlog d) as Hsub.
  { intros v Hv. apply elem_of_list_to_set, list_elem_of_fmap in Hv as (e & -> & He).
    apply elem_of_backlog. destruct (batch_was_row e He) as (e0 & _ & He0 & Hu). by exists e0. }
  rewrite size_difference, size_list_to_set by (done || by apply batch_NoDup).
  apply subseteq_size in Hsub. rewrite size_list_to_set in Hsub by (by apply batch_NoDup).
  rewrite length_fmap in *. lia.
Qed.
End batch.

Lemma announced_in_queue e l b :
  topology_ok b -> e ∈ l \/ in_queue b QUEUE_NAME (created_message (ev_job_id e)) ->
  in_queue (foldl (fun b e => announce e b) b l) QUEUE_NAME (created_message (ev_job_id e)).
Proof.
  revert b. induction l as [|x l IH]; intros b Htop Hor; simpl.
  - destruct Hor as [Hin|]; [by apply not_elem_of_nil in Hin|done].
  - apply IH; [by apply publish_topology|]. destruct Hor as [Hin|Hq].
    + apply elem_of_cons in Hin as [->|Hin]; [right|by left].
      by apply publish_routes, jobs_bound.
    + right. by apply publish_keeps.
Qed.

Lemma announced_topology l b :
  topology_ok b -> topology_ok (foldl (fun b e => announce e b) b l).
Proof. revert b. induction l; intros b Hb; [done|]. simpl. by apply IHl, publish_topology. Qed.

Lemma undisturbed_healthy lo hi cs :
  within (undisturbed lo hi) cs -> within (healthy lo hi) cs.
Proof. intros Hcs n o. apply (Hcs n o). Qed.

(** The event is published, and its message waits for the worker. *)
Definition announced (lo hi : Z) (e : OutboxEvent) w : Prop :=
  (exists t, lo <= t <= hi /\ (ev_published_at <$> outbox (w_db w) !! ev_id e) = Some (Some t))
  /\ in_queue (w_broker w) QUEUE_NAME (created_message (ev_job_id e)).

(** The state of the rest, before and after any number of ticks. *)
Record ticked w w' : Prop := {
  ticked_wf : wf_db (w_db w');
  ticked_jobs : jobs (w_db w') = jobs (w_db w);
  ticked_rest : rest_same w w';
  ticked_topology : topology_ok (w_broker w') }.

Section tick.
Variables (lo hi : Z) (cs : nat -> choice) (w : world B).
Hypothesis Hwf : wf_db (w_db w).
Hypothesis Htop : topology_ok (w_broker w).
Hypothesis Hcs : within (undisturbed lo hi) cs.
Let l := batch_at (cs 0%nat) (w_db w).
Let w' := dispatch_tick w cs.

Lemma tick_batch :
  rows_updated (published_between lo hi) l (w_db w) (w_db w')
  /\ w_broker w' = foldl (fun b e => announce e b) (w_broker w) l /\ rest_same w w'.
Proof.
  pose proof (undisturbed_healthy _ _ _ Hcs) as Hh.
  assert (forall q c, healthy lo hi (Query q) c -> ch_fault c = None) as Hnf by (by intros q c (Hc & _)).
  pose proof (run_dispatch_batch (healthy lo hi) true _ _ (fun _ => True) w cs
    (within_conforms _ _ _ _ Hh) Hnf
    (wp_event_published lo hi) Hwf (fun _ _ _ => I) (fun _ _ _ => I)) as Hrun.
  unfold w', dispatch_tick. destruct (run _ cs w) as [[r w2] cs'].
  destruct Hrun as (_ & Hrows & Hb%each_function & Hrest). by split.
Qed.

Lemma tick_ticked : ticked w w'.
Proof.
  destruct tick_batch as (Hrows & Hb & Hrest). split; [by eapply batch_wf|apply Hrows|done|].
  rewrite Hb. by apply announced_topology.
Qed.

(** A pending event is announced, or more than a batch of others were. *)
Lemma tick_pending e :
  outbox (w_db w) !! ev_id e = Some e ->
  event_pending lo STALE_CLAIM_THRESHOLD_SECONDS e = true ->
  announced lo hi e w'
  \/ (outbox (w_db w') !! ev_id e = Some e
      /\ (size (backlog (w_db w')) + BATCH_SIZE <= size (backlog (w_db w)))%nat).
Proof.
  intros He Hp. destruct tick_batch as (Hrows & Hb & _).
  destruct (Hcs 0%nat TxConnect) as [(_ & _ & _ & Hnow) Hlock].
  destruct (decide (ev_id e ∈ ev_id <$> l)) as [Hin|Hout].
  - left. apply list_elem_of_fmap in Hin as (x & Hx & Hin).
    destruct (batch_was_row _ _ Hwf x Hin) as (e0 & -> & He0 & _). simpl in Hx, He0.
    rewrite <- Hx, He in He0. injection He0 as <-.
    destruct Hrows as (_ & _ & Hup). destruct (Hup _ Hin) as (e1 & He1 & t & Ht & ->).
    split; [exists t; simpl in He1; by rewrite He1|]. rewrite Hb.
    change (ev_job_id e) with (ev_job_id (claim_event (ch_now (cs 0%nat)) e)).
    apply announced_in_queue; [done|by left].
  - right. split; [destruct Hrows as (_ & Ho & _); by rewrite Ho|].
    destruct (batch_takes (cs 0%nat) (w_db w) e) as [|Hlen]; [done..| |done|].
    + eapply event_pending_mono; [|done]. lia.
    + rewrite (batch_backlog_size lo hi (cs 0%nat) _ (w_db w') Hwf Hrows).
      fold l in Hlen |- *. rewrite Hlen. lia.
Qed.

(** What is announced stays so. *)
Lemma tick_announced e : announced lo hi e w -> announced lo hi e w'.
Proof.
  intros [(t & Ht & He) Hq]. destruct tick_batch as (Hrows & Hb & _). split.
  - exists t. split; [done|]. destruct Hrows as (_ & Ho & _). rewrite Ho; [done|]. intros Hin.
    apply list_elem_of_fmap in Hin as (x & Hx & Hin).
    destruct (batch_was_row _ _ Hwf x Hin) as (e0 & -> & He0 & Hu). rewrite <- Hx in He0.
    rewrite He0 in He. injection He as He. unfold unpublished in Hu.
    apply bool_decide_eq_true in Hu. congruence.
  - rewrite Hb. apply announced_in_queue; [done|by right].
Qed.
End tick.

Lemma ticked_refl w : wf_db (w_db w) -> topology_ok (w_broker w) -> ticked w w.
Proof. by split. Qed.

Lemma ticked_trans w1 w2 w3 : ticked w1 w2 -> ticked w2 w3 -> ticked w1 w3.
Proof.
  intros [_ Hj [Ht Hu] _] [Hwf Hj' [Ht' Hu'] Htop]. split; [done|congruence| |done].
  split; congruence.
Qed.

Lemma ticks_announced lo hi ticks e w :
  wf_db (w_db w) -> topology_ok (w_broker w) -> Forall (within (undisturbed lo hi)) ticks ->
  announced lo hi e w ->
  ticked w (dispatch_ticks ticks w) /\ announced lo hi e (dispatch_ticks ticks w).
Proof.
  intros Hwf Htop Hall. revert w Hwf Htop.
  induction Hall as [|cs ticks Hcs _ IH]; intros w Hwf Htop Hann; [by split; [apply ticked_refl|]|].
  pose proof (tick_ticked _ _ _ _ Hwf Htop Hcs) as Ht. cbn [dispatch_ticks foldl].
  destruct (IH _ (ticked_wf _ _ Ht) (ticked_topology _ _ Ht)) as [Ht' Hann'];
    [by apply tick_announced|]. split; [by eapply ticked_trans|done].
Qed.

Lemma ticks_drain lo hi ticks e w :
  wf_db (w_db w) -> topology_ok (w_broker w) -> Forall (within (undisturbed lo hi)) ticks ->
  outbox (w_db w) !! ev_id e = Some e ->
  event_pending lo STALE_CLAIM_THRESHOLD_SECONDS e = true ->
  (size (backlog (w_db w)) <= BATCH_SIZE * List.length ticks)%nat ->
  ticked w (dispatch_ticks ticks w) /\ announced lo hi e (dispatch_ticks ticks w).
Proof.
  intros Hwf Htop Hall. revert w Hwf Htop.
  induction Hall as [|cs ticks Hcs Hall IH]; intros w Hwf Htop He Hp Hsize.
  - assert (ev_id e ∈ backlog (w_db w)) as Hin.
    { apply elem_of_backlog. exists e. split; [done|]. unfold event_pending in Hp.
      by destruct (unpublished e). }
    apply Nat.le_0_r, size_empty_iff in Hsize. set_solver.
  - pose proof (tick_ticked _ _ _ _ Hwf Htop Hcs) as Ht. cbn [dispatch_ticks foldl].
    destruct (tick_pending _ _ _ _ Hwf Htop Hcs e He Hp) as [Hann|[He' Hlt]].
    + destruct (ticks_announced lo hi ticks e _ (ticked_wf _ _ Ht) (ticked_topology _ _ Ht) Hall Hann).
      split; [by eapply ticked_trans|done].
    + destruct (IH _ (ticked_wf _ _ Ht) (ticked_topology _ _ Ht) He' Hp) as [Ht' Hann].
      { cbn [List.length] in Hsize. lia. }
      split; [by eapply ticked_trans|done].
Qed.
(** C9: the ticks of the dispatcher empty the outbox.  However long the backlog
    is, one undisturbed tick for every ten unpublished events publishes each
    event that no dispatcher has claimed within the last 30 seconds: its
    row is marked, and a message about its job waits in the job queue.  No job
    changes meanwhile. *)
Theorem outbox_drains lo hi ticks w :
  wf_db (w_db w) -> topology_ok (w_broker w) -> Forall (within (undisturbed lo hi)) ticks ->
  (size (backlog (w_db w)) <= BATCH_SIZE * List.length ticks)%nat ->
  let w' := dispatch_ticks ticks w in
  jobs (w_db w') = jobs (w_db w)
  /\ forall v e, outbox (w_db w) !! v = Some e ->
       event_pending lo STALE_CLAIM_THRESHOLD_SECONDS e = true ->
       (exists t, lo <= t <= hi
          /\ (ev_published_at <$> outbox (w_db w') !! v) = Some (Some t))
       /\ in_queue (w_broker w') QUEUE_NAME (created_message (ev_job_id e)).
Proof.
  intros Hwf Htop Hall Hsize w'. split.
  - clear Hsize. unfold w'. revert w Hwf Htop w'.
    induction Hall as [|cs ticks Hcs _ IH]; intros w Hwf Htop w'; [done|].
    pose proof (tick_ticked _ _ _ _ Hwf Htop Hcs) as [Hwf' Hj _ Htop']. cbn [dispatch_ticks foldl].
    rewrite <- Hj. by apply IH.
  - intros v e He Hp. pose proof (event_id _ _ _ (wf_events _ Hwf v e He)) as <-.
    by destruct (ticks_drain lo hi ticks e w Hwf Htop Hall He Hp Hsize).
Qed.

(** ** The worker's part *)

(** The broker hands the message to the worker, as delivery [tag]. *)
Definition handed (tag : nat) (m : message) (b : B) w : world B :=
  with_unacked (<[tag := m]> (w_unacked w)) (with_broker b w).

(** A delivery of the message about the job [u], which is [j], is processed:
    whatever tag it has, at any instant up to [hi] and whatever follows, the
    row becomes [job_after], the follow-up message is sent, the message is
    acknowledged, and nothing else changes. *)
Definition processed (lo hi : Z) (u : string) (j : Job) w : Prop :=
  forall sync tag b cs,
    take_message QUEUE_NAME (created_message u) (w_broker w) b -> within (healthy lo hi) cs ->
    exists w' cs' t, lo <= t <= hi
      /\ run (on_message sync (Some (tag, m_content (created_message u)))) cs
           (handed tag (created_message u) b w) = (Ok tt, w', cs')
      /\ w_db w' = set_jobs (w_db w) (<[u := job_after (job_outcome j) t j]> (jobs (w_db w)))
      /\ w_broker w' = send (follow_up (job_outcome j) (Some (JStr u))) b
      /\ w_unacked w' = delete tag (w_unacked w).

Lemma queued_processed lo hi u j w :
  canonical u -> jobs (w_db w) !! u = Some j -> j_status j = QUEUED ->
  j_attempt_count j + 1 <= INT4_MAX -> j_total_attempt_count j + 1 <= INT4_MAX ->
  processed lo hi u j w.
Proof.
  intros Hcan Hj Hst Hatt Htot sync tag b cs _ Hcs.
  set (w1 := handed tag (created_message u) b w).
  assert (wp (healthy lo hi) (on_message sync (Some (tag, m_content (created_message u))))
    (fun r w' => r = Ok tt /\ delivered lo hi tag (Some (JStr u)) u j w1 w') w1) as Hwp.
  { apply wp_healthy_on_message with (content := JObj [("jobId", JStr u)]); try done.
    - by apply JSON_parse_stringify.
    - simpl. by rewrite pg_param_string.
    - unfold claimable, has_status. by rewrite Hst.
    - simpl. rewrite lookup_insert_eq. by eexists. }
  apply (wp_run _ _ _ _ _ Hcs) in Hwp. destruct (run _ cs w1) as [[r w'] cs'].
  destruct Hwp as (-> & t & Ht & Hd & Hb & Hu & _). exists w', cs', t.
  split; [done|]. split; [done|]. split; [done|]. split; [done|].
  rewrite Hu. unfold w1, handed. simpl. by rewrite delete_insert_eq.
Qed.

(** A QUEUED job with a pending event goes through the outbox and the broker. *)
Lemma queued_job_delivered lo hi ticks u v j t w :
  wf_db (w_db w) -> topology_ok (w_broker w) -> Forall (within (undisturbed lo hi)) ticks ->
  (size (backlog (w_db w)) <= BATCH_SIZE * List.length ticks)%nat ->
  jobs (w_db w) !! u = Some j -> j_status j = QUEUED ->
  j_attempt_count j + 1 <= INT4_MAX -> j_total_attempt_count j + 1 <= INT4_MAX ->
  outbox (w_db w) !! v = Some (mkEvent v u t None None 0 None) ->
  let w' := dispatch_ticks ticks w in
  jobs (w_db w') = jobs (w_db w)
  /\ in_queue (w_broker w') QUEUE_NAME (created_message u)
  /\ processed lo hi u j w'.
Proof.
  intros Hwf Htop Hall Hsize Hj Hst Hatt Htot Hv w'.
  destruct (ticks_drain lo hi ticks (mkEvent v u t None None 0 None) w Hwf Htop Hall Hv eq_refl Hsize) as [Ht [_ Hq]].
  split; [apply Ht|]. split; [done|]. pose proof (wf_jobs _ Hwf u j Hj) as [].
  apply queued_processed; try done. unfold w'. by rewrite (ticked_jobs _ _ Ht).
Qed.

Lemma backlog_inserted d m v e :
  (size (backlog (mkDb m (<[v := e]> (outbox d)))) <= S (size (backlog d)))%nat.
Proof.
  assert (backlog (mkDb m (<[v := e]> (outbox d))) ⊆ {[v]} ∪ backlog d) as Hsub.
  { intros k. rewrite elem_of_union, elem_of_singleton, !elem_of_backlog. simpl.
    intros (x & Hx & Hu). apply lookup_insert_Some in Hx as [[<- _]|[_ Hx]]; [by left|].
    right. by exists x. }
  apply subseteq_size in Hsub. etrans; [exact Hsub|].
  pose proof (size_union_alt {[v]} (backlog d)) as ->.
  rewrite size_singleton. enough (size (backlog d ∖ {[v]}) <= size (backlog d))%nat by lia.
  apply subseteq_size. set_solver.
Qed.

(** C4: from the answer of [createJob] to the worker.  Once it returned a job,
    however that went, undisturbed ticks, one for every ten events of the
    backlog, put the message about the job into the job queue, and a delivery
    of that message makes the job COMPLETED, or, when its payload asks for a
    failure, RETRYING or DEAD_LETTERED; the message is acknowledged. *)
Theorem created_job_processed lo hi input cs ticks w job w1 cs1 :
  wf_db (w_db w) -> w_tx w = None -> topology_ok (w_broker w) -> within canonical_uuids cs ->
  run (createJob input) cs w = (Ok job, w1, cs1) ->
  Forall (within (undisturbed lo hi)) ticks ->
  (size (backlog (w_db w)) < BATCH_SIZE * List.length ticks)%nat ->
  let w2 := dispatch_ticks ticks w1 in
  jobs (w_db w2) !! j_id job = Some job
  /\ in_queue (w_broker w2) QUEUE_NAME (created_message (j_id job))
  /\ processed lo hi (j_id job) job w2
  /\ outcome_status (job_outcome job) =
      (if payload_flag "shouldFailPermanently" (in_payload input) then DEAD_LETTERED
       else if payload_flag "shouldFail" (in_payload input) then RETRYING else COMPLETED).
Proof.
  intros Hwf Htx Htop Hcs Hrun Hall Hsize w2.
  pose proof (wp_run _ _ _ _ _ Hcs (wp_createJob input w Htx)) as Hwp. rewrite Hrun in Hwp.
  destruct Hwp as (_ & (Hb & _ & _) & Hjob).
  destruct (job_created_keeps _ _ _ _ Hwf Hjob) as [Hwf1 _].
  destruct Hjob as (u & v & t & t' & Hu & Hv & Hcu & Hcv & -> & Hd).
  set (job := mkJob u _ _ _ _ _ _ _ _ _ _ _ _) in *. change (j_id job) with u in *.
  destruct (queued_job_delivered lo hi ticks u v job t' w1 Hwf1)
    as (Hj2 & Hq & Hp); try done.
  - by rewrite Hb.
  - rewrite Hd. pose proof (backlog_inserted (w_db w) (<[u := job]> (jobs (w_db w))) v
      (mkEvent v u t' None None 0 None)). lia.
  - rewrite Hd. simpl. by rewrite lookup_insert_eq.
  - rewrite Hd. simpl. by rewrite lookup_insert_eq.
  - split; [unfold w2; rewrite Hj2, Hd; simpl; by rewrite lookup_insert_eq|].
    split; [done|]. split; [done|]. unfold job_outcome, job_verdict. simpl.
    destruct (payload_flag _ _); [done|]. by destruct (payload_flag _ _).
Qed.

(** C5: the same for a replay: once [claimReplay] returned the dead-lettered
    job, the ticks bring a message about it to the job queue, and a delivery of
    it processes the job anew, as its first attempt. *)
Theorem replayed_job_processed lo hi id cs ticks w job w1 cs1 :
  wf_db (w_db w) -> w_tx w = None -> topology_ok (w_broker w) -> within canonical_uuids cs ->
  run (claimReplay id) cs w = (Ok (Some job), w1, cs1) ->
  j_total_attempt_count job + 1 <= INT4_MAX ->
  Forall (within (undisturbed lo hi)) ticks ->
  (size (backlog (w_db w)) < BATCH_SIZE * List.length ticks)%nat ->
  let w2 := dispatch_ticks ticks w1 in
  jobs (w_db w2) !! j_id job = Some job
  /\ in_queue (w_broker w2) QUEUE_NAME (created_message (j_id job))
  /\ processed lo hi (j_id job) job w2
  /\ job_outcome job = decide_outcome (job_verdict job) 1 (j_max_attempts job).
Proof.
  intros Hwf Htx Htop Hcs Hrun Htot Hall Hsize w2.
  pose proof (wp_run _ _ _ _ _ Hcs (wp_claimReplay id w Htx Hwf)) as Hwp. rewrite Hrun in Hwp.
  destruct Hwp as (_ & (Hb & _ & _) & Hjob).
  destruct (job_replayed_keeps _ _ _ _ Hwf Hjob) as [Hwf1 _].
  destruct Hjob as (u & v & j & t & t' & Hid & Hj & Hst & Hle & Hv & Hcv & Hjob & Hd).
  pose proof (wf_jobs _ Hwf u j Hj) as [Hrow _ _ _ _ _].
  assert (j_id job = u) as -> by by rewrite Hjob.
  destruct (queued_job_delivered lo hi ticks u v job t' w1 Hwf1)
    as (Hj2 & Hq & Hp); try done.
  - by rewrite Hb.
  - rewrite Hd. pose proof (backlog_inserted (w_db w) (<[u := job]> (jobs (w_db w))) v
      (mkEvent v u t' None None 0 None)). lia.
  - rewrite Hd. simpl. by rewrite lookup_insert_eq.
  - by rewrite Hjob.
  - by rewrite Hjob.
  - rewrite Hd. simpl. by rewrite lookup_insert_eq.
  - split; [unfold w2; rewrite Hj2, Hd; simpl; by rewrite lookup_insert_eq|].
    split; [done|]. split; [done|]. unfold job_outcome. by rewrite Hjob.
Qed.
End pipeline.

(** ** The properties, on concrete tables *)

(** Eleven pending events, more than a batch, of one job. *)
Definition backlog_uuid (n : nat) : string :=
  "00000000-0000-4000-8000-0000000000" +:+ (if (n <? 10)%nat then "0" else "1")
    +:+ String (Ascii.ascii_of_nat (48 + n mod 10)) "".

Definition backlog_events : list (string * OutboxEvent) :=
  map (fun n => (backlog_uuid n, sample_event (backlog_uuid n) uuid_a (Z.of_nat n))) (seq 0 11).

Definition backlog_world : world Queues.t :=
  mkWorld (mkDb {[ uuid_a := sample_job uuid_a (JObj []) QUEUED 0 1000000 ]}
             (list_to_map backlog_events))
    None (Amqp.declared worker_topology) ∅ 0 [].

Lemma backlog_world_wf : wf_db (w_db backlog_world).
Proof.
  split.
  - apply map_Forall_singleton, sample_row_ok; [reflexivity|unfold INT4_MAX; lia|done].
  - intros v e He. apply elem_of_list_to_map_2 in He. unfold backlog_events in He.
    apply list_elem_of_fmap in He as (n & [= -> ->] & Hn). apply sample_event_ok.
    + apply elem_of_seq in Hn. do 11 (destruct n as [|n]; [reflexivity|]). lia.
    + vm_compute. by eexists.
Qed.

Lemma undisturbed_calm now uuid : within (undisturbed now now) (fun _ => calm now uuid).
Proof. intros n o. split; [apply (healthy_calm now uuid n o)|done]. Qed.

Lemma undisturbed_ticks now uuid n :
  Forall (within (undisturbed now now)) (replicate n (fun _ => calm now uuid)).
Proof. apply Forall_replicate, undisturbed_calm. Qed.

Lemma outbox_drains_witness :
  let w' := dispatch_ticks (replicate 2 (fun _ => calm 9000000 uuid_b)) backlog_world in
  jobs (w_db w') = jobs (w_db backlog_world)
  /\ forall v e, outbox (w_db backlog_world) !! v = Some e ->
       event_pending 9000000 STALE_CLAIM_THRESHOLD_SECONDS e = true ->
       (exists t, 9000000 <= t <= 9000000
          /\ (ev_published_at <$> outbox (w_db w') !! v) = Some (Some t))
       /\ in_queue (w_broker w') QUEUE_NAME (created_message (ev_job_id e)).
Proof.
  apply (outbox_drains 9000000 9000000 (replicate 2 (fun _ => calm 9000000 uuid_b)) backlog_world).
  - apply backlog_world_wf.
  - apply worker_topology_ok.
  - apply undisturbed_ticks.
  - vm_compute. repeat constructor.
Defined.

(** The uuid of the new job, then that of its event. *)
Definition two_uuids (n : nat) : choice := calm 3000000 (if (n <=? 2)%nat then uuid_b else uuid_e).

Lemma two_uuids_canonical : within canonical_uuids two_uuids.
Proof. intros n o. unfold canonical_uuids, two_uuids. by destruct (n <=? 2)%nat. Qed.

Definition doomed_input : CreateJobInput :=
  mkInput "email" (JObj [("shouldFailPermanently", JBool true)]).

Definition doomed_b : Job :=
  mkJob uuid_b "email" (JObj [("shouldFailPermanently", JBool true)]) QUEUED 0 5 None
    3000000 3000000 0 0 None None.

Lemma created_job_processed_witness :
  let w := one_job_world dead_a in
  let '(_, w1, _) := run (createJob doomed_input) two_uuids w in
  let w2 := dispatch_ticks (replicate 1 (fun _ => calm 9000000 uuid_b)) w1 in
  jobs (w_db w2) !! uuid_b = Some doomed_b
  /\ in_queue (w_broker w2) QUEUE_NAME (created_message uuid_b)
  /\ processed 9000000 9000000 uuid_b doomed_b w2
  /\ outcome_status (job_outcome doomed_b) = DEAD_LETTERED.
Proof.
  cbv zeta. destruct (run (createJob doomed_input) two_uuids (one_job_world dead_a)) as [[r w1] cs1] eqn:Hrun.
  assert (r = Ok doomed_b) as Hr.
  { change r with (r, w1, cs1).1.1. rewrite <- Hrun. vm_compute. reflexivity. }
  rewrite Hr in Hrun.
  apply (created_job_processed 9000000 9000000 doomed_input two_uuids
           (replicate 1 (fun _ => calm 9000000 uuid_b)) (one_job_world dead_a) doomed_b w1 cs1).
  - apply dead_a_wf.
  - reflexivity.
  - apply worker_topology_ok.
  - apply two_uuids_canonical.
  - exact Hrun.
  - apply undisturbed_ticks.
  - vm_compute. repeat constructor.
Defined.

Definition replayed_a : Job :=
  mkJob uuid_a "email" (JObj []) QUEUED 0 5 None 0 3000000 5 1 (Some 2000000) (Some "boom").

Lemma replayed_job_processed_witness :
  let w := one_job_world dead_a in
  let '(_, w1, _) := run (claimReplay uuid_a) two_uuids w in
  let w2 := dispatch_ticks (replicate 1 (fun _ => calm 9000000 uuid_b)) w1 in
  jobs (w_db w2) !! uuid_a = Some replayed_a
  /\ in_queue (w_broker w2) QUEUE_NAME (created_message uuid_a)
  /\ processed 9000000 9000000 uuid_a replayed_a w2
  /\ job_outcome replayed_a = Done.
Proof.
  cbv zeta. destruct (run (claimReplay uuid_a) two_uuids (one_job_world dead_a)) as [[r w1] cs1] eqn:Hrun.
  assert (r = Ok (Some replayed_a)) as Hr.
  { change r with (r, w1, cs1).1.1. rewrite <- Hrun. vm_compute. reflexivity. }
  rewrite Hr in Hrun.
  apply (replayed_job_processed 9000000 9000000 uuid_a two_uuids
           (replicate 1 (fun _ => calm 9000000 uuid_b)) (one_job_world dead_a) replayed_a w1 cs1).
  - apply dead_a_wf.
  - reflexivity.
  - apply worker_topology_ok.
  - apply two_uuids_canonical.
  - exact Hrun.
  - vm_compute. discriminate.
  - apply undisturbed_ticks.
  - vm_compute. repeat constructor.
Defined.
