(* ===== verification/Progress.v ===== *)
(** * No waiting job is out of reach

    Whatever has happened to the system, through crashes, outages and lost
    channels, a job that waits can still be processed: there are steps, ticks of
    a dispatcher or the return of a delivery to its queue, after which the broker
    holds a message about it, and the delivery of that message processes it. *)
From S2P Require Import Prelude Json Postgres Amqp Programs Effects Retry Worker Api Lifecycle Transactions Delivery Processing System RateLimiter Http Sample Dispatch Pipeline Safety.
#[local] Open Scope stdpp_scope.

Section progress.
Context `{Pg} {B : Type} `{Broker B}.
Implicit Types s : sys B.

Lemma fresh_tag_exists s : exists t, fresh_tag t s.
Proof.
  exists (fresh (dom (s_procs s) ∪ dom (w_unacked (s_world s)))).
  pose proof (is_fresh (dom (s_procs s) ∪ dom (w_unacked (s_world s)))) as Hf.
  apply not_elem_of_union in Hf as [Hp Hu]. split; by apply not_elem_of_dom.
Qed.

(** Batches, one after the other, as steps of the system. *)
Lemma steps_ticks cl ticks s :
  Forall (fun cs => forall n, sane (cs n)) ticks ->
  exists procs, rtc (step cl) s (mkSys (dispatch_ticks ticks (s_world s)) procs).
Proof.
  intros Hall. revert s. induction Hall as [|cs ticks Hcs _ IH]; intros s.
  { exists (s_procs s). by destruct s. }
  destruct (fresh_tag_exists s) as [t Ht].
  destruct (run dispatchOutboxBatch cs (s_world s)) as [[r w'] cs'] eqn:Hrun.
  pose proof (steps_dispatch cl s t cs r w' cs' Ht Hcs Hrun) as Hsteps.
  destruct (IH (mkSys w' (<[t := Dispatcher (ended r)]> (s_procs s)))) as [procs Hp].
  exists procs. etrans; [exact Hsteps|]. cbn [dispatch_ticks foldl].
  assert (dispatch_tick (s_world s) cs = w') as -> by (unfold dispatch_tick; by rewrite Hrun).
  exact Hp.
Qed.

(** An instant at which the event is not claimed any more. *)
Definition after_claim (e : OutboxEvent) : Z :=
  match ev_claimed_at e with
  | Some t => t + STALE_CLAIM_THRESHOLD_SECONDS * 1000000 + 1
  | None => 0
  end.

Lemma pending_after_claim e :
  unpublished e = true -> event_pending (after_claim e) STALE_CLAIM_THRESHOLD_SECONDS e = true.
Proof.
  unfold event_pending, after_claim, seconds_before. intros ->. simpl.
  destruct (ev_claimed_at e) as [t|]; [|done]. apply Z.ltb_lt. lia.
Qed.

(** The broker will hand out a message about the job, and the handler that gets
    it, at any instant and whatever tag it has, processes the job as specified,
    if nothing fails then. *)
Definition within_reach (u : string) (j : Job) (w : world B) : Prop :=
  exists text, held (w_broker w) text /\ text_job text = Some u
    /\ forall lo hi sync tag m b cs,
         m_content m = text -> within (healthy lo hi) cs ->
         exists w' cs' t, lo <= t <= hi
           /\ run (on_message sync (Some (tag, text))) cs (handed tag m b w) = (Ok tt, w', cs')
           /\ jobs (w_db w') = <[u := job_after (job_outcome j) t j]> (jobs (w_db w))
           /\ w_unacked w' = delete tag (w_unacked w).

Lemma held_within_reach u j w text :
  held (w_broker w) text -> text_job text = Some u ->
  jobs (w_db w) !! u = Some j -> waiting false j = true ->
  j_attempt_count j + 1 <= INT4_MAX -> j_total_attempt_count j + 1 <= INT4_MAX ->
  within_reach u j w.
Proof.
  intros Hheld Htext Hj Hw Hatt Htot. exists text. split; [done|]. split; [done|].
  intros lo hi sync tag m b cs Hm Hcs.
  unfold text_job, message_param in Htext.
  destruct (JSON_parse text) as [content|] eqn:Hparse; [|done]. simpl in Htext.
  destruct (message_job_id content) as [jobId|e] eqn:Hid; [|done].
  assert (wp (healthy lo hi) (on_message sync (Some (tag, text)))
    (fun r w' => r = Ok tt /\ delivered lo hi tag jobId u j (handed tag m b w) w') (handed tag m b w))
    as Hwp.
  { apply wp_healthy_on_message with (content := content); try done.
    - unfold waiting in Hw. unfold claimable. simpl in Hw. by rewrite Hw.
    - simpl. rewrite lookup_insert_eq. by eexists. }
  apply (wp_run _ _ _ _ _ Hcs) in Hwp. destruct (run _ cs _) as [[r w'] cs'].
  destruct Hwp as (-> & t & Ht & Hd & _ & Hu & _). exists w', cs', t.
  split; [done|]. split; [done|]. split; [by rewrite Hd|].
  rewrite Hu. simpl. by rewrite delete_insert_eq.
Qed.

Lemma waiting_any cl j : waiting cl j = true -> waiting false j = true.
Proof. unfold waiting. destruct cl; simpl; [|done]. rewrite orb_false_r. by intros ->. Qed.

(** In a reachable state ticks of a dispatcher, or the return of a delivery,
    bring a message about a waiting job to the broker; they change no job. *)
Lemma waiting_held cl s u j :
  reachable cl s -> jobs (w_db (s_world s)) !! u = Some j -> waiting cl j = true ->
  exists s' text, rtc (step cl) s s' /\ jobs (w_db (s_world s')) = jobs (w_db (s_world s))
    /\ held (w_broker (s_world s')) text /\ text_job text = Some u.
Proof.
  intros Hr Hj Hw. pose proof (reachable_in_flight _ _ _ _ Hr Hj Hw) as Hfl.
  destruct (reachable_inv _ _ Hr) as (γ & spent & Hinv).
  pose proof (inv_wf _ _ _ _ Hinv) as Hwf. pose proof (wf_jobs _ Hwf u j Hj) as [_ Hcan _ _ _ _].
  destruct Hfl as [(v & e & He & Hev & Hun)|[(text & Hheld & Htext)|(t & m & Hm & Htext)]].
  - set (now := after_claim e). set (n := size (backlog (w_db (s_world s)))).
    set (ticks := replicate n (fun _ : nat => calm now u)).
    destruct (steps_ticks cl ticks s) as [procs Hsteps].
    { apply Forall_replicate. intros _. by split. }
    exists (mkSys (dispatch_ticks ticks (s_world s)) procs), (m_content (created_message u)).
    split; [exact Hsteps|].
    pose proof (event_id _ _ _ (wf_events _ Hwf v e He)) as <-.
    destruct (ticks_drain now now ticks e (s_world s)) as [Htick [_ Hq]].
    + done.
    + apply Hinv.
    + apply undisturbed_ticks.
    + done.
    + by apply pending_after_claim.
    + unfold ticks. rewrite length_replicate. unfold BATCH_SIZE. lia.
    + split; [exact (ticked_jobs _ _ Htick)|]. rewrite Hev in Hq.
      split; [|by apply text_job_created].
      exists (created_message u). split; [done|]. by left.
  - by exists s, text.
  - destruct (inv_unacked _ _ _ _ Hinv t m Hm) as (Hexp & p & Hp).
    exists (mkSys (return_delivery t (s_world s)) (delete t (s_procs s))), (m_content m).
    split; [apply rtc_once; by eapply step_crash|]. simpl. unfold return_delivery. rewrite Hm.
    split; [done|]. split; [by apply held_requeued|done].
Qed.

(** No waiting job is out of reach.  From every reachable state, through
    whatever crashes, outages and lost channels, for every job that is QUEUED
    (or RETRYING, as long as no channel is lost under a running handler) there
    are steps of the system that leave the job as it is and lead to a state in
    which the broker holds a message about it whose delivery, when nothing
    fails, processes the job as specified and is acknowledged. *)
Theorem waiting_job_within_reach closures s u j :
  reachable closures s -> jobs (w_db (s_world s)) !! u = Some j ->
  waiting closures j = true -> j_total_attempt_count j + 1 <= INT4_MAX ->
  exists s', rtc (step closures) s s' /\ jobs (w_db (s_world s')) !! u = Some j
    /\ within_reach u j (s_world s').
Proof.
  intros Hr Hj Hw Htot. destruct (waiting_held _ _ _ _ Hr Hj Hw) as (s' & text & Hs & Hjobs & Hh & Ht).
  assert (jobs (w_db (s_world s')) !! u = Some j) as Hj' by by rewrite Hjobs.
  exists s'. split; [done|]. split; [done|].
  destruct (reachable_inv _ _ Hr) as (γ & spent & Hinv).
  destruct (wf_jobs _ (inv_wf _ _ _ _ Hinv) u j Hj) as [_ _ Hatt _ _ _].
  eapply held_within_reach; try done; [by eapply waiting_any|lia].
Qed.
End progress.

(** ** The property, on a concrete state *)

(** A job was just created; its event is pending. *)
Lemma waiting_job_within_reach_witness :
  let s := state_created sample_input in
  exists j s', jobs (w_db (s_world s)) !! uuid_a = Some j
    /\ rtc (step true) s s' /\ jobs (w_db (s_world s')) !! uuid_a = Some j
    /\ within_reach uuid_a j (s_world s').
Proof.
  destruct (jobs (w_db (s_world (state_created sample_input))) !! uuid_a) as [j|] eqn:Hj;
    [|vm_compute in Hj; discriminate Hj].
  destruct (waiting_job_within_reach true (state_created sample_input) uuid_a j) as (s' & H1 & H2 & H3).
  - apply reach_created.
  - exact Hj.
  - vm_compute in Hj. injection Hj as <-. reflexivity.
  - vm_compute in Hj. injection Hj as <-. discriminate.
  - exists j, s'. split; [exact Hj|]. split; [exact H1|]. by split.
Defined.
