(* ===== verification/Journey.v ===== *)
(** * A failing job's way through the broker

    The deliveries of a job whose processing fails every time, with the broker
    between them: each retry message waits in the retry queue until its TTL
    expires, comes back to the job queue and is handed to a worker, until the
    job has used up its attempts and its dead letter is in the dead-letter
    queue. *)
From stdpp Require Import pretty.
From S2P Require Import Prelude Json Postgres Amqp Programs Effects Retry Worker Api Lifecycle Transactions Delivery Processing System RateLimiter Http Sample Handling Dispatch Pipeline.
#[local] Open Scope stdpp_scope.

Section journey.
Context `{Pg} {B : Type} `{Broker B}.
Implicit Types w : world B.

Section rounds.
Variables (lo hi : Z) (u : string) (j0 : Job) (msg : string).

Definition job_text : string := m_content (created_message u).

(** The broker moves on its own for as long as it likes, and hands a message
    about the job to a handler, which runs without a failure. *)
Definition round w w' : Prop :=
  exists b m b' sync tag cs cs',
    rtc internal (w_broker w) b /\ take_message QUEUE_NAME m b b' /\ m_content m = job_text
    /\ within (healthy lo hi) cs
    /\ run (on_message sync (Some (tag, job_text))) cs (handed tag m b' w) = (Ok tt, w', cs').

Hypothesis Hcan : canonical u.
Hypothesis Hqueued : j_status j0 = QUEUED.
Hypothesis Hzero : j_attempt_count j0 = 0.
Hypothesis Hfails : job_verdict j0 = Fails msg.

Lemma steps_topology b b' : rtc internal b b' -> topology_ok b -> topology_ok b'.
Proof. induction 1; [done|]. eauto using internal_topology. Qed.

Lemma steps_held b b' c : topology_ok b -> rtc internal b b' -> held b c -> held b' c.
Proof.
  intros Ht Hs. revert Ht. induction Hs as [|b1 b2 b3 Hi _ IH]; intros Ht Hh; [done|].
  apply IH; [by eapply internal_topology|by eapply held_internal].
Qed.

Lemma failing_row_claimable j n :
  failing_row j0 j n -> Z.of_nat n < j_max_attempts j0 ->
  claimable lo STALE_PROCESSING_THRESHOLD_SECONDS j = true.
Proof.
  intros (_ & _ & _ & Hst) Hn. unfold claimable, has_status. destruct n as [|n].
  - by rewrite Hst, Hqueued.
  - rewrite Hst. unfold failing_outcome. cbn [decide_outcome].
    destruct (j_max_attempts j0 <=? Z.of_nat (S n)) eqn:Hle; [|done]. apply Z.leb_le in Hle. lia.
Qed.

(** The last message, and what the broker was before it. *)
Definition last_sent (n : nat) w : Prop :=
  exists b, topology_ok b
    /\ w_broker w = send (follow_up (failing_outcome (j_max_attempts j0) msg n) (Some (JStr u))) b.

Lemma round_next n w w' j :
  topology_ok (w_broker w) -> jobs (w_db w) !! u = Some j -> failing_row j0 j n ->
  Z.of_nat n < j_max_attempts j0 -> j_total_attempt_count j0 + Z.of_nat (S n) <= INT4_MAX ->
  Z.of_nat (S n) <= INT4_MAX -> round w w' ->
  (exists j', jobs (w_db w') !! u = Some j' /\ failing_row j0 j' (S n)) /\ last_sent (S n) w'.
Proof.
  intros Htop Hj Hrow Hmax Htot Hint (b & m & b' & sync & tag & cs & cs' & Hb & Htake & Hm & Hcs & Hrun).
  pose proof (failing_row_claimable j n Hrow Hmax) as Hclaim.
  destruct Hrow as (Ha & Ht & Hrow).
  assert (wp (healthy lo hi) (on_message sync (Some (tag, job_text)))
    (fun r w' => r = Ok tt /\ delivered lo hi tag (Some (JStr u)) u j (handed tag m b' w) w')
    (handed tag m b' w)) as Hwp.
  { apply wp_healthy_on_message with (content := JObj [("jobId", JStr u)]); try done; try lia.
    - by apply JSON_parse_stringify.
    - simpl. by rewrite pg_param_string.
    - simpl. rewrite lookup_insert_eq. by eexists. }
  apply (wp_run _ _ _ _ _ Hcs) in Hwp. rewrite Hrun in Hwp. destruct Hwp as (_ & t & Hr & Hd & Hbr & _).
  destruct (failing_row_next lo hi msg j0 j n t Hfails) as [Ho Hrow']; [by split|done|].
  split.
  - exists (job_after (job_outcome j) t j). rewrite Hd. simpl. by rewrite lookup_insert_eq.
  - exists b'. split; [|by rewrite Hbr, Ho].
    eapply take_topology; [exact Htake|]. by eapply steps_topology.
Qed.

Lemma sent_topology n w : last_sent n w -> topology_ok (w_broker w).
Proof.
  intros (b & Hb & ->). destruct (follow_up _ _) as [[[ex rk] m]|]; [by apply publish_topology|done].
Qed.

Lemma rounds_failing n w w' :
  topology_ok (w_broker w) -> jobs (w_db w) !! u = Some j0 ->
  Z.of_nat n <= j_max_attempts j0 -> j_total_attempt_count j0 + Z.of_nat n <= INT4_MAX ->
  Z.of_nat n <= INT4_MAX -> nsteps round n w w' ->
  (exists j, jobs (w_db w') !! u = Some j /\ failing_row j0 j n)
  /\ topology_ok (w_broker w') /\ ((0 < n)%nat -> last_sent n w').
Proof.
  intros Htop Hj. revert w'. induction n as [|n IH]; intros w' Hmax Htot Hint Hsteps.
  - inversion Hsteps; subst. split; [|split; [done|lia]]. exists j0. split; [done|].
    split; [simpl; lia|]. split; [simpl; lia|]. by repeat split.
  - apply nsteps_inv_r in Hsteps as (w1 & Hsteps & Hround).
    destruct (IH w1) as [(j & Hj1 & Hrow) [Htop1 _]]; [lia..|done|].
    destruct (round_next n w1 w' j Htop1 Hj1 Hrow) as [Hrow' Hsent]; [lia..|done|].
    split; [done|]. split; [by eapply sent_topology|done].
Qed.

(** The retry message of the attempt [n], and the dead letter. *)
Definition retry_message (n : nat) : message :=
  mkMessage job_text true (Some (pretty (calculateBackoffMs (Z.of_nat n)))).
Definition dead_letter : message := mkMessage job_text true None.

(** C8: a job whose processing fails every time goes round through the broker
    until its limit.  After any [n] deliveries of a message about it, with any
    steps of the broker before each, it has [n] attempts; below [max_attempts]
    it is RETRYING and its message is in the retry queue, with the delay of
    [calculateBackoffMs n] as its TTL, and whatever the broker does next the
    message is kept, for the retry queue dead-letters it into the job queue; at
    [max_attempts] it is DEAD_LETTERED and its message is in the dead-letter
    queue. *)
Theorem failing_job_through_broker n w w' :
  topology_ok (w_broker w) -> jobs (w_db w) !! u = Some j0 ->
  (0 < n)%nat -> Z.of_nat n <= j_max_attempts j0 ->
  j_total_attempt_count j0 + Z.of_nat n <= INT4_MAX -> Z.of_nat n <= INT4_MAX ->
  nsteps round n w w' ->
  exists j, jobs (w_db w') !! u = Some j /\ j_attempt_count j = Z.of_nat n
    /\ (Z.of_nat n < j_max_attempts j0 ->
        j_status j = RETRYING
        /\ in_queue (w_broker w') RETRY_QUEUE_NAME (retry_message n)
        /\ forall b, rtc internal (w_broker w') b -> held b job_text)
    /\ (Z.of_nat n = j_max_attempts j0 ->
        j_status j = DEAD_LETTERED /\ in_queue (w_broker w') DLQ_QUEUE_NAME dead_letter).
Proof.
  intros Htop Hj Hpos Hmax Htot Hint Hsteps.
  destruct (rounds_failing n w w' Htop Hj Hmax Htot Hint Hsteps)
    as [(j & Hj' & Ha & _ & _ & Hst) [Htop' Hsent]].
  destruct (Hsent Hpos) as (b & Hb & Hbr). destruct n as [|n]; [lia|].
  unfold failing_outcome in Hst, Hbr. cbn [decide_outcome] in Hst, Hbr.
  exists j. split; [done|]. split; [done|]. split; intros Hn.
  - assert ((j_max_attempts j0 <=? Z.of_nat (S n)) = false) as Hle by (apply Z.leb_gt; lia).
    rewrite Hle in Hst, Hbr. cbn [follow_up send] in Hbr.
    assert (in_queue (w_broker w') RETRY_QUEUE_NAME (retry_message (S n))) as Hq
      by (rewrite Hbr; apply publish_routes, retry_bound, Hb).
    split; [done|]. split; [exact Hq|]. intros b' Hsteps'. eapply steps_held; [exact Htop'|done|].
    exists (retry_message (S n)). split; [done|]. right. split; [exact Hq|done].
  - assert ((j_max_attempts j0 <=? Z.of_nat (S n)) = true) as Hle by (apply Z.leb_le; lia).
    rewrite Hle in Hst, Hbr. cbn [follow_up send] in Hbr. split; [done|].
    rewrite Hbr. apply publish_routes, dlq_bound, Hb.
Qed.
End rounds.
End journey.

(** ** The property, on two rounds *)

Definition calm_day (n : nat) : choice := calm 3000000 uuid_b.

Definition with_contents (l : list (string * message)) (b : Queues.t) : Queues.t :=
  Queues.mk (Queues.bindings b) (Queues.dead_letters b) l.

(** The message about the job is in the job queue. *)
Definition before_rounds : world Queues.t :=
  mkWorld (one_job failing_a) None
    (with_contents [(QUEUE_NAME, created_message uuid_a)] (Amqp.declared worker_topology)) ∅ 0 [].

Definition handled (m : message) (w : world Queues.t) : res js_err unit * world Queues.t * (nat -> choice) :=
  run (on_message 0 (Some (1%nat, m_content m))) calm_day
    (handed 1 m (with_contents [] (w_broker w)) w).

Definition after_one : world Queues.t := (handled (created_message uuid_a) before_rounds).1.2.
Definition after_two : world Queues.t := (handled (created_message uuid_a) after_one).1.2.

Lemma handled_round m w b :
  rtc internal (w_broker w) b -> Queues.contents b = [(QUEUE_NAME, m)] ->
  with_contents [] b = with_contents [] (w_broker w) -> m_content m = job_text uuid_a ->
  (handled m w).1.1 = Ok tt -> round 3000000 3000000 uuid_a w (handled m w).1.2.
Proof.
  intros Hb Hc Hw Hm Hok. exists b, m, (with_contents [] (w_broker w)), 0, 1%nat, calm_day,
    (handled m w).2.
  split; [exact Hb|]. split; [exists [], []; split; [exact Hc|by rewrite <- Hw]|].
  split; [exact Hm|]. split; [apply healthy_calm|]. rewrite <- Hm, <- Hok. unfold handled.
  by destruct (run _ _ _) as [[r w'] cs'].
Qed.

Lemma failing_job_through_broker_witness :
  nsteps (round 3000000 3000000 uuid_a) 2 before_rounds after_two
  /\ exists j, jobs (w_db after_two) !! uuid_a = Some j /\ j_attempt_count j = 2
    /\ j_status j = RETRYING
    /\ in_queue (w_broker after_two) RETRY_QUEUE_NAME (retry_message uuid_a 2).
Proof.
  assert (nsteps (round 3000000 3000000 uuid_a) 2 before_rounds after_two) as Hsteps.
  { apply nsteps_l with after_one.
    - apply (handled_round (created_message uuid_a) before_rounds (w_broker before_rounds));
        [apply rtc_refl|reflexivity|reflexivity|reflexivity|vm_compute; reflexivity].
    - apply nsteps_once.
      apply (handled_round (created_message uuid_a) after_one
               (with_contents [(QUEUE_NAME, created_message uuid_a)] (w_broker after_one)));
        [|reflexivity|reflexivity|reflexivity|vm_compute; reflexivity].
      apply rtc_once. exists [], RETRY_QUEUE_NAME, (retry_message uuid_a 1), [].
      split; [vm_compute; reflexivity|]. split; [discriminate|]. vm_compute. reflexivity. }
  split; [exact Hsteps|].
  destruct (failing_job_through_broker 3000000 3000000 uuid_a failing_a
    ("Simulated failure for job type " +:+ quoted "email")) with (n := 2%nat) (w := before_rounds)
    (w' := after_two) as (j & Hj & Ha & Hr & _).
  - reflexivity.
  - reflexivity.
  - reflexivity.
  - reflexivity.
  - split; [..|vm_compute; reflexivity]; vm_compute; repeat first [left; reflexivity | right].
  - reflexivity.
  - lia.
  - discriminate.
  - discriminate.
  - discriminate.
  - exact Hsteps.
  - destruct (Hr eq_refl) as (Hst & Hq & _). exists j. split; [exact Hj|]. split; [exact Ha|]. split; [exact Hst|exact Hq].
Defined.
