(* ===== verification/Completion.v ===== *)
(** * Every waiting job can be finished

    From any state that the system can reach, whatever crashes, outages and lost
    channels led there, there are steps after which every job that was waiting is
    finished: COMPLETED if its processing succeeds, DEAD_LETTERED with its attempts
    used up otherwise, and all other jobs are as they were. *)
From S2P Require Import Prelude Json Postgres Amqp Queueing Programs Effects Retry Worker Api Lifecycle Transactions Delivery System Processing RateLimiter Http Sample Safety Handling Dispatch Pipeline Progress.
#[local] Open Scope stdpp_scope.

Section moves.
Context `{Pg} {B : Type} `{Serving B}.
Implicit Types w : world B.
Implicit Types s : sys B.

(** ** The queues of a reachable state are clean *)

Lemma handle_moves c o w x w' :
  (forall ex rk m, o = Publish ex rk m -> orderly ex rk m = true) ->
  handle c o w = (x, w') -> queue_move (w_broker w) (w_broker w').
Proof.
  intros Ho Hh. unfold handle in Hh.
  assert (forall a w1, effect c o w = Ok (a, w1) -> queue_move (w_broker w) (w_broker w1)) as Heff.
  { intros a w1 He. destruct o; simpl in He; try (by injection He as _ <-; apply move_none).
    - destruct (exec _ _ _) as [[]|]; [|done]. injection He as _ <-. apply move_none.
    - destruct (exec _ _ _) as [[]|]; [|done]. injection He as _ <-. apply move_none.
    - injection He as _ <-. destruct (w_tx w); apply move_none.
    - injection He as _ <-. unfold rolled_back. destruct (w_tx w); apply move_none.
    - injection He as _ <-. destruct (ch_stored c); [|apply move_none]. by apply move_publish, Ho.
    - destruct (w_unacked w !! tag); [|done]. injection He as _ <-. apply move_none.
    - destruct (w_unacked w !! tag); [|done]. injection He as _ <-. destruct requeue; [apply move_requeue|apply move_none]. }
  destruct (effect c o w) as [[a w1]|e] eqn:He.
  - specialize (Heff a w1 eq_refl). destruct (ch_fault c) as [[executed e]|], (infallible o);
      injection Hh as <- <-; try exact Heff.
    simpl. destruct (carried_out executed o); [exact Heff|apply move_none].
  - destruct (ch_fault c) as [[executed e']|], (infallible o); injection Hh as <- <-;
      try apply move_none. simpl. destruct (carried_out executed o); apply move_none.
Qed.

Lemma step_moves cl s s' γ spent :
  inv cl s γ spent -> step cl s s' ->
  queue_move (w_broker (s_world s)) (w_broker (s_world s')).
Proof.
  intros Hinv. destruct 1 as [s t m b sync Hf He Hb|s t text o k c x w' Ht Hc Hh|s t Hf
    |s t o k c x w' Ht Hc Hh|s input cs r w' cs' Hcs Hrun|s id cs r w' cs' Hcs Hrun
    |s b Hb|s t p Ht|s t Hcl]; simpl.
  - by eapply move_take.
  - eapply handle_moves; [|exact Hh]. intros ex rk m ->.
    by destruct (inv_procs _ _ _ _ Hinv t _ Ht) as (g & _ & [Hp _] & _).
  - constructor.
  - eapply handle_moves; [|exact Hh]. intros ex rk m ->.
    by destruct (inv_procs _ _ _ _ Hinv t _ Ht) as (D & _ & [Hp _]).
  - pose proof (wp_run _ _ _ _ _ Hcs (wp_createJob input _ (inv_tx _ _ _ _ Hinv))) as Hwp.
    rewrite Hrun in Hwp. destruct Hwp as (_ & (-> & _) & _). constructor.
  - pose proof (wp_run _ _ _ _ _ Hcs
      (wp_claimReplay id _ (inv_tx _ _ _ _ Hinv) (inv_wf _ _ _ _ Hinv))) as Hwp.
    rewrite Hrun in Hwp. destruct Hwp as (_ & (-> & _) & _). constructor.
  - by apply move_internal.
  - unfold return_delivery. destruct (w_unacked (s_world s) !! t); simpl; constructor.
  - unfold return_delivery. destruct (w_unacked (s_world s) !! t); simpl; constructor.
Qed.

Lemma reachable_clean cl s : reachable cl s -> clean (w_broker (s_world s)).
Proof.
  revert s. apply rtc_ind_r.
  - apply clean_declared.
  - intros s1 s2 Hr Hstep IH. destruct (reachable_inv _ _ Hr) as (γ & spent & Hinv).
    eapply clean_move; [exact IH|]. by eapply step_moves.
Qed.

(** ** The broker serves, as steps of the system *)

Lemma serves_steps cl s b :
  rtc serves (w_broker (s_world s)) b ->
  exists s', rtc (step cl) s s' /\ w_broker (s_world s') = b /\ w_db (s_world s') = w_db (s_world s).
Proof.
  remember (w_broker (s_world s)) as b0 eqn:Hb0. intros Hs. revert s Hb0.
  induction Hs as [b0|b0 b1 b2 Hb _ IH]; intros s ->; [by exists s|].
  assert (exists s1, step cl s s1 /\ w_broker (s_world s1) = b1
    /\ w_db (s_world s1) = w_db (s_world s)) as (s1 & Hstep & Hb1 & Hd1).
  { destruct Hb as [Hi|(m & He & Ht)].
    - eexists. split; [by apply step_broker|]. done.
    - destruct (fresh_tag_exists s) as [t Hf].
      eexists. split; [by eapply (step_deliver true cl s t m b1 0)|]. done. }
  destruct (IH s1) as (s' & Hs' & Hb' & Hd'); [done|].
  exists s'. split; [by eapply rtc_l|]. by rewrite Hd', Hd1.
Qed.

Lemma reachable_steps cl s s' : reachable cl s -> rtc (step cl) s s' -> reachable cl s'.
Proof. unfold reachable. intros. by etrans. Qed.

(** ** One delivery of the job *)

(** The broker holds a message about the job. *)
Definition announced_job (u : string) s : Prop :=
  exists text, held (w_broker (s_world s)) text /\ text_job text = Some u.

Lemma processed_once cl s u j :
  reachable cl s -> jobs (w_db (s_world s)) !! u = Some j -> waiting false j = true ->
  j_total_attempt_count j + 1 <= INT4_MAX -> announced_job u s ->
  exists s' t, rtc (step cl) s s'
    /\ jobs (w_db (s_world s')) = <[u := job_after (job_outcome j) t j]> (jobs (w_db (s_world s)))
    /\ (outcome_status (job_outcome j) = RETRYING -> announced_job u s').
Proof.
  intros Hr Hj Hw Htot (text & Hheld & Htext).
  destruct (reachable_inv _ _ Hr) as (γ & spent & Hinv).
  destruct (wf_jobs _ (inv_wf _ _ _ _ Hinv) u j Hj) as [_ Hcan Hatt _ _ _].
  destruct (held_handed_out _ _ (inv_topology _ _ _ _ Hinv) (reachable_clean _ _ Hr) Hheld)
    as (b1 & b2 & m & Hserves & Htake & Hm & Hexp).
  destruct (serves_steps cl s b1 Hserves) as (s1 & Hs1 & Hb1 & Hd1).
  destruct (fresh_tag_exists s1) as [t Hf]. rewrite <- Hb1 in Htake.
  pose proof Htext as Hjob. unfold text_job, message_param in Htext.
  destruct (JSON_parse text) as [content|] eqn:Hparse; [|done]. simpl in Htext.
  destruct (message_job_id content) as [jobId|e] eqn:Hid; [|done].
  set (w1 := with_unacked (<[t := m]> (w_unacked (s_world s1))) (with_broker b2 (s_world s1))).
  assert (wp (healthy 0 0) (on_message 0 (Some (t, m_content m)))
    (fun r w' => r = Ok tt /\ delivered 0 0 t jobId u j w1 w') w1) as Hwp.
  { apply wp_healthy_on_message with (content := content); try done; try lia.
    - by rewrite Hm.
    - simpl. by rewrite Hd1.
    - unfold waiting in Hw. unfold claimable. simpl in Hw. by rewrite Hw.
    - simpl. rewrite lookup_insert_eq. by eexists. }
  apply (wp_run _ _ _ _ _ (healthy_calm 0 u)) in Hwp.
  destruct (run _ _ _) as [[r w'] cs'] eqn:Hrun. destruct Hwp as (-> & t' & _ & Hd & Hb & _).
  exists (mkSys w' (<[t := Handler (m_content m) (ended (Ok tt))]> (s_procs s1))), t'.
  split; [|split].
  - etrans; [exact Hs1|]. eapply steps_delivery with (cs := fun _ => calm 0 u);
      [done|done|exact Htake|by intros _; split|exact Hrun].
  - simpl. rewrite Hd. simpl. by rewrite Hd1.
  - destruct (job_outcome j) as [|ms err|err]; simpl; [done| |done]. intros _.
    exists (job_message jobId). simpl in Hb. split.
    + simpl. rewrite Hb. apply (held_published _ _ _ (mkMessage _ _ _)); [|by right].
      eapply take_topology; [exact Htake|].
      destruct (reachable_inv cl s1) as (γ1 & spent1 & Hinv1); [by eapply reachable_steps|].
      exact (inv_topology _ _ _ _ Hinv1).
    + rewrite (text_job_message (pg_param jobId) jobId); [done|done|].
      intros v ->. apply (get_prop_wf "jobId" content); [by eapply JSON_parse_wf|].
      destruct content; simplify_eq/=; done.
Qed.

(** ** Delivery after delivery *)

(** What a job is in the end, for the number of attempts that it has left. *)
Definition finished (j j' : Job) : Prop :=
  j_status j' = match job_verdict j with Succeeds => COMPLETED | _ => DEAD_LETTERED end
  /\ j_attempt_count j' = match job_verdict j with
                          | Fails _ => Z.max (j_attempt_count j + 1) (j_max_attempts j)
                          | _ => j_attempt_count j + 1
                          end
  /\ j_payload j' = j_payload j /\ j_type j' = j_type j.

Definition attempts_left (j : Job) : Z := Z.max 1 (j_max_attempts j - j_attempt_count j).

(** An attempt either finishes the job, or leaves one attempt less. *)
Lemma attempt_outcome j t :
  (outcome_status (job_outcome j) <> RETRYING /\ finished j (job_after (job_outcome j) t j))
  \/ (outcome_status (job_outcome j) = RETRYING
      /\ j_attempt_count j + 1 < j_max_attempts j
      /\ forall j', finished (job_after (job_outcome j) t j) j' -> finished j j').
Proof.
  unfold finished, job_outcome.
  assert (forall o, job_verdict (job_after o t j) = job_verdict j) as Hv by done.
  setoid_rewrite Hv. destruct (job_verdict j) as [|err|err]; cbn [decide_outcome].
  - left. by split.
  - destruct (Z.leb_spec (j_max_attempts j) (j_attempt_count j + 1)).
    + left. split; [done|]. split; [done|]. split; [simpl; lia|done].
    + right. split; [done|]. split; [lia|]. intros j' (Hs & Ha & Hp & Ht).
      split; [done|]. split; [simpl in Ha; lia|done].
  - left. by split.
Qed.

Lemma attempts_finish cl u n s j :
  reachable cl s -> jobs (w_db (s_world s)) !! u = Some j -> waiting false j = true ->
  j_total_attempt_count j + attempts_left j <= INT4_MAX -> announced_job u s ->
  j_max_attempts j - j_attempt_count j <= Z.of_nat n ->
  exists s' j', rtc (step cl) s s'
    /\ jobs (w_db (s_world s')) = <[u := j']> (jobs (w_db (s_world s))) /\ finished j j'.
Proof.
  revert s j. induction n as [|n IH]; intros s j Hr Hj Hw Htot Hann Hn;
    destruct (processed_once cl s u j) as (s1 & t & Hs1 & Hj1 & Hann1); try done;
    try (unfold attempts_left in Htot; lia);
    destruct (attempt_outcome j t) as [[_ Hfin]|(Hret & Hlt & Hfin)];
    try (by exists s1, (job_after (job_outcome j) t j)); [lia|].
  set (j1 := job_after (job_outcome j) t j) in *.
  destruct (IH s1 j1) as (s2 & j2 & Hs2 & Hj2 & Hfin2).
  - by eapply reachable_steps.
  - by rewrite Hj1, lookup_insert_eq.
  - unfold waiting, has_status. simpl. by rewrite Hret.
  - unfold attempts_left in *. simpl. lia.
  - by apply Hann1.
  - simpl. lia.
  - exists s2, j2. split; [by etrans|]. split; [|by apply Hfin].
    by rewrite Hj2, Hj1, insert_insert_eq.
Qed.

(** A waiting job can be finished, with the others as they are. *)
Lemma waiting_job_finishes cl s u j :
  reachable cl s -> jobs (w_db (s_world s)) !! u = Some j -> waiting cl j = true ->
  j_total_attempt_count j + attempts_left j <= INT4_MAX ->
  exists s' j', rtc (step cl) s s'
    /\ jobs (w_db (s_world s')) = <[u := j']> (jobs (w_db (s_world s))) /\ finished j j'.
Proof.
  intros Hr Hj Hw Htot.
  destruct (waiting_held _ _ _ _ Hr Hj Hw) as (s1 & text & Hs1 & Hjobs & Hh & Ht).
  destruct (attempts_finish cl u (Z.to_nat (j_max_attempts j - j_attempt_count j)) s1 j)
    as (s' & j' & Hs' & Hj' & Hfin); try done; try lia.
  - by eapply reachable_steps.
  - by rewrite Hjobs.
  - by eapply waiting_any.
  - by exists text.
  - exists s', j'. split; [by etrans|]. by rewrite Hj', Hjobs.
Qed.

(** ** All of them *)

Lemma listed_jobs_finish cl l s :
  reachable cl s -> NoDup l ->
  (forall u, u ∈ l -> exists j, jobs (w_db (s_world s)) !! u = Some j /\ waiting cl j = true
     /\ j_total_attempt_count j + attempts_left j <= INT4_MAX) ->
  exists s', rtc (step cl) s s' /\ forall u,
    if decide (u ∈ l)
    then exists j j', jobs (w_db (s_world s)) !! u = Some j
                   /\ jobs (w_db (s_world s')) !! u = Some j' /\ finished j j'
    else jobs (w_db (s_world s')) !! u = jobs (w_db (s_world s)) !! u.
Proof.
  intros Hr Hnd. revert s Hr. induction Hnd as [|u l Hu Hnd IH]; intros s Hr Hl.
  { exists s. split; [done|]. intros u. by rewrite decide_False by apply not_elem_of_nil. }
  destruct (Hl u) as (j & Hj & Hw & Htot); [left|].
  destruct (waiting_job_finishes cl s u j) as (s1 & j1 & Hs1 & Hj1 & Hfin); try done.
  destruct (IH s1) as (s2 & Hs2 & H2).
  { by eapply reachable_steps. }
  { intros v Hv. rewrite Hj1, lookup_insert_ne by (by intros ->). apply Hl. by right. }
  exists s2. split; [by etrans|]. intros v. specialize (H2 v). rewrite Hj1 in H2.
  destruct (decide (v ∈ u :: l)) as [Hin|Hnot]; destruct (decide (v ∈ l)) as [Hv|Hv].
  - by rewrite lookup_insert_ne in H2 by (by intros ->).
  - apply elem_of_cons in Hin as [->|]; [|done]. rewrite lookup_insert_eq in H2. by exists j, j1.
  - destruct Hnot. by right.
  - rewrite lookup_insert_ne in H2; [done|]. intros ->. destruct Hnot. left.
Qed.

(** C3: whatever has happened, every waiting job can be finished.  As long as the
    broker stores what a channel accepted (there are no publisher confirms), from
    every reachable state, through whatever crashes, outages and lost channels,
    there are steps of the system after which each job that was QUEUED (or RETRYING, as
    long as no channel is lost under a running handler) is COMPLETED if its
    processing succeeds and DEAD_LETTERED otherwise, after as many attempts as
    its verdict asks for, and all other jobs are as they were. *)
Theorem waiting_jobs_can_finish closures s :
  reachable_in true closures s ->
  (forall u j, jobs (w_db (s_world s)) !! u = Some j -> waiting closures j = true ->
     j_total_attempt_count j + attempts_left j <= INT4_MAX) ->
  exists s', rtc (step_in true closures) s s' /\ forall u,
    option_Forall2 (fun j j' => if waiting closures j then finished j j' else j' = j)
      (jobs (w_db (s_world s)) !! u) (jobs (w_db (s_world s')) !! u).
Proof.
  intros Hr Htot. set (m := jobs (w_db (s_world s))) in *.
  set (l := elements (dom (filter (fun '(_, j) => waiting closures j = true) m))).
  assert (forall u, u ∈ l <-> exists j, m !! u = Some j /\ waiting closures j = true) as Hl.
  { intros u. unfold l. rewrite elem_of_elements, elem_of_dom. split.
    - intros (j & [Hj Hw]%map_lookup_filter_Some). by exists j.
    - intros (j & Hj & Hw). exists j. by apply map_lookup_filter_Some. }
  destruct (listed_jobs_finish closures l s Hr (NoDup_elements _)) as (s' & Hs' & Hjobs).
  { intros u (j & Hj & Hw)%Hl. exists j. by eauto. }
  exists s'. split; [done|]. intros u. specialize (Hjobs u). fold m in Hjobs.
  destruct (decide (u ∈ l)) as [Hin|Hnot].
  - destruct Hjobs as (j & j' & Hj & -> & Hfin). apply Hl in Hin as (? & Hj0 & Hw).
    rewrite Hj in *. injection Hj0 as <-. constructor. by rewrite Hw.
  - rewrite Hjobs. destruct (m !! u) as [j|] eqn:Hj; constructor.
    destruct (waiting closures j) eqn:Hw; [|done]. destruct Hnot. apply Hl. by exists j.
Qed.
End moves.

(** ** The property, on a concrete state *)

(** A job was just created; its event is pending. *)
Lemma waiting_jobs_can_finish_witness :
  let s := state_created sample_input in
  exists j s' j', jobs (w_db (s_world s)) !! uuid_a = Some j
    /\ waiting true j = true /\ rtc (step true) s s'
    /\ jobs (w_db (s_world s')) !! uuid_a = Some j' /\ finished j j'.
Proof.
  set (s := state_created sample_input).
  destruct (jobs (w_db (s_world s)) !! uuid_a) as [j0|] eqn:Hj0; [|vm_compute in Hj0; discriminate Hj0].
  destruct (waiting_jobs_can_finish true s) as (s' & Hs' & Hall).
  - apply reach_created.
  - intros u j Hj _. assert (map_to_list (jobs (w_db (s_world s))) = [(uuid_a, j0)]) as Hl.
    { vm_compute in Hj0. injection Hj0 as <-. vm_compute. reflexivity. }
    apply elem_of_map_to_list in Hj. rewrite Hl in Hj. apply list_elem_of_singleton in Hj.
    injection Hj as -> ->. vm_compute in Hj0. injection Hj0 as <-. vm_compute. discriminate.
  - specialize (Hall uuid_a). rewrite Hj0 in Hall.
    assert (waiting true j0 = true) as Hw by (vm_compute in Hj0; injection Hj0 as <-; reflexivity).
    inversion Hall as [? j' Hfin Hx Hj'|]. subst. rewrite Hw in Hfin.
    exists j0, s', j'. split; [exact Hj0|]. split; [exact Hw|]. split; [exact Hs'|].
    split; [exact (eq_sym Hj')|exact Hfin].
Defined.
