(* ===== verification/Scripts.v ===== *)
(** * The operational scripts: effects and traces

    The scripts of apps/api/scripts run against a deployed stack: they execute
    [docker compose], send requests, read the clock and sleep.  All of that is
    given; what a script did is its trace, and its specifications are about
    traces.  The scripts themselves are in Chaos.v and Checks.v; their console
    output is not modelled. *)
From S2P Require Import Prelude Json Programs Http Client.
#[local] Open Scope stdpp_scope.

(** ** Effects *)

Inductive script_op :=
| ExecSync (cmd : string)                              (* child_process.execSync *)
| Fetch (req : http_request) (body : option json)      (* await fetch *)
| Now                                                  (* Date.now() *)
| PerfNow                                              (* performance.now() *)
| SleepMs (ms : Z)                                     (* await setTimeout *)
| ExistsSync (path : string)                           (* fs.existsSync *)
| WsConnect (url : string)                             (* new WebSocket, and its open or error *)
| ReadFrames.                                          (* what the socket has received so far *)

Definition script_answer (o : script_op) : Type :=
  match o with
  | ExecSync _ => string
  | Fetch _ _ => fetched
  | Now => Z
  | SleepMs _ => unit
  | ExistsSync _ => bool
  | PerfNow => Q
  | WsConnect _ => option string
  | ReadFrames => list string
  end.

Abbreviation script := (prog script_answer).
Definition step (o : script_op) : script (script_answer o) := call o.

(** What the environment answers: a command or a request may fail, the others
    do not; a connection opens ([None]) or there is a reason why not.
    [c_elapsed]: the milliseconds that the effect takes; [c_frames]: what the
    socket receives meanwhile. *)
Record answers := mkAnswers {
  c_elapsed : Z;
  c_exec : res js_err string;
  c_fetch : res js_err fetched;
  c_exists : bool;
  c_perf : Q;
  c_connect : option string;
  c_frames : list string }.

Inductive event :=
| Ran (cmd : string) (ok : bool)
| Fetched (req : http_request) (body : option json) (answer : res js_err fetched)
| Saw (now : Z)
| Slept (ms : Z)
| Looked (path : string) (present : bool)
| Timed (now : Q)
| Connected (url : string) (reason : option string)
| Received (frames : list string).

(** [s_frames]: received since the listener was attached. *)
Record scene := mkScene { s_clock : Z; s_frames : list string; s_trace : list event }.

Definition happens (c : answers) (e : event) (s : scene) : scene :=
  mkScene (s_clock s + c_elapsed c) (s_frames s ++ c_frames c) (s_trace s ++ [e]).

(** The listener is attached when the connection is open. *)
Definition connects (c : answers) (e : event) (s : scene) : scene :=
  mkScene (s_clock s + c_elapsed c) [] (s_trace s ++ [e]).

#[export] Instance script_semantics : Semantics script_answer answers scene := fun c o s =>
  match o with
  | ExecSync cmd => (c_exec c, happens c (Ran cmd (is_ok (c_exec c))) s)
  | Fetch req body => (c_fetch c, happens c (Fetched req body (c_fetch c)) s)
  | Now => (Ok (s_clock s + c_elapsed c), happens c (Saw (s_clock s + c_elapsed c)) s)
  | SleepMs ms => (Ok tt, happens c (Slept ms) s)
  | ExistsSync path => (Ok (c_exists c), happens c (Looked path (c_exists c)) s)
  | PerfNow => (Ok (c_perf c), happens c (Timed (c_perf c)) s)
  | WsConnect url => (Ok (c_connect c), connects c (Connected url (c_connect c)) s)
  | ReadFrames => (Ok (s_frames s), happens c (Received (s_frames s)) s)
  end.

(** Time does not go back, and a sleep takes as long as it says. *)
Definition clock_runs : script_op -> answers -> Prop := fun o c =>
  0 <= c_elapsed c /\ match o with SleepMs ms => ms <= c_elapsed c | _ => True end.

Definition later (s s' : scene) : Prop := s_clock s <= s_clock s'.

Lemma perform_later c o s : clock_runs o c -> later s (perform c o s).2.
Proof. intros [Hc _]. unfold later. destruct o; simpl; lia. Qed.

Lemma wp_later {R} (p : script R) s : wp clock_runs p (fun _ s' => later s s') s.
Proof.
  enough (forall s0, later s0 s -> wp clock_runs p (fun _ s' => later s0 s') s) as Hgen
    by (apply Hgen; unfold later; lia).
  intros s0. revert s. induction p as [r|e|o k IH]; intros s Hs; [done..|]. intros c Hc.
  pose proof (perform_later c o s Hc). destruct (perform c o s) as [x s']. apply IH.
  unfold later in *. simpl in *. lia.
Qed.

(** ** Specifications of traces *)

(** Whatever the environment answers, the program ends with a result and a
    trace, its own part of it, that satisfy [P]. *)
Definition spec {R} (p : script R) (P : res js_err R -> list event -> Prop) : Prop :=
  forall s, wp any_choice p (fun r s' => exists tr, s_trace s' = s_trace s ++ tr /\ P r tr) s.

Lemma spec_mono {R} (p : script R) (P Q : res js_err R -> list event -> Prop) :
  (forall r tr, P r tr -> Q r tr) -> spec p P -> spec p Q.
Proof.
  intros HPQ Hp s. eapply wp_mono; [|apply Hp]. intros r s' (tr & Htr & HP).
  exists tr. split; [done|by apply HPQ].
Qed.

Lemma spec_ret {R} (a : R) (P : res js_err R -> list event -> Prop) : P (Ok a) [] -> spec (Ret a) P.
Proof. intros HP s. exists []. by rewrite app_nil_r. Qed.

Lemma spec_throw {R} e (P : res js_err R -> list event -> Prop) : P (Err e) [] -> spec (Throw e) P.
Proof. intros HP s. exists []. by rewrite app_nil_r. Qed.

Lemma spec_bind {R S} (p : script R) (f : R -> script S) P Q :
  spec p P ->
  (forall a tr, P (Ok a) tr -> spec (f a) (fun r tr' => Q r (tr ++ tr'))) ->
  (forall e tr, P (Err e) tr -> Q (Err e) tr) ->
  spec (bind p f) Q.
Proof.
  intros Hp Hf He s. apply wp_bind. eapply wp_mono; [|apply Hp].
  intros [a|e] s' (tr & Htr & HP).
  - eapply wp_mono; [|by apply (Hf a tr)]. intros r s'' (tr' & Htr' & HQ).
    exists (tr ++ tr'). by rewrite Htr', Htr, <- app_assoc.
  - exists tr. split; [done|by apply He].
Qed.

Lemma spec_try_catch {R} (p : script R) h P Q :
  spec p P ->
  (forall a tr, P (Ok a) tr -> Q (Ok a) tr) ->
  (forall e tr, P (Err e) tr -> spec (h e) (fun r tr' => Q r (tr ++ tr'))) ->
  spec (try_catch p h) Q.
Proof.
  intros Hp Ha Hh s. apply wp_try_catch. eapply wp_mono; [|apply Hp].
  intros [a|e] s' (tr & Htr & HP).
  - exists tr. split; [done|by apply Ha].
  - eapply wp_mono; [|by apply (Hh e tr)]. intros r s'' (tr' & Htr' & HQ).
    exists (tr ++ tr'). by rewrite Htr', Htr, <- app_assoc.
Qed.

(** An effect with what follows it. *)
Lemma spec_step {R} o (f : script_answer o -> script R) (Q : res js_err R -> list event -> Prop) :
  (forall c s, match perform c o s with
               | (Ok a, s') => exists e, s_trace s' = s_trace s ++ [e]
                   /\ spec (f a) (fun r tr => Q r (e :: tr))
               | (Err x, s') => exists e, s_trace s' = s_trace s ++ [e] /\ Q (Err x) [e]
               end) ->
  spec (bind (step o) f) Q.
Proof.
  intros Hf s. apply wp_call. intros c _. specialize (Hf c s).
  destruct (perform c o s) as [[a|x] s']; destruct Hf as (e & He & Hq).
  - eapply wp_mono; [|apply Hq]. intros r s'' (tr & Htr & HQ). exists (e :: tr).
    by rewrite Htr, He, <- app_assoc.
  - by exists [e].
Qed.

Lemma spec_run {R} (p : script R) P cs s :
  spec p P -> let '(r, s', _) := run p cs s in exists tr, s_trace s' = s_trace s ++ tr /\ P r tr.
Proof. intros Hp. apply (wp_run any_choice p _ s cs); [done|apply Hp]. Qed.

(** The effects, each with the events it may leave. *)
Lemma spec_fetch {R} req body (f : fetched -> script R) (Q : res js_err R -> list event -> Prop) :
  (forall a, spec (f a) (fun r tr => Q r (Fetched req body (Ok a) :: tr))) ->
  (forall e, Q (Err e) [Fetched req body (Err e)]) ->
  spec (bind (step (Fetch req body)) f) Q.
Proof.
  intros Ha He. apply spec_step. intros c s. simpl. destruct (c_fetch c) as [a|e].
  - eexists. split; [done|apply Ha].
  - eexists. split; [done|apply He].
Qed.

Lemma spec_exec {R} cmd (f : string -> script R) (Q : res js_err R -> list event -> Prop) :
  (forall a, spec (f a) (fun r tr => Q r (Ran cmd true :: tr))) ->
  (forall e, Q (Err e) [Ran cmd false]) ->
  spec (bind (step (ExecSync cmd)) f) Q.
Proof.
  intros Ha He. apply spec_step. intros c s. simpl. destruct (c_exec c) as [a|e]; simpl.
  - eexists. split; [done|apply Ha].
  - eexists. split; [done|apply He].
Qed.

Lemma spec_now {R} (f : Z -> script R) (Q : res js_err R -> list event -> Prop) :
  (forall t, spec (f t) (fun r tr => Q r (Saw t :: tr))) -> spec (bind (step Now) f) Q.
Proof. intros Ha. apply spec_step. intros c s. eexists. split; [done|apply Ha]. Qed.

Lemma spec_perf {R} (f : Q -> script R) (Q : res js_err R -> list event -> Prop) :
  (forall t, spec (f t) (fun r tr => Q r (Timed t :: tr))) -> spec (bind (step PerfNow) f) Q.
Proof. intros Ha. apply spec_step. intros c s. eexists. split; [done|apply Ha]. Qed.

Lemma spec_connect {R} url (f : option string -> script R) (Q : res js_err R -> list event -> Prop) :
  (forall x, spec (f x) (fun r tr => Q r (Connected url x :: tr))) ->
  spec (bind (step (WsConnect url)) f) Q.
Proof. intros Ha. apply spec_step. intros c s. eexists. split; [done|apply Ha]. Qed.

Lemma spec_frames {R} (f : list string -> script R) (Q : res js_err R -> list event -> Prop) :
  (forall l, spec (f l) (fun r tr => Q r (Received l :: tr))) -> spec (bind (step ReadFrames) f) Q.
Proof. intros Ha. apply spec_step. intros c s. eexists. split; [done|apply Ha]. Qed.

Lemma spec_sleep {R} ms (f : unit -> script R) (Q : res js_err R -> list event -> Prop) :
  spec (f tt) (fun r tr => Q r (Slept ms :: tr)) -> spec (bind (step (SleepMs ms)) f) Q.
Proof. intros Ha. apply spec_step. intros c s. eexists. split; [done|apply Ha]. Qed.

Lemma spec_exists {R} path (f : bool -> script R) (Q : res js_err R -> list event -> Prop) :
  (forall b, spec (f b) (fun r tr => Q r (Looked path b :: tr))) ->
  spec (bind (step (ExistsSync path)) f) Q.
Proof. intros Ha. apply spec_step. intros c s. eexists. split; [done|apply Ha]. Qed.

(** ** Answers as objects *)

(** Reading a property of what [res.json()] gave. *)
Definition property {R} (key : string) (v : json) (f : option json -> script R) : script R :=
  match v with
  | JNull => Throw (JsErr CError "TypeError" "Cannot read properties of null" None [])
  | _ => f (get_prop key v)
  end.

Definition is_text (s : string) (v : option json) : bool :=
  match v with Some (JStr x) => String.eqb x s | _ => false end.

Lemma is_text_Some x v : is_text x v = true -> v = Some (JStr x).
Proof. destruct v as [[| | |y| |]|]; try done. simpl. by intros ->%String.eqb_eq. Qed.

Lemma spec_property {R} key v (f : option json -> script R) (Q : res js_err R -> list event -> Prop) :
  (forall e, Q (Err e) []) -> spec (f (get_prop key v)) Q -> spec (property key v f) Q.
Proof. intros He Hf. destruct v; try exact Hf. by apply spec_throw. Qed.

(** ** Settings, from [process.env] *)

Definition environment := string -> option string.

(** [process.env.X || d] *)
Definition env_or (E : environment) (name d : string) : string :=
  match E name with Some s => if String.eqb s "" then d else s | None => d end.

(** [s.replace(/\/$/, "")] *)
Fixpoint without_slash (s : string) : string :=
  match s with
  | EmptyString => ""
  | String a EmptyString => if (Ascii.nat_of_ascii a =? 47)%nat then "" else s
  | String a s' => String a (without_slash s')
  end.

(** [now < deadline], where a deadline that is not a number is never ahead. *)
Definition before (now : Z) (deadline : option Z) : bool :=
  match deadline with Some d => now <? d | None => false end.

(** The loops have fuel; [None] is the result of a loop that is still running
    when it is used up. *)
Notation "'let?' x ':=' p 'in' q" :=
  (bind p (fun o => match o with Some x => q | None => Ret None end))
  (at level 10, x pattern, p at level 200, q at level 200) : prog_scope.

(** ** Loops that end at a deadline *)

Definition ends {R} (r : res js_err (option R)) : Prop := r <> Ok None.

(** Turns that sleep [pause] milliseconds: the fuel is enough up to [timeout]. *)
Definition enough (pause : Z) (fuel : nat) (timeout : Z) : Prop :=
  (0 < fuel)%nat /\ timeout <= pause * (Z.of_nat fuel - 1).

Definition in_time (pause : Z) (fuel : nat) (deadline : option Z) (s : scene) : Prop :=
  (0 < fuel)%nat /\ forall d, deadline = Some d -> d - s_clock s <= pause * (Z.of_nat fuel - 1).

Lemma in_time_next pause fuel deadline now s1 s2 :
  0 < pause -> in_time pause (S fuel) deadline s1 -> s_clock s1 <= now -> before now deadline = true ->
  s_clock s1 + pause <= s_clock s2 -> in_time pause fuel deadline s2.
Proof.
  intros Hp [_ Hd] Hlt Hb Hle. destruct deadline as [d|]; [|done]. apply Z.ltb_lt in Hb.
  specialize (Hd d eq_refl). split; [nia|]. intros d' [= <-]. nia.
Qed.

Lemma ends_bind {A R} (p : script (option A)) (f : A -> script (option R)) s :
  wp clock_runs p (fun r _ => ends r) s ->
  (forall a s', wp clock_runs (f a) (fun r _ => ends r) s') ->
  wp clock_runs (let? x := p in f x) (fun r _ => ends r) s.
Proof.
  intros Hp Hf. apply wp_bind. eapply wp_mono; [|exact Hp]. intros [[a|]|e] s' Hr; [apply Hf| |done].
  by destruct Hr.
Qed.

Lemma ends_after {A R} (p : script A) (f : A -> script (option R)) s :
  (forall a s', later s s' -> wp clock_runs (f a) (fun r _ => ends r) s') ->
  wp clock_runs (bind p f) (fun r _ => ends r) s.
Proof.
  intros Hf. apply wp_bind. eapply wp_mono; [|apply wp_later]. intros [a|e] s' Hs; [by apply Hf|done].
Qed.

Lemma ends_now {R} (f : Z -> script (option R)) s :
  (forall t s', later s s' -> s_clock s' = t -> wp clock_runs (f t) (fun r _ => ends r) s') ->
  wp clock_runs (bind (step Now) f) (fun r _ => ends r) s.
Proof. intros Hf. apply wp_call. intros c [Hc _]. apply Hf; [unfold later; simpl; lia|done]. Qed.

Lemma ends_again {R} pause fuel deadline now s1 s2 (p : script (option R)) :
  0 < pause -> in_time pause (S fuel) deadline s1 -> s_clock s1 <= now -> before now deadline = true -> later s1 s2 ->
  (forall s, in_time pause fuel deadline s -> wp clock_runs p (fun r _ => ends r) s) ->
  wp clock_runs (step (SleepMs pause) ;;; p) (fun r _ => ends r) s2.
Proof.
  intros Hpos Hin Hnow Hb Hle Hp. apply wp_call. intros c [_ Hc]. apply Hp.
  apply (in_time_next pause fuel deadline now s1); [done..|]. unfold later in Hle. simpl. lia.
Qed.

(** An exit code, or a throw. *)
Definition exits (r : res js_err (option Z)) : Prop :=
  match r with Ok (Some code) => code = 0 \/ code = 1 | Ok None => False | Err _ => True end.

Lemma exits_bind {A} (p : script (option A)) f s :
  wp clock_runs p (fun r _ => ends r) s ->
  (forall a s', wp clock_runs (f a) (fun r _ => exits r) s') ->
  wp clock_runs (let? x := p in f x) (fun r _ => exits r) s.
Proof.
  intros Hp Hf. apply wp_bind. eapply wp_mono; [|exact Hp]. intros [[a|]|e] s' Hr; [apply Hf| |done].
  by destruct Hr.
Qed.

Lemma exits_after {A} (p : script A) f s :
  (forall a s', wp clock_runs (f a) (fun r _ => exits r) s') ->
  wp clock_runs (bind p f) (fun r _ => exits r) s.
Proof.
  intros Hf. apply wp_bind. eapply wp_mono; [|apply wp_later]. intros [a|e] s' _; [by apply Hf|done].
Qed.

Lemma exits_now (f : Z -> script (option Z)) s :
  (forall t s', s_clock s' = t -> wp clock_runs (f t) (fun r _ => exits r) s') ->
  wp clock_runs (bind (step Now) f) (fun r _ => exits r) s.
Proof. intros Hf. apply wp_call. intros c _. by apply Hf. Qed.

Lemma exit_1 s : wp clock_runs (Ret (Some 1)) (fun r _ => exits r) s.
Proof. by right. Qed.
