(* ===== verification/Chaos.v ===== *)
(** * The chaos smoke test

    apps/api/scripts/verify-chaos.js stops PostgreSQL and then RabbitMQ under the
    running stack, and reports whether readiness noticed, whether it recovered,
    and whether the worker then completes a job.  What its exit code means, that
    it starts what it stops, and that it ends. *)
From stdpp Require Import pretty.
From S2P Require Import Prelude Json Programs Http Client Scripts.
#[local] Open Scope stdpp_scope.

Record chaos_settings := mkChaosSettings {
  DASHBOARD_URL : string;
  KEY : option string;                       (* API_KEY *)
  COMPOSE_FILE : string;
  ENV_FILE : string;
  RECOVERY_TIMEOUT_MS : option Z }.          (* [None]: not a number *)

(** [Number(s)], of a text that stands for a whole number or for none. *)
Definition read_chaos_settings (Number : string -> option Z) (E : environment) : chaos_settings :=
  mkChaosSettings (without_slash (env_or E "DASHBOARD_URL" "http://localhost:8080"))
    (E "API_KEY")
    (env_or E "COMPOSE_FILE" "infra/docker-compose.prod.yml")
    (env_or E "ENV_FILE" "infra/.env.production")
    (if truthy (E "RECOVERY_TIMEOUT_MS") then Number (default "" (E "RECOVERY_TIMEOUT_MS"))
     else Some 60000).

Definition buildComposeCommand (composeFile envFile args : string) : string :=
  "docker compose -f " +:+ composeFile +:+ " --env-file " +:+ envFile +:+ " " +:+ args.

(** What [getReady] and [getLive] return: after a failed request, [status] is
    null and there is an [error]. *)
Record reading := mkReading {
  rd_status : option Z; rd_body : option json; rd_error : option string }.

(** What [createJobAndWaitForCompletion] returns. *)
Record attempt := mkAttempt { a_ok : bool; a_reason : option string }.

Record result := mkResult { re_name : string; re_ok : bool; re_reason : option string }.

Definition record (results : list result) (name : string) (ok : bool) (reason : option string)
  : list result := results ++ [mkResult name ok reason].

(** [JSON.stringify(v)] in a template *)
Definition shown (v : option json) : string :=
  match v with Some v => stringify v | None => "undefined" end.

Definition shown_status (s : option Z) : string :=
  match s with Some n => pretty n | None => "null" end.

Definition reading_json (r : option reading) : option json :=
  match r with
  | None => None
  | Some r => Some (JObj (("status", match rd_status r with Some n => json_number n | None => JNull end)
                          :: match rd_body r with Some b => [("body", b)] | None => [] end
                          ++ match rd_error r with Some e => [("error", JStr e)] | None => [] end))
  end.

Definition the_message (err : js_err) : string :=
  match err with JsErr _ _ message _ _ => message | JsThrown _ => "" end.

Section chaos.
(** [String(err.stderr).trim()] of a command that failed, empty without one. *)
Variable stderr_of : js_err -> string.
Variable env : chaos_settings.

Definition newline : string := String (Ascii.ascii_of_nat 10) "".

Definition compose (args : string) : script string :=
  let cmd := buildComposeCommand (COMPOSE_FILE env) (ENV_FILE env) args in
  try_catch (step (ExecSync cmd))
    (fun err =>
       let stderr := stderr_of err in
       Throw (mk_error ("command failed: " +:+ cmd
                        +:+ (if String.eqb stderr "" then "" else newline +:+ stderr)))).

Definition ready_request : http_request := get (DASHBOARD_URL env +:+ "/api/health/ready").
Definition live_request : http_request := get (DASHBOARD_URL env +:+ "/api/health").

Definition getReady : script reading :=
  try_catch
    (let! res := step (Fetch ready_request None) in
     let body := match f_json res with Ok v => v | Err _ => JObj [] end in
     Ret (mkReading (Some (f_status res)) (Some body) None))
    (fun err => Ret (mkReading None None (Some (js_err_String err)))).

Definition getLive : script reading :=
  try_catch
    (let! res := step (Fetch live_request None) in
     Ret (mkReading (Some (f_status res)) None None))
    (fun err => Ret (mkReading None None (Some (js_err_String err)))).

(** ** createJobAndWaitForCompletion *)

Definition chaos_create_request : http_request :=
  mkHttp (DASHBOARD_URL env +:+ "/api/jobs") "POST"
    [("Content-Type", "application/json"); ("x-api-key", default "undefined" (KEY env))].

Definition chaos_create_body (label : string) (at_ : Z) : json :=
  JObj [("type", JStr "chaos-verification");
        ("payload", JObj [("label", JStr label); ("at", json_number at_)])].

Definition job_request (jobId : option json) : http_request :=
  get (DASHBOARD_URL env +:+ "/api/jobs/" +:+ template jobId).

Fixpoint wait_for_job (fuel : nat) (jobId : option json) (timeoutMs : Z) (deadline : option Z)
  : script (option attempt) :=
  match fuel with
  | O => Ret None
  | S fuel =>
      let! now := step Now in
      if before now deadline then
        let! res := step (Fetch (job_request jobId) None) in
        let again := step (SleepMs 1000) ;;; wait_for_job fuel jobId timeoutMs deadline in
        if f_ok res then
          let! job := of_res (f_json res) in
          property "status" job (fun status =>
            if is_text "COMPLETED" status then Ret (Some (mkAttempt true None))
            else if is_text "DEAD_LETTERED" status then
              Ret (Some (mkAttempt false (Some ("job " +:+ template jobId
                +:+ " was DEAD_LETTERED instead of completing"))))
            else again)
        else again
      else Ret (Some (mkAttempt false (Some ("job " +:+ template jobId
             +:+ " did not reach COMPLETED within " +:+ pretty timeoutMs +:+ "ms"))))
  end.

Definition createJobAndWaitForCompletion (fuel : nat) (label : string) (timeoutMs : Z)
  : script (option attempt) :=
  let! at_ := step Now in
  let! createRes := step (Fetch chaos_create_request (Some (chaos_create_body label at_))) in
  if negb (f_ok createRes) then
    Ret (Some (mkAttempt false (Some ("job creation returned HTTP " +:+ pretty (f_status createRes)))))
  else
    let! created := of_res (f_json createRes) in
    property "jobId" created (fun jobId =>
      let! start := step Now in
      wait_for_job fuel jobId timeoutMs (Some (start + timeoutMs))).

(** ** runOutageSequence *)

(** [try { compose(args); record(name, true) } catch (err) { record(name, false, err.message) }] *)
Definition attempt_command (args name : string) (results : list result)
  : script (bool * list result) :=
  try_catch
    (compose args ;;; Ret (true, record results name true None))
    (fun err => Ret (false, record results name false (Some (the_message err)))).

(** The turns of the loop up to its [break]: whether it recovered, and the last
    reading. *)
Fixpoint wait_for_recovery (fuel : nat) (field : string) (deadline : option Z)
    (last : option reading) : script (option (bool * option reading)) :=
  match fuel with
  | O => Ret None
  | S fuel =>
      let! now := step Now in
      if before now deadline then
        let! r := getReady in
        if bool_decide (rd_status r = Some 200) && is_text "ok" (rd_body r ≫= get_prop field)
        then Ret (Some (true, Some r))
        else step (SleepMs 1000) ;;; wait_for_recovery fuel field deadline (Some r)
      else Ret (Some (false, last))
  end.

Definition aborted_reason (serviceName : string) : string :=
  "stop " +:+ serviceName +:+ " failed -- cannot safely continue this dependency's chaos sequence "
  +:+ "(see docs/deployment.md's Startup procedure for the required --env-file)".

Definition unobserved_reason (serviceName : string) : string :=
  "not verifiable -- the outage itself was never observed (readiness never reported "
  +:+ serviceName +:+ ":error), so recovery cannot be meaningfully asserted".

Definition runOutageSequence (fuel : nat) (serviceName statusField : string)
    (results : list result) : script (option (list result)) :=
  let! (stopOk, results) := attempt_command ("stop " +:+ serviceName) ("Stop " +:+ serviceName) results in
  if negb stopOk then
    let results := record results (serviceName +:+ " outage sequence aborted") false
                     (Some (aborted_reason serviceName)) in
    try_catch (compose ("start " +:+ serviceName) ;;; Ret (Some results)) (fun _ => Ret (Some results))
  else
    step (SleepMs 2000) ;;;
    let! liveDuringOutage := getLive in
    let alive := bool_decide (rd_status liveDuringOutage = Some 200) in
    let results := record results
      ("API stays alive (liveness) while " +:+ serviceName +:+ " is down") alive
      (if alive then None
       else Some ("liveness returned " +:+ shown_status (rd_status liveDuringOutage))) in
    let! readyDuringOutage := getReady in
    let outageObserved := bool_decide (rd_status readyDuringOutage = Some 503)
      && is_text "error" (rd_body readyDuringOutage ≫= get_prop statusField) in
    let results := record results
      ("Readiness correctly reports " +:+ serviceName +:+ " as failing") outageObserved
      (if outageObserved then None
       else Some ("expected 503/" +:+ statusField +:+ ":error, got "
                  +:+ shown_status (rd_status readyDuringOutage) +:+ " "
                  +:+ shown (rd_body readyDuringOutage))) in
    let! (restartOk, results) :=
      attempt_command ("start " +:+ serviceName) ("Restart " +:+ serviceName) results in
    let name := "Readiness recovers (" +:+ serviceName +:+ ")" in
    if negb outageObserved then
      Ret (Some (record results name false (Some (unobserved_reason serviceName))))
    else if negb restartOk then
      Ret (Some (record results name false (Some "restart command failed, cannot verify recovery")))
    else
      let! start := step Now in
      let deadline := (Z.add start) <$> RECOVERY_TIMEOUT_MS env in
      let? (recovered, last) := wait_for_recovery fuel statusField deadline None in
      let results := record results name recovered
        (if recovered then None
         else Some ("did not recover within "
                    +:+ (match RECOVERY_TIMEOUT_MS env with Some n => pretty n | None => "NaN" end)
                    +:+ "ms; last=" +:+ shown (reading_json last))) in
      if negb recovered then Ret (Some results)
      else
        let? workerResult :=
          createJobAndWaitForCompletion fuel ("after-" +:+ serviceName +:+ "-outage") 30000 in
        Ret (Some (record results
          ("Worker recovers: a real job submitted after " +:+ serviceName +:+ " recovery completes")
          (a_ok workerResult) (a_reason workerResult))).

(** ** main: the code of [process.exit] *)

Definition chaos_main (fuel : nat) : script (option Z) :=
  let! present := step (ExistsSync (ENV_FILE env)) in
  if negb present then Ret (Some 1)
  else
    let! resolved := try_catch (compose "config --quiet" ;;; Ret true) (fun _ => Ret false) in
    if negb resolved then Ret (Some 1)
    else
      let! baseline := getReady in
      if negb (bool_decide (rd_status baseline = Some 200)) then Ret (Some 1)
      else
        let? results := runOutageSequence fuel "postgres" "postgres" [] in
        let? results := runOutageSequence fuel "rabbitmq" "rabbitmq" results in
        Ret (Some (if forallb re_ok results then 0 else 1)).

(** The process: the key check at the top, [main] and its [catch]. *)
Definition verify_chaos (fuel : nat) : script (option Z) :=
  if negb (truthy (KEY env)) then Ret (Some 1)
  else
    try_catch (chaos_main fuel)
      (fun _ =>
         try_catch (compose "start postgres" ;;; compose "start rabbitmq" ;;; Ret (Some 1))
           (fun _ => Ret (Some 1))).

(** ** What the parts leave in the trace *)

Definition command (args : string) : string :=
  buildComposeCommand (COMPOSE_FILE env) (ENV_FILE env) args.

(** The commands of a trace, each with whether it succeeded. *)
Definition commands (tr : list event) : list (string * bool) :=
  omap (fun e => match e with Ran cmd ok => Some (cmd, ok) | _ => None end) tr.

Lemma commands_app tr tr' : commands (tr ++ tr') = commands tr ++ commands tr'.
Proof. apply omap_app. Qed.

Lemma compose_spec args :
  spec (compose args) (fun r tr => tr = [Ran (command args) (is_ok r)]).
Proof.
  unfold compose. eapply spec_try_catch with (P := fun r tr => tr = [Ran (command args) (is_ok r)]).
  - intros s c _. simpl. by destruct (c_exec c); eexists.
  - done.
  - intros e tr ->. by apply spec_throw.
Qed.

Definition ready_reading (a : res js_err fetched) : reading :=
  match a with
  | Ok res => mkReading (Some (f_status res))
                (Some (match f_json res with Ok v => v | Err _ => JObj [] end)) None
  | Err err => mkReading None None (Some (js_err_String err))
  end.

Lemma getReady_spec :
  spec getReady (fun r tr => exists a, r = Ok (ready_reading a) /\ tr = [Fetched ready_request None a]).
Proof.
  unfold getReady. eapply spec_try_catch with (P := fun r tr => exists a,
    tr = [Fetched ready_request None a] /\
    match a with Ok _ => r = Ok (ready_reading a) | Err e => r = Err e end).
  - apply spec_fetch; [intros a; apply spec_ret; by exists (Ok a)|]. intros e. by exists (Err e).
  - intros a tr ([x|e] & -> & Ha); [|done]. by exists (Ok x).
  - intros e tr ([x|e'] & -> & Ha); [done|]. injection Ha as <-. apply spec_ret. by exists (Err e).
Qed.

Lemma getLive_spec :
  spec getLive (fun r tr => is_ok r = true /\ exists a, tr = [Fetched live_request None a]).
Proof.
  unfold getLive. eapply spec_try_catch with (P := fun r tr => exists a,
    tr = [Fetched live_request None a]).
  - apply spec_fetch; [intros a; apply spec_ret; by eexists|]. by eexists.
  - by intros a tr Ha.
  - intros e tr (a & ->). apply spec_ret. by split; [|exists a].
Qed.

Lemma attempt_command_spec args name results :
  spec (attempt_command args name results) (fun r tr => exists ok reason,
    r = Ok (ok, record results name ok reason) /\ tr = [Ran (command args) ok]).
Proof.
  unfold attempt_command. eapply spec_try_catch with (P := fun r tr =>
    tr = [Ran (command args) (is_ok r)] /\ forall x, r = Ok x -> x = (true, record results name true None)).
  - eapply spec_bind; [apply compose_spec| |].
    + intros a tr ->. apply spec_ret. split; [done|]. by intros x [= <-].
    + by intros e tr ->.
  - intros a tr [-> Ha]. rewrite (Ha a eq_refl). by eexists _, _.
  - intros e tr [-> _]. apply spec_ret. by eexists _, _.
Qed.

(** A reading with this status and field. *)
Definition reads (n : Z) (field text : string) (a : res js_err fetched) : Prop :=
  exists fr b, a = Ok fr /\ f_status fr = n /\ f_json fr = Ok b
    /\ get_prop field b = Some (JStr text).

Lemma ready_reads n field text a :
  bool_decide (rd_status (ready_reading a) = Some n)
  && is_text text (rd_body (ready_reading a) ≫= get_prop field) = true ->
  reads n field text a.
Proof.
  intros [Hs Hb]%andb_true_iff. apply bool_decide_eq_true in Hs.
  destruct a as [fr|e]; [|done]. simpl in *. injection Hs as Hs.
  destruct (f_json fr) as [b|e] eqn:Hj; [|done]. simpl in Hb.
  destruct (get_prop field b) as [[| | |x| |]|] eqn:Hp; try done.
  apply String.eqb_eq in Hb as ->. by exists fr, b.
Qed.

Lemma wait_for_recovery_spec fuel field deadline last :
  spec (wait_for_recovery fuel field deadline last) (fun r tr =>
    is_ok r = true /\ commands tr = []
    /\ forall l, r = Ok (Some (true, l)) ->
         exists a, Fetched ready_request None a ∈ tr /\ reads 200 field "ok" a).
Proof.
  revert last. induction fuel as [|fuel IH]; intros last; [by apply spec_ret|].
  apply spec_now. intros t. destruct (before t deadline); [|by apply spec_ret].
  eapply spec_bind; [apply getReady_spec| |by intros e tr (a & [=] & _)].
  intros rd tr (a & [= ->] & ->). destruct (_ && _) eqn:Hok.
  - apply spec_ret. split; [done|]. split; [done|]. intros l _. exists a.
    split; [simpl; rewrite !elem_of_cons; by auto|by apply ready_reads].
  - apply spec_sleep. eapply spec_mono; [|apply IH]. intros r tr (Hr & Hc & He).
    split; [done|]. split; [done|]. intros l Hl. destruct (He l Hl) as (a' & Hin & Ha').
    exists a'. split; [simpl; rewrite !elem_of_cons; by auto|done].
Qed.

(** The answer about the job says COMPLETED. *)
Definition completed_answer (jobId : option json) (tr : list event) : Prop :=
  exists fr job, Fetched (job_request jobId) None (Ok fr) ∈ tr /\ f_ok fr = true
    /\ f_json fr = Ok job /\ get_prop "status" job = Some (JStr "COMPLETED").

Definition passed (r : res js_err (option attempt)) : Prop :=
  exists a, r = Ok (Some a) /\ a_ok a = true.

Lemma completed_answer_cons e jobId tr : completed_answer jobId tr -> completed_answer jobId (e :: tr).
Proof. intros (fr & job & Hin & ?). exists fr, job. split; [by right|done]. Qed.

Lemma wait_for_job_spec fuel jobId timeoutMs deadline :
  spec (wait_for_job fuel jobId timeoutMs deadline) (fun r tr =>
    commands tr = [] /\ (passed r -> completed_answer jobId tr)).
Proof.
  induction fuel as [|fuel IH]; [apply spec_ret; split; [done|]; by intros (a & [=] & _)|].
  apply spec_now. intros t. destruct (before t deadline).
  2: { apply spec_ret. split; [done|]. by intros (a & [= <-] & ?). }
  apply spec_fetch.
  2: { intros e. split; [done|]. by intros (a & [=] & _). }
  intros res.
  assert (spec (step (SleepMs 1000) ;;; wait_for_job fuel jobId timeoutMs deadline)
    (fun r tr => commands (Saw t :: Fetched (job_request jobId) None (Ok res) :: tr) = []
      /\ (passed r -> completed_answer jobId
            (Saw t :: Fetched (job_request jobId) None (Ok res) :: tr)))) as Hagain.
  { apply spec_sleep. eapply spec_mono; [|exact IH]. intros r tr [Hc Hp]. split; [done|].
    intros Hr. do 3 apply completed_answer_cons. by apply Hp. }
  destruct (f_ok res) eqn:Hok; [|exact Hagain].
  destruct (f_json res) as [job|e] eqn:Hjson; cbn [of_res bind].
  2: { apply spec_throw. split; [done|]. by intros (a & [=] & _). }
  apply spec_property; [intros e; split; [done|]; by intros (a & [=] & _)|].
  destruct (is_text "COMPLETED" _) eqn:Hs.
  - apply spec_ret. split; [done|]. intros _. apply is_text_Some in Hs. exists res, job.
    split; [|done]. right. left.
  - destruct (is_text "DEAD_LETTERED" _); [|exact Hagain].
    apply spec_ret. split; [done|]. by intros (a & [= <-] & ?).
Qed.

(** The job was accepted, and one answer about it says COMPLETED. *)
Definition job_completes (label : string) (tr : list event) : Prop :=
  exists at_ fr created jobId tr1 tr2,
    tr = tr1 ++ Fetched chaos_create_request (Some (chaos_create_body label at_)) (Ok fr) :: tr2
    /\ f_ok fr = true /\ f_json fr = Ok created /\ get_prop "jobId" created = jobId
    /\ completed_answer jobId tr2.

Lemma createJob_spec fuel label timeoutMs :
  spec (createJobAndWaitForCompletion fuel label timeoutMs) (fun r tr =>
    commands tr = [] /\ (passed r -> job_completes label tr)).
Proof.
  apply spec_now. intros at_. apply spec_fetch.
  2: { intros e. split; [done|]. by intros (a & [=] & _). }
  intros fr. destruct (f_ok fr) eqn:Hok; simpl.
  2: { apply spec_ret. split; [done|]. by intros (a & [= <-] & ?). }
  destruct (f_json fr) as [created|e] eqn:Hjson; cbn [of_res bind].
  2: { apply spec_throw. split; [done|]. by intros (a & [=] & _). }
  apply spec_property; [intros e; split; [done|]; by intros (a & [=] & _)|].
  apply spec_now. intros start. eapply spec_mono; [|apply wait_for_job_spec].
  intros r tr [Hc Hp]. split; [done|]. intros Hr.
  exists at_, fr, created, (get_prop "jobId" created), [Saw at_], (Saw start :: tr).
  split; [done|]. split; [done|]. split; [done|]. split; [done|].
  by apply completed_answer_cons, Hp.
Qed.

(** ** One outage *)

Definition stop_command (serviceName : string) : string := command ("stop " +:+ serviceName).
Definition start_command (serviceName : string) : string := command ("start " +:+ serviceName).

(** The outage was seen and is over: in this order, the service was stopped,
    readiness answered 503 with its field [error], it was started, readiness
    answered 200 with its field [ok], and then a new job was completed. *)
Definition outage_passed (serviceName statusField : string) (tr : list event) : Prop :=
  exists tr1 tr2 tr3 tr4 a1 a2,
    tr = Ran (stop_command serviceName) true :: tr1 ++ Fetched ready_request None a1
         :: tr2 ++ Ran (start_command serviceName) true :: tr3 ++ Fetched ready_request None a2 :: tr4
    /\ reads 503 statusField "error" a1 /\ reads 200 statusField "ok" a2
    /\ job_completes ("after-" +:+ serviceName +:+ "-outage") tr4.

Definition all_ok (r : res js_err (option (list result))) : Prop :=
  exists results, r = Ok (Some results) /\ forallb re_ok results = true.

Lemma forallb_record results name ok reason :
  forallb re_ok (record results name ok reason) = forallb re_ok results && ok.
Proof. unfold record. rewrite forallb_app. simpl. by rewrite andb_true_r. Qed.

(** After both commands and with the outage observed. *)
Lemma recovery_spec fuel serviceName statusField (results : list result) :
  let name := "Readiness recovers (" +:+ serviceName +:+ ")" in
  spec
    (let! start := step Now in
     let deadline := (Z.add start) <$> RECOVERY_TIMEOUT_MS env in
     let? (recovered, last) := wait_for_recovery fuel statusField deadline None in
     let results := record results name recovered
       (if recovered then None
        else Some ("did not recover within "
                   +:+ (match RECOVERY_TIMEOUT_MS env with Some n => pretty n | None => "NaN" end)
                   +:+ "ms; last=" +:+ shown (reading_json last))) in
     if negb recovered then Ret (Some results)
     else
       let? workerResult :=
         createJobAndWaitForCompletion fuel ("after-" +:+ serviceName +:+ "-outage") 30000 in
       Ret (Some (record results
         ("Worker recovers: a real job submitted after " +:+ serviceName +:+ " recovery completes")
         (a_ok workerResult) (a_reason workerResult))))
    (fun r tr => commands tr = [] /\ (all_ok r -> exists tr3 tr4 a,
       tr = tr3 ++ Fetched ready_request None a :: tr4 /\ reads 200 statusField "ok" a
       /\ job_completes ("after-" +:+ serviceName +:+ "-outage") tr4
       /\ forallb re_ok results = true)).
Proof.
  intros name. apply spec_now. intros start.
  eapply spec_bind; [apply wait_for_recovery_spec| |].
  2: { intros e tr ([=] & _). }
  intros [[recovered last]|] tr (_ & Hc & Hrec).
  2: { apply spec_ret. simpl. rewrite commands_app, Hc. split; [done|]. by intros (x & [=] & _). }
  cbn zeta. destruct recovered; simpl negb; cbn iota.
  2: { apply spec_ret. simpl. rewrite app_nil_r. split; [done|].
       intros (x & [= <-] & Hx). rewrite forallb_record, andb_false_r in Hx. done. }
  destruct (Hrec last eq_refl) as (a & (tr3 & tr4 & ->)%list_elem_of_split & Ha).
  rewrite commands_app in Hc. simpl in Hc.
  eapply spec_bind; [apply createJob_spec| |].
  2: { intros e tr' [Hc' _]. simpl. rewrite !commands_app. simpl. rewrite Hc, Hc'.
       split; [done|]. by intros (x & [=] & _). }
  intros [w|] tr' [Hc' Hjob]; apply spec_ret; simpl;
    rewrite !app_nil_r, !commands_app; simpl; rewrite Hc, Hc'; (split; [done|]).
  2: { by intros (x & [=] & _). }
  intros (x & [= <-] & Hx). rewrite !forallb_record, andb_true_r in Hx.
  apply andb_true_iff in Hx as [Hx Hok].
  destruct Hjob as (at_ & fr & created & jobId & t1 & t2 & -> & Hjob); [by eexists|].
  exists (Saw start :: tr3), (tr4 ++ t1 ++ Fetched chaos_create_request
    (Some (chaos_create_body ("after-" +:+ serviceName +:+ "-outage") at_)) (Ok fr) :: t2), a.
  split; [simpl; by rewrite <- app_assoc|]. split; [done|]. split; [|done].
  exists at_, fr, created, jobId, (tr4 ++ t1), t2. by rewrite <- app_assoc.
Qed.

Lemma record_failed results name reason r :
  all_ok r -> r <> Ok (Some (record results name false reason)).
Proof. intros (x & -> & Hx) [= ->]. by rewrite forallb_record, andb_false_r in Hx. Qed.

(** A failed stop is still followed by a start; its outage has not passed. *)
Lemma abort_spec serviceName results name reason :
  let failed := record results name false reason in
  spec (try_catch (compose ("start " +:+ serviceName) ;;; Ret (Some failed))
          (fun _ => Ret (Some failed)))
    (fun r tr => (exists ok, commands tr = [(start_command serviceName, ok)]) /\ ~ all_ok r).
Proof.
  intros failed. eapply spec_try_catch with (P := fun r tr => exists ok,
    tr = [Ran (start_command serviceName) ok] /\ forall x, r = Ok x -> x = Some failed).
  - eapply spec_bind; [apply compose_spec| |].
    + intros a tr ->. apply spec_ret. eexists. split; [done|]. by intros x [= <-].
    + intros e tr ->. by eexists.
  - intros x tr (ok & -> & Hx). split; [by exists ok|]. rewrite (Hx x eq_refl).
    intros Hok. exact (record_failed results name reason _ Hok eq_refl).
  - intros e tr (ok & -> & _). apply spec_ret. split; [by exists ok|].
    intros Hok. exact (record_failed results name reason _ Hok eq_refl).
Qed.

(** The commands of an outage, and what it comes to. *)
Definition outage_result (serviceName statusField : string) (results : list result)
    (r : res js_err (option (list result))) (tr : list event) : Prop :=
  (exists ok ok', commands tr = [(stop_command serviceName, ok); (start_command serviceName, ok')])
  /\ (all_ok r -> outage_passed serviceName statusField tr /\ forallb re_ok results = true).

Lemma outage_spec fuel serviceName statusField results :
  spec (runOutageSequence fuel serviceName statusField results)
    (outage_result serviceName statusField results).
Proof.
  unfold runOutageSequence. eapply spec_bind; [apply attempt_command_spec| |].
  2: { intros e tr (ok & reason & [=] & _). }
  intros [stopOk results1] tr (ok & reason & [= -> ->] & ->). destruct ok; simpl negb; cbn iota.
  2: { eapply spec_mono; [|apply abort_spec]. intros r tr [(ok & Hc) Hn].
       split; [|by intros Hok]. exists false, ok. simpl. by rewrite Hc. }
  apply spec_sleep. eapply spec_bind; [apply getLive_spec| |by intros e tr' ([=] & _)].
  intros live tr (_ & al & ->). set (results2 := record (record results _ _ _) _ _ _).
  eapply spec_bind; [apply getReady_spec| |by intros e tr' (x & [=] & _)].
  intros rd tr (a1 & [= ->] & ->). set (observed := bool_decide _ && _).
  set (results3 := record results2 _ _ _).
  eapply spec_bind; [apply attempt_command_spec| |by intros e tr' (x & y & [=] & _)].
  intros [restartOk results4] tr (ok & reason' & [= -> ->] & ->).
  assert (forall name reason'', spec (Ret (Some (record (record results3
      ("Restart " +:+ serviceName) ok reason') name false reason'')))
    (fun r tr => outage_result serviceName statusField results r
      ([Ran (stop_command serviceName) true] ++ Slept 2000
       :: [Fetched live_request None al] ++ [Fetched ready_request None a1]
       ++ [Ran (start_command serviceName) ok] ++ tr))) as Hfail.
  { intros name reason''. apply spec_ret. split; [by eexists _, _|].
    intros Hok. destruct (record_failed _ _ _ _ Hok eq_refl). }
  destruct observed eqn:Hobs; [|apply Hfail]. destruct ok; [|apply Hfail].
  simpl negb; cbn iota. eapply spec_mono; [|apply recovery_spec]. intros r tr [Hc Hp].
  split; [exists true, true; simpl; by rewrite Hc|]. intros Hr.
  destruct (Hp Hr) as (tr3 & tr4 & a & -> & Ha & Hjob & Hres). split.
  - exists [Slept 2000; Fetched live_request None al], [], tr3, tr4, a1, a.
    split; [done|]. split; [by apply ready_reads|by split].
  - unfold results3, results2 in Hres. rewrite !forallb_record, !andb_true_iff in Hres. tauto.
Qed.

(** ** The whole run *)

(** Each command that stops a service is followed at once by one that starts
    it, and there is no command but these and [config --quiet]. *)
Inductive restoring : list (string * bool) -> Prop :=
| restoring_nil : restoring []
| restoring_outage serviceName ok ok' l :
    serviceName = "postgres" \/ serviceName = "rabbitmq" -> restoring l ->
    restoring ((stop_command serviceName, ok) :: (start_command serviceName, ok') :: l)
| restoring_start serviceName ok l :
    serviceName = "postgres" \/ serviceName = "rabbitmq" -> restoring l ->
    restoring ((start_command serviceName, ok) :: l)
| restoring_config ok l : restoring l -> restoring ((command "config --quiet", ok) :: l).

Lemma restoring_app l l' : restoring l -> restoring l' -> restoring (l ++ l').
Proof. induction 1; intros; simpl; eauto using restoring. Qed.

(** Both outages, one after the other. *)
Definition both_passed (tr : list event) : Prop :=
  exists tr0 tr1 tr2, tr = tr0 ++ tr1 ++ tr2
    /\ outage_passed "postgres" "postgres" tr1 /\ outage_passed "rabbitmq" "rabbitmq" tr2.

Definition run_ok (r : res js_err (option Z)) (tr : list event) : Prop :=
  restoring (commands tr) /\ (r = Ok (Some 0) -> both_passed tr).

Lemma outages_spec fuel :
  spec (let? results := runOutageSequence fuel "postgres" "postgres" [] in
        let? results := runOutageSequence fuel "rabbitmq" "rabbitmq" results in
        Ret (Some (if forallb re_ok results then 0 else 1))) run_ok.
Proof.
  eapply spec_bind; [apply outage_spec| |].
  2: { intros e tr ((ok & ok' & Hc) & _). split; [|done]. rewrite Hc. repeat constructor. }
  intros [results1|] tr1 ((ok & ok' & Hc) & Hp1).
  2: { apply spec_ret. rewrite app_nil_r. split; [|done]. rewrite Hc. repeat constructor. }
  eapply spec_bind; [apply outage_spec| |].
  2: { intros e tr2 ((ok2 & ok2' & Hc2) & _). split; [|done]. rewrite commands_app, Hc, Hc2.
       by repeat constructor; auto. }
  intros [results2|] tr2 ((ok2 & ok2' & Hc2) & Hp2); apply spec_ret; rewrite app_nil_r;
    (split; [rewrite commands_app, Hc, Hc2; by repeat constructor; auto|]); [|done].
  destruct (forallb re_ok results2) eqn:Hok; [|done]. intros _.
  destruct Hp2 as [Hp2 Hok1]; [by exists results2|].
  destruct Hp1 as [Hp1 _]; [by exists results1|]. by exists [], tr1, tr2.
Qed.

Lemma run_ok_before (r : res js_err (option Z)) tr0 tr :
  restoring (commands tr0) -> run_ok r tr -> run_ok r (tr0 ++ tr).
Proof.
  intros H0 [Hr Hp]. split; [rewrite commands_app; by apply restoring_app|].
  intros Hc. destruct (Hp Hc) as (t0 & t1 & t2 & -> & H1 & H2). exists (tr0 ++ t0), t1, t2.
  by rewrite <- app_assoc.
Qed.

Lemma aborts_ok tr : restoring (commands tr) -> run_ok (Ok (Some 1)) tr.
Proof. by split. Qed.

Lemma chaos_main_spec fuel : spec (chaos_main fuel) run_ok.
Proof.
  apply spec_exists. intros b. destruct b; simpl negb; cbn iota.
  2: { apply spec_ret, aborts_ok. constructor. }
  eapply spec_bind with (P := fun r tr => exists ok, r = Ok ok /\ tr = [Ran (command "config --quiet") ok]).
  - eapply spec_try_catch with (P := fun r tr => tr = [Ran (command "config --quiet") (is_ok r)]
      /\ forall x, r = Ok x -> x = true).
    + eapply spec_bind; [apply compose_spec| |by intros e tr ->].
      intros a tr ->. apply spec_ret. split; [done|]. by intros x [= <-].
    + intros x tr [-> Hx]. rewrite (Hx x eq_refl). by exists true.
    + intros e tr [-> _]. apply spec_ret. by exists false.
  - intros ok tr (ok' & [= <-] & ->). destruct ok; simpl negb; cbn iota.
    2: { apply spec_ret, aborts_ok. repeat constructor. }
    eapply spec_bind; [apply getReady_spec| |by intros e tr (x & [=] & _)].
    intros rd tr (a & [= ->] & ->). destruct (negb _).
    { apply spec_ret, aborts_ok. repeat constructor. }
    eapply spec_mono; [|apply outages_spec]. intros r tr Hr. rewrite !app_comm_cons, app_assoc.
    apply (run_ok_before r (Looked (ENV_FILE env) true :: [Ran (command "config --quiet") true]
                              ++ [Fetched ready_request None a])); [repeat constructor|done].
  - by intros e tr (ok & [=] & _).
Qed.

Lemma verify_chaos_spec fuel : spec (verify_chaos fuel) run_ok.
Proof.
  unfold verify_chaos. destruct (negb _); [apply spec_ret, aborts_ok; constructor|].
  eapply spec_try_catch; [apply chaos_main_spec|done|]. intros e tr [Hc _].
  eapply spec_mono with (P := fun r tr' => r = Ok (Some 1) /\ restoring (commands tr')).
  { intros r tr' [-> Hr]. apply run_ok_before; [done|by apply aborts_ok]. }
  eapply spec_try_catch with (P := fun r tr' => restoring (commands tr') /\
    forall x, r = Ok x -> x = Some 1).
  - eapply spec_bind; [apply compose_spec| |].
    + intros a tr1 ->. eapply spec_bind; [apply compose_spec| |].
      * intros a' tr2 ->. apply spec_ret. split; [|by intros x [= <-]].
        by repeat constructor; auto.
      * intros e' tr2 ->. split; [|done]. by repeat constructor; auto.
    + intros e' tr1 ->. split; [|done]. by repeat constructor; auto.
  - intros x tr1 [Hr Hx]. by rewrite (Hx x eq_refl).
  - intros e' tr1 [Hr _]. apply spec_ret. by rewrite app_nil_r.
Qed.

(** The chaos test's exit code 0 can be trusted, and it leaves nothing
    stopped.  Whatever Docker, the network and the stack answer: when the
    process exits with 0, then for PostgreSQL and after it for RabbitMQ the
    service was stopped, readiness answered 503 naming it as failing, it was
    started, readiness answered 200 with it ok, and a job submitted after that
    was seen COMPLETED; and in every run, however it ends, each command that
    stops a service is followed at once by one that starts it, and the other
    commands are [config --quiet] and starts, all with the chaos_settings' compose
    file and --env-file. *)
Theorem chaos_pass_is_evidence fuel cs s :
  exists r s' cs' tr, run (verify_chaos fuel) cs s = (r, s', cs')
    /\ s_trace s' = s_trace s ++ tr
    /\ restoring (commands tr)
    /\ (r = Ok (Some 0) -> both_passed tr).
Proof.
  pose proof (spec_run _ _ cs s (verify_chaos_spec fuel)) as Hs.
  destruct (run _ cs s) as [[r s'] cs']. destruct Hs as (tr & Htr & Hr & Hp).
  by exists r, s', cs', tr.
Qed.

(** ** The loops end *)

Lemma wait_for_recovery_ends fuel field deadline last s :
  in_time 1000 fuel deadline s ->
  wp clock_runs (wait_for_recovery fuel field deadline last) (fun r _ => ends r) s.
Proof.
  revert last s. induction fuel as [|fuel IH]; intros last s Hs; [destruct Hs; lia|].
  apply ends_now. intros t s1 H1 Ht. destruct (before t deadline) eqn:Hb; [|done].
  apply ends_after. intros rd s2 H2. destruct (_ && _); [done|].
  unfold later in *. eapply (ends_again 1000 fuel deadline t s); try done; [lia|unfold later; lia|].
  intros s3. apply IH.
Qed.

Lemma wait_for_job_ends fuel jobId timeoutMs deadline s :
  in_time 1000 fuel deadline s ->
  wp clock_runs (wait_for_job fuel jobId timeoutMs deadline) (fun r _ => ends r) s.
Proof.
  revert s. induction fuel as [|fuel IH]; intros s Hs; [destruct Hs; lia|].
  apply ends_now. intros t s1 H1 Ht. destruct (before t deadline) eqn:Hb; [|done].
  apply ends_after. intros res s2 H2.
  assert (forall s3, later s2 s3 -> wp clock_runs
    (step (SleepMs 1000) ;;; wait_for_job fuel jobId timeoutMs deadline) (fun r _ => ends r) s3)
    as Hagain.
  { intros s3 H3. unfold later in *. eapply (ends_again 1000 fuel deadline t s); try done; [lia|unfold later; lia]. }
  destruct (f_ok res); [|apply Hagain; unfold later; lia].
  apply ends_after. intros job s3 H3. unfold property.
  assert (forall v, wp clock_runs
    (if is_text "COMPLETED" v then Ret (Some (mkAttempt true None))
     else if is_text "DEAD_LETTERED" v then
       Ret (Some (mkAttempt false (Some ("job " +:+ template jobId
              +:+ " was DEAD_LETTERED instead of completing"))))
     else step (SleepMs 1000) ;;; wait_for_job fuel jobId timeoutMs deadline)
    (fun r _ => ends r) s3) as Hv.
  { intros v. destruct (is_text _ _); [done|]. destruct (is_text _ _); [done|by apply Hagain]. }
  destruct job; try apply Hv. done.
Qed.

Lemma createJob_ends fuel label timeoutMs s :
  enough 1000 fuel timeoutMs ->
  wp clock_runs (createJobAndWaitForCompletion fuel label timeoutMs) (fun r _ => ends r) s.
Proof.
  intros [Hf Ht]. apply ends_after. intros at_ s1 _. apply ends_after. intros res s2 _.
  destruct (negb _); [done|]. apply ends_after. intros created s3 _. unfold property.
  assert (forall jobId, wp clock_runs
    (let! start := step Now in wait_for_job fuel jobId timeoutMs (Some (start + timeoutMs)))
    (fun r _ => ends r) s3) as Hw.
  { intros jobId. apply ends_now. intros t s4 _ Ht4. apply wait_for_job_ends. split; [done|].
    intros d [= <-]. lia. }
  destruct created; try apply Hw. done.
Qed.

Lemma outage_ends fuel serviceName statusField results s :
  enough 1000 fuel 30000 -> (forall n, RECOVERY_TIMEOUT_MS env = Some n -> enough 1000 fuel n) ->
  wp clock_runs (runOutageSequence fuel serviceName statusField results) (fun r _ => ends r) s.
Proof.
  intros H30 Hrec. apply ends_after. intros [stopOk results1] s1 _. destruct (negb stopOk).
  { apply wp_try_catch. eapply wp_mono with (Q := fun r _ => ends r); [by intros [] ? ?|].
    by apply ends_after. }
  apply ends_after. intros [] s2 _. apply ends_after. intros live s3 _.
  apply ends_after. intros rd s4 _. apply ends_after. intros [restartOk results2] s5 _.
  destruct (negb (_ && _)); [done|]. destruct (negb restartOk); [done|].
  apply ends_now. intros t s6 _ Ht. apply ends_bind.
  - apply wait_for_recovery_ends. split; [apply H30|]. intros d Hd.
    destruct (RECOVERY_TIMEOUT_MS env) as [n|]; [|done]. injection Hd as <-.
    destruct (Hrec n eq_refl). lia.
  - intros [recovered last] s7. destruct (negb recovered); [done|].
    apply ends_bind; [by apply createJob_ends|done].
Qed.

Lemma chaos_main_exits fuel s :
  enough 1000 fuel 30000 -> (forall n, RECOVERY_TIMEOUT_MS env = Some n -> enough 1000 fuel n) ->
  wp clock_runs (chaos_main fuel) (fun r _ => exits r) s.
Proof.
  intros H30 Hrec. apply exits_after. intros present s1. destruct (negb present); [apply exit_1|].
  apply exits_after. intros resolved s2. destruct (negb resolved); [apply exit_1|].
  apply exits_after. intros baseline s3. destruct (negb _); [apply exit_1|].
  apply exits_bind; [by apply outage_ends|]. intros results s4.
  apply exits_bind; [by apply outage_ends|]. intros results' s5.
  destruct (forallb re_ok results'); [by left|by right].
Qed.

(** C25: the chaos test ends.  When time does not go back and a sleep takes as
    long as it says, the process exits with 0 or 1, whatever else happens: its
    loops never need more turns than one a second up to the longer timeout. *)
Theorem chaos_ends fuel cs s :
  enough 1000 fuel 30000 -> (forall n, RECOVERY_TIMEOUT_MS env = Some n -> enough 1000 fuel n) ->
  conforms clock_runs (verify_chaos fuel) cs s ->
  exists code s' cs', run (verify_chaos fuel) cs s = (Ok (Some code), s', cs')
    /\ (code = 0 \/ code = 1).
Proof.
  intros H30 Hrec Hcs.
  assert (wp clock_runs (verify_chaos fuel) (fun r _ => exists code,
    r = Ok (Some code) /\ (code = 0 \/ code = 1)) s) as Hwp.
  { unfold verify_chaos. destruct (negb _); [exists 1; by auto|]. apply wp_try_catch.
    eapply wp_mono; [|by apply chaos_main_exits].
    intros [[code|]|e] s1 Hr; [by exists code|done|].
    apply wp_try_catch, wp_bind. eapply wp_mono; [|apply wp_later]. intros [a|e1] s2 _.
    - apply wp_bind. eapply wp_mono; [|apply wp_later]. intros [a'|e2] s3 _; exists 1; by auto.
    - exists 1. by auto. }
  apply (wp_conforms _ _ _ _ _ Hcs) in Hwp. destruct (run _ cs s) as [[r s'] cs'].
  destruct Hwp as (code & -> & Hc). by exists code, s', cs'.
Qed.
End chaos.

(** ** The properties, on a concrete stack *)

Definition sample_settings : chaos_settings :=
  mkChaosSettings "http://localhost:8080" (Some "secret") "infra/docker-compose.prod.yml"
    "infra/.env.production" (Some 60000).

Definition answer_json (status : Z) (v : json) : res js_err fetched := Ok (mkFetched status (Ok v)).

Definition readiness (pg mq : string) : json := JObj [("postgres", JStr pg); ("rabbitmq", JStr mq)].

(** Each effect takes a second or two; commands succeed. *)
Definition given (a : res js_err fetched) : answers := mkAnswers 2000 (Ok "") a true 0%Q None [].

(** The answers of a stack that loses a service, gets it back and completes the
    job: from the stop to the completed job. *)
Definition outage_answers (down up : json) : list answers :=
  map given
    ([answer_json 200 up; answer_json 200 up;            (* stop; sleep *)
      answer_json 200 (JObj []); answer_json 503 down;   (* live; ready *)
      answer_json 200 up; answer_json 200 up;            (* start; now *)
      answer_json 200 up; answer_json 503 down;          (* turn 1 *)
      answer_json 200 up; answer_json 200 up;            (* sleep; now *)
      answer_json 200 up;                                (* turn 2 *)
      answer_json 200 up;                                (* now *)
      answer_json 201 (JObj [("jobId", JStr "j"); ("status", JStr "QUEUED")]);
      answer_json 200 up; answer_json 200 up;            (* now; now *)
      answer_json 200 (JObj [("status", JStr "COMPLETED")])]).

Definition stack_answers : list answers :=
  map given [answer_json 200 JNull; answer_json 200 JNull; answer_json 200 (readiness "ok" "ok")]
  ++ outage_answers (readiness "error" "ok") (readiness "ok" "ok")
  ++ outage_answers (readiness "ok" "error") (readiness "ok" "ok").

Definition stack (n : nat) : answers := nth n stack_answers (given (answer_json 200 JNull)).

Example chaos_passes :
  (run (verify_chaos (fun _ => "") sample_settings 61) stack (mkScene 0 [] [])).1.1 = Ok (Some 0).
Proof. vm_compute. reflexivity. Qed.

Lemma chaos_ends_witness :
  exists code s' cs', run (verify_chaos (fun _ => "") sample_settings 61) stack (mkScene 0 [] [])
      = (Ok (Some code), s', cs') /\ (code = 0 \/ code = 1).
Proof.
  apply chaos_ends.
  - split; [lia|]. simpl. lia.
  - intros n [= <-]. split; [lia|]. simpl. lia.
  - vm_compute. repeat split; discriminate.
Defined.

Lemma chaos_pass_is_evidence_witness :
  exists s' cs' tr, run (verify_chaos (fun _ => "") sample_settings 61) stack (mkScene 0 [] [])
      = (Ok (Some 0), s', cs')
    /\ s_trace s' = tr /\ restoring sample_settings (commands tr) /\ both_passed sample_settings tr.
Proof.
  destruct (chaos_pass_is_evidence (fun _ => "") sample_settings 61 stack (mkScene 0 [] []))
    as (r & s' & cs' & tr & Hrun & Htr & Hr & Hp).
  assert (r = Ok (Some 0)) as Hok.
  { change r with (r, s', cs').1.1. rewrite <- Hrun. vm_compute. reflexivity. }
  exists s', cs', tr. rewrite Hrun, Hok. by auto.
Defined.
