(* ===== verification/Checks.v ===== *)
(** * The WebSocket check and the latency report

    apps/api/scripts/verify-ws.js creates a job through the public entry point
    and waits for its COMPLETED event on the dashboard's WebSocket;
    apps/api/scripts/verify-latency.js times requests and reports percentiles.
    What a pass of the first means, and what the numbers of the second are. *)
From stdpp Require Import pretty.
From Stdlib Require Import QArith.
From Stdlib Require Import Floats.SpecFloat.
From S2P Require Import Prelude Json Postgres Programs Worker Api RateLimiter Http Poller Client Scripts.
#[local] Open Scope stdpp_scope.
#[local] Open Scope Z_scope.
#[local] Existing Instance Double.doubles.

(** ** verify-ws.js *)

Module Ws.
Record ws_settings := mkWsSettings {
  DASHBOARD_URL : string;
  KEY : option string;                 (* API_KEY *)
  TIMEOUT_MS : option Z }.             (* [None]: not a number *)

Definition read_ws_settings (Number : string -> option Z) (E : environment) : ws_settings :=
  mkWsSettings (without_slash (env_or E "DASHBOARD_URL" "http://localhost:8080")) (E "API_KEY")
    (if truthy (E "WS_VERIFY_TIMEOUT_MS") then Number (default "" (E "WS_VERIFY_TIMEOUT_MS"))
     else Some 15000).

(** [url.replace(/^http/, "ws") + "/ws"] *)
Definition ws_url (url : string) : string :=
  (if String.prefix "http" url
   then "ws" +:+ String.substring 4 (String.length url - 4) url else url) +:+ "/ws".

Section ws.
(** Whether two number tokens of JSON stand for the same number. *)
Variable same_number : string -> string -> bool.
Variable env : ws_settings.

(** A value is falsy; [None] is [undefined]. *)
Definition falsy (v : option json) : bool :=
  match v with
  | None | Some JNull => true
  | Some (JBool b) => negb b
  | Some (JNum t) => same_number t "0"
  | Some (JStr s) => String.eqb s ""
  | _ => false
  end.

(** [a === b]; objects from two parses are never the same. *)
Definition strict_eq (a b : option json) : bool :=
  match a, b with
  | None, None | Some JNull, Some JNull => true
  | Some (JBool x), Some (JBool y) => Bool.eqb x y
  | Some (JNum x), Some (JNum y) => same_number x y
  | Some (JStr x), Some (JStr y) => String.eqb x y
  | _, _ => false
  end.

Definition extractJobId (jobCreationResponseBody : json) : option json :=
  if falsy (Some jobCreationResponseBody) then Some jobCreationResponseBody
  else get_prop "jobId" jobCreationResponseBody.

(** The listener: what it has pushed, of the frames received so far. *)
Definition messages (frames : list string) : list json := omap JSON_parse frames.

(** [m.type === "job.updated" && m.jobId === jobId], of an [m] that is not null. *)
Definition about_job (jobId : option json) (m : json) : bool :=
  strict_eq (get_prop "type" m) (Some (JStr "job.updated")) && strict_eq (get_prop "jobId" m) jobId.

Definition completes (jobId : option json) (m : json) : bool :=
  about_job jobId m && strict_eq (get_prop "status" m) (Some (JStr "COMPLETED")).

Definition no_properties : js_err :=
  JsErr CError "TypeError" "Cannot read properties of null" None [].

(** [messages.find(f)], where [f] throws on null. *)
Fixpoint find_message (f : json -> bool) (l : list json) : res js_err (option json) :=
  match l with
  | [] => Ok None
  | JNull :: _ => Err no_properties
  | m :: l => if f m then Ok (Some m) else find_message f l
  end.

(** [messages.filter(f)], the same. *)
Fixpoint filter_messages (f : json -> bool) (l : list json) : res js_err (list json) :=
  match l with
  | [] => Ok []
  | JNull :: _ => Err no_properties
  | m :: l =>
      match filter_messages f l with
      | Ok r => Ok (if f m then m :: r else r)
      | Err e => Err e
      end
  end.

Fixpoint wait_for_event (fuel : nat) (jobId : option json) (deadline : option Z)
  : script (option (option json)) :=
  match fuel with
  | O => Ret None
  | S fuel =>
      let! now := step Now in
      if before now deadline then
        let! frames := step ReadFrames in
        let! matched := of_res (find_message (completes jobId) (messages frames)) in
        match matched with
        | Some m => Ret (Some (Some m))
        | None => step (SleepMs 250) ;;; wait_for_event fuel jobId deadline
        end
      else Ret (Some None)
  end.

Definition ws_create_request : http_request :=
  mkHttp (DASHBOARD_URL env +:+ "/api/jobs") "POST"
    [("Content-Type", "application/json"); ("x-api-key", default "undefined" (KEY env))].

Definition ws_create_body (now : Z) : json :=
  JObj [("type", JStr "ws-verification");
        ("payload", JObj [("source", JStr "verify-ws.js"); ("createdAt", JStr (toISOString now))])].

Definition ws_main (fuel : nat) : script (option Z) :=
  let! connectResult := step (WsConnect (ws_url (DASHBOARD_URL env))) in
  match connectResult with
  | Some _ => Ret (Some 1)
  | None =>
      step (SleepMs 500) ;;;
      let! now := step Now in
      let! createRes := step (Fetch ws_create_request (Some (ws_create_body now))) in
      if negb (f_ok createRes) then Ret (Some 1)
      else
        let! created := of_res (f_json createRes) in
        let jobId := extractJobId created in
        if falsy jobId then Ret (Some 1)
        else
          let! start := step Now in
          let? matched := wait_for_event fuel jobId ((Z.add start) <$> TIMEOUT_MS env) in
          let! frames := step ReadFrames in
          let! seenForThisJob := of_res (filter_messages (about_job jobId) (messages frames)) in
          Ret (Some (match matched with Some _ => 0 | None => 1 end))
  end.

Definition verify_ws (fuel : nat) : script (option Z) :=
  if negb (truthy (KEY env)) then Ret (Some 1)
  else try_catch (ws_main fuel) (fun _ => Ret (Some 1)).

(** ** What a pass means *)

(** The socket was open, the job was accepted, and a frame received after that
    is the event that the job is COMPLETED. *)
Definition event_seen (tr : list event) : Prop :=
  exists now fr created jobId frames text m tr1 tr2,
    tr = Connected (ws_url (DASHBOARD_URL env)) None :: tr1
         ++ Fetched ws_create_request (Some (ws_create_body now)) (Ok fr) :: tr2
    /\ f_ok fr = true /\ f_json fr = Ok created /\ extractJobId created = jobId
    /\ falsy jobId = false
    /\ Received frames ∈ tr2 /\ text ∈ frames /\ JSON_parse text = Some m
    /\ completes jobId m = true.

Lemma find_message_Some f l m : find_message f l = Ok (Some m) -> m ∈ l /\ f m = true.
Proof.
  induction l as [|x l IH]; [done|]. simpl.
  assert ((if f x then Ok (Some x) else find_message f l) = (Ok (Some m) : res js_err _) ->
    m ∈ x :: l /\ f m = true) as Hx.
  { destruct (f x) eqn:Hf; [intros [= <-]; by split; [left|]|].
    intros Hl. destruct (IH Hl). by split; [right|]. }
  by destruct x.
Qed.

Lemma wait_for_event_spec fuel jobId deadline :
  spec (wait_for_event fuel jobId deadline) (fun r tr =>
    forall m, r = Ok (Some (Some m)) ->
      exists frames text, Received frames ∈ tr /\ text ∈ frames /\ JSON_parse text = Some m
        /\ completes jobId m = true).
Proof.
  induction fuel as [|fuel IH]; [by apply spec_ret|].
  apply spec_now. intros t. destruct (before t deadline); [|by apply spec_ret].
  apply spec_frames. intros frames.
  destruct (find_message _ _) as [[m|]|e] eqn:Hfind; cbn [of_res bind].
  - apply spec_ret. intros m' [= <-]. apply find_message_Some in Hfind as [Hin Hm].
    apply list_elem_of_omap in Hin as (text & Hin & Ht). exists frames, text.
    split; [right; left|done].
  - apply spec_sleep. eapply spec_mono; [|exact IH]. intros r tr Hr m Hm.
    destruct (Hr m Hm) as (fs & text & Hin & Hrest). exists fs, text. split; [|done]. by do 3 right.
  - by apply spec_throw.
Qed.

Lemma verify_ws_spec fuel :
  spec (verify_ws fuel) (fun r tr => r = Ok (Some 0) -> event_seen tr).
Proof.
  unfold verify_ws. destruct (negb _); [by apply spec_ret|].
  eapply spec_try_catch with (P := fun r tr => r = Ok (Some 0) -> event_seen tr);
    [|done|by intros e tr _; apply spec_ret].
  apply spec_connect. intros [reason|]; [by apply spec_ret|].
  apply spec_sleep, spec_now. intros now. apply spec_fetch; [|done]. intros fr.
  destruct (f_ok fr) eqn:Hok; simpl; [|by apply spec_ret].
  destruct (f_json fr) as [created|e] eqn:Hj; cbn [of_res bind]; [|by apply spec_throw].
  destruct (falsy (extractJobId created)) eqn:Hf; [by apply spec_ret|].
  apply spec_now. intros start. eapply spec_bind; [apply wait_for_event_spec| |done].
  intros [matched|] tr Hm; [|by apply spec_ret]. apply spec_frames. intros frames.
  destruct (filter_messages _ _); cbn [of_res bind]; [|by apply spec_throw].
  apply spec_ret. destruct matched as [m|]; [|done]. intros _.
  destruct (Hm m eq_refl) as (fs & text & Hin & Ht & Hp & Hc).
  exists now, fr, created, (extractJobId created), fs, text, m, [Slept 500; Saw now],
    (Saw start :: tr ++ [Received frames]).
  repeat (split; [done|]). split; [right; apply elem_of_app; by left|done].
Qed.

(** ** It ends *)

Lemma wait_for_event_ends fuel jobId deadline s :
  in_time 250 fuel deadline s ->
  wp clock_runs (wait_for_event fuel jobId deadline) (fun r _ => ends r) s.
Proof.
  revert s. induction fuel as [|fuel IH]; intros s Hs; [destruct Hs; lia|].
  apply ends_now. intros t s1 H1 Ht. destruct (before t deadline) eqn:Hb; [|done].
  apply ends_after. intros frames s2 H2. apply ends_after. intros [m|] s3 H3; [done|].
  unfold later in *. eapply (ends_again 250 fuel deadline t s); try done; [lia|unfold later; lia].
Qed.

Lemma ws_main_exits fuel s :
  (forall n, TIMEOUT_MS env = Some n -> enough 250 fuel n) -> (0 < fuel)%nat ->
  wp clock_runs (ws_main fuel) (fun r _ => exits r) s.
Proof.
  intros Ht Hf. apply exits_after. intros [reason|] s1; [apply exit_1|].
  apply exits_after. intros _ s2. apply exits_after. intros now s3.
  apply exits_after. intros res s4. destruct (negb _); [apply exit_1|].
  apply exits_after. intros created s5. cbv zeta.
  destruct (falsy (extractJobId created)); [apply exit_1|].
  apply exits_now. intros t s6 Ht6. apply exits_bind.
  - apply wait_for_event_ends. split; [done|]. intros d Hd.
    destruct (TIMEOUT_MS env) as [n|]; [|done]. injection Hd as <-.
    destruct (Ht n eq_refl). lia.
  - intros matched s9. apply exits_after. intros frames s7. apply exits_after. intros seen s8.
    destruct matched; [by left|by right].
Qed.

(** The WebSocket check ends, and its exit code 0 can be trusted.  When time
    does not go back and a sleep takes as long as it says, the process exits
    with 0 or 1; and with 0 only if the socket opened, POST /api/jobs accepted
    the job, and after that a frame was received that is the [job.updated]
    event of that job with the status COMPLETED. *)
Theorem ws_pass_is_evidence fuel cs s :
  (0 < fuel)%nat -> (forall n, TIMEOUT_MS env = Some n -> enough 250 fuel n) ->
  conforms clock_runs (verify_ws fuel) cs s ->
  exists code s' cs' tr, run (verify_ws fuel) cs s = (Ok (Some code), s', cs')
    /\ s_trace s' = s_trace s ++ tr
    /\ (code = 0 /\ event_seen tr \/ code = 1).
Proof.
  intros Hf Ht Hcs.
  assert (wp clock_runs (verify_ws fuel) (fun r _ => exists code,
    r = Ok (Some code) /\ (code = 0 \/ code = 1)) s) as Hwp.
  { unfold verify_ws. destruct (negb _); [exists 1; by auto|]. apply wp_try_catch.
    eapply wp_mono; [|by apply ws_main_exits].
    intros [[code|]|e] s1 Hr; [by exists code|done|exists 1; by auto]. }
  apply (wp_conforms _ _ _ _ _ Hcs) in Hwp. pose proof (spec_run _ _ cs s (verify_ws_spec fuel)) as Hs.
  destruct (run _ cs s) as [[r s'] cs']. destruct Hwp as (code & -> & Hcode).
  destruct Hs as (tr & Htr & Hp). exists code, s', cs', tr. split; [done|]. split; [done|].
  destruct Hcode as [-> | ->]; [left|by right]. split; [done|by apply Hp].
Qed.

(** The event that the API broadcasts about a row is recognised exactly when
    it is the row of the job, and COMPLETED. *)
Lemma completes_broadcast jobId event :
  JSON_parse (payload event) = Some (event_json event)
  /\ completes (Some (JStr jobId)) (event_json event)
     = String.eqb (u_jobId event) jobId && bool_decide (u_status event = COMPLETED).
Proof.
  split; [by apply JSON_parse_stringify|]. unfold completes, about_job. simpl.
  by destruct (u_status event), (String.eqb _ _).
Qed.
End ws.
End Ws.

(** ** verify-latency.js *)

Module Latency.
#[export] Instance Qle_decision (x y : Q) : Decision (x <= y)%Q.
Proof.
  destruct (Qle_bool x y) eqn:E; [left; by apply Qle_bool_iff|].
  right. intros Hle%Qle_bool_iff. congruence.
Defined.

Section latency.
Context {N : Type} `{Number N}.

(** [Math.ceil((p / 100) * n) - 1], and the index that is read. *)
Definition rank (p : Z) (n : nat) : N :=
  num_sub (num_ceil (num_mul (num_div (num_of_Z p) (num_of_Z 100)) (num_of_Z (Z.of_nat n))))
    (num_of_Z 1).

Definition percentile_index (p : Z) (n : nat) : N :=
  num_max (num_of_Z 0) (num_min (num_of_Z (Z.of_nat n - 1)) (rank p n)).

(** The index below [n] that is the number [i]. *)
Definition index_of (i : N) (n : nat) : option nat :=
  List.find (fun k => let x := num_of_Z (Z.of_nat k) in num_leb x i && num_leb i x) (seq 0 n).

(** [l[i]] at a number [i] *)
Definition at_number {A} (l : list A) (i : N) : option A :=
  k ← index_of i (List.length l); l !! k.

(** [None] is null, or undefined. *)
Definition percentile {A} (sortedMs : list A) (p : Z) : option A :=
  match sortedMs with
  | [] => None
  | _ => at_number sortedMs (percentile_index p (List.length sortedMs))
  end.

(** ** Samples *)

Record sample := mkSample { sa_ok : bool; sa_ms : Q; sa_error : option string }.

Record summary := mkSummary {
  su_label : string; su_count : nat; su_ok : nat; su_failed : nat;
  su_p50 : option Q; su_p95 : option Q }.

Definition ok_times (samples : list sample) : list Q :=
  merge_sort Qle (sa_ms <$> List.filter sa_ok samples).

Definition summarize (label : string) (samples : list sample) : summary :=
  let ok := ok_times samples in
  mkSummary label (List.length samples) (List.length ok)
    (List.length (List.filter (fun s => negb (sa_ok s)) samples))
    (percentile ok 50) (percentile ok 95).

Definition timeRequest (fn : script fetched) : script sample :=
  let! start := step PerfNow in
  try_catch
    (let! res := fn in
     let! now := step PerfNow in
     Ret (if f_ok res then mkSample true (now - start)%Q None
          else mkSample false (now - start)%Q (Some ("HTTP " +:+ pretty (f_status res)))))
    (fun err =>
       let! now := step PerfNow in
       Ret (mkSample false (now - start)%Q (Some (js_err_String err)))).

Fixpoint collect (count : nat) (fn : script fetched) (samples : list sample) : script (list sample) :=
  match count with
  | O => Ret samples
  | S count => let! s := timeRequest fn in collect count fn (samples ++ [s])
  end.

Definition measure (label : string) (count : nat) (fn : script fetched) : script summary :=
  let! samples := collect count fn [] in Ret (summarize label samples).

Record latency_settings := mkLatencySettings {
  DASHBOARD_URL : string;
  API_DIRECT_URL : option string;
  KEY : option string;                (* API_KEY *)
  REQUEST_COUNT : nat }.

Definition create_job (env : latency_settings) : script fetched :=
  let! now := step Now in
  step (Fetch (mkHttp (DASHBOARD_URL env +:+ "/api/jobs") "POST"
                 [("Content-Type", "application/json"); ("x-api-key", default "undefined" (KEY env))])
          (Some (JObj [("type", JStr "latency-verification");
                       ("payload", JObj [("at", json_number now)])]))).

(** [main]: the results that it prints. *)
Definition latency_main (env : latency_settings) : script (list summary) :=
  let url := DASHBOARD_URL env in
  let n := REQUEST_COUNT env in
  let! live := measure ("GET " +:+ url +:+ "/api/health (liveness, via nginx)") n
                 (step (Fetch (get (url +:+ "/api/health")) None)) in
  let! ready := measure ("GET " +:+ url +:+ "/api/health/ready (readiness, via nginx)") n
                  (step (Fetch (get (url +:+ "/api/health/ready")) None)) in
  let! created := measure ("POST " +:+ url +:+ "/api/jobs (authenticated job creation, via nginx)") n
                    (create_job env) in
  let results := [live; ready; created] in
  match API_DIRECT_URL env with
  | Some direct_url =>
      let! direct := measure ("GET " +:+ direct_url +:+ "/api/health (liveness, DIRECT to api, no nginx)") n
                       (step (Fetch (get (direct_url +:+ "/api/health")) None)) in
      Ret (results ++ [direct])
  | None => Ret results
  end.

(** The process: the key check at the top, [main] and its [catch]; the exit code
    and what was printed. *)
Definition verify_latency (env : latency_settings) : script (Z * list summary) :=
  if negb (truthy (KEY env)) then Ret (1, [])
  else try_catch (let! results := latency_main env in Ret (0, results)) (fun _ => Ret (1, [])).
End latency.

(** ** Percentiles *)

(** The nearest rank: how many of [n] samples are [p] percent, rounded up. *)
Definition nearest_rank (p : Z) (n : nat) : nat := Z.to_nat ((p * Z.of_nat n + 99) / 100).

(** The index that doubles give, for the sizes and percentiles of the script. *)
Definition index_ok (p : Z) (n : nat) : bool :=
  match index_of (percentile_index (N := spec_float) p n) n with
  | Some k => (S k =? nearest_rank p n)%nat
  | None => false
  end.

Lemma doubles_index p n :
  p = 50 \/ p = 95 \/ p = 99 -> (1 <= n <= 200)%nat -> index_ok p n = true.
Proof.
  intros Hp Hn.
  assert (forallb (fun n => index_ok 50 n && index_ok 95 n && index_ok 99 n) (seq 1 200) = true)
    as Hall by (vm_compute; reflexivity).
  rewrite forallb_forall in Hall. specialize (Hall n ltac:(apply in_seq; lia)).
  apply andb_true_iff in Hall as [[H50 H95]%andb_true_iff H99]. by destruct Hp as [-> | [-> | ->]].
Qed.
(** How many satisfy [f]. *)
Definition how_many (f : Q -> bool) (l : list Q) : Z := Z.of_nat (List.length (List.filter f l)).

(** At least [p] percent of the samples are at most [v], and fewer than that are
    below [v]; no value only when there is no sample. *)
Definition is_percentile (p : Z) (l : list Q) (r : option Q) : Prop :=
  match r with
  | None => l = []
  | Some v => v ∈ l
      /\ p * Z.of_nat (List.length l) <= 100 * how_many (fun x => Qle_bool x v) l
      /\ 100 * how_many (fun x => negb (Qle_bool v x)) l < p * Z.of_nat (List.length l)
  end.

Lemma filter_all {A} (f : A -> bool) l : (forall x, x ∈ l -> f x = true) -> List.filter f l = l.
Proof.
  induction l as [|x l IH]; intros Hf; [done|]. simpl. rewrite Hf by left. f_equal. apply IH.
  intros y Hy. apply Hf. by right.
Qed.

Lemma filter_none {A} (f : A -> bool) l : (forall x, x ∈ l -> f x = false) -> List.filter f l = [].
Proof.
  induction l as [|x l IH]; intros Hf; [done|]. simpl. rewrite Hf by left. apply IH.
  intros y Hy. apply Hf. by right.
Qed.

Lemma filter_length {A} (f : A -> bool) l : (List.length (List.filter f l) <= List.length l)%nat.
Proof. induction l as [|x l IH]; simpl; [done|]. destruct (f x); simpl; lia. Qed.

(** In a sorted list, the element at [k] has [k + 1] elements that are at most
    it and at most [k] below it. *)
Lemma sorted_counts l k v :
  StronglySorted Qle l -> l !! k = Some v ->
  Z.of_nat (S k) <= how_many (fun x => Qle_bool x v) l
  /\ how_many (fun x => negb (Qle_bool v x)) l <= Z.of_nat k.
Proof.
  intros Hs Hk. pose proof (take_drop_middle l k v Hk) as Hl. rewrite <- Hl in Hs |- *.
  assert (forall x, x ∈ take k l -> (x <= v)%Q) as Hlow.
  { intros x Hx. eapply (StronglySorted_app_1_elem_of Qle); [exact Hs|done|left]. }
  assert (forall x, x ∈ v :: drop (S k) l -> (v <= x)%Q) as Hhigh.
  { intros x [->|Hx]%elem_of_cons; [apply Qle_refl|].
    apply StronglySorted_app_1_r, StronglySorted_inv in Hs as [_ Hs].
    rewrite Forall_forall in Hs. by apply Hs. }
  apply lookup_lt_Some in Hk. unfold how_many. rewrite !List.filter_app, !length_app. split.
  - rewrite (filter_all _ (take k l)), length_take; [|intros x Hx; by apply Qle_bool_iff, Hlow].
    simpl. assert (Qle_bool v v = true) as -> by (apply Qle_bool_iff, Qle_refl). simpl. lia.
  - rewrite (filter_none _ (v :: drop (S k) l)).
    + pose proof (filter_length (fun x => negb (Qle_bool v x)) (take k l)).
      rewrite length_take in *. simpl. lia.
    + intros x Hx. apply negb_false_iff, Qle_bool_iff. by apply Hhigh.
Qed.

Lemma index_of_lt {N} `{Number N} (i : N) n k : index_of i n = Some k -> (k < n)%nat.
Proof. intros Hf. apply List.find_some in Hf as [Hin _]. apply in_seq in Hin. lia. Qed.

(** The script's percentile, computed with doubles, is the nearest-rank one. *)
Lemma percentile_correct p l :
  p = 50 \/ p = 95 \/ p = 99 -> StronglySorted Qle l -> (List.length l <= 200)%nat ->
  is_percentile p l (percentile (N := spec_float) l p).
Proof.
  intros Hp Hs Hlen. destruct l as [|x l']; [done|]. unfold percentile.
  set (l := x :: l') in *. assert (1 <= List.length l)%nat as Hn by (simpl; lia).
  pose proof (doubles_index p _ Hp (conj Hn Hlen)) as Hi. unfold index_ok in Hi. unfold at_number.
  destruct (index_of _ _) as [k|] eqn:Hk; [|done]. apply Nat.eqb_eq in Hi.
  apply index_of_lt in Hk. destruct (lookup_lt_is_Some_2 l k Hk) as [v Hv]. simpl. rewrite Hv.
  destruct (sorted_counts l k v Hs Hv) as [Hle Hlt].
  assert (p * Z.of_nat (List.length l) <= 100 * Z.of_nat (S k)
          /\ 100 * Z.of_nat k < p * Z.of_nat (List.length l)) as [H1 H2].
  { unfold nearest_rank in Hi. set (n := Z.of_nat (List.length l)) in *.
    assert (1 <= p) by lia. assert (1 <= n) by lia.
    pose proof (Z.div_mod (p * n + 99) 100 ltac:(lia)).
    pose proof (Z.mod_pos_bound (p * n + 99) 100 ltac:(lia)).
    assert (Z.of_nat (S k) = (p * n + 99) / 100) by nia. lia. }
  split; [by eapply list_elem_of_lookup_2|]. lia.
Qed.
(** ** A measurement *)

(** One request: the times before and after it, and its answer. *)
Record timed := mkTimed { t_start : Q; t_answer : res js_err fetched; t_end : Q }.

Definition timed_sample (x : timed) : sample :=
  let ms := (t_end x - t_start x)%Q in
  match t_answer x with
  | Ok res => if f_ok res then mkSample true ms None
              else mkSample false ms (Some ("HTTP " +:+ pretty (f_status res)))
  | Err err => mkSample false ms (Some (js_err_String err))
  end.

Definition timed_events (req : http_request) (body : option json) (x : timed) : list event :=
  [Timed (t_start x); Fetched req body (t_answer x); Timed (t_end x)].

Lemma timeRequest_spec req body :
  spec (timeRequest (step (Fetch req body))) (fun r tr => exists x,
    r = Ok (timed_sample x) /\ tr = timed_events req body x).
Proof.
  apply spec_perf. intros start. eapply spec_try_catch with (P := fun r tr =>
    match r with
    | Ok v => exists x, t_start x = start /\ v = timed_sample x
                /\ Timed start :: tr = timed_events req body x
    | Err e => tr = [Fetched req body (Err e)]
    end).
  - apply spec_fetch; [|done]. intros res. apply spec_perf. intros now. apply spec_ret.
    exists (mkTimed start (Ok res) now). split; [done|]. split; [|done].
    unfold timed_sample. simpl. by destruct (f_ok res).
  - intros v tr (x & _ & -> & Htr). by exists x.
  - intros e tr ->. apply spec_perf. intros now. apply spec_ret.
    by exists (mkTimed start (Err e) now).
Qed.

Lemma collect_spec req body count samples :
  spec (collect count (step (Fetch req body)) samples) (fun r tr => exists xs,
    List.length xs = count /\ r = Ok (samples ++ map timed_sample xs)
    /\ tr = concat (map (timed_events req body) xs)).
Proof.
  revert samples. induction count as [|count IH]; intros samples.
  - apply spec_ret. exists []. by rewrite app_nil_r.
  - eapply spec_bind; [apply timeRequest_spec| |by intros e tr (x & [=] & _)].
    intros v tr (x & [= ->] & ->). eapply spec_mono; [|apply IH].
    intros r tr (xs & Hlen & -> & ->). exists (x :: xs). simpl.
    split; [by rewrite Hlen|]. by rewrite <- app_assoc.
Qed.

#[local] Instance Qle_transitive : Transitive Qle.
Proof. intros x y z. apply Qle_trans. Qed.
#[local] Instance Qle_total : Total Qle.
Proof. intros x y. destruct (Qlt_le_dec x y) as [Hlt|Hle]; [left; by apply Qlt_le_weak|by right]. Qed.

Lemma ok_times_sorted samples : StronglySorted Qle (ok_times samples).
Proof. apply (StronglySorted_merge_sort Qle). Qed.

Lemma length_partition {A} (f : A -> bool) l :
  (List.length (List.filter f l) + List.length (List.filter (fun x => negb (f x)) l)
   = List.length l)%nat.
Proof. induction l as [|x l IH]; [done|]. simpl. destruct (f x); simpl; lia. Qed.

Lemma ok_times_length samples :
  List.length (ok_times samples) = List.length (List.filter sa_ok samples).
Proof. unfold ok_times. by rewrite merge_sort_Permutation, length_fmap. Qed.

(** C31: what the latency script reports of a path is what it saw.  Whatever
    happens, a measurement sends its requests one after the other, each timed
    on its own, and reports as many as it sent, each as succeeded or failed;
    and, for up to 200 requests, the p50 and p95 that it computes with floating
    point numbers are exactly the nearest-rank percentiles of the times of the
    requests that succeeded. *)
Theorem latency_report_correct label count req body cs s :
  (count <= 200)%nat ->
  exists sum s' cs' xs,
    run (measure (N := spec_float) label count (step (Fetch req body))) cs s = (Ok sum, s', cs')
    /\ s_trace s' = s_trace s ++ concat (map (timed_events req body) xs)
    /\ List.length xs = count /\ su_count sum = count /\ (su_ok sum + su_failed sum = count)%nat
    /\ (let ok := ok_times (map timed_sample xs) in
        List.length ok = su_ok sum
        /\ is_percentile 50 ok (su_p50 sum) /\ is_percentile 95 ok (su_p95 sum)).
Proof.
  intros Hcount.
  assert (spec (measure (N := spec_float) label count (step (Fetch req body))) (fun r tr => exists xs,
    List.length xs = count /\ r = Ok (summarize (N := spec_float) label (map timed_sample xs))
    /\ tr = concat (map (timed_events req body) xs))) as Hspec.
  { eapply spec_bind; [apply collect_spec| |by intros e tr (xs & _ & [=] & _)].
    intros v tr (xs & Hlen & [= ->] & ->). apply spec_ret. exists xs. by rewrite app_nil_r. }
  pose proof (spec_run _ _ cs s Hspec) as Hrun. destruct (run _ cs s) as [[r s'] cs'].
  destruct Hrun as (tr & Htr & xs & Hlen & -> & ->).
  set (samples := map timed_sample xs). assert (List.length samples = count) as Hs
    by (unfold samples; by rewrite List.length_map).
  pose proof (length_partition sa_ok samples) as Hpart. rewrite <- (ok_times_length samples) in Hpart.
  exists (summarize (N := spec_float) label samples), s', cs', xs. split; [done|]. split; [done|].
  split; [done|]. split; [done|]. split; [simpl; lia|]. split; [done|].
  assert (List.length (ok_times samples) <= 200)%nat by lia.
  split; (apply percentile_correct; [by auto|apply ok_times_sorted|done]).
Qed.
End Latency.

(** ** The properties, on concrete runs *)

Definition check_settings : Ws.ws_settings :=
  Ws.mkWsSettings "http://localhost:8080" (Some "secret") (Some 1000).

Definition completed_frame : string :=
  payload (mkUpdate "j" COMPLETED 0).

(** The socket opens; the job is accepted; its event arrives before the
    script first looks. *)
Definition ws_answers (n : nat) : answers :=
  mkAnswers 500 (Ok "")
    (Ok (mkFetched 201 (Ok (JObj [("jobId", JStr "j"); ("status", JStr "QUEUED")]))))
    true 0%Q None (if (n =? 5)%nat then [completed_frame] else []).

Lemma ws_pass_is_evidence_witness :
  exists s' cs' tr,
    run (Ws.verify_ws String.eqb check_settings 5) ws_answers (mkScene 0 [] []) = (Ok (Some 0), s', cs')
    /\ s_trace s' = tr /\ Ws.event_seen String.eqb check_settings tr.
Proof.
  destruct (Ws.ws_pass_is_evidence String.eqb check_settings 5 ws_answers (mkScene 0 [] []))
    as (code & s' & cs' & tr & Hrun & Htr & Hp).
  - lia.
  - intros n [= <-]. split; [lia|]. simpl. lia.
  - vm_compute. repeat split; discriminate.
  - assert (code = 0) as Hcode.
    { assert (Ok (Some code) = (Ok (Some 0) : res js_err (option Z))) as Heq
        by (change (Ok (Some code)) with (Ok (Some code) : res js_err (option Z), s', cs').1.1;
            rewrite <- Hrun; vm_compute; reflexivity).
      by injection Heq. }
    destruct Hp as [[_ Hp]|Hp]; [|by rewrite Hcode in Hp].
    exists s', cs', tr. rewrite Hrun, Hcode. by auto.
Defined.

(** Twenty requests; every fifth is refused. *)
Definition timing (n : nat) : answers :=
  mkAnswers 5 (Ok "") (Ok (mkFetched (if (n mod 15 =? 1)%nat then 503 else 200) (Ok JNull)))
    true (inject_Z (Z.of_nat (n * n)))  None [].

Lemma latency_report_correct_witness :
  let req := get "http://localhost:8080/api/health" in
  exists sum s' cs' xs,
    run (Latency.measure (N := spec_float) "live" 20 (step (Fetch req None))) timing (mkScene 0 [] [])
      = (Ok sum, s', cs')
    /\ s_trace s' = concat (map (Latency.timed_events req None) xs)
    /\ List.length xs = 20%nat /\ Latency.su_count sum = 20%nat
    /\ (Latency.su_ok sum + Latency.su_failed sum = 20)%nat
    /\ (let ok := Latency.ok_times (map Latency.timed_sample xs) in
        List.length ok = Latency.su_ok sum
        /\ Latency.is_percentile 50 ok (Latency.su_p50 sum)
        /\ Latency.is_percentile 95 ok (Latency.su_p95 sum)).
Proof.
  apply (Latency.latency_report_correct "live" 20 (get "http://localhost:8080/api/health") None timing
           (mkScene 0 [] [])).
  lia.
Defined.
