(* ===== verification/Evidence.v ===== *)
(** * What a pass of the operational scripts says about the stack

    Chaos.v and Checks.v say what verify-chaos.js and verify-ws.js saw when they
    exit with 0.  Here the answers that they saw are those of the API (Http.v,
    Wire.v) and the frames are those of its broadcaster (Poller.v): then the checks
    of the API failed and succeeded, and the rows of the jobs were COMPLETED. *)
From stdpp Require Import pretty.
From S2P Require Import Prelude Json Postgres Amqp Programs Effects Worker Api RateLimiter Http Poller Sample Client Page Wire Notifications Scripts Chaos Checks.
#[local] Open Scope stdpp_scope.

Section chaos.
Variable stderr_of : js_err -> string.
Variable env : chaos_settings.

(** The stack answered what the API answers: to a readiness request, for what its
    two checks came to, when the status is one of its own; to a request for a job
    that was found, with its row. *)
Record answered_by_api (tr : list event) : Prop := {
  api_ready fr : Fetched (ready_request env) None (Ok fr) ∈ tr ->
    f_status fr = 200 \/ f_status fr = 503 ->
    exists pg mq, fr = answer_of (get_ready pg mq);
  api_job id fr : Fetched (job_request env id) None (Ok fr) ∈ tr -> f_ok fr = true ->
    exists job, wf_json (j_payload job) = true /\ template id = j_id job
      /\ fr = answer_of (mkResponse 200 [] (BJob job)) }.

(** The check that a member of the readiness answer reports. *)
Definition check_of (field : string) (pg mq : res js_err unit) : option (res js_err unit) :=
  if String.eqb field "postgres" then Some pg
  else if String.eqb field "rabbitmq" then Some mq else None.

(** The service was stopped, its check failed; it was started, both checks
    succeeded; and a job that was submitted after that was COMPLETED. *)
Definition outage_happened (serviceName field : string) (tr : list event) : Prop :=
  exists tr1 tr2 tr3 tr4 tr5 pg1 mq1 failed pg2 mq2 at_ created v job,
    tr = Ran (stop_command env serviceName) true :: tr1
         ++ Fetched (ready_request env) None (Ok (answer_of (get_ready pg1 mq1)))
         :: tr2 ++ Ran (start_command env serviceName) true
         :: tr3 ++ Fetched (ready_request env) None (Ok (answer_of (get_ready pg2 mq2)))
         :: tr4 ++ Fetched (chaos_create_request env)
              (Some (chaos_create_body ("after-" +:+ serviceName +:+ "-outage") at_)) (Ok created) :: tr5
    /\ check_of field pg1 mq1 = Some failed /\ is_ok failed = false
    /\ is_ok pg2 = true /\ is_ok mq2 = true
    /\ f_ok created = true /\ f_json created = Ok v /\ template (get_prop "jobId" v) = j_id job
    /\ Fetched (job_request env (get_prop "jobId" v)) None
         (Ok (answer_of (mkResponse 200 [] (BJob job)))) ∈ tr5
    /\ j_status job = COMPLETED.

Lemma ready_answer pg mq :
  answer_of (get_ready pg mq)
  = mkFetched (if is_ok pg && is_ok mq then 200 else 503)
      (Ok (JObj [("postgres", JStr (if is_ok pg then "ok" else "error"));
                 ("rabbitmq", JStr (if is_ok mq then "ok" else "error"))])).
Proof. rewrite answer_of_body; [done|]. by destruct (is_ok pg), (is_ok mq). Qed.

Lemma reads_failed tr field a :
  answered_by_api tr -> field = "postgres" \/ field = "rabbitmq" ->
  Fetched (ready_request env) None a ∈ tr -> reads 503 field "error" a ->
  exists pg mq failed, a = Ok (answer_of (get_ready pg mq))
    /\ check_of field pg mq = Some failed /\ is_ok failed = false.
Proof.
  intros Hapi Hf Hin (fr & b & -> & Hs & Hb & Hp).
  destruct (api_ready _ Hapi fr Hin) as (pg & mq & ->); [by right|].
  rewrite ready_answer in Hb. injection Hb as <-. exists pg, mq.
  destruct Hf as [-> | ->]; simpl in Hp; eexists; (split; [done|]); (split; [done|]);
    [by destruct (is_ok pg)|by destruct (is_ok mq)].
Qed.

Lemma reads_ok tr field a :
  answered_by_api tr -> Fetched (ready_request env) None a ∈ tr -> reads 200 field "ok" a ->
  exists pg mq, a = Ok (answer_of (get_ready pg mq)) /\ is_ok pg = true /\ is_ok mq = true.
Proof.
  intros Hapi Hin (fr & b & -> & Hs & _).
  destruct (api_ready _ Hapi fr Hin) as (pg & mq & ->); [by left|]. exists pg, mq.
  split; [done|]. rewrite ready_answer in Hs. simpl in Hs.
  by destruct (is_ok pg), (is_ok mq).
Qed.

Lemma completed_row tr jobId tr' :
  answered_by_api tr -> (forall e, e ∈ tr' -> e ∈ tr) -> completed_answer env jobId tr' ->
  exists job, template jobId = j_id job /\ j_status job = COMPLETED
    /\ Fetched (job_request env jobId) None
      (Ok (answer_of (mkResponse 200 [] (BJob job)))) ∈ tr'.
Proof.
  intros Hapi Hsub (fr & v & Hin & Hok & Hv & Hst).
  destruct (api_job _ Hapi jobId fr (Hsub _ Hin) Hok) as (job & Hwf & Hid & ->).
  exists job. split; [done|]. split; [|done]. rewrite answer_of_body in Hv by exact Hwf.
  injection Hv as <-. simpl in Hst. by destruct (j_status job).
Qed.

Lemma outage_truth serviceName field all tr :
  answered_by_api all -> (forall e, e ∈ tr -> e ∈ all) ->
  field = "postgres" \/ field = "rabbitmq" ->
  outage_passed env serviceName field tr -> outage_happened serviceName field tr.
Proof.
  intros Hapi Hsub Hf (tr1 & tr2 & tr3 & tr4 & a1 & a2 & -> & Ha1 & Ha2 & Hjob).
  destruct Hjob as (at_ & fr & created & jobId & t1 & t2 & -> & Hok & Hv & Hid & Hcompleted).
  setoid_rewrite elem_of_cons in Hsub. setoid_rewrite elem_of_app in Hsub.
  setoid_rewrite elem_of_cons in Hsub. setoid_rewrite elem_of_app in Hsub.
  setoid_rewrite elem_of_cons in Hsub. setoid_rewrite elem_of_app in Hsub.
  setoid_rewrite elem_of_cons in Hsub. setoid_rewrite elem_of_app in Hsub.
  setoid_rewrite elem_of_cons in Hsub.
  destruct (reads_failed all field a1) as (pg1 & mq1 & failed & -> & Hc & Hfail); [auto 10..|].
  destruct (reads_ok all field a2) as (pg2 & mq2 & -> & Hpg & Hmq); [auto 10..|].
  destruct (completed_row all jobId t2) as (job & Hj & Hst & Hin); [auto 15..|].
  exists tr1, tr2, tr3, t1, t2, pg1, mq1, failed, pg2, mq2, at_, fr, created, job.
  rewrite <- Hid in Hj, Hin. by repeat (split; [done|]).
Qed.

(** C22: exit code 0 of the chaos test can be trusted, and it leaves nothing
    stopped.  In every run, whatever Docker, the network and the stack answer and
    however it ends, each command that stops a service is followed at once by one
    that starts it.  And when the process exits with 0, against an API that answers
    as it is written, then for PostgreSQL and after it for RabbitMQ: the service
    was stopped, the check of that service in the API failed, it was started, both
    checks succeeded, and the row of a job submitted after that was COMPLETED. *)
Theorem chaos_pass_is_true fuel cs s :
  exists r s' cs' tr, run (verify_chaos stderr_of env fuel) cs s = (r, s', cs')
    /\ s_trace s' = s_trace s ++ tr
    /\ restoring env (commands tr)
    /\ (r = Ok (Some 0) -> answered_by_api tr ->
        exists tr0 tr1 tr2, tr = tr0 ++ tr1 ++ tr2
          /\ outage_happened "postgres" "postgres" tr1
          /\ outage_happened "rabbitmq" "rabbitmq" tr2).
Proof.
  pose proof (spec_run _ _ cs s (verify_chaos_spec stderr_of env fuel)) as Hs.
  destruct (run _ cs s) as [[r s'] cs']. destruct Hs as (tr & Htr & Hr & Hp).
  exists r, s', cs', tr. split; [done|]. split; [done|]. split; [done|]. intros Hok Hapi.
  destruct (Hp Hok) as (tr0 & tr1 & tr2 & -> & H1 & H2). exists tr0, tr1, tr2. split; [done|].
  split; (eapply outage_truth; [exact Hapi| |by auto|done]); intros e He; rewrite !elem_of_app; auto.
Qed.
End chaos.

(** ** The WebSocket check *)

Section ws.
Context `{Pg}.
Variable same_number : string -> string -> bool.
Variable env : Ws.ws_settings.

(** Every frame on the socket is an event that a tick of the API's poller sent,
    of one of the tables [seen]. *)
Definition frames_of_poller (seen : list db) (tr : list event) : Prop :=
  forall frames text, Received frames ∈ tr -> text ∈ frames ->
    exists d clients cursor cursor' sent name ev, d ∈ seen
      /\ reported clients cursor d cursor' sent /\ (name, ev) ∈ sent /\ text = payload ev.

(** The API accepted the job, and a tick of the poller saw it COMPLETED. *)
Definition completed_seen (seen : list db) (tr : list event) : Prop :=
  exists now fr created jobId d u j,
    Fetched (Ws.ws_create_request env) (Some (Ws.ws_create_body now)) (Ok fr) ∈ tr
    /\ f_ok fr = true /\ f_json fr = Ok created
    /\ Ws.extractJobId same_number created = Some (JStr jobId)
    /\ d ∈ seen /\ Postgres.jobs d !! u = Some j /\ j_id j = jobId /\ j_status j = COMPLETED.

Lemma event_of_row seen tr :
  frames_of_poller seen tr -> Ws.event_seen same_number env tr -> completed_seen seen tr.
Proof.
  intros Hfr (now & fr & created & jobId & frames & text & m & tr1 & tr2 & -> & Hok & Hj & Hid & _
    & Hin & Ht & Hparse & Hm).
  destruct (Hfr frames text) as (d & clients & c & c' & sent & name & ev & Hd & Hrep & Hsent & ->);
    [right; apply elem_of_app; right; by right|done|].
  destruct (only_changes _ _ _ _ _ Hrep name ev Hsent) as (u & j & cl & Hu & _ & _ & _ & _ & ->).
  destruct (Ws.completes_broadcast same_number "" (change_event (change_columns j))) as [Hpay _].
  rewrite Hpay in Hparse. injection Hparse as <-.
  unfold Ws.completes, Ws.about_job in Hm. apply andb_true_iff in Hm as [[_ Hjob]%andb_true_iff Hst].
  assert (jobId = Some (JStr (j_id j))) as ->.
  { destruct jobId as [[| | |x| |]|]; try done. apply String.eqb_eq in Hjob. simpl in Hjob. by subst. }
  exists now, fr, created, (j_id j), d, u, j. split; [right; apply elem_of_app; right; left|].
  repeat (split; [done|]). simpl in Hst. by destruct (j_status j).
Qed.

(** C26: the WebSocket check ends, and its exit code 0 can be trusted.  When time
    does not go back and a sleep takes as long as it says, the process exits
    with 0 or 1; and with 0 only if POST /api/jobs accepted the job and a frame
    was received that says that this job is COMPLETED: if the frames are those that
    the API's poller sends, the row of that job was COMPLETED at one of its ticks. *)
Theorem ws_pass_is_true fuel cs s :
  (0 < fuel)%nat -> (forall n, Ws.TIMEOUT_MS env = Some n -> enough 250 fuel n) ->
  conforms clock_runs (Ws.verify_ws same_number env fuel) cs s ->
  exists code s' cs' tr, run (Ws.verify_ws same_number env fuel) cs s = (Ok (Some code), s', cs')
    /\ s_trace s' = s_trace s ++ tr
    /\ (code = 1 \/ code = 0 /\ Ws.event_seen same_number env tr
        /\ forall seen, frames_of_poller seen tr -> completed_seen seen tr).
Proof.
  intros Hf Ht Hcs.
  destruct (Ws.ws_pass_is_evidence same_number env fuel cs s Hf Ht Hcs)
    as (code & s' & cs' & tr & Hrun & Htr & Hcode).
  exists code, s', cs', tr. split; [done|]. split; [done|].
  destruct Hcode as [[-> Hseen]|Hcode]; [right|by left]. split; [done|]. split; [done|].
  intros seen Hfr. by apply event_of_row.
Qed.
End ws.

(** ** The properties, on concrete stacks *)

Definition completed_row_a : Job := sample_job uuid_a (JObj []) COMPLETED 1 2000000.

(** The answers of the API while a service is lost and comes back, from the stop
    to the completed job. *)
Definition api_outage (down up : res js_err fetched) : list answers :=
  map given
    [up; up; answer_json 200 (JObj []); down;            (* stop; sleep; live; ready *)
     up; up; up; up;                                     (* start; now; now; ready *)
     up;                                                 (* now, for the job *)
     answer_json 201 (JObj [("jobId", JStr uuid_a); ("status", JStr "QUEUED")]);
     up; up;                                             (* now; now *)
     Ok (answer_of (mkResponse 200 [] (BJob completed_row_a)))].

Definition api_is (pg mq : bool) : res js_err fetched :=
  let check (b : bool) : res js_err unit := if b then Ok tt else Err (mk_error "unreachable") in
  Ok (answer_of (get_ready (check pg) (check mq))).

Definition api_stack (n : nat) : answers :=
  nth n (map given [api_is true true; api_is true true; api_is true true]
         ++ api_outage (api_is false true) (api_is true true)
         ++ api_outage (api_is true false) (api_is true true)) (given (api_is true true)).

Definition chaos_run := run (verify_chaos (fun _ => "") sample_settings 61) api_stack (mkScene 0 [] []).
Definition chaos_trace : list event := s_trace chaos_run.1.2.

(** Which of the events of a list it is. *)
Ltac event_cases H use :=
  repeat (apply elem_of_cons in H as [He|H]; [first [discriminate He | use He]|]);
  by apply not_elem_of_nil in H.

Lemma chaos_trace_from_api : answered_by_api sample_settings chaos_trace.
Proof.
  split.
  - intros fr Hin _.
    assert (Ok fr = api_is true true \/ Ok fr = api_is false true \/ Ok fr = api_is true false) as Hfr.
    { vm_compute in Hin.
      event_cases Hin ltac:(fun He => injection He as ->;
        first [left; reflexivity|right; left; reflexivity|right; right; reflexivity]). }
    destruct Hfr as [[= ->]|[[= ->]|[= ->]]]; by eexists _, _.
  - intros id fr Hin Hok. exists completed_row_a. split; [reflexivity|].
    enough (template id = uuid_a /\ fr = answer_of (mkResponse 200 [] (BJob completed_row_a)))
      as [-> ->] by done.
    unfold job_request, get in Hin. remember (template id) as path eqn:Hpath. clear Hpath id.
    vm_compute in Hin. event_cases Hin ltac:(fun He => injection He as -> ->; split; reflexivity).
Qed.

Lemma chaos_pass_is_true_witness :
  exists s' cs' tr, run (verify_chaos (fun _ => "") sample_settings 61) api_stack (mkScene 0 [] [])
      = (Ok (Some 0), s', cs')
    /\ s_trace s' = tr
    /\ exists tr0 tr1 tr2, tr = tr0 ++ tr1 ++ tr2
         /\ outage_happened sample_settings "postgres" "postgres" tr1
         /\ outage_happened sample_settings "rabbitmq" "rabbitmq" tr2.
Proof.
  destruct (chaos_pass_is_true (fun _ => "") sample_settings 61 api_stack (mkScene 0 [] []))
    as (r & s' & cs' & tr & Hrun & Htr & _ & Hp).
  assert (r = Ok (Some 0)) as Hok.
  { change r with (r, s', cs').1.1. rewrite <- Hrun. vm_compute. reflexivity. }
  exists s', cs', tr. rewrite Hrun, Hok. split; [reflexivity|]. split; [exact Htr|].
  apply (Hp Hok). assert (tr = chaos_trace) as ->; [|exact chaos_trace_from_api].
  unfold chaos_trace, chaos_run. rewrite Hrun. symmetry. exact Htr.
Defined.

Definition completed_db : db := one_job completed_row_a.
Definition completed_event : JobUpdatedEvent := change_event (change_columns completed_row_a).

(** The job is accepted, and the poller's event arrives before the script first
    looks. *)
Definition ws_stack (n : nat) : answers :=
  mkAnswers 500 (Ok "") (answer_json 201 (JObj [("jobId", JStr uuid_a); ("status", JStr "QUEUED")]))
    true 0%Q None (if (n =? 5)%nat then [payload completed_event] else []).

Definition ws_run := run (Ws.verify_ws String.eqb check_settings 5) ws_stack (mkScene 0 [] []).

Lemma poller_frames : frames_of_poller [completed_db] (s_trace ws_run.1.2).
Proof.
  intros frames text Hin Ht.
  assert (text = payload completed_event) as ->.
  { vm_compute in Hin. event_cases Hin ltac:(fun He => injection He as ->;
      vm_compute; repeat (apply elem_of_cons in Ht as [->|Ht]; [reflexivity|]);
      by apply not_elem_of_nil in Ht). }
  destruct (run_poll 2000000 2000000 [mkClient 1 true] 0 (one_job_world completed_row_a)
    (fun _ => calm 2000000 uuid_b) (healthy_calm _ _)) as (c' & sent & w' & cs' & _ & Hrep).
  exists completed_db, [mkClient 1 true], 0, c', sent, 1%nat, completed_event.
  split; [left|]. split; [exact Hrep|]. split; [|done].
  by apply (all_sent _ _ _ _ _ Hrep uuid_a completed_row_a (mkClient 1 true)); [| |left|].
Qed.

Lemma ws_pass_is_true_witness :
  exists s' cs' tr,
    run (Ws.verify_ws String.eqb check_settings 5) ws_stack (mkScene 0 [] []) = (Ok (Some 0), s', cs')
    /\ s_trace s' = tr /\ completed_seen String.eqb check_settings [completed_db] tr.
Proof.
  destruct (ws_pass_is_true String.eqb check_settings 5 ws_stack (mkScene 0 [] []))
    as (code & s' & cs' & tr & Hrun & Htr & Hp).
  - lia.
  - intros n [= <-]. split; [lia|]. simpl. lia.
  - vm_compute. repeat split; discriminate.
  - assert (code = 0) as Hcode.
    { assert (Ok (Some code) = (Ok (Some 0) : res js_err (option Z))) as Heq
        by (change (Ok (Some code)) with (Ok (Some code) : res js_err (option Z), s', cs').1.1;
            rewrite <- Hrun; vm_compute; reflexivity).
      by injection Heq. }
    destruct Hp as [Hp|(_ & _ & Hp)]; [by rewrite Hcode in Hp|].
    exists s', cs', tr. rewrite Hrun, Hcode. split; [reflexivity|]. split; [exact Htr|].
    apply Hp. assert (tr = s_trace ws_run.1.2) as ->; [|exact poller_frames].
    unfold ws_run. rewrite Hrun. symmetry. exact Htr.
Defined.
