(* ===== verification/Config.v ===== *)
(** * Configuration

    config/env.ts of both services: the schema of the environment variables,
    the refusal to start, and what the rest of the code may rely on.  How zod
    reads one variable is given by the class [EnvZod]. *)
From stdpp Require Import pretty.
From S2P Require Import Prelude Json Postgres RateLimiter Http Scripts.
#[local] Open Scope stdpp_scope.

(** ** Schemas *)

(** The combinators that the two schemas use. *)
Inductive field_schema :=
| EnumDefault (values : list string) (d : string)   (* z.enum(values).default(d) *)
| PositiveDefault (d : Z)                           (* z.coerce.number().int().positive().default(d) *)
| NaturalDefault (d : Z)                            (* z.coerce.number().int().min(0).default(d) *)
| RequiredText (message : string)                   (* z.string().min(1, message) *)
| OptionalText                                      (* z.string().min(1).optional() *)
| TextDefault (d : string).                         (* z.string().min(1).default(d) *)

Inductive value := VText (s : string) | VInt (n : Z) | VUndefined.

(** [parse_field s v]: the value of a variable, [None] for an issue. *)
Class EnvZod := {
  parse_field : field_schema -> option string -> option value;
  zod_enum values d v r :
    parse_field (EnumDefault values d) v = Some r <->
    (v = None /\ r = VText d) \/ (exists s, v = Some s /\ s ∈ values /\ r = VText s);
  zod_default_positive d : parse_field (PositiveDefault d) None = Some (VInt d);
  zod_positive d s r :
    parse_field (PositiveDefault d) (Some s) = Some r -> exists n, r = VInt n /\ 0 < n;
  zod_default_natural d : parse_field (NaturalDefault d) None = Some (VInt d);
  zod_natural d s r :
    parse_field (NaturalDefault d) (Some s) = Some r -> exists n, r = VInt n /\ 0 <= n;
  zod_required m v r :
    parse_field (RequiredText m) v = Some r <-> exists s, v = Some s /\ s <> "" /\ r = VText s;
  zod_optional v r :
    parse_field OptionalText v = Some r <->
    (v = None /\ r = VUndefined) \/ (exists s, v = Some s /\ s <> "" /\ r = VText s);
  zod_text_default d v r :
    parse_field (TextDefault d) v = Some r <->
    (v = None /\ r = VText d) \/ (exists s, v = Some s /\ s <> "" /\ r = VText s) }.

Definition as_text (v : value) : string := match v with VText s => s | _ => "" end.
Definition as_int (v : value) : Z := match v with VInt n => n | _ => 0 end.
Definition as_option (v : value) : option string := match v with VText s => Some s | _ => None end.

Definition environments : list string := ["development"; "test"; "production"].

Section config.
Context `{EnvZod}.

(** The members of a [z.object] that are read from [process.env]. *)
Definition field (E : environment) (name : string) (s : field_schema) : option value :=
  parse_field s (E name).

(** ** apps/api/src/config/env.ts *)

Record api_config := mkApiConfig {
  api_env : Env;                         (* what the routes read *)
  api_port : Z;
  api_database_url : string;
  api_rabbitmq_url : string;
  api_json_body_limit : string }.

(** [envSchema.safeParse(process.env)] *)
Definition parse_api_env (E : environment) : option api_config :=
  node_env ← field E "NODE_ENV" (EnumDefault environments "development");
  port ← field E "PORT" (PositiveDefault 3000);
  database_url ← field E "DATABASE_URL" (RequiredText "DATABASE_URL is required");
  rabbitmq_url ← field E "RABBITMQ_URL" (RequiredText "RABBITMQ_URL is required");
  delay ← field E "REPLAY_TEST_DELAY_MS" (NaturalDefault 0);
  capacity ← field E "RATE_LIMIT_CAPACITY" (PositiveDefault 100);
  window ← field E "RATE_LIMIT_WINDOW_SECONDS" (PositiveDefault 60);
  threshold ← field E "BACKPRESSURE_THRESHOLD" (PositiveDefault 50);
  api_key ← field E "API_KEY" OptionalText;
  origins ← field E "CORS_ALLOWED_ORIGINS" OptionalText;
  limit ← field E "JSON_BODY_LIMIT" (TextDefault "100kb");
  Some (mkApiConfig
    (mkEnv (as_text node_env) (as_int delay) (as_int capacity) (as_int window) (as_int threshold)
       (as_option api_key) (as_option origins))
    (as_int port) (as_text database_url) (as_text rabbitmq_url) (as_text limit)).

(** The module: its [env], or the code of [process.exit]. *)
Definition load_api_env (E : environment) : res Z api_config :=
  match parse_api_env E with
  | None => Err 1
  | Some cfg =>
      match missing_in_production (api_env cfg) with
      | [] => Ok cfg
      | _ => Err 1
      end
  end.

(** ** apps/worker/src/config/env.ts *)

Record worker_config := mkWorkerConfig {
  wk_node_env : string;
  wk_database_url : string;
  wk_rabbitmq_url : string;
  wk_claim_sync : Z;                     (* CLAIM_TEST_SYNC_EPOCH_MS *)
  wk_port : Z }.

Definition load_worker_env (E : environment) : res Z worker_config :=
  match
    node_env ← field E "NODE_ENV" (EnumDefault environments "development");
    database_url ← field E "DATABASE_URL" (RequiredText "DATABASE_URL is required");
    rabbitmq_url ← field E "RABBITMQ_URL" (RequiredText "RABBITMQ_URL is required");
    sync ← field E "CLAIM_TEST_SYNC_EPOCH_MS" (NaturalDefault 0);
    port ← field E "PORT" (PositiveDefault 3001);
    Some (mkWorkerConfig (as_text node_env) (as_text database_url) (as_text rabbitmq_url)
            (as_int sync) (as_int port))
  with
  | None => Err 1
  | Some cfg => Ok cfg
  end.

(** ** What is accepted *)

Lemma positive_field E name d v :
  0 < d -> field E name (PositiveDefault d) = Some v -> 0 < as_int v.
Proof.
  unfold field. intros Hd. destruct (E name) as [s|].
  - intros (n & -> & Hn)%zod_positive. done.
  - rewrite zod_default_positive. by intros [= <-].
Qed.

Lemma natural_field E name d v :
  0 <= d -> field E name (NaturalDefault d) = Some v -> 0 <= as_int v.
Proof.
  unfold field. intros Hd. destruct (E name) as [s|].
  - intros (n & -> & Hn)%zod_natural. done.
  - rewrite zod_default_natural. by intros [= <-].
Qed.

Lemma optional_field E name v : field E name OptionalText = Some v -> as_option v = E name.
Proof. intros [[-> ->]|(s & -> & _ & ->)]%zod_optional; done. Qed.

Lemma enum_field E v :
  field E "NODE_ENV" (EnumDefault environments "development") = Some v ->
  as_text v ∈ environments /\ as_text v = default "development" (E "NODE_ENV").
Proof.
  unfold field. intros [[-> ->]|(s & -> & Hs & ->)]%zod_enum; simpl; [|done].
  split; [left|done].
Qed.

(** What the code of the API may rely on once it has started. *)
Record api_started (E : environment) (cfg : api_config) : Prop := {
  st_node_env : NODE_ENV (api_env cfg) = default "development" (E "NODE_ENV")
                /\ NODE_ENV (api_env cfg) ∈ environments;
  st_key : API_KEY (api_env cfg) = E "API_KEY";
  st_origins : CORS_ALLOWED_ORIGINS (api_env cfg) = E "CORS_ALLOWED_ORIGINS";
  st_capacity : 0 < RATE_LIMIT_CAPACITY (api_env cfg);
  st_window : 0 < RATE_LIMIT_WINDOW_SECONDS (api_env cfg);
  st_threshold : 0 < BACKPRESSURE_THRESHOLD (api_env cfg);
  st_delay : 0 <= REPLAY_TEST_DELAY_MS (api_env cfg);
  st_port : 0 < api_port cfg;
  st_urls : truthy (E "DATABASE_URL") = true /\ truthy (E "RABBITMQ_URL") = true;
  st_production : NODE_ENV (api_env cfg) = "production" ->
    truthy (E "API_KEY") = true /\ truthy (E "CORS_ALLOWED_ORIGINS") = true }.

Lemma truthy_text s : s <> "" -> truthy (Some s) = true.
Proof. intros Hs. simpl. by destruct (String.eqb_spec s ""). Qed.

Lemma load_api_started E cfg : load_api_env E = Ok cfg -> api_started E cfg.
Proof.
  unfold load_api_env. destruct (parse_api_env E) as [cfg'|] eqn:Hp; [|done].
  destruct (missing_in_production (api_env cfg')) eqn:Hm; [|done]. intros [= ->].
  unfold parse_api_env in Hp. revert Hp.
  intros (v1 & [H1 H1']%enum_field & (v2 & H2%positive_field & Hp)%bind_Some)%bind_Some; [|lia].
  apply bind_Some in Hp as (v3 & (u3 & E3 & N3 & ->)%zod_required & Hp).
  apply bind_Some in Hp as (v4 & (u4 & E4 & N4 & ->)%zod_required & Hp).
  apply bind_Some in Hp as (v5 & H5%natural_field & Hp); [|lia].
  apply bind_Some in Hp as (v6 & H6%positive_field & Hp); [|lia].
  apply bind_Some in Hp as (v7 & H7%positive_field & Hp); [|lia].
  apply bind_Some in Hp as (v8 & H8%positive_field & Hp); [|lia].
  apply bind_Some in Hp as (v9 & H9%optional_field & Hp).
  apply bind_Some in Hp as (v10 & H10%optional_field & Hp).
  apply bind_Some in Hp as (v11 & _ & [= <-]). simpl in *.
  split; simpl; try done.
  - split; by rewrite ?E3, ?E4; apply truthy_text.
  - intros Hprod. unfold missing_in_production in Hm. simpl in Hm.
    rewrite Hprod, String.eqb_refl, H9, H10 in Hm.
    by destruct (truthy (E "API_KEY")), (truthy (E "CORS_ALLOWED_ORIGINS")).
Qed.

(** The API starts with nothing but the two addresses set. *)
Lemma load_api_defaults E :
  (forall name, name <> "DATABASE_URL" -> name <> "RABBITMQ_URL" -> E name = None) ->
  truthy (E "DATABASE_URL") = true -> truthy (E "RABBITMQ_URL") = true ->
  load_api_env E = Ok (mkApiConfig (mkEnv "development" 0 100 60 50 None None) 3000
                         (default "" (E "DATABASE_URL")) (default "" (E "RABBITMQ_URL")) "100kb").
Proof.
  intros Hnone Hd Hr. unfold load_api_env, parse_api_env, field.
  rewrite (Hnone "NODE_ENV"), (Hnone "PORT"), (Hnone "REPLAY_TEST_DELAY_MS"),
    (Hnone "RATE_LIMIT_CAPACITY"), (Hnone "RATE_LIMIT_WINDOW_SECONDS"),
    (Hnone "BACKPRESSURE_THRESHOLD"), (Hnone "API_KEY"), (Hnone "CORS_ALLOWED_ORIGINS"),
    (Hnone "JSON_BODY_LIMIT") by done.
  rewrite (proj2 (zod_enum environments "development" None _) (or_introl (conj eq_refl eq_refl))).
  rewrite !zod_default_positive, !zod_default_natural. simpl.
  destruct (E "DATABASE_URL") as [d|]; [|done]. destruct (E "RABBITMQ_URL") as [r|]; [|done].
  simpl in Hd, Hr. apply negb_true_iff, String.eqb_neq in Hd, Hr.
  rewrite (proj2 (zod_required "DATABASE_URL is required" (Some d) (VText d))) by by eexists.
  simpl. rewrite (proj2 (zod_required "RABBITMQ_URL is required" (Some r) (VText r))) by by eexists.
  simpl. rewrite (proj2 (zod_optional None VUndefined)) by by left. simpl.
  by rewrite (proj2 (zod_text_default "100kb" None (VText "100kb"))) by by left.
Qed.
End config.
