(* ===== verification/App.v ===== *)
(** * The application

    apps/api/src/app.ts: from a request to its route.  The body is parsed for
    every request before any route, and errors end in one handler; the routers
    are mounted under /api/health, /api/jobs and /api/stats.  With the
    configuration that the process starts with (Config.v): no request without
    the key changes anything. *)
From S2P Require Import Prelude Json Postgres Amqp Programs Effects Worker Api Lifecycle Transactions Delivery System RateLimiter Http Sample Endpoints Scripts Config.
#[local] Open Scope stdpp_scope.

(** What [express.json()] makes of the request. *)
Inductive raw_body :=
| NoBody                      (* none, or not of type application/json *)
| JsonBody (v : json)
| BadBody (err : js_err).     (* malformed, or larger than the limit *)

(** A request as it arrives: its path split at the slashes. *)
Record incoming := mkIncoming {
  in_method : string;
  in_path : list string;
  in_header : string -> option string;
  in_ip : option string;
  in_body : raw_body }.

Definition routed (r : incoming) (id : string) : request :=
  mkRequest (in_header r) (in_ip r)
    (match in_body r with JsonBody v => Some v | _ => None end) id.

(** Express answers HEAD with the GET route. *)
Definition is_get (m : string) : bool := String.eqb m "GET" || String.eqb m "HEAD".

(** The paths of the three routers, under the prefixes that they are mounted at. *)
Inductive place := Health | Ready | Jobs | JobOf (id : string) | ReplayOf (id : string) | Stats | Nowhere.

Definition place_of (path : list string) : place :=
  match path with
  | ["api"; "health"] => Health
  | ["api"; "health"; "ready"] => Ready
  | ["api"; "jobs"] => Jobs
  | ["api"; "jobs"; id] => JobOf id
  | ["api"; "jobs"; id; "replay"] => ReplayOf id
  | ["api"; "stats"] => Stats
  | _ => Nowhere
  end.

Section app.
Context `{Pg} `{!Zod} {N : Type} `{Number N} {B : Type} `{Broker B}.
Variable env : Env.
Variable l : limiter N.

(** What the package cors answers to OPTIONS requests, and Express to paths
    without a route. *)
Variable preflight : incoming -> response.
Variable not_found : incoming -> response.

Definition handle_request (r : incoming) (nowMs : N) (buckets : gmap string (Bucket N))
  : async response * gmap string (Bucket N) :=
  let answer (x : response) : async response * gmap string (Bucket N) := (Ret x, buckets) in
  let GET_route (p : async response) :=
    if is_get (in_method r) then (with_error_handler env p, buckets) else answer (not_found r) in
  let POST_route (p : gmap string (Bucket N) -> async response * gmap string (Bucket N)) :=
    if String.eqb (in_method r) "POST" then p buckets else answer (not_found r) in
  if String.eqb (in_method r) "OPTIONS" then answer (preflight r)
  else
    match in_body r with
    | BadBody err => answer (internal_error env err)
    | _ =>
        match place_of (in_path r) with
        | Health => GET_route (Ret get_health)
        | Ready => GET_route ready_route
        | Jobs =>
            if is_get (in_method r) then GET_route get_jobs
            else POST_route (POST_jobs env l (routed r "") nowMs)
        | JobOf id => GET_route (get_job (routed r id))
        | ReplayOf id => POST_route (POST_replay env l (routed r id) nowMs)
        | Stats => GET_route get_stats
        | Nowhere => answer (not_found r)
        end
    end.

(** ** Reads *)

(** Nothing but what a read leaves behind: the log. *)
Definition untouched (w w' : world B) : Prop :=
  w_db w' = w_db w /\ w_tx w' = w_tx w /\ same_rest w w'.

Lemma wp_read_route {R} s (f : stmt_rows s -> async R) w :
  read_only s = true -> (forall rows w', wp any_choice (f rows) (fun _ w'' => w'' = w') w') ->
  wp any_choice (bind (await (Query s)) f) (fun _ w' => untouched w w') w.
Proof.
  intros Hs Hf. apply wp_read; [done| |by intros e w' Hd Ht Hr].
  intros c rows w' _ Hd Ht Hr. eapply wp_mono; [|apply Hf]. by intros r w'' ->.
Qed.

Lemma untouched_refl w : untouched w w.
Proof. by repeat split. Qed.

Lemma route_untouched (p : async response) w :
  wp any_choice p (fun _ w' => untouched w w') w ->
  wp any_choice (with_error_handler env p) (fun _ w' => untouched w w') w.
Proof.
  intros Hp. apply wp_try_catch. eapply wp_mono; [|exact Hp]. by intros [r|e] w' Hw.
Qed.

Lemma get_jobs_untouched w : wp any_choice get_jobs (fun _ w' => untouched w w') w.
Proof. by apply (wp_read_route SListRecentJobs). Qed.

Lemma get_stats_untouched w : wp any_choice get_stats (fun _ w' => untouched w w') w.
Proof.
  apply wp_bind. apply wp_read; [done| |by intros e w' Hd Ht Hr].
  intros c rows w' _ Hd Ht Hr. by destruct (head _).
Qed.

Lemma get_job_untouched req w : wp any_choice (get_job req) (fun _ w' => untouched w w') w.
Proof.
  unfold get_job. destruct (safeParse _ _) as [data|e]; [|by apply untouched_refl].
  apply wp_bind, wp_read; [done| |by intros e w' Hd Ht Hr].
  intros c rows w' _ Hd Ht Hr. simpl. by destruct (head _).
Qed.

(** An effect that reads, or checks the channel, whatever it comes to. *)
Lemma handle_check c o w :
  match o with GetChannel | CheckQueue _ => True | Query s => read_only s = true | _ => False end ->
  untouched w (handle c o w).2.
Proof.
  destruct o; try done; intros Ho.
  - pose proof (handle_read c s w Ho) as Hh. destruct (handle c (Query s) w) as [x w'].
    destruct Hh as (? & ? & ? & _). by split.
  - unfold handle, effect. simpl. destruct (ch_fault c) as [[[] e]|]; by repeat split.
  - unfold handle, effect. simpl. destruct (ch_fault c) as [[[] e]|]; by repeat split.
Qed.

Lemma untouched_trans w1 w2 w3 : untouched w1 w2 -> untouched w2 w3 -> untouched w1 w3.
Proof.
  intros (Hd1 & Ht1 & Hr1) (Hd2 & Ht2 & Hr2). split; [congruence|]. split; [congruence|].
  by eapply same_rest_trans.
Qed.

(** Whatever the checks come to, the readiness route answers it, and changes
    nothing. *)
Lemma ready_untouched w :
  wp any_choice ready_route (fun r w' => untouched w w' /\ exists pg mq, r = Ok (get_ready pg mq)) w.
Proof.
  unfold ready_route, settled, checkRabbitMQHealth. simpl. intros c1 _.
  pose proof (handle_check c1 (Query SSelectOne) w eq_refl) as H1'. unfold perform, world_semantics.
  destruct (handle c1 (Query SSelectOne) w) as [x1 w1]. simpl in H1'.
  assert (forall pg, wp any_choice
    (let! mq := settled checkRabbitMQHealth in Ret (get_ready pg mq) : async response)
    (fun r w' => untouched w w' /\ exists pg mq, r = Ok (get_ready pg mq)) w1) as Hmq.
  { intros pg c2 _. unfold perform, world_semantics.
    pose proof (handle_check c2 GetChannel w1 I) as H2'.
    destruct (handle c2 GetChannel w1) as [x2 w2]. simpl in H2'.
    pose proof (untouched_trans _ _ _ H1' H2') as H12.
    destruct x2 as [[]|e2]; simpl; [|split; [done|by eexists _, _]]. intros c3 _.
    unfold perform, world_semantics. pose proof (handle_check c3 (CheckQueue QUEUE_NAME) w2 I) as H3'.
    destruct (handle c3 (CheckQueue QUEUE_NAME) w2) as [x3 w3]. simpl in H3'.
    pose proof (untouched_trans _ _ _ H12 H3') as H13.
    destruct x3; simpl; (split; [done|by eexists _, _]). }
  destruct x1; apply Hmq.
Qed.

(** Without the key, neither POST route is reached. *)
Lemma no_key_refused req key :
  API_KEY env = Some key -> truthy (Some key) = true -> rq_header req API_KEY_HEADER <> Some key ->
  requireApiKey env req = Some unauthorized.
Proof.
  intros Hkey Ht Hreq. unfold requireApiKey. rewrite Hkey. simpl in Ht.
  destruct (String.eqb key ""); [done|]. destruct (rq_header req API_KEY_HEADER) as [p|]; [|done].
  destruct (String.eqb_spec p key) as [->|]; [done|]. by rewrite andb_false_r.
Qed.

Lemma app_untouched r nowMs buckets w :
  (forall id, requireApiKey env (routed r id) = Some unauthorized) ->
  let (p, buckets') := handle_request r nowMs buckets in
  buckets' = buckets /\ wp any_choice p (fun _ w' => untouched w w') w.
Proof.
  intros Hkey.
  assert (forall x : response, wp any_choice (Ret x : async response) (fun _ w' => untouched w w') w) as Hret
    by (intros x; apply untouched_refl).
  assert (forall id h, limited env l (routed r id) nowMs h buckets = (Ret unauthorized, buckets)) as Hpost
    by (intros id h; unfold limited; by rewrite Hkey).
  unfold handle_request, POST_jobs, POST_replay.
  destruct (String.eqb (in_method r) "OPTIONS"); [by split|].
  destruct (in_body r); [| |by split].
  all: destruct (place_of (in_path r)); destruct (is_get (in_method r));
    try destruct (String.eqb (in_method r) "POST"); rewrite ?Hpost; (split; [done|]);
    try apply Hret; apply route_untouched;
    first [apply Hret | apply get_jobs_untouched | apply get_job_untouched | apply get_stats_untouched
          | eapply wp_mono; [|apply ready_untouched]; by intros r' w' [? _]].
Qed.

(** C11: nothing changes without the operator key.  In a production API, that is
    with any configuration that the process starts with, a request that does
    not carry the configured key, whatever its method, path and body, changes
    neither the tables nor the broker nor any client's tokens, and opens no
    transaction, whatever fails; and on the two POST routes it is answered
    401. *)
Theorem production_requires_key `{!EnvZod} E cfg r nowMs buckets w cs :
  load_api_env E = Ok cfg -> api_env cfg = env -> NODE_ENV env = "production" ->
  in_header r API_KEY_HEADER <> E "API_KEY" ->
  exists resp w' cs', run (handle_request r nowMs buckets).1 cs w = (resp, w', cs')
    /\ (handle_request r nowMs buckets).2 = buckets
    /\ untouched w w'
    /\ (in_method r = "POST" -> (forall err, in_body r <> BadBody err) ->
        (place_of (in_path r) = Jobs \/ exists id, place_of (in_path r) = ReplayOf id) ->
        resp = Ok unauthorized).
Proof.
  intros Hload Henv Hprod Hreq. pose proof (load_api_started _ _ Hload) as Hst.
  assert (exists key, API_KEY env = Some key /\ truthy (Some key) = true
                      /\ in_header r API_KEY_HEADER <> Some key) as (key & Hkey & Ht & Hne).
  { rewrite <- Henv in Hprod |- *. destruct (st_production _ _ Hst Hprod) as [Ht _].
    rewrite (st_key _ _ Hst). destruct (E "API_KEY") as [key|]; [by exists key|done]. }
  assert (forall id, requireApiKey env (routed r id) = Some unauthorized) as Href
    by (intros id; by apply (no_key_refused _ key)).
  pose proof (app_untouched r nowMs buckets w Href) as Hun.
  destruct (handle_request r nowMs buckets) as [p buckets'] eqn:Happ. destruct Hun as [-> Hp].
  apply (wp_run any_choice _ _ _ cs) in Hp; [|done]. simpl.
  destruct (run p cs w) as [[resp w'] cs'] eqn:Hrun. exists resp, w', cs'.
  split; [done|]. split; [done|]. split; [done|]. intros Hpost Hbody Hplace.
  assert (p = Ret unauthorized) as ->.
  { revert Happ. unfold handle_request, POST_jobs, POST_replay, limited. rewrite Hpost.
    destruct (in_body r) as [| |err] eqn:Hb; [| |by destruct (Hbody err)];
      (destruct Hplace as [-> | [id ->]]); simpl; rewrite Href; by intros [= <-]. }
  simpl in Hrun. by injection Hrun as <- _ _.
Qed.

(** The body of a request is read before its route, and what is wrong with
    it is answered by the handler of unexpected errors: any request whose body
    cannot be parsed, whatever its path, gets 500, not the client's error 400
    or 413 that [express.json()] reports, and has no other effect. *)
Theorem bad_body_answers_500 r err nowMs buckets :
  in_body r = BadBody err -> in_method r <> "OPTIONS" ->
  handle_request r nowMs buckets = (Ret (internal_error env err), buckets)
  /\ status (internal_error env err) = 500.
Proof.
  intros Hb Hm. unfold handle_request. rewrite Hb. by destruct (String.eqb_spec (in_method r) "OPTIONS").
Qed.
End app.

(** ** The properties, on a concrete configuration *)

(** Decimal digits. *)
Fixpoint digits (s : string) (acc : Z) : option Z :=
  match s with
  | EmptyString => Some acc
  | String a s' =>
      let n := Z.of_nat (Ascii.nat_of_ascii a) in
      if (48 <=? n) && (n <=? 57) then digits s' (10 * acc + (n - 48)) else None
  end.

Definition checked_int (ok : Z -> bool) (d : Z) (v : option string) : option value :=
  match v with
  | None => Some (VInt d)
  | Some s => n ← digits s 0; if ok n then Some (VInt n) else None
  end.

Definition checked_text (d : option value) (v : option string) : option value :=
  match v with
  | None => d
  | Some s => if String.eqb s "" then None else Some (VText s)
  end.

Lemma checked_text_ok d v r :
  checked_text d v = Some r <->
  (v = None /\ d = Some r) \/ exists s, v = Some s /\ s <> "" /\ r = VText s.
Proof.
  destruct v as [s|]; simpl; [|naive_solver].
  destruct (String.eqb_spec s "") as [->|Hs]; split; intros Hx.
  - done.
  - destruct Hx as [[[=] _]|(x & [= <-] & Hne & _)]. done.
  - injection Hx as <-. right. by exists s.
  - destruct Hx as [[[=] _]|(x & [= <-] & _ & ->)]. done.
Qed.

#[export, refine] Instance sample_env_zod : EnvZod := {|
  parse_field s v :=
    match s with
    | EnumDefault values d =>
        match v with
        | None => Some (VText d)
        | Some x => if bool_decide (x ∈ values) then Some (VText x) else None
        end
    | PositiveDefault d => checked_int (fun n => 0 <? n) d v
    | NaturalDefault d => checked_int (fun n => 0 <=? n) d v
    | RequiredText _ => checked_text None v
    | OptionalText => checked_text (Some VUndefined) v
    | TextDefault d => checked_text (Some (VText d)) v
    end |}.
Proof.
  - intros values d [x|] r; simpl; [|naive_solver].
    case_bool_decide; naive_solver.
  - done.
  - intros d s r. simpl. destruct (digits s 0) as [n|]; [|done]. simpl.
    destruct (0 <? n) eqn:Hn; [|done]. intros [= <-]. exists n. split; [done|lia].
  - done.
  - intros d s r. simpl. destruct (digits s 0) as [n|]; [|done]. simpl.
    destruct (0 <=? n) eqn:Hn; [|done]. intros [= <-]. exists n. split; [done|lia].
  - intros m v r. rewrite checked_text_ok. naive_solver.
  - intros v r. rewrite checked_text_ok. naive_solver.
  - intros d v r. rewrite checked_text_ok. naive_solver.
Defined.

Definition production_variables (name : string) : option string :=
  if String.eqb name "NODE_ENV" then Some "production"
  else if String.eqb name "DATABASE_URL" then Some "postgres://db"
  else if String.eqb name "RABBITMQ_URL" then Some "amqp://mq"
  else if String.eqb name "API_KEY" then Some "operator-key"
  else if String.eqb name "CORS_ALLOWED_ORIGINS" then Some "https://a.example"
  else if String.eqb name "RATE_LIMIT_CAPACITY" then Some "25"
  else None.

Definition production_config : api_config :=
  mkApiConfig (mkEnv "production" 0 25 60 50 (Some "operator-key") (Some "https://a.example"))
    3000 "postgres://db" "amqp://mq" "100kb".

(** A replay with the wrong key. *)
Definition intruder : incoming :=
  mkIncoming "POST" ["api"; "jobs"; uuid_a; "replay"]
    (fun h => if String.eqb h "x-api-key" then Some "guess" else None) (Some "10.0.0.9") NoBody.

Definition nothing_there (r : incoming) : response := mkResponse 404 [] (BJson JNull).

Lemma production_requires_key_witness :
  exists resp w' cs',
    run (handle_request (api_env production_config) open_limiter nothing_there nothing_there
           intruder 0%Q drained).1 (fun _ => calm 3000000 uuid_b) (one_job_world dead_a) = (resp, w', cs')
    /\ (handle_request (api_env production_config) open_limiter nothing_there nothing_there
           intruder 0%Q drained).2 = drained
    /\ untouched (one_job_world dead_a) w'
    /\ (in_method intruder = "POST" -> (forall err, in_body intruder <> BadBody err) ->
        (place_of (in_path intruder) = Jobs \/ exists id, place_of (in_path intruder) = ReplayOf id) ->
        resp = Ok unauthorized).
Proof.
  apply (production_requires_key (api_env production_config) open_limiter
           nothing_there nothing_there production_variables production_config intruder 0%Q drained
           (one_job_world dead_a) (fun _ => calm 3000000 uuid_b)).
  - vm_compute. reflexivity.
  - reflexivity.
  - reflexivity.
  - discriminate.
Defined.

Definition garbled : incoming :=
  mkIncoming "POST" ["api"; "jobs"] (fun _ => None) (Some "10.0.0.9")
    (BadBody (JsErr CError "SyntaxError" "Unexpected token" None [])).

Lemma bad_body_answers_500_witness :
  let err := JsErr CError "SyntaxError" "Unexpected token" None [] in
  handle_request (api_env production_config) open_limiter nothing_there nothing_there
    garbled 0%Q drained = (Ret (internal_error (api_env production_config) err), drained)
  /\ status (internal_error (api_env production_config) err) = 500.
Proof. apply bad_body_answers_500; [reflexivity|discriminate]. Defined.
