(* ===== verification/Proxy.v ===== *)
(** * Who a client is, behind the proxy

    apps/api/src/app.ts sets Express's [trust proxy], so that [req.ip], by which the
    rate limiter tells clients apart, is read from X-Forwarded-For;
    apps/dashboard/nginx.conf.template appends the address that it sees.  With one
    proxy in front of the API no header that a client sends changes its bucket;
    with none, or with two, it is otherwise. *)
From Stdlib Require Import SpecFloat.
From S2P Require Import Prelude Json Postgres Amqp Programs Effects Worker Api RateLimiter Http Limits Endpoints App.
#[local] Open Scope stdpp_scope.

(** The entries of an X-Forwarded-For header from left to right, Express's
    resolution of [req.ip] for a number of trusted hops, and nginx's variable
    $proxy_add_x_forwarded_for. *)
Class Proxies := {
  address : string -> Prop;            (* the text of an address: no comma, no space *)
  forwarded : string -> list string;
  forwarded_one a : address a -> forwarded a = [a];
  forwarded_append h a : address a -> forwarded (h +:+ ", " +:+ a) = forwarded h ++ [a];
  (** the socket's address is the first hop, the others are looked for in the
      header from right to left *)
  req_ip : nat -> string -> option string -> option string;
  req_ip_hops hops peer xff :
    let entries := match xff with Some h => forwarded h | None => [] end in
    req_ip hops peer xff = (peer :: reverse entries) !! min hops (List.length entries);
  proxy_add_x_forwarded_for : option string -> string -> string;
  proxy_add_none a : proxy_add_x_forwarded_for None a = a;
  proxy_add_some h a : proxy_add_x_forwarded_for (Some h) a = h +:+ ", " +:+ a }.

Definition TRUST_PROXY_HOPS : nat := 1.

Section proxy.
Context `{Proxies}.

(** A request on a socket whose other end is [peer], as the routes see it. *)
Definition received_from (peer : string) (r : incoming) : incoming :=
  mkIncoming (in_method r) (in_path r) (in_header r)
    (req_ip TRUST_PROXY_HOPS peer (in_header r "x-forwarded-for")) (in_body r).

(** [proxy_set_header X-Forwarded-For $proxy_add_x_forwarded_for], for a request
    that came from [remote_addr]. *)
Definition proxy_set_header (remote_addr : string) (r : incoming) : incoming :=
  mkIncoming (in_method r) (in_path r)
    (fun name => if String.eqb name "x-forwarded-for"
                 then Some (proxy_add_x_forwarded_for (in_header r name) remote_addr)
                 else in_header r name) (in_ip r) (in_body r).

(** From the client [remote_addr] through nginx, which is at [nginx]. *)
Definition through_nginx (nginx remote_addr : string) (r : incoming) : incoming :=
  received_from nginx (proxy_set_header remote_addr r).

Lemma forwarded_by_proxy xff a :
  address a -> exists l, forwarded (proxy_add_x_forwarded_for xff a) = l ++ [a].
Proof.
  intros Ha. destruct xff as [h|].
  - rewrite proxy_add_some, forwarded_append by done. by eexists.
  - rewrite proxy_add_none, forwarded_one by done. by exists [].
Qed.

Lemma ip_through_nginx nginx remote_addr r :
  address remote_addr -> in_ip (through_nginx nginx remote_addr r) = Some remote_addr.
Proof.
  intros Ha. simpl. rewrite req_ip_hops.
  destruct (forwarded_by_proxy (in_header r "x-forwarded-for") remote_addr Ha) as [l ->].
  rewrite reverse_app, length_app. simpl. by rewrite Nat.add_comm.
Qed.

Section identify.
Variable env : Env.
Hypothesis production : NODE_ENV env = "production".

(** In production the client of a request through nginx is the address that
    nginx saw, whatever headers the request has. *)
Lemma client_identified nginx remote_addr r id :
  address remote_addr ->
  defaultIdentify env (routed (through_nginx nginx remote_addr r) id) = remote_addr.
Proof.
  intros Ha. unfold defaultIdentify. rewrite production. cbn [String.eqb Ascii.eqb Bool.eqb].
  unfold routed. cbn [rq_ip]. by rewrite ip_through_nginx.
Qed.

(** A client that reaches the API itself is whoever its header says. *)
Theorem direct_client_names_itself peer r name id :
  address name -> in_header r "x-forwarded-for" = Some name ->
  defaultIdentify env (routed (received_from peer r) id) = name.
Proof.
  intros Ha Hh. unfold defaultIdentify. rewrite production. cbn [String.eqb Ascii.eqb Bool.eqb].
  unfold routed. cbn [rq_ip received_from in_ip]. rewrite req_ip_hops, Hh, forwarded_one by done.
  reflexivity.
Qed.

(** Behind a second proxy that appends to the header as well, all clients are
    one: the address of the first proxy. *)
Theorem second_proxy_merges_clients edge nginx remote_addr r id :
  address nginx ->
  defaultIdentify env (routed (through_nginx edge nginx (proxy_set_header remote_addr r)) id) = nginx.
Proof. intros Ha. by apply client_identified. Qed.
End identify.

(** ** One client among others *)

Section buckets.
Context {N : Type} `{Number N}.
Variable l : limiter N.

(** What the limiter does with a client depends on, and changes, its bucket. *)
Lemma rateLimiter_local key t (m m2 : gmap string (Bucket N)) :
  m !! key = m2 !! key -> exists r b,
  rateLimiter l key t m = (r, <[key := b]> m) /\ rateLimiter l key t m2 = (r, <[key := b]> m2).
Proof.
  intros Hm. unfold rateLimiter, getOrRefillBucket. rewrite <- Hm.
  destruct (m !! key) as [b|] eqn:Hb; [destruct (num_ltb _ _)|];
    destruct (num_leb (num_of_Z 1) (tokens _));
    rewrite ?insert_insert_eq; by eexists _, _.
Qed.

(** The answers to the requests of one client. *)
Definition answers_to (key : string) (rs : list (string * N)) (passed : list bool) : list bool :=
  (filter (fun x => x.1.1 = key) (zip rs passed)).*2.

Lemma requests_of key rs (m m2 : gmap string (Bucket N)) :
  m !! key = m2 !! key ->
  (requests l (filter (fun r => r.1 = key) rs) m2).1 = answers_to key rs (requests l rs m).1.
Proof.
  revert m m2. induction rs as [|[k t] rs IH]; intros m m2 Hm; [done|]. cbn [requests].
  rewrite filter_cons. cbn [fst]. destruct (decide (k = key)) as [->|Hne].
  - destruct (rateLimiter_local key t m m2 Hm) as (r & b & Hr & Hr2). cbn [requests].
    rewrite Hr, Hr2.
    specialize (IH (<[key := b]> m) (<[key := b]> m2)). rewrite !lookup_insert_eq in IH.
    destruct (requests l rs (<[key := b]> m)) as [p m'], (requests l (filter _ rs) _) as [p2 m2'].
    unfold answers_to. cbn [zip zip_with fst]. rewrite filter_cons_True by done.
    cbn [fmap list_fmap]. f_equal. by apply IH.
  - destruct (rateLimiter_local k t m m eq_refl) as (r & b & Hr & _). rewrite Hr.
    specialize (IH (<[k := b]> m) m2). rewrite lookup_insert_ne in IH by done.
    destruct (requests l rs (<[k := b]> m)) as [p m'].
    unfold answers_to. cbn [zip zip_with fst]. rewrite filter_cons_False by done. by apply IH.
Qed.
End buckets.

(** A request that comes to the limiter: who sent it to nginx, and when. *)
Record arrival (N : Type) := mkArrival { sender : string; sent_request : incoming; arrived_at : N }.
#[global] Arguments mkArrival {N}.
#[global] Arguments sender {N}.
#[global] Arguments sent_request {N}.
#[global] Arguments arrived_at {N}.

Section isolation.
Variables (env : Env) (nginx : string).
Hypothesis production : NODE_ENV env = "production".

Section arrivals.
Context {N : Type} `{Number N}.
Implicit Types a : arrival N.

Definition limiter_input (a : arrival N) : string * N :=
  (defaultIdentify env (routed (through_nginx nginx (sender a) (sent_request a)) ""), arrived_at a).

(** The answers to the requests of one sender. *)
Definition answers_from (client : string) (rs : list (arrival N)) (passed : list bool) : list bool :=
  (filter (fun x => sender x.1 = client) (zip rs passed)).*2.

Lemma limiter_input_sender a : address (sender a) -> limiter_input a = (sender a, arrived_at a).
Proof. intros Ha. unfold limiter_input. by rewrite client_identified. Qed.

Lemma limiter_inputs client rs :
  Forall (fun a => address (sender a)) rs ->
  filter (fun r => r.1 = client) (limiter_input <$> rs)
    = (fun a => (client, arrived_at a)) <$> filter (fun a => sender a = client) rs
  /\ forall passed, answers_to client (limiter_input <$> rs) passed = answers_from client rs passed.
Proof.
  induction 1 as [|a rs Ha _ [IH1 IH2]]; [done|]. split.
  - rewrite fmap_cons, limiter_input_sender by done. rewrite !filter_cons. cbn [fst].
    destruct (decide (sender a = client)) as [->|]; [|done]. rewrite fmap_cons. by f_equal.
  - intros [|p passed]; [done|]. unfold answers_to, answers_from in *.
    rewrite fmap_cons, limiter_input_sender by done. cbn [zip zip_with]. rewrite !filter_cons.
    cbn [fst]. destruct (decide (sender a = client)); cbn [fmap list_fmap]; by rewrite IH2.
Qed.

(** The answers to one client, among others and alone. *)
Lemma answered_as_alone (l : limiter N) client rs m :
  Forall (fun a => address (sender a)) rs ->
  answers_from client rs (requests l (limiter_input <$> rs) m).1
    = (requests l ((fun a => (client, arrived_at a)) <$> filter (fun a => sender a = client) rs) m).1.
Proof.
  intros Haddr. destruct (limiter_inputs client rs Haddr) as [Hown Hans].
  pose proof (requests_of l client (limiter_input <$> rs) m m eq_refl) as Halone.
  by rewrite Hown, Hans in Halone.
Qed.
End arrivals.

(** C36: each client behind the proxy has a bucket of its own, and no more.  In
    production, of requests that come through nginx in any order, with whatever
    headers, the answers to one client are those it would get if it were alone,
    with the doubles of the program as with any other numbers; and with exact
    numbers, no more of its requests between [t0] and [t1] pass than the capacity
    plus what [t1 - t0] refills. *)
Theorem client_limited_alone client :
  (forall (N : Type) (numbers : Number N) (l : limiter N) rs m,
     Forall (fun a => address (sender a)) rs ->
     answers_from client rs (requests l (limiter_input <$> rs) m).1
       = (requests l ((fun a => (client, arrived_at a)) <$> filter (fun a => sender a = client) rs) m).1)
  /\ (forall (l : limiter Q) t0 t1 rs m,
     Forall (fun a => address (sender a)) rs ->
     (0 < refillTokensPerMs l)%Q -> (1 <= lim_capacity l)%Q -> buckets_ok l m -> (t0 <= t1)%Q ->
     (forall b, m !! client = Some b -> (lastRefillMs b <= t1)%Q) ->
     Forall (fun a => sender a = client -> (t0 <= arrived_at a)%Q /\ (arrived_at a <= t1)%Q) rs ->
     (inject_Z (passed_count (answers_from client rs (requests l (limiter_input <$> rs) m).1))
        <= lim_capacity l + (t1 - t0) * refillTokensPerMs l)%Q).
Proof.
  split; [intros N numbers l rs m; apply answered_as_alone|].
  intros l t0 t1 rs m Haddr Hrate Hcap Hm Ht Hlast Hwithin.
  rewrite answered_as_alone by done.
  destruct (requests l (_ <$> filter _ rs) m) as [p m2] eqn:Hr2. cbn [fst].
  eapply (burst_bounded l client t0 t1); [done..| |exact Hr2].
  apply Forall_fmap, Forall_forall. intros a [Hs Ha]%list_elem_of_filter. cbn [fst snd compose].
  split; [done|]. rewrite Forall_forall in Hwithin. by apply Hwithin.
Qed.
End isolation.
End proxy.

(** ** The laws hold of the documented behaviour *)

(** Entries end at commas, and spaces around them do not count. *)
Definition entries (h : string) : list string := trim <$> split_commas h.

Definition plain_text (a : string) : Prop := split_commas a = [a] /\ trim a = a /\ trim (" " +:+ a) = a.

Lemma split_commas_append h a :
  split_commas (h +:+ "," +:+ a) = split_commas h ++ split_commas a.
Proof.
  induction h as [|c h IH]; [done|]. simpl in *. rewrite IH.
  destruct (Ascii.eqb c _); [done|].
  destruct (split_commas h) as [|x l] eqn:Hh; [|done]. destruct h as [|c' h]; [done|].
  simpl in Hh. destruct (Ascii.eqb c' _); [done|]. by destruct (split_commas h).
Qed.

#[export, refine] Instance documented_proxies : Proxies := {|
  address := plain_text;
  forwarded := entries;
  req_ip hops peer xff :=
    let entries := match xff with Some h => entries h | None => [] end in
    (peer :: reverse entries) !! min hops (List.length entries);
  proxy_add_x_forwarded_for xff a := match xff with Some h => h +:+ ", " +:+ a | None => a end |}.
Proof.
  - intros a (Hs & Ht & _). unfold entries. rewrite Hs. simpl. by rewrite Ht.
  - intros h a (Hs & _ & Ht). unfold entries.
    change (h +:+ ", " +:+ a) with (h +:+ "," +:+ (" " +:+ a)).
    rewrite split_commas_append, fmap_app. f_equal.
    change (split_commas (" " +:+ a)) with
      (match split_commas a with x :: l => (" " +:+ x) :: l | [] => [" "] end).
    rewrite Hs. cbn [fmap list_fmap]. by rewrite Ht.
  - done.
  - done.
  - done.
Defined.

(** Two clients, one of which forges its header; each may send two requests at
    once. *)
Definition forging (xff : string) : incoming :=
  mkIncoming "POST" ["api"; "jobs"]
    (fun name => if String.eqb name "x-forwarded-for" then Some xff else None) None NoBody.

Definition arrivals {N} (at_ : Z -> N) : list (arrival N) :=
  [mkArrival "203.0.113.7" (forging "10.0.0.1") (at_ 0);
   mkArrival "203.0.113.7" (forging "10.0.0.2") (at_ 10);
   mkArrival "198.51.100.9" (forging "10.0.0.1") (at_ 15);
   mkArrival "203.0.113.7" (forging "10.0.0.3") (at_ 20)].

#[local] Existing Instance Double.doubles.

(** With doubles, and with exact numbers. *)
Lemma client_limited_alone_witness :
  (forall l : limiter SpecFloat.spec_float,
     answers_from "203.0.113.7" (arrivals num_of_Z)
       (requests l (limiter_input sample_env "172.18.0.5" <$> arrivals num_of_Z) ∅).1
     = (requests l ((fun a => ("203.0.113.7", arrived_at a)) <$>
          filter (fun a => sender a = "203.0.113.7") (arrivals num_of_Z)) ∅).1)
  /\ (inject_Z (passed_count (answers_from "203.0.113.7" (arrivals inject_Z)
         (requests two_per_minute (limiter_input sample_env "172.18.0.5" <$> arrivals inject_Z) ∅).1))
       <= 2 + (60000 - 0) * (1 # 30000))%Q.
Proof.
  destruct (client_limited_alone sample_env "172.18.0.5" eq_refl "203.0.113.7") as [Halone Hbound].
  split.
  - intros l. apply (Halone _ _ l). repeat constructor.
  - apply (Hbound two_per_minute 0%Q 60000%Q).
    + repeat constructor.
    + reflexivity.
    + discriminate.
    + apply no_buckets_ok.
    + discriminate.
    + intros b Hb. discriminate Hb.
    + repeat constructor; discriminate.
Defined.

Lemma direct_client_names_itself_witness :
  defaultIdentify sample_env (routed (received_from "203.0.113.7" (forging "10.0.0.1")) "") = "10.0.0.1".
Proof. apply (direct_client_names_itself sample_env eq_refl); [repeat constructor|reflexivity]. Defined.
