(* ===== verification/Reading.v ===== *)
(** * What the dashboard reads is what the tables hold

    The dashboard's GET requests (apps/dashboard/src/api/client.ts) through the
    routes of the API (App.v) to the rows, and back as JSON text (Wire.v). *)
From stdpp Require Import pretty.
From S2P Require Import Prelude Json Postgres Amqp Programs Effects Worker Api Lifecycle Transactions Delivery System RateLimiter Http Poller Sample Endpoints Client Page Wire Scripts Config App.
#[local] Open Scope stdpp_scope.

Section reading.
Context `{Pg} `{!Zod} {N : Type} `{Number N} {B : Type} `{Broker B}.
Variables (env : Env) (l : limiter N).
Variables (preflight not_found : incoming -> response).
Implicit Types w : world B.

(** A request of the dashboard for a path, with whatever headers. *)
Definition dashboard_gets (path : list string) (r : incoming) : Prop :=
  in_method r = "GET" /\ in_path r = path /\ in_body r = NoBody.

Definition api_answer (r : incoming) (nowMs : N) (buckets : gmap string (Bucket N))
    (cs : nat -> choice) w : res js_err response * world B * (nat -> choice) :=
  run (handle_request env l preflight not_found r nowMs buckets).1 cs w.

(** What a caller of [request] gets of an answer. *)
Definition read (resp : response) : res failure json := Client.request (Ok (answer_of resp)).

(** [details code]: what holds when the request fails with this status. *)
Definition outcome (resp : response) (value : json -> Prop) (details : Z -> Prop) : Prop :=
  match read resp with
  | Ok v => value v
  | Err (ApiError code _) => details code
  | Err (OtherError _) => False
  end.

Lemma outcome_value resp value details :
  (200 <=? status resp) && (status resp <=? 299) = true -> wf_body (content resp) ->
  value (body_json (content resp)) -> outcome resp value details.
Proof.
  intros Hs Hwf Hv. unfold outcome, read. rewrite answer_of_body by done.
  unfold Client.request, f_ok. cbn [f_status f_json]. by rewrite Hs.
Qed.

Lemma outcome_refused resp (value : json -> Prop) (details : Z -> Prop) :
  (200 <=? status resp) && (status resp <=? 299) = false -> details (status resp) ->
  outcome resp value details.
Proof.
  intros Hs Hd. unfold outcome, read, Client.request, f_ok. cbn [f_status answer_of]. by rewrite Hs.
Qed.

(** A GET route that runs: what it throws is answered 500. *)
Lemma wp_get_route (p : async response) Q w :
  wp any_choice p (fun r w' => match r with
    | Ok resp => Q resp w'
    | Err err => Q (internal_error env err) w'
    end) w ->
  wp any_choice (with_error_handler env p) (fun r w' => exists resp, r = Ok resp /\ Q resp w') w.
Proof.
  intros Hp. apply wp_try_catch. eapply wp_mono; [|exact Hp].
  intros [resp|err] w' Hq; [by exists resp|]. by exists (internal_error env err).
Qed.

(** The details of a job. *)
Definition details_read (id : string) (d : db) (resp : response) : Prop :=
  outcome resp
    (fun v => exists u j, uuid_in id = Some u /\ jobs d !! u = Some j
       /\ forall details, is_detail v details <-> details = detail_of j)
    (fun code =>
       code = 404 /\ (forall u, uuid_in id = Some u -> jobs d !! u = None)
       \/ code = 400 /\ is_ok (safeParse jobIdParamSchema (Some (JStr id))) = false
       \/ code = 500).

Definition payloads_ok (d : db) : Prop := map_Forall (fun _ j => wf_json (j_payload j) = true) (jobs d).

Lemma wp_get_job req w :
  payloads_ok (w_db w) ->
  wp any_choice (with_error_handler env (get_job req)) (fun r w' => exists resp, r = Ok resp
    /\ untouched w w' /\ details_read (rq_id req) (w_db w) resp) w.
Proof.
  intros Hok. apply (wp_get_route _ (fun resp w' => untouched w w' /\ details_read (rq_id req) (w_db w) resp)).
  assert (forall err w', untouched w w' ->
    untouched w w' /\ details_read (rq_id req) (w_db w) (internal_error env err)) as Herr.
  { intros err w' Hw. split; [done|]. apply outcome_refused; [done|]. by right; right. }
  unfold get_job. destruct (safeParse jobIdParamSchema (Some (JStr (rq_id req)))) as [data|e] eqn:Hp.
  2: { split; [apply untouched_refl|]. apply outcome_refused; [done|]. right. left.
       by rewrite Hp. }
  apply zod_uuid in Hp as (s & [= <-] & -> & [u Hu]). cbn [as_id].
  apply wp_bind, wp_read; [done| |by intros e w' Hd Ht Hr; apply Herr].
  intros c rows w' Hexec Hd Ht Hr. cbn [wp holds].
  assert (untouched w w') as Hw by by split.
  cbn [exec] in Hexec. unfold select_job_by_id, text_param in Hexec.
  rewrite pg_param_string in Hexec. cbn [id_param] in Hexec. rewrite Hu in Hexec. injection Hexec as <-.
  destruct (jobs (w_db w) !! u) as [j|] eqn:Hj; cbn [head wp holds]; (split; [exact Hw|]).
  - apply outcome_value; [done|by apply (Hok u j)|]. exists u, j. split; [done|]. split; [done|].
    intros details. split; [|intros ->; apply is_detail_job].
    intros Hdet. eapply is_detail_unique; [exact Hdet|apply is_detail_job].
  - apply outcome_refused; [done|]. left. split; [done|]. intros u' Hu'. rewrite Hu in Hu'. by injection Hu' as <-.
Qed.

(** C21: the details that the dashboard reads are those of the row.  Whatever
    fails at the API, GET /api/jobs/:id changes nothing and answers; the text of a
    200 is read by the dashboard as the row of that job at this moment, every
    member with the value of its column and in no other way; 404 means that there is
    no such row, 400 that the id is no uuid; anything else is 500. *)
Theorem job_details_read_back r id nowMs buckets w cs :
  dashboard_gets ["api"; "jobs"; id] r -> payloads_ok (w_db w) ->
  exists resp w' cs', api_answer r nowMs buckets cs w = (Ok resp, w', cs')
    /\ untouched w w' /\ details_read id (w_db w) resp.
Proof.
  intros (Hm & Hp & Hb) Hok. unfold api_answer, handle_request. rewrite Hm, Hp, Hb.
  cbn [String.eqb Ascii.eqb Bool.eqb place_of is_get orb fst].
  pose proof (wp_run any_choice _ _ w cs ltac:(done) (wp_get_job (routed r id) w Hok)) as Hwp.
  destruct (run _ cs w) as [[x w'] cs']. destruct Hwp as (resp & -> & Hw & Hd).
  by exists resp, w', cs'.
Qed.

(** An object of the list, as [interface RecentJob] of the dashboard says. *)
Record is_recent (v : json) (r : Page.RecentJob) : Prop := {
  recent_id : get_prop "id" v = Some (JStr (rj_id r));
  recent_type : get_prop "type" v = Some (JStr (rj_type r));
  recent_status : get_prop "status" v = Some (JStr (rj_status r));
  recent_attempts : get_prop "attempt_count" v = Some (json_number (rj_attempt_count r));
  recent_max : get_prop "max_attempts" v = Some (json_number (rj_max_attempts r));
  recent_created : get_prop "created_at" v = Some (JStr (rj_created_at r));
  recent_updated : get_prop "updated_at" v = Some (JStr (rj_updated_at r)) }.

Definition recent_of (j : Job) : Page.RecentJob :=
  mkRecent (j_id j) (j_type j) (status_text (j_status j)) (j_attempt_count j) (j_max_attempts j)
    (timestamp_text (j_created_at j)) (timestamp_text (j_updated_at j)).

(** The list that the dashboard reads, the member [jobs] of the answer, is that of the at most 20 rows that were
    updated last, in this order; or the request fails with 500. *)
Theorem recent_jobs_read_back r nowMs buckets w cs :
  dashboard_gets ["api"; "jobs"] r ->
  exists resp w' cs', api_answer r nowMs buckets cs w = (Ok resp, w', cs')
    /\ untouched w w'
    /\ outcome resp
         (fun v => exists order vs, v = JObj [("jobs", JArr vs)]
            /\ Forall2 (fun v j => is_recent v (recent_of j)) vs (recent_rows order (w_db w)))
         (fun code => code = 500).
Proof.
  intros (Hm & Hp & Hb). unfold api_answer, handle_request. rewrite Hm, Hp, Hb.
  cbn [String.eqb Ascii.eqb Bool.eqb place_of is_get orb fst].
  set (listed := fun v => exists order vs, v = JObj [("jobs", JArr vs)]
    /\ Forall2 (fun v j => is_recent v (recent_of j)) vs (recent_rows order (w_db w))).
  assert (wp any_choice (with_error_handler env get_jobs) (fun x w' => exists resp, x = Ok resp
    /\ untouched w w' /\ outcome resp listed (fun code => code = 500)) w) as Hwp.
  { apply (wp_get_route _ (fun resp w' => untouched w w' /\ outcome resp listed (fun code => code = 500))).
    unfold get_jobs. apply (wp_read any_choice SListRecentJobs); [done| |].
    - intros c rows w' Hexec Hd Ht Hr. cbn [wp holds]. split; [by split|].
      apply outcome_value; [done|done|]. cbn [exec] in Hexec. injection Hexec as <-.
      exists (ch_order c). eexists. split; [reflexivity|].
      unfold select_recent_jobs. rewrite <- list_fmap_compose.
      apply Forall2_fmap_l, Forall_Forall2_diag, Forall_forall. intros j _. done.
    - intros e w' Hd Ht Hr. split; [by split|]. by apply outcome_refused. }
  pose proof (wp_run any_choice _ _ w cs ltac:(done) Hwp) as Hres.
  destruct (run _ cs w) as [[x w'] cs']. destruct Hres as (resp & -> & Hw & Ho).
  by exists resp, w', cs'.
Qed.
End reading.

(** ** The properties, on a dead-lettered job *)

Definition asking : incoming := mkIncoming "GET" ["api"; "jobs"; uuid_a] (fun _ => None) (Some "10.0.0.9") NoBody.

Lemma job_details_read_back_witness :
  exists resp w' cs', api_answer sample_env open_limiter nothing_there nothing_there
      asking 0%Q ∅ (fun _ => calm 3000000 uuid_b) (one_job_world dead_a) = (Ok resp, w', cs')
    /\ status resp = 200 /\ untouched (one_job_world dead_a) w'
    /\ details_read uuid_a (w_db (one_job_world dead_a)) resp.
Proof.
  destruct (job_details_read_back sample_env open_limiter nothing_there nothing_there
    asking uuid_a 0%Q ∅ (one_job_world dead_a) (fun _ => calm 3000000 uuid_b))
    as (resp & w' & cs' & Hrun & Hw & Hd).
  - split; [reflexivity|]. split; reflexivity.
  - intros u j Hj. change (({[ uuid_a := dead_a ]} : gmap string Job) !! u = Some j) in Hj.
    apply lookup_singleton_Some in Hj as [_ <-]. reflexivity.
  - exists resp, w', cs'. split; [exact Hrun|]. split; [|split; [exact Hw|exact Hd]].
    assert (Ok resp = (Ok (mkResponse 200 [] (BJob dead_a)) : res js_err response)) as Heq
      by (change (Ok resp) with (Ok resp : res js_err response, w', cs').1.1;
          rewrite <- Hrun; vm_compute; reflexivity).
    by injection Heq as ->.
Defined.

Definition listing : incoming := mkIncoming "GET" ["api"; "jobs"] (fun _ => None) (Some "10.0.0.9") NoBody.

Lemma recent_jobs_read_back_witness :
  exists resp w' cs', api_answer sample_env open_limiter nothing_there nothing_there
      listing 0%Q ∅ (fun _ => calm 3000000 uuid_b) (one_job_world dead_a) = (Ok resp, w', cs')
    /\ untouched (one_job_world dead_a) w'.
Proof.
  destruct (recent_jobs_read_back sample_env open_limiter nothing_there nothing_there
    listing 0%Q ∅ (one_job_world dead_a) (fun _ => calm 3000000 uuid_b))
    as (resp & w' & cs' & Hrun & Hw & _).
  - split; [reflexivity|]. split; reflexivity.
  - exists resp, w', cs'. split; [exact Hrun|exact Hw].
Defined.
