(* ===== verification/Startup.v ===== *)
(** * Start-up and shutdown

    apps/api/src/index.ts with the timer of [startOutboxDispatcher]
    (outbox/dispatcher.ts), and apps/worker/src/index.ts with its health server
    (health.ts): each process as a state, with a function for each stretch of
    code that a signal, a timer or a settled promise runs.  The configuration
    that they start with is that of Config.v. *)
From S2P Require Import Prelude Json Postgres RateLimiter Http Scripts Config App.
#[local] Open Scope stdpp_scope.

(** ** The API *)

Module ApiProcess.
(** The promise of [startChangePoller], and its interval. *)
Inductive poller_promise := Starting | Polling | Stopped | Failed.

(** [pool.end()] was called, and has settled. *)
Inductive pool_state := PoolOpen | PoolEnding | PoolEnded (ok : bool).

Record api := mkApi {
  shuttingDown : bool;
  pollerHandle : bool;              (* it is not null *)
  poller : poller_promise;
  dispatcher : bool;                (* the interval of the outbox dispatcher *)
  sockets : bool;                   (* the WebSocket server takes clients *)
  listening : bool;                 (* the HTTP server does *)
  db_pool : pool_state;
  pool_ends : nat;                  (* calls of pool.end() *)
  batches : nat;                    (* calls of dispatchOutboxBatch *)
  exited : option Z }.

(** The end of the module: everything is started, the poller's promise is due. *)
Definition api_booted : api := mkApi false false Starting true true true PoolOpen 0 0 None.

(** [shutdown(signal)], up to [await pool.end()]: [pollerHandle?.stop()] clears
    the poller's interval if its handle is there. *)
Definition api_shutdown (s : api) : api :=
  if shuttingDown s then s
  else mkApi true (pollerHandle s)
         (if pollerHandle s then Stopped else poller s) false false false
         PoolEnding (S (pool_ends s)) (batches s) (exited s).

(** [.then((handle) => ..)] and [.catch(..)] of [startChangePoller]. *)
Definition poller_resolved (s : api) : api :=
  mkApi (shuttingDown s) true Polling (dispatcher s) (sockets s) (listening s)
    (db_pool s) (pool_ends s) (batches s) (exited s).

Definition poller_failed (s : api) : api :=
  mkApi (shuttingDown s) (pollerHandle s) Failed (dispatcher s) (sockets s) (listening s)
    (db_pool s) (pool_ends s) (batches s) (exited s).

(** The interval of [startOutboxDispatcher]: a batch starts, whatever became of
    the one before. *)
Definition dispatcher_tick (s : api) : api :=
  mkApi (shuttingDown s) (pollerHandle s) (poller s) (dispatcher s) (sockets s) (listening s)
    (db_pool s) (pool_ends s) (S (batches s)) (exited s).

(** The rest of [shutdown]: the error is caught, [process.exit(0)]. *)
Definition pool_settled (ok : bool) (s : api) : api :=
  mkApi (shuttingDown s) (pollerHandle s) (poller s) (dispatcher s) (sockets s) (listening s)
    (PoolEnded ok) (pool_ends s) (batches s) (Some 0).

Inductive api_event :=
| Signal (name : string)
| PollerStarts
| PollerFails
| DispatcherTick
| PoolSettles (ok : bool).

Definition is_starting (f : poller_promise) : bool := match f with Starting => true | _ => false end.
Definition is_ending (p : pool_state) : bool := match p with PoolEnding => true | _ => false end.

(** [None]: this cannot happen now. *)
Definition api_step (e : api_event) (s : api) : option api :=
  match exited s with
  | Some _ => None
  | None =>
      match e with
      | Signal _ => Some (api_shutdown s)
      | PollerStarts => if is_starting (poller s) then Some (poller_resolved s) else None
      | PollerFails => if is_starting (poller s) then Some (poller_failed s) else None
      | DispatcherTick => if dispatcher s then Some (dispatcher_tick s) else None
      | PoolSettles ok => if is_ending (db_pool s) then Some (pool_settled ok s) else None
      end
  end.

Fixpoint api_run (es : list api_event) (s : api) : option api :=
  match es with
  | [] => Some s
  | e :: es => s' ← api_step e s; api_run es s'
  end.

Definition is_signal (e : api_event) : bool := match e with Signal _ => true | _ => false end.

(** The events before the first signal. *)
Fixpoint until_signal (es : list api_event) : list api_event :=
  match es with
  | [] => []
  | e :: es => if is_signal e then [] else e :: until_signal es
  end.

Definition ticks (es : list api_event) : nat :=
  List.length (List.filter (fun e => match e with DispatcherTick => true | _ => false end) es).

(** The process serves, or shuts down, or has exited. *)
Record running (s : api) : Prop := {
  run_flag : shuttingDown s = false;
  run_dispatcher : dispatcher s = true;
  run_servers : sockets s = true /\ listening s = true;
  run_pool : db_pool s = PoolOpen /\ pool_ends s = 0%nat;
  run_exit : exited s = None }.

Record stopping (n : nat) (s : api) : Prop := {
  stop_flag : shuttingDown s = true;
  stop_dispatcher : dispatcher s = false /\ batches s = n;
  stop_servers : sockets s = false /\ listening s = false;
  stop_pool : pool_ends s = 1%nat;
  stop_exit : match exited s with
              | None => db_pool s = PoolEnding
              | Some code => code = 0 /\ exists ok, db_pool s = PoolEnded ok
              end }.

Lemma stopping_run n es s s' : stopping n s -> api_run es s = Some s' -> stopping n s'.
Proof.
  revert s. induction es as [|e es IH]; intros s Hs Hrun; simpl in Hrun; [by simplify_eq|].
  apply bind_Some in Hrun as (s1 & Hstep & Hrun). apply (IH s1); [|done].
  destruct Hs as [Hf [Hd Hb] Hsv Hp He]. unfold api_step in Hstep.
  destruct (exited s) eqn:Hex; [done|]. destruct e; simpl in Hstep.
  - unfold api_shutdown in Hstep. rewrite Hf in Hstep. injection Hstep as <-. split; try done. by rewrite Hex.
  - destruct (is_starting _); [|done]. injection Hstep as <-. split; try done. simpl. by rewrite Hex.
  - destruct (is_starting _); [|done]. injection Hstep as <-. split; try done. simpl. by rewrite Hex.
  - by rewrite Hd in Hstep.
  - destruct (is_ending _); [|done]. injection Hstep as <-. split; try done. simpl. by eauto.
Qed.

Lemma running_run es s s' :
  running s -> api_run es s = Some s' ->
  (existsb is_signal es = false /\ running s' /\ batches s' = (batches s + ticks es)%nat)
  \/ (existsb is_signal es = true /\ stopping (batches s + ticks (until_signal es)) s').
Proof.
  revert s. induction es as [|e es IH]; intros s Hs Hrun; simpl in Hrun.
  { left. simplify_eq. split; [done|]. split; [done|]. unfold ticks. simpl. lia. }
  apply bind_Some in Hrun as (s1 & Hstep & Hrun). destruct Hs as [Hf Hd [Hw Hl] [Hp Hn] He].
  unfold api_step in Hstep. rewrite He in Hstep. destruct e as [name| | | |ok]; simpl in Hstep.
  - right. split; [done|]. injection Hstep as <-. eapply stopping_run; [|exact Hrun].
    unfold api_shutdown. rewrite Hf. split; simpl; try done.
    + by rewrite Hn.
    + by rewrite He.
  - destruct (is_starting _); [|done]. injection Hstep as <-. by apply (IH (poller_resolved s)).
  - destruct (is_starting _); [|done]. injection Hstep as <-. by apply (IH (poller_failed s)).
  - rewrite Hd in Hstep. injection Hstep as <-.
    destruct (IH (dispatcher_tick s)) as [(Hs & Hr & Hb)|(Hs & Hr)]; [by split|done|left|right].
    + split; [done|]. split; [done|]. rewrite Hb. unfold ticks. simpl. lia.
    + split; [done|].
      unfold ticks in *. simpl in *. by rewrite Nat.add_succ_r.
  - by rewrite Hp in Hstep.
Qed.

(** The API shuts down once and in order, whatever signals come, however
    often, and whenever its poller starts or its pool ends.  Until the first
    signal it listens and a batch starts with each tick of the dispatcher;
    from then on it takes no connection and no batch starts, the pool is ended
    exactly once, and the process exits, with 0, when and only when that has
    settled, with an error or without. *)
Theorem api_shuts_down_once es s :
  api_run es api_booted = Some s ->
  (existsb is_signal es = false /\ running s /\ batches s = ticks es)
  \/ (existsb is_signal es = true /\ stopping (ticks (until_signal es)) s
      /\ (exited s = None -> forall ok, exists s', api_step (PoolSettles ok) s = Some s'
                                        /\ exited s' = Some 0)).
Proof.
  intros Hrun. destruct (running_run es api_booted s) as [(Hs & Hr & Hb)|(Hs & Hr)]; [by split|done|left|right].
  - split; [done|]. split; [done|]. exact Hb.
  - split; [done|]. split; [exact Hr|]. intros He ok. unfold api_step. rewrite He.
    pose proof (stop_exit _ _ Hr) as Hp. rewrite He in Hp. rewrite Hp. simpl. by eexists.
Qed.
End ApiProcess.

(** ** The worker *)

Module WorkerProcess.
(** The promise of [startConsumer]. *)
Inductive consumer := Subscribing | Subscribed | NotSubscribed.

Record worker := mkWorker {
  shuttingDown : bool;
  health : bool;                    (* the health server listens *)
  consuming : consumer;
  closing : bool;                   (* await closeConnection() is due *)
  closes : nat;                     (* calls of closeConnection() *)
  exited : option Z }.

Definition worker_booted : worker := mkWorker false true Subscribing false 0 None.

Definition worker_shutdown (s : worker) : worker :=
  if shuttingDown s then s
  else mkWorker true false (consuming s) true (S (closes s)) (exited s).

(** The answer of the health server to any request. *)
Definition health_answer : Z * list (string * string) * string :=
  (200, [("Content-Type", "text/plain")], "ok").

Inductive worker_event :=
| Signal (name : string)
| ConsumerStarts
| ConsumerFails                    (* startConsumer() rejects: process.exit(1) *)
| ConnectionCloses (ok : bool).    (* closeConnection() settles: process.exit(0) *)

Definition is_subscribing (c : consumer) : bool :=
  match c with Subscribing => true | _ => false end.

Definition worker_step (e : worker_event) (s : worker) : option worker :=
  match exited s with
  | Some _ => None
  | None =>
      match e with
      | Signal _ => Some (worker_shutdown s)
      | ConsumerStarts =>
          if is_subscribing (consuming s)
          then Some (mkWorker (shuttingDown s) (health s) Subscribed (closing s) (closes s) None)
          else None
      | ConsumerFails =>
          if is_subscribing (consuming s)
          then Some (mkWorker (shuttingDown s) (health s) NotSubscribed (closing s) (closes s) (Some 1))
          else None
      | ConnectionCloses _ =>
          if closing s
          then Some (mkWorker (shuttingDown s) (health s) (consuming s) false (closes s) (Some 0))
          else None
      end
  end.

Fixpoint worker_run (es : list worker_event) (s : worker) : option worker :=
  match es with
  | [] => Some s
  | e :: es => s' ← worker_step e s; worker_run es s'
  end.

Definition was_signalled (es : list worker_event) : bool :=
  existsb (fun e => match e with Signal _ => true | _ => false end) es.

(** What holds at any time of a worker that was signalled or not. *)
Record worker_ok (signalled : bool) (s : worker) : Prop := {
  ok_flag : shuttingDown s = signalled;
  ok_health : health s = negb signalled;
  ok_closes : closes s = if signalled then 1%nat else 0%nat;
  ok_exit : match exited s with
            | None => closing s = signalled /\ consuming s <> NotSubscribed
            | Some code => (code = 0 /\ signalled = true /\ consuming s <> NotSubscribed)
                           \/ (code = 1 /\ consuming s = NotSubscribed)
            end }.

Lemma worker_ok_run es b s s' :
  worker_ok b s -> worker_run es s = Some s' -> worker_ok (b || was_signalled es) s'.
Proof.
  revert b s. induction es as [|e es IH]; intros b s Hs Hrun; simpl in Hrun.
  { simplify_eq. by rewrite orb_false_r. }
  apply bind_Some in Hrun as (s1 & Hstep & Hrun). destruct Hs as [Hf Hh Hc He].
  unfold worker_step in Hstep. destruct (exited s) eqn:Hex; [done|]. destruct He as [Hcl Hn].
  destruct e as [name| | |ok]; simpl.
  - rewrite orb_true_r. apply (IH true s1); [|done]. injection Hstep as <-. unfold worker_shutdown.
    rewrite Hf. destruct b; split; simpl; try done; rewrite ?Hex, ?Hc; try done; by split.
  - destruct (is_subscribing _); [|done]. injection Hstep as <-.
    by apply (IH b (mkWorker (shuttingDown s) (health s) Subscribed (closing s) (closes s) None)); [split|].
  - destruct (is_subscribing _); [|done]. injection Hstep as <-.
    apply (IH b (mkWorker (shuttingDown s) (health s) NotSubscribed (closing s) (closes s) (Some 1)));
      [|done]. split; try done. simpl. by right.
  - destruct (closing s) eqn:Hclosing; [|done]. injection Hstep as <-.
    apply (IH b (mkWorker (shuttingDown s) (health s) (consuming s) false (closes s) (Some 0)));
      [|done]. split; try done. simpl. by left.
Qed.

(** The worker closes its connection once, whatever signals come, and its
    exit code says why it ended: 0 only after a signal, when the close has
    settled; 1 exactly when it could not subscribe; its health server answers
    until the first signal. *)
Theorem worker_shuts_down_once es s :
  worker_run es worker_booted = Some s -> worker_ok (was_signalled es) s.
Proof. apply (worker_ok_run es false worker_booted s). by split. Qed.
End WorkerProcess.

(** ** The properties, on concrete runs *)

Definition api_day : list ApiProcess.api_event :=
  [ApiProcess.DispatcherTick; ApiProcess.DispatcherTick; ApiProcess.Signal "SIGTERM";
   ApiProcess.PollerStarts; ApiProcess.Signal "SIGINT"; ApiProcess.PoolSettles false].

Lemma api_shuts_down_once_witness :
  exists s, ApiProcess.api_run api_day ApiProcess.api_booted = Some s /\ ApiProcess.stopping 2 s
    /\ ApiProcess.exited s = Some 0.
Proof.
  eexists. split; [vm_compute; reflexivity|].
  destruct (ApiProcess.api_shuts_down_once api_day _ eq_refl) as [(Hs & _)|(_ & Hs & _)];
    [discriminate Hs|].
  split; [exact Hs|reflexivity].
Defined.

Lemma worker_shuts_down_once_witness :
  exists s, WorkerProcess.worker_run
      [WorkerProcess.Signal "SIGTERM"; WorkerProcess.ConsumerStarts; WorkerProcess.Signal "SIGTERM";
       WorkerProcess.ConnectionCloses false] WorkerProcess.worker_booted = Some s
    /\ WorkerProcess.worker_ok true s /\ WorkerProcess.exited s = Some 0.
Proof.
  eexists. split; [vm_compute; reflexivity|]. split; [|reflexivity].
  apply (WorkerProcess.worker_shuts_down_once
    [WorkerProcess.Signal "SIGTERM"; WorkerProcess.ConsumerStarts; WorkerProcess.Signal "SIGTERM";
     WorkerProcess.ConnectionCloses false]).
  reflexivity.
Defined.
